(* ===== verification/_CoqProject ===== *)
-Q . S2P
Prelude.v
Redis.v
Schema.v
GoStrings.v
Utf8.v
Calendar.v
Times.v
Json.v
Meta.v
Paths.v
Base64.v
Mime.v
MimeSpec.v
Html.v
Services.v
Effects.v
Files.v
Disk.v
Queue.v
Store.v
Worker.v
Sweeper.v
Concurrency.v
System.v
OAuth.v
Gmail.v
Scheduler.v
Archive.v
Drive.v
Fetch.v
Render.v
Upload.v
Forest.v
Slug.v
Names.v
Pipeline.v
Ratelimit.v
Api.v
Noop.v
Command.v
Server.v
Background.v
Clients.v
Placement.v
Serve.v
Answered.v
Deploy.v
Interleave.v
Stages.v
Uploading.v
Live.v
Race.v
Works.v
Delivery.v
Setup.v
Processes.v
Redelivery.v
Recovery.v
