(* ===== verification/Prelude.v ===== *)
(** * DistTaskQueue: verification development

    DistTaskQueue archives Gmail messages as PDFs on Google Drive.  A
    scheduler and two backfills turn new message ids into rows of the table
    pipeline_jobs and push the rows' ids on Redis lists; workers, one pool for
    each of the stages fetch, render and upload (and a test stage for a demo),
    pop an id, claim its row with a conditional UPDATE, run their stage's
    handler and move the row on; a sweeper requeues what crashed workers, lost
    pushes and waiting retries leave behind; an API server shows the state.
    The development models the Go code under src/internal and src/cmd.

    ** How programs are modelled

    A Go function that only computes is a Rocq function.  A Go function that
    calls a service is a tree of calls ([prog] in Effects.v): one call is one
    Redis command, one SQL statement, one operation on a file or on Drive, or
    one question to the surroundings (clock, uuid, random number, cancelled
    context, remote API, stage handler).  [run] executes a program alone
    against an oracle that decides, for every single call, how long it takes,
    what the surroundings answer, and whether it fails before or after the
    server executed it; every theorem quantifies over all oracles.
    Concurrency.v interleaves the calls of any number of programs.  Go errors
    are values of [err] below, with errors.Is and the %w chain; a Go pair
    (value, error) is [result].

    ** The parts

    - Data and Go's library: Prelude (errors, results, list lemmas, tactics),
      GoStrings, Utf8 (runes), Calendar and Times (time.Time, RFC 3339), Json,
      Base64, Files (path.Join, os).
    - The services, as parameters with their documented laws and a concrete
      instance for the witnesses: Redis ([RedisServer]), Schema (the tables of
      internal/store/migrations, with [UuidLib] and the scan order [PgServer]),
      Services (Google's requests, Drive's files [DriveServer], AES-GCM
      [AeadLib]), Mime ([MailLib]: net/mail and mime/multipart), Meta
      ([TimeParser]: what json.Unmarshal accepts as a time beyond RFC 3339),
      Slug ([Unicode]: the tables of package unicode).
    - internal/queue: Queue.  internal/store: Store (statement by statement).
      internal/worker: Worker (ProcessOne, Run, heartbeatLoop, Compute,
      NewWorkerID) and Noop (NoopHandler).  internal/sweeper: Sweeper.
      internal/oauth: OAuth.  internal/gmail: Gmail.  internal/scheduler and
      internal/backfill: Scheduler.  internal/drive: Drive.
      internal/handler: Paths, Slug, Mime, Html, Meta, and one file for each
      handler: Fetch, Render (with internal/pdf), Upload.  internal/api:
      Ratelimit, Api, Server.  cmd: Command (worker, scheduler, backfill,
      sweeper), Server (api), Setup (oauth-setup, whose last part, storing
      the account, is in OAuth), Processes (opening the services with the
      migrations of internal/store/migrate.go, and the processes' ends).
    - Reasoning: Disk (a unary logic for programs that write files),
      Concurrency (rely and guarantee), Background (what programs beside the
      workers may do), Names (folder names), Pipeline (files between stages),
      Works (triples for total correctness when no call fails).
    - Composition: System (workers, heartbeats, sweeper and clients
      interleaved call by call, handlers being the environment's answer),
      Clients (scheduler, backfills, API, metrics and account setup as such
      clients), Archive (the archive import beside others that empty the
      queue), Serve (a worker with its real handler in place of that answer)
      and Answered (how its turn refines ProcessOne's), Placement (where a
      message is at each stage, and what [delivered] means: the invariant) on
      Forest (the folders of a Drive have unique paths), Live (the same
      processes with the real handlers, all interleaved call by call) on
      Interleave (rely and guarantee of a worker in its handler), Stages and
      Uploading (the handlers under it), Race (a run of Live), Deploy
      (whole turns of workers among turns of everything else, without timing
      assumptions), Delivery (what three such turns achieve when nothing fails),
      Redelivery (Deploy with copies of ids on the queues of stages their jobs
      have left), Recovery (a sweep and turns after a worker's death).

    ** What the theorems show

    - The pipeline (Live, Deploy, Delivery, Redelivery, Recovery, Answered,
      Background, Pipeline): a job that is done at the upload stage is
      [delivered]: Gmail gave its message, the renderer made a PDF of that
      message's page, and the message's folder on the user's Drive holds, for
      the PDF and for every attachment, a file of the name with this message's
      content.  The exception is a name that was taken, since the upload keeps
      a file that is there: by a file from before the run, or by one of another
      message of the user with the same folder (same minute, subject and
      sender).  A Drive receives nothing but its user's own mail.  Both hold
      for calls that interleave (Live, for [ordinary] steps, see below) and for
      turns (Deploy, without timing assumptions but with [on_stage]); under the
      former, a job's files are written by the holder of its row only.
      Whatever failed before, a waiting message, oldest on its queue and with
      the later queues empty, is delivered by three turns in which nothing
      fails, and one whose worker died at any stage, the other jobs being
      finished and the job having attempts left, by a sweep and further turns;
      copies of ids on earlier stages' queues do no harm as long as the
      repeated turns do not fail (redelivered_delivers).  A turn of a real
      worker is ProcessOne's up to the question to the handler, and behind it
      what ProcessOne does when told the handler's answer (turn_refines);
      nothing beside the workers moves, completes or removes a job.
    - Claims and recovery (System, Store, Worker, Sweeper): in every
      interleaving in which workers make calls only while their heartbeats are
      alive, with a margin in which a sweep decides about a worker ([timely]),
      two workers about to run a handler hold different jobs, rows are well
      formed and running ones belong to started workers, no job disappears,
      rows change only by a claim or by the settling of a running job, and
      done or dead rows are final (jobs_progress).  Without timing: ProcessOne
      returns and does one of the documented things whatever fails; a worker's
      loop goes on exactly until an error behind a claim; a failing job is dead
      after its attempts; a sweep recovers what dead workers held.
    - The queue refines abstract FIFO queues with items in flight (Queue).
    - Finding mail (Scheduler, Archive, Gmail): polls and imports whose calls
      succeed make a job for every message reported that has none, and a poll
      moves its cursor last; an import of any size ends while others shorten
      the queue whenever it waits; imports are resumable and respect the
      backpressure bound; listings read every page.
    - Handlers (Fetch, Render, Upload, Mime, MimeSpec, Html, Meta): what each
      writes on disk and Drive when it succeeds and what it leaves alone
      whatever fails; repeated uploads change nothing; parsing returns what
      rules stated apart from the code (MimeSpec: which parts are attachments,
      how encodings decode, which bodies count) say the message contains; what
      the upload stage finds is what was fetched and rendered; escaping and
      metadata round trips.
    - Account setup (Setup): in every interleaving of its goroutines only a
      code with the issued state is exchanged; when the command can end.
    - Tokens (OAuth), the limiter and endpoints (Ratelimit, Api, Server), the
      commands' configuration (Command), the demo jobs (Noop); the exit codes of
      the processes, in every interleaving of the scheduler command's two loops
      (Processes).
    - Theorems that state a flaw carry it in their comment: lost_claim_strands,
      slow_sweep_breaks_mutex, late_sweep_revives (the proviso dropped),
      stale_id_repeats_stage, sweep_pushes_again, redelivery_corrupts (where
      the repeated turn fails), poll_loses_message, long_name_strands,
      attachments_collide, shutdown_ends_iff, uploads_race.

    ** Fuel

    Loops without a bound of their own carry fuel and end in [NoFuel] without
    it: the loops over SCAN pages and list elements (Queue), over result pages
    (Gmail, Scheduler) and the processes' main loops.  Fuel is never a reason
    for a theorem to hold: the theorems about listings and sweeps state that
    some fuel is enough and that any more gives the same result
    (Scan_complete is the server's promise that a SCAN ends), ProcessOne and
    the handlers have no fuel and are [total], and the main loops are unfolded
    turn by turn.  The MIME walk and the JSON parser use the length of their
    input, which always suffices (parseMessage_total; Json's lemmas); the JSON
    depth limit is Go's own 10000.

    ** Abstractions

    - Times are integers of nanoseconds, also in the tables, where PostgreSQL
      keeps microseconds; the zone of created_at is taken as UTC.
    - The limiter's float64 tokens and Compute's jitter are exact numbers;
      NoopHandler's failRate is the float64 the parser rounds to.
    - The length of sleeps and timers is left to the environment: the call
      that waits is the moment the wait ends.
    - One clock ([s_now] of Effects) serves time.Now of all processes,
      PostgreSQL's now() and Redis's expiry, which have clocks of their own:
      the model has no skew between machines.
    - [run] takes a program alone; [run_with] lets others act on the shared
      state whenever the program waits, and only then (Archive).
    - A payload stays the text it was inserted with, where JSONB normalises.
    - json.Unmarshal of an array with null elements keeps them as empty
      strings; building the renderer's request cannot fail.
    - pdf.Client and the Google clients are connections to the environment;
      the answers of Gmail and the renderer are the oracle's, Drive is state.
    - In System a handler is one question; Serve, Deploy and Live run handlers
      call by call, Deploy one turn of a worker at a time.  A write of a file
      is two calls (truncate, then all of the data).
    - Live considers runs ([ordinary]) in which heartbeats and sweeps are in
      time (slow_sweep_breaks_mutex), a worker claims jobs of its stage only,
      and Gmail and the renderer answer as a given [evidence] says, which may
      be any.  The second is an assumption about the program's own runs:
      ClaimJob does not look at the stage, and the sweeper's pass over stale
      jobs can leave an id on the queue of a stage its job has left
      (sweep_pushes_again, stale_id_repeats_stage).
    - Deploy makes the same assumption for turns ([on_stage]): a worker finds
      on its queue queued jobs of its stage only.  Redelivery lifts it to any
      job that has ever been at the stage, and redelivery_corrupts shows what
      its own proviso ([careful]) excludes.
      Deploy, Redelivery and Live assume that sender addresses hold no slash and that the
      root folder is configured with plain names, and take identifiers whose
      text has no slash, dot or colon.

    ** Not modelled

    golang-migrate itself (its answers are the environment's; Schema is what the
    SQL files make), internal/testutil and the load test, flag parsing, signal
    delivery, logging, the connections and the HTTP servers behind their
    calls; oauth-setup's code exchange is the environment's answer; chi's
    matching beyond exact paths, the Prometheus registry, the dashboard's static
    page. *)
From Stdlib Require Export Ascii.
From stdpp Require Export base tactics option list numbers gmap strings.
From stdpp Require Export fin_maps pretty.
From Stdlib Require Export Lia ZArith.

(** ** Go results and errors *)

(** The package-level error values ([errors.New]) the program tests with
    [errors.Is]. *)
Inductive sentinel :=
| ErrEmpty
| ErrJobNotFound
| ErrDuplicateJob
| ErrJobNotClaimable
| ErrUserNotFound
| ErrOAuthTokenNotFound
| ErrInvalidKey
| errPostClaim
| redisNil
| pgxErrNoRows
| contextCanceled.

#[global] Instance sentinel_eq_dec : EqDecision sentinel.
Proof. solve_decision. Defined.

(** A Go error value: a sentinel, a PostgreSQL error response (SQLSTATE and
    constraint name), any other error text, or the chain [fmt.Errorf] builds
    with one or two [%w] verbs ("pre: %w" and "pre: %w: %w"). *)
Inductive err :=
| ESentinel (s : sentinel)
| EPg (code constraint : string)
| EText (msg : string)
| EWrap (pre : string) (e : err)
| EWrap2 (pre : string) (e1 e2 : err).

(** [errors.Is]: search the wrap tree. *)
Fixpoint errors_Is (e : err) (s : sentinel) : bool :=
  match e with
  | ESentinel s' => bool_decide (s' = s)
  | EPg _ _ | EText _ => false
  | EWrap _ e => errors_Is e s
  | EWrap2 _ e1 e2 => errors_Is e1 s || errors_Is e2 s
  end.

(** A Go [(value, error)] pair whose value is only read when the error is nil. *)
Inductive result (A : Type) :=
| Ok (a : A)
| Err (e : err).
Arguments Ok {A} a.
Arguments Err {A} e.

#[global] Instance err_eq_dec : EqDecision err.
Proof. solve_decision. Defined.
#[global] Instance result_eq_dec {A} `{EqDecision A} : EqDecision (result A).
Proof. solve_decision. Defined.

Definition is_ok {A} (r : result A) : bool :=
  match r with Ok _ => true | Err _ => false end.

(** [err.Error()]: the text of an error. *)
Definition sentinel_text (s : sentinel) : string :=
  match s with
  | ErrEmpty => "queue empty"
  | ErrJobNotFound => "job not found"
  | ErrDuplicateJob => "job already exists for message"
  | ErrJobNotClaimable => "job not claimable"
  | ErrUserNotFound => "user not found"
  | ErrOAuthTokenNotFound => "oauth token not found"
  | ErrInvalidKey => "oauth: key must be 32 bytes"
  | errPostClaim => "post-claim settle failed"
  | redisNil => "redis: nil"
  | pgxErrNoRows => "no rows in result set"
  | contextCanceled => "context canceled"
  end.

Fixpoint Error (e : err) : string :=
  match e with
  | ESentinel s => sentinel_text s
  | EPg code constraint => "ERROR: " +:+ constraint +:+ " (SQLSTATE " +:+ code +:+ ")"
  | EText msg => msg
  | EWrap pre e => pre +:+ ": " +:+ Error e
  | EWrap2 pre e1 e2 => pre +:+ ": " +:+ Error e1 +:+ ": " +:+ Error e2
  end.

(** ** Lists used as deques *)

Section deque.
Context {A : Type}.

(** Take the last element off a list: the RIGHT end of a Redis list. *)
Fixpoint unsnoc (l : list A) : option (list A * A) :=
  match l with
  | [] => None
  | x :: l' =>
      match unsnoc l' with
      | None => Some ([], x)
      | Some (l'', y) => Some (x :: l'', y)
      end
  end.

Lemma unsnoc_app (l : list A) x : unsnoc (l ++ [x]) = Some (l, x).
Proof. induction l as [|y l IH]; simpl; [done|]. by rewrite IH. Qed.

Lemma unsnoc_Some (l : list A) l' x : unsnoc l = Some (l', x) ↔ l = l' ++ [x].
Proof.
  split; [|intros ->; apply unsnoc_app].
  destruct l as [|y l _] using rev_ind; simpl; [done|].
  rewrite unsnoc_app. by intros [= -> ->].
Qed.

Lemma unsnoc_None (l : list A) : unsnoc l = None ↔ l = [].
Proof.
  split; [|by intros ->].
  destruct l as [|y l _] using rev_ind; [done|]. by rewrite unsnoc_app.
Qed.

(** Remove the first occurrence of an element, counted from the head. *)
Fixpoint remove_first `{EqDecision A} (x : A) (l : list A) : list A :=
  match l with
  | [] => []
  | y :: l' => if decide (y = x) then l' else y :: remove_first x l'
  end.

Lemma remove_first_notin `{EqDecision A} (x : A) l : x ∉ l → remove_first x l = l.
Proof.
  induction l as [|y l IH]; simpl; [done|]. intros Hx.
  apply not_elem_of_cons in Hx as [Hy Hx]. rewrite decide_False by done. f_equal. auto.
Qed.

Lemma remove_first_perm `{EqDecision A} (x : A) l :
  x ∈ l → x :: remove_first x l ≡ₚ l.
Proof.
  induction l as [|y l IH]; simpl; intros Hx; [by apply elem_of_nil in Hx|].
  case_decide as Hy; [by subst|].
  apply elem_of_cons in Hx as [->|Hx]; [done|]. rewrite Permutation_swap. f_equiv. auto.
Qed.

Lemma remove_first_subset `{EqDecision A} (x : A) l y :
  y ∈ remove_first x l → y ∈ l.
Proof.
  induction l as [|z l IH]; simpl; [done|].
  case_decide; rewrite !elem_of_cons; [tauto|]. intros [->|Hy]; auto.
Qed.

Lemma length_remove_first `{EqDecision A} (x : A) l : (length (remove_first x l) ≤ length l)%nat.
Proof. induction l as [|y l IH]; simpl; [done|]. case_decide; simpl; lia. Qed.
End deque.

(** ** Strings *)

Lemma sapp_cons c (s t : string) : String c s +:+ t = String c (s +:+ t).
Proof. done. Qed.

Lemma String_inj c d s t : String c s = String d t → c = d ∧ s = t.
Proof. by intros [= -> ->]. Qed.

Lemma sapp_nil_l (s : string) : EmptyString +:+ s = s.
Proof. done. Qed.

Lemma sapp_nil_r (s : string) : s +:+ EmptyString = s.
Proof. induction s; rewrite ?sapp_cons, ?sapp_nil_l; congruence. Qed.

Lemma sapp_assoc (s1 s2 s3 : string) : s1 +:+ (s2 +:+ s3) = (s1 +:+ s2) +:+ s3.
Proof. induction s1; rewrite ?sapp_cons, ?sapp_nil_l; congruence. Qed.

Lemma slength_app (s1 s2 : string) :
  String.length (s1 +:+ s2) = (String.length s1 + String.length s2)%nat.
Proof. induction s1; rewrite ?sapp_cons, ?sapp_nil_l; simpl; lia. Qed.

Lemma sapp_inj_l (s s1 s2 : string) : s +:+ s1 = s +:+ s2 → s1 = s2.
Proof. induction s; rewrite ?sapp_cons, ?sapp_nil_l; [done|]. intros [= ?]. auto. Qed.

Lemma prefix_spec (pre s : string) :
  String.prefix pre s = true ↔ ∃ t, s = pre +:+ t.
Proof.
  revert s. induction pre as [|c pre IH]; intros s.
  { split; [by exists s|]. intros _. by destruct s. }
  destruct s as [|d s]; [split; [done|by intros [t ?] ]|].
  change (String.prefix (String c pre) (String d s))
    with (if ascii_dec c d then String.prefix pre s else false).
  destruct (ascii_dec c d) as [->|Hne].
  - rewrite IH. split; intros [t Ht]; exists t; [by rewrite Ht|].
    rewrite sapp_cons in Ht. by injection Ht.
  - split; [done|]. intros [t Ht]. rewrite sapp_cons in Ht. congruence.
Qed.

Lemma substring_prefix (pre s : string) :
  String.substring 0 (String.length pre) (pre +:+ s) = pre.
Proof.
  induction pre as [|c pre IH]; rewrite ?sapp_cons, ?sapp_nil_l; simpl; [by destruct s|].
  by f_equal.
Qed.

(** ** Tactics of the development *)

(** Case analysis on the results of calls in a hypothesis or in the goal. *)
Ltac break_match :=
  match goal with
  | |- context [match ?x with _ => _ end] => let E := fresh "E" in destruct x eqn:E
  | H : context [match ?x with _ => _ end] |- _ => let E := fresh "E" in destruct x eqn:E
  end.

(** Split conjunctions and existentials in the hypotheses. *)
Ltac deex :=
  repeat match goal with
  | H : exists _, _ |- _ => destruct H
  | H : _ ∧ _ |- _ => destruct H
  end.

(** The development's hint database: component files add the lemmas that
    close their routine side conditions. *)
Create HintDb dtq discriminated.
#[export] Hint Resolve unsnoc_app remove_first_subset : dtq.
