(* ===== verification/Redis.v ===== *)
(** * The Redis server

    Redis and the go-redis client are not part of the repository.  They are
    the parameter [RedisServer]: an abstract server state, the commands the
    program issues, and the documented behaviour of those commands, stated
    through three observations (the elements of a list key, the live value of
    a string key, and the keys a SCAN may return).  [RedisModel] at the end is a
    concrete server that meets the interface; the witnesses run on it. *)
From S2P Require Import Prelude.
Local Open Scope Z_scope.

(** The ends of a list, as the LMOVE and BLMOVE commands name them. *)
Inductive side := LEFT | RIGHT.

(** Take one element at an end, put one element at an end. *)
Definition take_side (d : side) (l : list string) : option (list string * string) :=
  match d with
  | LEFT => match l with [] => None | x :: l' => Some (l', x) end
  | RIGHT => unsnoc l
  end.

Definition put_side (d : side) (x : string) (l : list string) : list string :=
  match d with LEFT => x :: l | RIGHT => l ++ [x] end.

(** The key families of the program.  List commands are only issued on
    [queue:]/[processing:] keys and string commands only on the others, so no
    key ever holds two types (no WRONGTYPE reply). *)
Definition list_key (k : string) : Prop :=
  String.prefix "queue:" k = true ∨ String.prefix "processing:" k = true.
Definition string_key (k : string) : Prop :=
  String.prefix "heartbeat:" k = true ∨ String.prefix "drive_folder_cache:" k = true.

(** A SCAN iteration, run until the server returns cursor 0, with fuel; the
    [i]-th call is [scan i]. *)
Fixpoint scan_iter (scan : nat → N → string → list string * N)
    (fuel i : nat) (cursor : N) (pat : string) : option (list string) :=
  match fuel with
  | O => None
  | S fuel =>
      let '(ks, next) := scan i cursor pat in
      if decide (next = 0%N) then Some ks
      else ks' ← scan_iter scan fuel (S i) next pat; Some (ks ++ ks')
  end.

Lemma scan_iter_S scan fuel i c pat :
  scan_iter scan (S fuel) i c pat =
  let '(ks, next) := scan i c pat in
  if decide (next = 0%N) then Some ks
  else ks' ← scan_iter scan fuel (S i) next pat; Some (ks ++ ks').
Proof. done. Qed.

Lemma scan_iter_mono scan fuel fuel' i c pat ks :
  (fuel ≤ fuel')%nat → scan_iter scan fuel i c pat = Some ks →
  scan_iter scan fuel' i c pat = Some ks.
Proof.
  revert fuel' i c ks. induction fuel as [|fuel IH]; intros fuel' i c ks Hle H; [done|].
  destruct fuel' as [|fuel']; [lia|]. rewrite scan_iter_S in *.
  destruct (scan i c pat) as [ks0 next]. case_decide; [done|].
  destruct (scan_iter scan fuel _ _ _) as [ks'|] eqn:E; [|done].
  by rewrite (IH fuel' _ _ ks') by (done || lia).
Qed.

(** A prefix without glob metacharacters. *)
Definition glob_free (pre : string) : bool :=
  forallb (λ c, negb (bool_decide (c ∈ ["*"; "?"; "["; "]"; "\"]%char)))
    (String.list_ascii_of_string pre).

Class RedisServer := {
  rstate : Type;
  (** observations *)
  rlist : rstate → string → list string;
  rstr : rstate → Z → string → option string;
  (** commands; a time argument is the server's clock in nanoseconds *)
  LPush : string → string → rstate → rstate;
  LMove : string → string → side → side → rstate → option string * rstate;
  LRem : string → Z → string → rstate → rstate;
  SetKey : Z → string → string → Z → rstate → rstate;
  Scan : Z → rstate → N → string → list string * N;
  (** LPUSH puts the element at the head of the list. *)
  rlist_LPush r k v k' :
    list_key k → rlist (LPush k v r) k' = if decide (k' = k) then v :: rlist r k else rlist r k';
  (** LMOVE takes an element at one end of the source and puts it at one end
      of the destination, atomically; on an empty source it does nothing. *)
  LMove_empty r src dst a b :
    list_key src → list_key dst → take_side a (rlist r src) = None →
    LMove src dst a b r = (None, r);
  LMove_Some r src dst a b l x :
    list_key src → list_key dst → src ≠ dst →
    take_side a (rlist r src) = Some (l, x) →
    (LMove src dst a b r).1 = Some x ∧
    ∀ k, rlist (LMove src dst a b r).2 k =
      if decide (k = src) then l
      else if decide (k = dst) then put_side b x (rlist r dst)
      else rlist r k;
  (** LREM key 1 v removes the first occurrence of [v] from the head. *)
  rlist_LRem r k v k' :
    list_key k →
    rlist (LRem k 1 v r) k' = if decide (k' = k) then remove_first v (rlist r k) else rlist r k';
  (** SET with a positive expiry: the value is there until the expiry passes. *)
  rstr_SetKey r t k v ttl t' k' :
    string_key k → 0 < ttl → t ≤ t' →
    rstr (SetKey t k v ttl r) t' k' =
      if decide (k' = k) then (if decide (t' < t + ttl) then Some v else None) else rstr r t' k';
  (** list commands leave string keys alone, and conversely *)
  rstr_LPush r k v t k' : list_key k → rstr (LPush k v r) t k' = rstr r t k';
  rstr_LMove r src dst a b t k' :
    list_key src → list_key dst → rstr (LMove src dst a b r).2 t k' = rstr r t k';
  rstr_LRem r k n v t k' : list_key k → rstr (LRem k n v r) t k' = rstr r t k';
  rlist_SetKey r t k v ttl k' : string_key k → rlist (SetKey t k v ttl r) k' = rlist r k';
  (** A string key only disappears as time passes. *)
  rstr_mono r t t' k v : t ≤ t' → rstr r t' k = Some v → rstr r t k = Some v;
  (** A full SCAN iteration with pattern "pre*" over keys nobody writes
      meanwhile terminates; it returns every such key that exists throughout,
      and only such keys that exist at some call. *)
  Scan_complete r (ts : nat → Z) pre :
    glob_free pre = true → (∀ i, ts i ≤ ts (S i)) →
    ∃ fuel ks, scan_iter (λ i, Scan (ts i) r) fuel 0 0%N (pre +:+ "*") = Some ks ∧
      (∀ k, String.prefix pre k = true →
        rlist r k ≠ [] ∨ (∀ i, is_Some (rstr r (ts i) k)) → k ∈ ks) ∧
      (∀ k, k ∈ ks → String.prefix pre k = true ∧
        (rlist r k ≠ [] ∨ ∃ i, is_Some (rstr r (ts i) k)))
}.

(** ** A concrete server *)

Module RedisModel.

Record server := mk_server {
  lists : gmap string (list string);
  strings : gmap string (string * Z)
}.

Definition empty : server := mk_server ∅ ∅.

Definition get_list (r : server) (k : string) : list string := default [] (lists r !! k).

Definition get_str (r : server) (t : Z) (k : string) : option string :=
  '(v, e) ← strings r !! k; if decide (t < e) then Some v else None.

(** An empty list is an absent key. *)
Definition put_list (k : string) (l : list string) (r : server) : server :=
  mk_server (match l with [] => delete k (lists r) | _ => <[k := l]> (lists r) end) (strings r).

Definition lpush (k v : string) (r : server) : server := put_list k (v :: get_list r k) r.

Definition lmove (src dst : string) (a b : side) (r : server) : option string * server :=
  match take_side a (get_list r src) with
  | None => (None, r)
  | Some (l, x) =>
      let r := put_list src l r in
      (Some x, put_list dst (put_side b x (get_list r dst)) r)
  end.

Definition lrem (k : string) (n : Z) (v : string) (r : server) : server :=
  put_list k (remove_first v (get_list r k)) r.

Definition set_key (t : Z) (k v : string) (ttl : Z) (r : server) : server :=
  mk_server (lists r) (<[k := (v, t + ttl)]> (strings r)).

(** SCAN walks over the keys two at a time and hands out those that match and
    exist. *)
Definition all_keys (r : server) : list string :=
  (map_to_list (lists r)).*1 ++ (map_to_list (strings r)).*1.

Definition matches (t : Z) (r : server) (pat k : string) : bool :=
  String.prefix (String.substring 0 (String.length pat - 1) pat) k &&
  (bool_decide (get_list r k ≠ []) || bool_decide (is_Some (get_str r t k))).

Definition scan (t : Z) (r : server) (cursor : N) (pat : string) : list string * N :=
  let rest := drop (N.to_nat cursor) (all_keys r) in
  (filter (λ k, matches t r pat k = true) (take 2 rest),
   if decide (length rest ≤ 2)%nat then 0%N else (cursor + 2)%N).

Lemma scan_iter_spec r pat (ts : nat → Z) fuel i c :
  (length (all_keys r) - N.to_nat c ≤ fuel)%nat →
  ∃ ks, scan_iter (λ i, scan (ts i) r) (S fuel) i c pat = Some ks ∧
    (∀ k, k ∈ drop (N.to_nat c) (all_keys r) →
       (∀ j, matches (ts j) r pat k = true) → k ∈ ks) ∧
    (∀ k, k ∈ ks → ∃ j, matches (ts j) r pat k = true).
Proof.
  revert i c. induction fuel as [|fuel IH]; intros i c Hc; rewrite scan_iter_S;
    unfold scan at 1; cbv zeta beta;
    destruct (decide (length (drop (N.to_nat c) (all_keys r)) ≤ 2)%nat) as [Hl|Hl];
    try (rewrite length_drop in Hl; lia).
  1,2: rewrite decide_True by done; eexists; split; [done|];
    rewrite take_ge by done; split; intros k; rewrite list_elem_of_filter;
    [intros Hk Hm; split; [apply Hm|done] | intros [Hm _]; by exists i].
  rewrite length_drop in Hl. rewrite decide_False by lia.
  destruct (IH (S i) (c + 2)%N) as (ks & -> & Hks1 & Hks2); [lia|].
  eexists. split; [done|]. split; intros k; rewrite elem_of_app, list_elem_of_filter.
  - intros Hk Hm. pose proof (take_drop 2 (drop (N.to_nat c) (all_keys r))) as Htd.
    rewrite <- Htd, elem_of_app, drop_drop in Hk.
    replace (N.to_nat c + 2)%nat with (N.to_nat (c + 2)) in Hk by lia.
    destruct Hk as [Hk|Hk]; [left; split; [apply Hm|done]|right; by apply Hks1].
  - intros [[Hm _]|Hk]; [by exists i|auto].
Qed.

Lemma get_list_put_list k l r k' :
  get_list (put_list k l r) k' = if decide (k' = k) then l else get_list r k'.
Proof.
  unfold get_list, put_list. destruct l; simpl; case_decide; simplify_map_eq; done.
Qed.

Lemma matches_spec t r pre k :
  matches t r (pre +:+ "*") k = true ↔
  String.prefix pre k = true ∧ (get_list r k ≠ [] ∨ is_Some (get_str r t k)).
Proof.
  assert (Hlen : (String.length (pre +:+ "*") - 1 = String.length pre)%nat)
    by (rewrite slength_app; simpl; lia).
  unfold matches. rewrite Hlen, substring_prefix, andb_true_iff, orb_true_iff.
  by rewrite !bool_decide_eq_true.
Qed.

Lemma exists_in_keys t r k :
  get_list r k ≠ [] ∨ is_Some (get_str r t k) → k ∈ all_keys r.
Proof.
  unfold all_keys. rewrite elem_of_app, !list_elem_of_fmap.
  intros [Hl|Hs]; [left|right].
  - unfold get_list in Hl. destruct (lists r !! k) as [l|] eqn:E; [|done].
    exists (k, l). by rewrite elem_of_map_to_list.
  - unfold get_str in Hs. destruct (strings r !! k) as [p|] eqn:E; [|by destruct Hs].
    exists (k, p). by rewrite elem_of_map_to_list.
Qed.

#[export] Instance redis_model : RedisServer.
Proof.
  refine {|
    rstate := server;
    rlist := get_list;
    rstr := get_str;
    LPush := lpush;
    LMove := lmove;
    LRem := lrem;
    SetKey := set_key;
    Scan := scan |}.
  - intros r k v k' _. apply get_list_put_list.
  - intros r src dst a b _ _ H. unfold lmove. by rewrite H.
  - intros r src dst a b l x _ _ Hne H. unfold lmove. rewrite H. simpl. split; [done|].
    intros k. rewrite !get_list_put_list. repeat case_decide; congruence.
  - intros r k v k' _. apply get_list_put_list.
  - intros r t k v ttl t' k' _ Httl Ht. unfold get_str, set_key; simpl.
    case_decide as Hk; simplify_map_eq; done.
  - intros r k v t k' _. unfold lpush, put_list. by destruct (_ :: _).
  - intros r src dst a b t k' _ _. unfold lmove. by destruct (take_side a _) as [[? ?]|].
  - intros r k n v t k' _. done.
  - intros r t k v ttl k' _. done.
  - intros r t t' k v Ht. unfold get_str. destruct (strings r !! k) as [[w e]|]; [simpl|done].
    repeat case_decide; done || lia.
  - intros r ts pre _ _.
    destruct (scan_iter_spec r (pre +:+ "*") ts (length (all_keys r)) 0 0%N)
      as (ks & Hrun & H1 & H2); [lia|].
    setoid_rewrite matches_spec in H1. setoid_rewrite matches_spec in H2.
    eexists _, ks. split; [exact Hrun|]. split.
    + intros k Hpre Hex. apply H1; [|naive_solver].
      change (k ∈ all_keys r). destruct Hex as [Hl|Hs].
      * apply (exists_in_keys 0). by left.
      * apply (exists_in_keys (ts 0%nat)). by right.
    + intros k Hk. destruct (H2 k Hk) as [j ?]. naive_solver.
Defined.

End RedisModel.
