(* ===== verification/Schema.v ===== *)
(** * Data model and database schema

    The Go structs of internal/store/types.go, the tables of
    internal/store/migrations/*.sql with their constraints, and the two
    outside parties the store relies on: the google/uuid package
    ([UuidLib]) and the PostgreSQL scan order ([PgServer]).  Times are
    nanoseconds since the Unix epoch. *)
From stdpp Require Import sorting.
From S2P Require Import Prelude.
Local Open Scope Z_scope.

(** google/uuid: identifiers with a textual form [Parse] reads back. *)
Class UuidLib := {
  uuid : Type;
  #[global] uuid_eq_dec :: EqDecision uuid;
  #[global] uuid_countable :: Countable uuid;
  uuid_String : uuid → string;
  uuid_Parse : string → result uuid;
  uuid_Parse_String u : uuid_Parse (uuid_String u) = Ok u
}.

(** PostgreSQL returns the rows of a table without ORDER BY in an order of
    its own choosing. *)
Class PgServer `{UuidLib} := {
  seq_scan {A} : gmap uuid A → list A;
  seq_scan_perm {A} (m : gmap uuid A) : seq_scan m ≡ₚ (map_to_list m).*2
}.

Inductive JobStatus := StatusQueued | StatusRunning | StatusDone | StatusDead.

#[global] Instance JobStatus_eq_dec : EqDecision JobStatus.
Proof. solve_decision. Defined.

(** The constants' text, as stored in the status column. *)
Definition status_text (s : JobStatus) : string :=
  match s with
  | StatusQueued => "queued"
  | StatusRunning => "running"
  | StatusDone => "done"
  | StatusDead => "dead"
  end.

Section schema.
Context `{UL : UuidLib}.

Record Job := mk_Job {
  ID : uuid;
  UserID : option uuid;
  GmailMessageID : option string;
  Stage : string;
  Status : JobStatus;
  Payload : string;
  IsSynthetic : bool;
  WorkerID : option string;
  Attempts : Z;
  MaxAttempts : Z;
  LastError : option string;
  NextRunAt : Z;
  ClaimedAt : option Z;
  CompletedAt : option Z;
  CreatedAt : Z;
  UpdatedAt : Z
}.

Record NewJob := mk_NewJob {
  nj_Stage : string;
  nj_Payload : option string;
  nj_UserID : option uuid;
  nj_GmailMessageID : option string;
  nj_IsSynthetic : bool
}.

Record User := mk_User {
  u_ID : uuid;
  Email : string;
  u_CreatedAt : Z
}.

Record OAuthToken := mk_OAuthToken {
  ot_UserID : uuid;
  Provider : string;
  AccessCT : list Byte.byte;
  RefreshCT : list Byte.byte;
  ExpiresAt : Z;
  ot_UpdatedAt : Z
}.

#[global] Instance Job_eq_dec : EqDecision Job.
Proof. solve_decision. Defined.
#[global] Instance User_eq_dec : EqDecision User.
Proof. solve_decision. Defined.

(** The tables the program reads and writes. *)
Record DB := mk_DB {
  pipeline_jobs : gmap uuid Job;
  users : gmap uuid User;
  oauth_tokens : gmap (uuid * string) OAuthToken;
  gmail_sync_state : gmap uuid (string * Z)
}.

Definition with_jobs (m : gmap uuid Job) (db : DB) : DB :=
  mk_DB m (users db) (oauth_tokens db) (gmail_sync_state db).
Definition with_users (m : gmap uuid User) (db : DB) : DB :=
  mk_DB (pipeline_jobs db) m (oauth_tokens db) (gmail_sync_state db).
Definition with_tokens (m : gmap (uuid * string) OAuthToken) (db : DB) : DB :=
  mk_DB (pipeline_jobs db) (users db) m (gmail_sync_state db).
Definition with_sync (m : gmap uuid (string * Z)) (db : DB) : DB :=
  mk_DB (pipeline_jobs db) (users db) (oauth_tokens db) m.

(** A job that has not reached a final status. *)
Definition terminal (s : JobStatus) : bool :=
  bool_decide (s = StatusDone) || bool_decide (s = StatusDead).

(** The key a row has in the partial unique index
    [pipeline_jobs_user_message_unique], if the row is in the index. *)
Definition live_key (j : Job) : option (uuid * string) :=
  if terminal (Status j) || IsSynthetic j then None
  else u ← UserID j; m ← GmailMessageID j; Some (u, m).

(** No other row has the key [row] would have in the partial unique index. *)
Definition live_key_free (id : uuid) (row : Job) (m : gmap uuid Job) : Prop :=
  map_Forall (λ id' j', id' = id ∨ live_key row = None ∨ live_key j' ≠ live_key row) m.

#[global] Instance live_key_free_dec id row m : Decision (live_key_free id row m).
Proof. unfold live_key_free. apply _. Defined.

Definition unique_violation : err := EPg "23505" "pipeline_jobs_user_message_unique".

(** Write one row of pipeline_jobs, new or updated, subject to the unique
    index. *)
Definition put_job (id : uuid) (row : Job) (db : DB) : result DB :=
  if decide (live_key_free id row (pipeline_jobs db))
  then Ok (with_jobs (<[id := row]> (pipeline_jobs db)) db)
  else Err unique_violation.

(** The foreign key pipeline_jobs.user_id REFERENCES users(id). *)
Definition user_ref_ok (uid : option uuid) (db : DB) : bool :=
  match uid with
  | None => true
  | Some u => bool_decide (is_Some (users db !! u))
  end.

(** The largest value of the INT columns attempts and max_attempts. *)
Definition int4_max : Z := 2147483647.

(** Column default: max_attempts INT NOT NULL DEFAULT 8. *)
Definition max_attempts_default : Z := 8.

End schema.

(** ** Concrete parties for the witnesses: identifiers are strings, printed
    with a leading 'u'; rows are scanned in the map's own order. *)
Module SchemaModel.

Definition parse (s : string) : result string :=
  match s with
  | String "u"%char s => Ok s
  | _ => Err (EText "invalid UUID length")
  end.

#[export] Instance uuid_model : UuidLib := {|
  uuid := string;
  uuid_String u := String "u"%char u;
  uuid_Parse := parse;
  uuid_Parse_String u := eq_refl
|}.

#[export] Instance pg_model : PgServer := {|
  seq_scan A m := (map_to_list m).*2;
  seq_scan_perm A m := Permutation_refl _
|}.

Definition no_rows : DB := mk_DB ∅ ∅ ∅ ∅.

(** A fresh queued job of the test stage. *)
Definition queued_job (id : string) : Job := {|
  ID := id; UserID := None; GmailMessageID := None; Stage := "test";
  Status := StatusQueued; Payload := "{}"; IsSynthetic := true; WorkerID := None;
  Attempts := 0; MaxAttempts := 8; LastError := None; NextRunAt := 0;
  ClaimedAt := None; CompletedAt := None; CreatedAt := 0; UpdatedAt := 0 |}.

Definition one_job : DB := mk_DB {[ "a" := queued_job "a" ]} ∅ ∅ ∅.

End SchemaModel.
