(* ===== verification/GoStrings.v ===== *)
(** * Go's strings package

    The functions of the Go standard library the program calls on strings.  A
    Go string is a sequence of bytes, here [string] (a list of [ascii]). *)
From S2P Require Import Prelude.

(** [strings.Cut] at a one-byte separator. *)
Fixpoint Cut (sep : ascii) (s : string) : option (string * string) :=
  match s with
  | EmptyString => None
  | String c s' =>
      if decide (c = sep) then Some (EmptyString, s')
      else '(a, b) ← Cut sep s'; Some (String c a, b)
  end.

(** [strings.SplitN(s, sep, n)] for n > 0 and a one-byte separator. *)
Fixpoint SplitN (s : string) (sep : ascii) (n : nat) : list string :=
  match n with
  | O => []
  | S O => [s]
  | S n =>
      match Cut sep s with
      | None => [s]
      | Some (a, b) => a :: SplitN b sep n
      end
  end.

(** [strings.Split]: as many pieces as there are separators. *)
Definition Split (s : string) (sep : ascii) : list string :=
  SplitN s sep (S (String.length s)).

(** strings.LastIndexByte, as the part before that byte. *)
Fixpoint before_last (c : ascii) (s : string) : option string :=
  match s with
  | EmptyString => None
  | String d s =>
      match before_last c s with
      | Some a => Some (String d a)
      | None => if decide (d = c) then Some EmptyString else None
      end
  end.

Fixpoint contains_byte (c : ascii) (s : string) : bool :=
  match s with
  | EmptyString => false
  | String d s => bool_decide (d = c) || contains_byte c s
  end.

Lemma prefix_nil s : String.prefix EmptyString s = true.
Proof. by destruct s. Qed.

Lemma prefix_cons a p c s :
  String.prefix (String a p) (String c s) = bool_decide (a = c) && String.prefix p s.
Proof.
  change (String.prefix (String a p) (String c s)) with (if ascii_dec a c then String.prefix p s else false).
  destruct (ascii_dec a c); [by rewrite bool_decide_eq_true_2|by rewrite bool_decide_eq_false_2].
Qed.

Lemma Cut_None sep s : Cut sep s = None ↔ contains_byte sep s = false.
Proof.
  induction s as [|c s IH]; simpl; [done|].
  destruct (decide (c = sep)) as [->|Hc].
  - rewrite bool_decide_eq_true_2 by done. done.
  - rewrite bool_decide_eq_false_2 by done. simpl. rewrite <- IH.
    destruct (Cut sep s) as [[a b]|]; naive_solver.
Qed.

Lemma Cut_app sep s1 s2 :
  contains_byte sep s1 = false → Cut sep (s1 +:+ String sep s2) = Some (s1, s2).
Proof.
  induction s1 as [|c s1 IH]; rewrite ?sapp_cons, ?sapp_nil_l; simpl.
  - intros _. by rewrite decide_True.
  - intros [Hc Hs]%orb_false_iff. apply bool_decide_eq_false in Hc.
    rewrite decide_False, IH by done. done.
Qed.

Lemma Cut_app_sep sep s1 s2 :
  contains_byte sep s1 = false → Cut sep (s1 +:+ String sep EmptyString +:+ s2) = Some (s1, s2).
Proof. apply Cut_app. Qed.

Lemma Cut_Some sep s a b : Cut sep s = Some (a, b) → s = a +:+ String sep b.
Proof.
  revert a b. induction s as [|c s IH]; simpl; [done|]. intros a b.
  case_decide as Hc; [intros [= <- <-]; by rewrite Hc|].
  destruct (Cut sep s) as [[a' b']|]; simpl; [|done].
  intros [= <- <-]. rewrite sapp_cons. f_equal. by apply IH.
Qed.

Lemma Cut_before sep s a b : Cut sep s = Some (a, b) → contains_byte sep a = false.
Proof.
  revert a b. induction s as [|c s IH]; simpl; [done|]. intros a b.
  case_decide as Hc; [by intros [= <- <-]|].
  destruct (Cut sep s) as [[a' b']|]; simpl; [|done].
  intros [= <- <-]. simpl. rewrite bool_decide_eq_false_2 by done. by eapply IH.
Qed.

(** [strings.ReplaceAll] for a non-empty [old]: the leftmost non-overlapping
    occurrences are replaced.  [skip] counts the bytes of a match still to be
    passed over. *)
Fixpoint replace_from (skip : nat) (s old new : string) : string :=
  match s with
  | EmptyString => EmptyString
  | String c s' =>
      match skip with
      | S skip => replace_from skip s' old new
      | O =>
          if String.prefix old s
          then new +:+ replace_from (String.length old - 1) s' old new
          else String c (replace_from 0 s' old new)
      end
  end.

Definition ReplaceAll (s old new : string) : string := replace_from 0 s old new.

(** hex.EncodeToString *)
Definition hex_digit (n : nat) : ascii :=
  ascii_of_nat (if (n <? 10)%nat then 48 + n else 87 + n).

Fixpoint hex_EncodeToString (b : list Byte.byte) : string :=
  match b with
  | [] => EmptyString
  | x :: b =>
      let n := nat_of_ascii (ascii_of_byte x) in
      String (hex_digit (n / 16)) (String (hex_digit (n mod 16)) (hex_EncodeToString b))
  end.

(** Removing every occurrence of a byte: ReplaceAll(s, "c", ""). *)
Lemma replace_byte_gone (c : ascii) (s : string) :
  contains_byte c (ReplaceAll s (String c EmptyString) EmptyString) = false.
Proof.
  unfold ReplaceAll. induction s as [|d s IH]; simpl; [done|].
  destruct (ascii_dec c d) as [->|Hne]; rewrite ?sapp_nil_l; simpl.
  - replace (String.prefix EmptyString s) with true by (by destruct s). done.
  - rewrite bool_decide_eq_false_2 by done. done.
Qed.

Lemma contains_byte_app c s1 s2 :
  contains_byte c (s1 +:+ s2) = contains_byte c s1 || contains_byte c s2.
Proof.
  induction s1 as [|d s1 IH]; rewrite ?sapp_cons, ?sapp_nil_l; simpl; [done|].
  by rewrite IH, orb_assoc.
Qed.

Lemma hex_code_lt n : (n < 16)%nat → ((if (n <? 10)%nat then 48 + n else 87 + n) < 256)%nat.
Proof. destruct (n <? 10)%nat; lia. Qed.

Lemma hex_digit_inj n m : (n < 16)%nat → (m < 16)%nat → hex_digit n = hex_digit m → n = m.
Proof.
  unfold hex_digit. intros Hn Hm H. apply (f_equal nat_of_ascii) in H.
  rewrite !nat_ascii_embedding in H by (apply hex_code_lt; done).
  destruct (n <? 10)%nat eqn:E1, (m <? 10)%nat eqn:E2; lia.
Qed.

Lemma hex_no_dash b : contains_byte "-"%char (hex_EncodeToString b) = false.
Proof.
  assert (Hd : ∀ n, (n < 16)%nat → hex_digit n ≠ "-"%char).
  { intros n Hn H. apply (f_equal nat_of_ascii) in H. unfold hex_digit in H.
    rewrite nat_ascii_embedding in H by (apply hex_code_lt; done).
    change (nat_of_ascii "-") with 45%nat in H. destruct (n <? 10)%nat eqn:E; lia. }
  induction b as [|x b IH]; [done|]. cbn [hex_EncodeToString contains_byte].
  pose proof (nat_ascii_bounded (ascii_of_byte x)).
  rewrite !bool_decide_eq_false_2, IH; [done| |].
  - apply Hd. apply Nat.mod_upper_bound. lia.
  - apply Hd. apply Nat.Div0.div_lt_upper_bound. lia.
Qed.

Lemma hex_inj b1 b2 : hex_EncodeToString b1 = hex_EncodeToString b2 → b1 = b2.
Proof.
  revert b2. induction b1 as [|x b1 IH]; intros [|y b2]; try done.
  cbn [hex_EncodeToString]. intros [H1 [H2 H3]%String_inj]%String_inj.
  f_equal; [|by apply IH].
  pose proof (nat_ascii_bounded (ascii_of_byte x)). pose proof (nat_ascii_bounded (ascii_of_byte y)).
  apply hex_digit_inj in H1; [|apply Nat.Div0.div_lt_upper_bound; lia..].
  apply hex_digit_inj in H2; [|apply Nat.mod_upper_bound; lia..].
  assert (Hn : nat_of_ascii (ascii_of_byte x) = nat_of_ascii (ascii_of_byte y)).
  { rewrite (Nat.div_mod_eq (nat_of_ascii (ascii_of_byte x)) 16),
      (Nat.div_mod_eq (nat_of_ascii (ascii_of_byte y)) 16). congruence. }
  apply (f_equal ascii_of_nat) in Hn. rewrite !ascii_nat_embedding in Hn.
  apply (f_equal byte_of_ascii) in Hn. by rewrite !byte_of_ascii_of_byte in Hn.
Qed.

(** ** strconv *)

Definition digit_value (c : ascii) : option N :=
  let n := N_of_ascii c in
  if decide (48 ≤ n ∧ n ≤ 57)%N then Some (n - 48)%N else None.

(** The value of a run of decimal digits. *)
Fixpoint parse_digits (acc : N) (s : string) : option N :=
  match s with
  | EmptyString => Some acc
  | String c s => d ← digit_value c; parse_digits (acc * 10 + d) s
  end.

(** strconv.ParseUint(s, 10, 64) *)
Definition ParseUint (s : string) : option N :=
  if decide (s = EmptyString) then None
  else n ← parse_digits 0 s; if decide (n < 2 ^ 64)%N then Some n else None.

(** strconv.Atoi on a 64-bit machine: an optional sign and digits. *)
Definition Atoi (s : string) : option Z :=
  let '(neg, t) := match s with
    | String "-"%char t => (true, t)
    | String "+"%char t => (false, t)
    | _ => (false, s)
    end in
  if decide (t = EmptyString) then None
  else n ← parse_digits 0 t;
    let z := if neg then (- Z.of_N n)%Z else Z.of_N n in
    if decide (- 2 ^ 63 ≤ z < 2 ^ 63)%Z then Some z else None.

(** strconv.FormatUint(n, 10) *)
Definition FormatUint (n : N) : string := pretty n.

Lemma digit_value_char d : (d < 10)%N → digit_value (pretty_N_char d) = Some d.
Proof.
  intros Hd. assert (d = 0 ∨ d = 1 ∨ d = 2 ∨ d = 3 ∨ d = 4 ∨ d = 5 ∨ d = 6 ∨ d = 7 ∨ d = 8 ∨ d = 9)%N
    as H by lia.
  by repeat (destruct H as [->|H]; [done|]); subst.
Qed.

Lemma parse_pretty_go n s acc :
  ∃ m, parse_digits acc (pretty_N_go n s) = parse_digits m s ∧
    ((acc = 0)%N → m = n).
Proof.
  revert s acc. induction (N.lt_wf_0 n) as [n _ IH]; intros s acc.
  destruct (decide (0 < n)%N) as [Hn|Hn].
  - rewrite pretty_N_go_step by done.
    destruct (IH (n / 10)%N ltac:(apply N.div_lt; lia) (String (pretty_N_char (n mod 10)) s) acc)
      as (m & -> & Hm).
    cbn [parse_digits]. rewrite digit_value_char by (apply N.mod_lt; lia). simpl.
    eexists. split; [done|]. intros Ha. rewrite (Hm Ha).
    pose proof (N.div_mod n 10). lia.
  - assert (n = 0)%N as -> by lia. rewrite pretty_N_go_0. exists acc. done.
Qed.

Lemma parse_pretty n : parse_digits 0 (pretty n) = Some n.
Proof.
  unfold pretty, pretty_N. case_decide as Hn; [by subst|].
  destruct (parse_pretty_go n EmptyString 0) as (m & -> & ->); done.
Qed.

Lemma pretty_nonempty (n : N) : pretty n ≠ EmptyString.
Proof.
  intros H. pose proof (parse_pretty n) as Hp. rewrite H in Hp. injection Hp as <-. done.
Qed.

(** What is printed is read back. *)
Lemma ParseUint_FormatUint n : (n < 2 ^ 64)%N → ParseUint (FormatUint n) = Some n.
Proof.
  intros Hn. unfold ParseUint, FormatUint. rewrite decide_False by apply pretty_nonempty.
  rewrite parse_pretty. simpl. by rewrite decide_True.
Qed.
