(* ===== verification/Utf8.v ===== *)
(** * Go's view of strings as text: runes, spaces, trimming

    A Go string is a sequence of bytes (here [list ascii]); ranging over it
    decodes UTF-8, one U+FFFD per byte that does not decode.  What
    internal/handler uses of unicode/utf8, unicode and strings. *)
From S2P Require Import Prelude GoStrings.
Local Open Scope N_scope.

Definition bytes := list ascii.

Abbreviation to_bytes := String.list_ascii_of_string.
Abbreviation of_bytes := String.string_of_list_ascii.

Definition RuneError : N := 65533.

(** ** Decoding and encoding *)

Definition between (lo hi : N) (c : ascii) : bool := (lo <=? N_of_ascii c) && (N_of_ascii c <=? hi).
Definition low6 (c : ascii) : N := N_of_ascii c mod 64.

(** utf8.DecodeRuneInString: the rune and its width. *)
Definition decode_rune (l : bytes) : N * nat :=
  match l with
  | [] => (RuneError, 0%nat)
  | c0 :: l =>
      let x := N_of_ascii c0 in
      if x <? 128 then (x, 1%nat)
      else if x <? 194 then (RuneError, 1%nat)
      else if x <? 224 then
        match l with
        | c1 :: _ => if between 128 191 c1 then (x mod 32 * 64 + low6 c1, 2%nat) else (RuneError, 1%nat)
        | _ => (RuneError, 1%nat)
        end
      else if x <? 240 then
        match l with
        | c1 :: c2 :: _ =>
            if between (if x =? 224 then 160 else 128) (if x =? 237 then 159 else 191) c1 &&
               between 128 191 c2
            then (x mod 16 * 4096 + low6 c1 * 64 + low6 c2, 3%nat) else (RuneError, 1%nat)
        | _ => (RuneError, 1%nat)
        end
      else if x <? 245 then
        match l with
        | c1 :: c2 :: c3 :: _ =>
            if between (if x =? 240 then 144 else 128) (if x =? 244 then 143 else 191) c1 &&
               between 128 191 c2 && between 128 191 c3
            then (x mod 8 * 262144 + low6 c1 * 4096 + low6 c2 * 64 + low6 c3, 4%nat)
            else (RuneError, 1%nat)
        | _ => (RuneError, 1%nat)
        end
      else (RuneError, 1%nat)
  end.

(** The runes of a string, each with the bytes it was read from. *)
Fixpoint segs_from (skip : nat) (l : bytes) : list (N * bytes) :=
  match l with
  | [] => []
  | _ :: l' =>
      match skip with
      | S skip => segs_from skip l'
      | O => let '(r, w) := decode_rune l in (r, take w l) :: segs_from (w - 1) l'
      end
  end.

Definition segs (l : bytes) : list (N * bytes) := segs_from 0 l.
Definition runes (l : bytes) : list N := (segs l).*1.

(** utf8.AppendRune, as strings.Builder.WriteRune uses it. *)
Definition scalar (r : N) : bool := (r <? 55296) || ((57344 <=? r) && (r <? 1114112)).

Definition encode_rune (r : N) : bytes :=
  let r := if scalar r then r else RuneError in
  if r <? 128 then [ascii_of_N r]
  else if r <? 2048 then [ascii_of_N (192 + r / 64); ascii_of_N (128 + r mod 64)]
  else if r <? 65536 then
    [ascii_of_N (224 + r / 4096); ascii_of_N (128 + r / 64 mod 64); ascii_of_N (128 + r mod 64)]
  else
    [ascii_of_N (240 + r / 262144); ascii_of_N (128 + r / 4096 mod 64);
     ascii_of_N (128 + r / 64 mod 64); ascii_of_N (128 + r mod 64)].

Definition encode (rs : list N) : bytes := concat (encode_rune <$> rs).

(** ** unicode.IsSpace *)

Definition IsSpace (r : N) : bool :=
  ((9 <=? r) && (r <=? 13)) || (r =? 32) || (r =? 133) || (r =? 160) || (r =? 5760) ||
  ((8192 <=? r) && (r <=? 8202)) || (r =? 8232) || (r =? 8233) || (r =? 8239) || (r =? 8287) ||
  (r =? 12288).

(** ** Trimming *)

Fixpoint trim_left {A} (p : A → bool) (l : list A) : list A :=
  match l with
  | [] => []
  | x :: l' => if p x then trim_left p l' else l
  end.

Fixpoint trim_right {A} (p : A → bool) (l : list A) : list A :=
  match l with
  | [] => []
  | x :: l' =>
      match trim_right p l' with
      | [] => if p x then [] else [x]
      | l'' => x :: l''
      end
  end.

Definition trim {A} (p : A → bool) (l : list A) : list A := trim_right p (trim_left p l).

(** strings.TrimSpace *)
Definition TrimSpace (l : bytes) : bytes := concat (trim (λ s, IsSpace s.1) (segs l)).*2.

Definition trim_space (s : string) : string := of_bytes (TrimSpace (to_bytes s)).

(** strings.Trim with a cutset of ASCII characters *)
Definition Trim (l cutset : bytes) : bytes := trim (λ c, bool_decide (c ∈ cutset)) l.

(** ** Lemmas *)

Lemma trim_left_suffix {A} p (l : list A) : ∃ a, l = a ++ trim_left p l ∧ Forall (λ x, p x = true) a.
Proof.
  induction l as [|x l (a & Hl & Ha)]; simpl; [by exists []|].
  destruct (p x) eqn:Hp; [|by exists []]. exists (x :: a). split; [simpl; by f_equal|by constructor].
Qed.

Lemma trim_right_prefix {A} p (l : list A) : ∃ b, l = trim_right p l ++ b ∧ Forall (λ x, p x = true) b.
Proof.
  induction l as [|x l (b & Hl & Hb)]; simpl; [by exists []|].
  destruct (trim_right p l) as [|y t] eqn:E.
  - simpl in Hl. subst b. destruct (p x) eqn:Hp; [exists (x :: l); split; [done|by constructor]|by exists l].
  - exists b. split; [simpl; by f_equal|done].
Qed.

Lemma trim_infix {A} p (l : list A) : ∃ a b, l = a ++ trim p l ++ b.
Proof.
  destruct (trim_left_suffix p l) as (a & Hl & _). destruct (trim_right_prefix p (trim_left p l)) as (b & Hr & _).
  exists a, b. unfold trim. by rewrite <- Hr.
Qed.

Lemma trim_left_head {A} p (l : list A) x t : trim_left p l = x :: t → p x = false.
Proof. induction l as [|y l IH]; simpl; [done|]. destruct (p y) eqn:E; [done|]. by intros [= <- <-]. Qed.

Lemma trim_right_last {A} p (l : list A) t x : trim_right p l = t ++ [x] → p x = false.
Proof.
  revert t. induction l as [|y l IH]; simpl; intros t H; [by destruct t|].
  destruct (trim_right p l) as [|z u] eqn:E.
  - destruct (p y) eqn:Hp; [by destruct t|]. destruct t as [|? [|? ?] ]; simplify_eq/=; done.
  - destruct t as [|w t]; simplify_eq/=. by apply (IH t).
Qed.

Lemma trim_subset {A} p (l : list A) x : x ∈ trim p l → x ∈ l.
Proof. destruct (trim_infix p l) as (a & b & Hl). intros Hx. rewrite Hl, !elem_of_app. auto. Qed.

Lemma trim_length {A} p (l : list A) : (length (trim p l) ≤ length l)%nat.
Proof. destruct (trim_infix p l) as (a & b & Hl). rewrite Hl at 2. rewrite !length_app. lia. Qed.

Lemma decode_rune_width l : (snd (decode_rune l) ≤ length l)%nat ∧ (l ≠ [] → 1 ≤ snd (decode_rune l))%nat.
Proof.
  destruct l as [|c0 [|c1 [|c2 [|c3 l] ] ] ]; simpl; repeat case_match; simpl; split; intros; done || lia.
Qed.

Lemma segs_from_concat k l : (k ≤ length l)%nat → concat (segs_from k l).*2 = drop k l.
Proof.
  revert k. induction l as [|c l IH]; intros k Hk; [by destruct k|].
  destruct k as [|k]; cbn [segs_from]; simpl in Hk; [|apply IH; lia].
  pose proof (decode_rune_width (c :: l)) as [Hw Hw1]. destruct (decode_rune (c :: l)) as [r w].
  simpl in Hw, Hw1. specialize (Hw1 ltac:(done)). rewrite fmap_cons. simpl concat.
  rewrite IH by lia. destruct w as [|w]; [lia|]. simpl. rewrite Nat.sub_0_r. f_equal. apply take_drop.
Qed.

Lemma segs_concat l : concat (segs l).*2 = l.
Proof. unfold segs. rewrite segs_from_concat by lia. done. Qed.

Lemma TrimSpace_infix l : ∃ a b, l = a ++ TrimSpace l ++ b.
Proof.
  unfold TrimSpace. destruct (trim_infix (λ s, IsSpace s.1) (segs l)) as (a & b & Hl).
  exists (concat a.*2), (concat b.*2). rewrite <- (segs_concat l) at 1. rewrite Hl at 1.
  by rewrite !fmap_app, !concat_app.
Qed.

Lemma TrimSpace_subset l c : c ∈ TrimSpace l → c ∈ l.
Proof. destruct (TrimSpace_infix l) as (a & b & Hl). intros Hc. rewrite Hl, !elem_of_app. auto. Qed.

Lemma TrimSpace_length l : (length (TrimSpace l) ≤ length l)%nat.
Proof. destruct (TrimSpace_infix l) as (a & b & Hl). rewrite Hl at 2. rewrite !length_app. lia. Qed.

Lemma contains_of_bytes c l : contains_byte c (of_bytes l) = bool_decide (c ∈ l).
Proof.
  induction l as [|d l IH]; [done|]. cbn [String.string_of_list_ascii contains_byte]. rewrite IH.
  destruct (decide (c ∈ d :: l)) as [H|H].
  - rewrite (bool_decide_eq_true_2 _ H). apply elem_of_cons in H as [->|H].
    + by rewrite bool_decide_eq_true_2.
    + rewrite (bool_decide_eq_true_2 (c ∈ l)) by done. apply orb_true_r.
  - rewrite (bool_decide_eq_false_2 _ H). apply not_elem_of_cons in H as [H1 H2].
    by rewrite !bool_decide_eq_false_2.
Qed.

(** Division and remainder in linear arithmetic. *)
Local Ltac dlia := zify; Z.to_euclidean_division_equations; lia.

Lemma rune_or_error r :
  (if scalar r then r else RuneError) < 1114112 ∧
  ((if scalar r then r else RuneError) < 128 → (if scalar r then r else RuneError) = r).
Proof.
  unfold scalar, RuneError. destruct (N.ltb_spec r 55296); cbn [orb]; [lia|].
  destruct (N.leb_spec 57344 r), (N.ltb_spec r 1114112); cbn [andb]; lia.
Qed.

(** An ASCII byte in the encoding of a rune is that rune. *)
Lemma encode_rune_ascii r c : c ∈ encode_rune r → N_of_ascii c < 128 → r = N_of_ascii c.
Proof.
  assert (Hs : ∀ x, x < 256 → N_of_ascii (ascii_of_N x) = x) by (intros; by apply N_ascii_embedding).
  unfold encode_rune. pose proof (rune_or_error r) as [Hr Hlow].
  set (r' := if scalar r then r else RuneError) in *. clearbody r'.
  destruct (N.ltb_spec r' 128).
  { intros ->%list_elem_of_singleton. rewrite Hs by lia. intros _. symmetry. by apply Hlow. }
  destruct (N.ltb_spec r' 2048); [|destruct (N.ltb_spec r' 65536)];
    rewrite !elem_of_cons, ?elem_of_nil; intros Hin Hc;
    repeat destruct Hin as [->|Hin]; try done; rewrite Hs in Hc by dlia; dlia.
Qed.

Lemma N_of_ascii_of_N x : x < 256 → N_of_ascii (ascii_of_N x) = x.
Proof. intros. by apply N_ascii_embedding. Qed.

Lemma between_ascii lo hi x : x < 256 → between lo hi (ascii_of_N x) = (lo <=? x) && (x <=? hi).
Proof. intros. unfold between. by rewrite N_of_ascii_of_N. Qed.

Lemma low6_ascii x : x < 64 → low6 (ascii_of_N (128 + x)) = x.
Proof. intros. unfold low6. rewrite N_of_ascii_of_N by lia. dlia. Qed.

(** What was written is read back. *)
Lemma decode_encode_rune r l :
  scalar r = true → decode_rune (encode_rune r ++ l) = (r, length (encode_rune r)).
Proof.
  intros Hr. unfold encode_rune. rewrite Hr.
  assert (Hs : r < 55296 ∨ 57344 ≤ r < 1114112).
  { unfold scalar in Hr. destruct (N.ltb_spec r 55296); [by left|right].
    cbn [orb] in Hr. apply andb_true_iff in Hr as [?%N.leb_le ?%N.ltb_lt]. done. }
  clear Hr. destruct (N.ltb_spec r 128) as [H1|H1].
  { cbn [app decode_rune length]. rewrite N_of_ascii_of_N by lia. by rewrite (proj2 (N.ltb_lt _ _)). }
  destruct (N.ltb_spec r 2048) as [H2|H2]; [|destruct (N.ltb_spec r 65536) as [H3|H3] ];
    cbn [app decode_rune length]; rewrite ?N_of_ascii_of_N, ?between_ascii, ?low6_ascii by dlia.
  - destruct (N.ltb_spec (192 + r / 64) 128); [dlia|]. destruct (N.ltb_spec (192 + r / 64) 194); [dlia|].
    destruct (N.ltb_spec (192 + r / 64) 224); [|dlia].
    rewrite !(proj2 (N.leb_le _ _)) by dlia. cbn [andb]. f_equal. dlia.
  - destruct (N.ltb_spec (224 + r / 4096) 128); [dlia|]. destruct (N.ltb_spec (224 + r / 4096) 194); [dlia|].
    destruct (N.ltb_spec (224 + r / 4096) 224); [dlia|]. destruct (N.ltb_spec (224 + r / 4096) 240); [|dlia].
    rewrite !(proj2 (N.leb_le _ _)); [cbn [andb]; f_equal; dlia|..];
      repeat match goal with |- context [?a =? ?b] => destruct (N.eqb_spec a b) end; dlia.
  - destruct (N.ltb_spec (240 + r / 262144) 128); [dlia|]. destruct (N.ltb_spec (240 + r / 262144) 194); [dlia|].
    destruct (N.ltb_spec (240 + r / 262144) 224); [dlia|]. destruct (N.ltb_spec (240 + r / 262144) 240); [dlia|].
    destruct (N.ltb_spec (240 + r / 262144) 245); [|dlia].
    rewrite !(proj2 (N.leb_le _ _)); [cbn [andb]; f_equal; dlia|..];
      repeat match goal with |- context [?a =? ?b] => destruct (N.eqb_spec a b) end; dlia.
Qed.

Lemma encode_rune_nonempty r : encode_rune r ≠ [].
Proof. unfold encode_rune. repeat case_match; done. Qed.

Lemma segs_from_skip l1 l2 : segs_from (length l1) (l1 ++ l2) = segs_from 0 l2.
Proof. induction l1 as [|c l1 IH]; simpl; [done|]. apply IH. Qed.

Lemma segs_encode_cons r l :
  scalar r = true → segs (encode_rune r ++ l) = (r, encode_rune r) :: segs l.
Proof.
  intros Hr. pose proof (decode_encode_rune r l Hr) as Hd. pose proof (encode_rune_nonempty r) as Hne.
  unfold segs. destruct (encode_rune r) as [|c b] eqn:Hb; [done|]. cbn [app] in *. cbn [segs_from].
  rewrite Hd. cbn [length take]. rewrite take_app_length. f_equal.
  replace (S (length b) - 1)%nat with (length b) by lia. apply segs_from_skip.
Qed.

Lemma runes_encode rs : Forall (λ r, scalar r = true) rs → runes (encode rs) = rs.
Proof.
  unfold runes, encode. induction 1 as [|r rs Hr _ IH]; [done|]. rewrite fmap_cons. cbn [concat].
  rewrite segs_encode_cons by done. rewrite fmap_cons. by f_equal.
Qed.

Lemma scalar_spec r : scalar r = true ↔ r < 55296 ∨ 57344 ≤ r < 1114112.
Proof. unfold scalar. by rewrite orb_true_iff, andb_true_iff, !N.ltb_lt, N.leb_le. Qed.

Lemma between_spec lo hi c : between lo hi c = true ↔ lo ≤ N_of_ascii c ≤ hi.
Proof. unfold between. by rewrite andb_true_iff, !N.leb_le. Qed.

(** Decoding yields no surrogate. *)
Lemma decode_rune_scalar l : scalar (decode_rune l).1 = true.
Proof.
  destruct l as [|c0 l]; [done|]. cbn [decode_rune]. set (x := N_of_ascii c0).
  destruct (N.ltb_spec x 128); [apply scalar_spec; cbn [fst]; lia|]. destruct (N.ltb_spec x 194); [done|].
  destruct (N.ltb_spec x 224).
  { destruct l as [|c1 l]; [done|]. destruct (between _ _ c1); [|done]. apply scalar_spec. unfold low6.
    cbn [fst]. dlia. }
  destruct (N.ltb_spec x 240).
  { destruct l as [|c1 [|c2 l] ]; [done..|]. destruct (between _ _ c1) eqn:E1; [|done].
    destruct (between _ _ c2); [|done]. apply between_spec in E1. apply scalar_spec. unfold low6.
    cbn [fst andb]. destruct (N.eqb_spec x 237), (N.eqb_spec x 224); dlia. }
  destruct (N.ltb_spec x 245); [|done]. destruct l as [|c1 [|c2 [|c3 l] ] ]; [done..|].
  destruct (between _ _ c1) eqn:E1; [|done]. destruct (between _ _ c2); [|done].
  destruct (between _ _ c3); [|done]. apply between_spec in E1. apply scalar_spec. unfold low6.
  cbn [fst andb]. destruct (N.eqb_spec x 244), (N.eqb_spec x 240); dlia.
Qed.

(** An ASCII rune is an ASCII byte. *)
Lemma decode_rune_low c l : (decode_rune (c :: l)).1 < 128 → (decode_rune (c :: l)).1 = N_of_ascii c.
Proof.
  cbn [decode_rune]. set (x := N_of_ascii c).
  destruct (N.ltb_spec x 128); [done|]. destruct (N.ltb_spec x 194); [done|].
  destruct (N.ltb_spec x 224).
  { destruct l as [|c1 l]; [done|]. destruct (between _ _ c1); [|done]. unfold low6. cbn [fst]. dlia. }
  destruct (N.ltb_spec x 240).
  { destruct l as [|c1 [|c2 l] ]; [done..|]. destruct (between _ _ c1) eqn:E1; [|done].
    destruct (between _ _ c2); [|done]. apply between_spec in E1. unfold low6.
    cbn [fst andb]. destruct (N.eqb_spec x 237), (N.eqb_spec x 224); dlia. }
  destruct (N.ltb_spec x 245); [|done]. destruct l as [|c1 [|c2 [|c3 l] ] ]; [done..|].
  destruct (between _ _ c1) eqn:E1; [|done]. destruct (between _ _ c2); [|done].
  destruct (between _ _ c3); [|done]. apply between_spec in E1. unfold low6.
  cbn [fst andb]. destruct (N.eqb_spec x 244), (N.eqb_spec x 240); dlia.
Qed.

Lemma runes_low l r : r ∈ runes l → r < 128 → ∃ c, c ∈ l ∧ N_of_ascii c = r.
Proof.
  unfold runes, segs. generalize 0%nat. induction l as [|c l IH]; intros k; cbn [segs_from]; [by intros ?%elem_of_nil|].
  destruct k as [|k].
  - pose proof (decode_rune_low c l) as Hlow. destruct (decode_rune (c :: l)) as [r' w]. cbn [fst] in Hlow.
    rewrite fmap_cons. intros [->|Hr]%elem_of_cons Hlt.
    + exists c. split; [apply list_elem_of_here|]. symmetry. by apply Hlow.
    + destruct (IH _ Hr Hlt) as (d & ? & ?). exists d. split; [by right|done].
  - intros Hr Hlt. destruct (IH _ Hr Hlt) as (d & ? & ?). exists d. split; [by right|done].
Qed.

Lemma segs_scalar l : Forall (λ s, scalar s.1 = true) (segs l).
Proof.
  unfold segs. generalize 0%nat. induction l as [|c l IH]; intros k; cbn [segs_from]; [constructor|].
  destruct k as [|k]; [|apply IH]. pose proof (decode_rune_scalar (c :: l)) as H.
  destruct (decode_rune (c :: l)) as [r w]. by constructor.
Qed.
