(* ===== verification/Calendar.v ===== *)
(** * Dates: the part of Go's time package the program uses

    The Gregorian calendar from day numbers, month and weekday names, and
    fmt's zero-padded numbers. *)
From S2P Require Import Prelude GoStrings Utf8.
Local Open Scope Z_scope.

(** ** Calendar: time.Time in UTC, from nanoseconds since 1970 *)

Definition day_ns : Z := 86400 * 1000000000.

(** The date of a day number; the year counts from March so that the leap day
    comes last. *)
Definition civil (d : Z) : Z * Z * Z :=
  let z := d + 719468 in
  let era := z / 146097 in
  let doe := z mod 146097 in
  let yoe := (doe - doe / 1460 + doe / 36524 - doe / 146096) / 365 in
  let doy := doe - (365 * yoe + yoe / 4 - yoe / 100) in
  let mp := (5 * doy + 2) / 153 in
  let month := if mp <? 10 then mp + 3 else mp - 9 in
  (yoe + era * 400 + (if month <=? 2 then 1 else 0), month, doy - (153 * mp + 2) / 5 + 1).

(** 1970-01-01 was a Thursday; Sunday is 0. *)
Definition weekday (d : Z) : Z := (d + 4) mod 7.

Definition month_names : list string :=
  ["January"; "February"; "March"; "April"; "May"; "June"; "July"; "August"; "September"; "October";
   "November"; "December"].
Definition weekday_names : list string :=
  ["Sunday"; "Monday"; "Tuesday"; "Wednesday"; "Thursday"; "Friday"; "Saturday"].

Definition Month_String (m : Z) : string := default EmptyString (month_names !! Z.to_nat (m - 1)).
Definition Weekday_String (w : Z) : string := default EmptyString (weekday_names !! Z.to_nat w).

(** fmt's %0<w>d *)
Definition zeros (n : nat) : string := of_bytes (replicate n "0"%char).
Definition pad (w : nat) (n : Z) : string :=
  if n <? 0 then "-" +:+ zeros (w - 1 - String.length (pretty (- n))) +:+ pretty (- n)
  else zeros (w - String.length (pretty n)) +:+ pretty n.

(** ** Lemmas on the calendar *)

Definition leap (y : Z) : bool := (y mod 4 =? 0) && (negb (y mod 100 =? 0) || (y mod 400 =? 0)).

Definition month_days (y m : Z) : Z :=
  if m =? 2 then (if leap y then 29 else 28)
  else if (m =? 4) || (m =? 6) || (m =? 9) || (m =? 11) then 30 else 31.

(** The day after, by the Gregorian rules. *)
Definition next_date (date : Z * Z * Z) : Z * Z * Z :=
  let '(y, m, d) := date in
  if d <? month_days y m then (y, m, d + 1)
  else if m <? 12 then (y, m + 1, 1) else (y + 1, 1, 1).

Definition add_years (k : Z) (date : Z * Z * Z) : Z * Z * Z := (date.1.1 + k, date.1.2, date.2).

(** The calendar repeats after 400 years. *)
Lemma civil_era d k : civil (d + k * 146097) = add_years (400 * k) (civil d).
Proof.
  unfold civil, add_years. replace (d + k * 146097 + 719468) with (d + 719468 + k * 146097) by lia.
  rewrite Z.div_add, Z.mod_add by done. cbn [fst snd]. f_equal. f_equal. lia.
Qed.

Lemma leap_era y k : leap (y + 400 * k) = leap y.
Proof.
  unfold leap. replace (y + 400 * k) with (y + k * 100 * 4) at 1 by lia. rewrite Z.mod_add by done.
  replace (y + 400 * k) with (y + k * 4 * 100) at 1 by lia. rewrite Z.mod_add by done.
  replace (y + 400 * k) with (y + k * 400) by lia. by rewrite Z.mod_add.
Qed.

Lemma next_date_era k date : next_date (add_years (400 * k) date) = add_years (400 * k) (next_date date).
Proof.
  destruct date as [ [y m] d]. unfold next_date, add_years, month_days. cbn [fst snd]. rewrite leap_era.
  destruct (d <? _); [done|]. destruct (m <? 12); [done|]. cbn [fst snd]. f_equal. f_equal. lia.
Qed.

(** The parts of [civil]: the year of the era (from March) and the month and
    day of a day of that year. *)
Definition year_of_era (doe : Z) : Z := (doe - doe / 1460 + doe / 36524 - doe / 146096) / 365.
Definition year_start (y : Z) : Z := 365 * y + y / 4 - y / 100 + y / 400.

Definition month_day (doy : Z) : Z * Z :=
  let mp := (5 * doy + 2) / 153 in
  (if mp <? 10 then mp + 3 else mp - 9, doy - (153 * mp + 2) / 5 + 1).

Lemma div_step a m : 0 < m → (a + 1) / m = a / m + (if (a + 1) mod m =? 0 then 1 else 0).
Proof.
  intros Hm. pose proof (Z.div_mod a m). pose proof (Z.div_mod (a + 1) m).
  pose proof (Z.mod_pos_bound a m). pose proof (Z.mod_pos_bound (a + 1) m).
  destruct (Z.eqb_spec ((a + 1) mod m) 0); nia.
Qed.

Lemma year_of_era_step doe : 0 ≤ doe → year_of_era doe ≤ year_of_era (doe + 1).
Proof.
  intros Hd. apply Z.div_le_mono; [lia|]. rewrite !div_step by lia.
  destruct (Z.eqb_spec ((doe + 1) mod 1460) 0), (Z.eqb_spec ((doe + 1) mod 36524) 0),
    (Z.eqb_spec ((doe + 1) mod 146096) 0) as [H|H]; try lia;
    assert ((doe + 1) mod 36524 = 0) by (apply Z.mod_divide in H as [k H]; [|done];
      rewrite H; replace (k * 146096) with (4 * k * 36524) by lia; by apply Z.mod_mul); lia.
Qed.

Lemma year_of_era_mono a b : 0 ≤ a ≤ b → year_of_era a ≤ year_of_era b.
Proof.
  intros [Ha Hab]. replace b with (a + Z.of_nat (Z.to_nat (b - a))) by lia.
  induction (Z.to_nat (b - a)) as [|n IH]; [by rewrite Z.add_0_r|].
  rewrite Nat2Z.inj_succ. replace (a + Z.succ (Z.of_nat n)) with (a + Z.of_nat n + 1) by lia.
  etrans; [exact IH|]. apply year_of_era_step. lia.
Qed.

Definition year_ok (y : Z) : bool :=
  bool_decide (year_of_era (year_start y) = y) && bool_decide (year_of_era (year_start (y + 1) - 1) = y) &&
  bool_decide (year_start (y + 1) - year_start y = if leap (y + 1) then 366 else 365).

(** From one day of the year to the next, in a common year; day 364 is
    February 28th. *)
Definition doy_ok (doy : Z) : bool :=
  let '(m, d) := month_day doy in let '(m', d') := month_day (doy + 1) in
  let carry := if (m =? 12) && (m' =? 1) then 1 else 0 in
  bool_decide ((if m' <=? 2 then 1 else 0) = (if m <=? 2 then 1 else 0) + carry) &&
  if bool_decide (doy = 364) then bool_decide (m = 2 ∧ d = 28 ∧ m' = 2 ∧ d' = 29)
  else bool_decide (next_date (2001, m, d) = (2001 + carry, m', d')) &&
       bool_decide (m ≠ 2 ∨ d < 28).

Fixpoint all_below (f : Z → bool) (n : nat) : bool :=
  match n with O => true | S n => f (Z.of_nat n) && all_below f n end.

Lemma all_below_spec f n x : all_below f n = true → 0 ≤ x < Z.of_nat n → f x = true.
Proof.
  induction n as [|n IH]; cbn [all_below]; [lia|]. intros [Hf H]%andb_true_iff Hx.
  destruct (decide (x = Z.of_nat n)) as [->|]; [done|]. apply IH; [done|lia].
Qed.

Lemma years_ok y : 0 ≤ y < 400 → year_ok y = true.
Proof. apply (all_below_spec year_ok 400). vm_compute. reflexivity. Qed.

Lemma doys_ok doy : 0 ≤ doy < 365 → doy_ok doy = true.
Proof. apply (all_below_spec doy_ok 365). vm_compute. reflexivity. Qed.

Lemma year_start_lt a b : 0 ≤ a → a < b → year_start a < year_start b.
Proof. intros. unfold year_start. Z.to_euclidean_division_equations. lia. Qed.

Lemma year_exists n doe : 0 ≤ doe < year_start (Z.of_nat n) →
  ∃ y, 0 ≤ y < Z.of_nat n ∧ year_start y ≤ doe < year_start (y + 1).
Proof.
  induction n as [|n IH]; intros [H0 Hd]; [change (year_start (Z.of_nat 0)) with 0 in Hd; lia|].
  rewrite Nat2Z.inj_succ in *. unfold Z.succ in *.
  destruct (Z.lt_ge_cases doe (year_start (Z.of_nat n))) as [Hlt|Hge].
  - destruct IH as (y & Hy & H); [done|]. exists y. split; [lia|done].
  - exists (Z.of_nat n). split; [lia|done].
Qed.

Lemma year_of_era_eq y doe :
  0 ≤ y < 400 → year_start y ≤ doe < year_start (y + 1) → year_of_era doe = y.
Proof.
  intros Hy Hd. pose proof (years_ok y Hy) as H. unfold year_ok in H.
  apply andb_true_iff in H as [ [H1%bool_decide_eq_true H2%bool_decide_eq_true]%andb_true_iff _].
  assert (0 ≤ year_start y) by (unfold year_start; Z.to_euclidean_division_equations; lia).
  pose proof (year_of_era_mono (year_start y) doe). pose proof (year_of_era_mono doe (year_start (y + 1) - 1)).
  lia.
Qed.

(** [civil] by era [era], year of the era [y] and day of the year [doy]. *)
Definition date_of (era y doy : Z) : Z * Z * Z :=
  let '(m, d) := month_day doy in (y + era * 400 + (if m <=? 2 then 1 else 0), m, d).

Lemma civil_parts d : ∃ y,
  0 ≤ y < 400 ∧ year_start y ≤ (d + 719468) mod 146097 < year_start (y + 1) ∧
  civil d = date_of ((d + 719468) / 146097) y ((d + 719468) mod 146097 - year_start y).
Proof.
  destruct (year_exists 400 ((d + 719468) mod 146097)) as (y & Hy & Hd).
  { change (year_start (Z.of_nat 400)) with 146097. apply Z.mod_pos_bound. lia. }
  exists y. split; [done|]. split; [done|]. pose proof (year_of_era_eq y _ Hy Hd) as Hyoe.
  unfold civil, date_of, month_day. fold (year_of_era ((d + 719468) mod 146097)). rewrite Hyoe.
  replace (year_start y) with (365 * y + y / 4 - y / 100); [done|].
  unfold year_start. rewrite (Z.div_small y 400) by lia. lia.
Qed.

Lemma next_date_year Y m d : (m ≠ 2 ∨ d < 28) →
  next_date (Y, m, d) = add_years (Y - 2001) (next_date (2001, m, d)).
Proof.
  intros Hm. unfold next_date, add_years.
  assert (Hmd : (d <? month_days Y m) = (d <? month_days 2001 m)).
  { unfold month_days. destruct (Z.eqb_spec m 2); [|done]. change (leap 2001) with false. destruct Hm; [done|].
    destruct (leap Y); lia. }
  rewrite Hmd. destruct (d <? month_days 2001 m), (m <? 12); cbn [fst snd]; f_equal; f_equal; lia.
Qed.

(** Within a year. *)
Lemma date_of_next era y doy :
  0 ≤ y < 400 → 0 ≤ doy → doy + 1 < year_start (y + 1) - year_start y →
  date_of era y (doy + 1) = next_date (date_of era y doy).
Proof.
  intros Hy Hd Hlt. pose proof (years_ok y Hy) as H. unfold year_ok in H.
  apply andb_true_iff in H as [_ Hlen%bool_decide_eq_true]. rewrite Hlen in Hlt.
  assert (Hd2 : 0 ≤ doy < 365) by (destruct (leap (y + 1)); lia).
  pose proof (doys_ok doy Hd2) as H. unfold doy_ok in H. unfold date_of.
  destruct (month_day doy) as [m d] eqn:E1, (month_day (doy + 1)) as [m' d'] eqn:E2.
  set (carry := if (m =? 12) && (m' =? 1) then 1 else 0) in *. cbv zeta in H.
  apply andb_true_iff in H as [H1%bool_decide_eq_true H]. destruct (decide (doy = 364)) as [->|Hne].
  - rewrite bool_decide_eq_true_2 in H by done. apply bool_decide_eq_true in H as (-> & -> & -> & ->).
    destruct (leap (y + 1)) eqn:Hl; [|lia]. unfold next_date, month_days.
    change (2 <=? 2) with true. change (2 =? 2) with true. cbv iota.
    replace (y + era * 400 + 1) with (y + 1 + 400 * era) by lia. by rewrite leap_era, Hl.
  - rewrite bool_decide_eq_false_2 in H by done.
    apply andb_true_iff in H as [H%bool_decide_eq_true Hm%bool_decide_eq_true].
    rewrite next_date_year, H by done. unfold add_years. cbn [fst snd]. f_equal. f_equal. lia.
Qed.

(** Into the next year: March 1st follows the last day of February. *)
Lemma date_of_new_year era y :
  0 ≤ y < 400 → date_of era (y + 1) 0 = next_date (date_of era y (year_start (y + 1) - year_start y - 1)).
Proof.
  intros Hy. pose proof (years_ok y Hy) as H. unfold year_ok in H.
  apply andb_true_iff in H as [_ ->%bool_decide_eq_true]. destruct (leap (y + 1)) eqn:Hl.
  - change (date_of era y (366 - 1)) with (y + era * 400 + 1, 2, 29). unfold next_date, month_days.
    change (2 =? 2) with true. cbv iota.
    replace (y + era * 400 + 1) with (y + 1 + 400 * era) by lia. rewrite leap_era, Hl.
    unfold date_of. simpl. f_equal. f_equal. lia.
  - change (date_of era y (365 - 1)) with (y + era * 400 + 1, 2, 28). unfold next_date, month_days.
    change (2 =? 2) with true. cbv iota.
    replace (y + era * 400 + 1) with (y + 1 + 400 * era) by lia. rewrite leap_era, Hl.
    unfold date_of. simpl. f_equal. f_equal. lia.
Qed.

Lemma year_unique y y' x :
  0 ≤ y → 0 ≤ y' → year_start y ≤ x < year_start (y + 1) → year_start y' ≤ x < year_start (y' + 1) → y = y'.
Proof.
  intros Hy Hy' Hx Hx'. destruct (Z.lt_trichotomy y y') as [Hlt|[->|Hlt] ]; [|done|].
  - destruct (decide (y' = y + 1)) as [->|]; [lia|]. pose proof (year_start_lt (y + 1) y'). lia.
  - destruct (decide (y = y' + 1)) as [->|]; [lia|]. pose proof (year_start_lt (y' + 1) y). lia.
Qed.

Lemma civil_next d : civil (d + 1) = next_date (civil d).
Proof.
  destruct (civil_parts d) as (y & Hy & Hd & ->). destruct (civil_parts (d + 1)) as (y' & Hy' & Hd' & ->).
  set (z := d + 719468) in *. replace (d + 1 + 719468) with (z + 1) in * by lia.
  pose proof (div_step z 146097 eq_refl) as Hdiv. pose proof (Z.div_mod z 146097) as Hz1.
  pose proof (Z.div_mod (z + 1) 146097) as Hz2. pose proof (Z.mod_pos_bound z 146097 eq_refl) as Hb.
  change 146097 with (year_start (399 + 1)) in Hb.
  destruct (Z.eqb_spec ((z + 1) mod 146097) 0) as [H0|H0].
  - assert (Hlast : z mod 146097 = year_start (399 + 1) - 1) by (change (year_start (399 + 1)) with 146097; lia).
    assert (year_start 399 < year_start (399 + 1)) by by vm_compute.
    rewrite Hlast in *. rewrite (year_unique y 399 (year_start (399 + 1) - 1)) by lia.
    rewrite H0 in *. rewrite (year_unique y' 0 0) by (done || lia). rewrite Hdiv.
    replace (year_start (399 + 1) - 1 - year_start 399) with (year_start (399 + 1) - year_start 399 - 1) by lia.
    rewrite <- date_of_new_year by lia. unfold date_of. simpl. f_equal. f_equal. lia.
  - assert (Hm : (z + 1) mod 146097 = z mod 146097 + 1) by lia. rewrite Hdiv, Hm, Z.add_0_r in *.
    destruct (Z.lt_ge_cases (z mod 146097 + 1) (year_start (y + 1))) as [Hlt|Hge].
    + rewrite (year_unique y' y (z mod 146097 + 1)) by lia.
      replace (z mod 146097 + 1 - year_start y) with (z mod 146097 - year_start y + 1) by lia.
      apply date_of_next; lia.
    + pose proof (year_start_lt (y + 1) (y + 1 + 1)).
      rewrite (year_unique y' (y + 1) (z mod 146097 + 1)) by lia.
      replace (z mod 146097 + 1 - year_start (y + 1)) with 0 by lia.
      replace (z mod 146097 - year_start y) with (year_start (y + 1) - year_start y - 1) by lia.
      by apply date_of_new_year.
Qed.

(** Dates in order. *)
Definition date_lt (a b : Z * Z * Z) : Prop :=
  a.1.1 < b.1.1 ∨ (a.1.1 = b.1.1 ∧ (a.1.2 < b.1.2 ∨ (a.1.2 = b.1.2 ∧ a.2 < b.2))).

Lemma next_date_lt a : date_lt a (next_date a).
Proof.
  destruct a as [ [y m] d]. unfold date_lt, next_date.
  destruct (d <? month_days y m); [|destruct (m <? 12)]; cbn [fst snd]; lia.
Qed.

Lemma civil_lt a b : a < b → date_lt (civil a) (civil b).
Proof.
  intros Hab. replace b with (a + 1 + Z.of_nat (Z.to_nat (b - a - 1))) by lia.
  induction (Z.to_nat (b - a - 1)) as [|n IH].
  - rewrite Z.add_0_r, civil_next. apply next_date_lt.
  - rewrite Nat2Z.inj_succ. unfold Z.succ. rewrite !Z.add_assoc, civil_next.
    pose proof (next_date_lt (civil (a + 1 + Z.of_nat n))) as H. unfold date_lt in *. lia.
Qed.

Lemma civil_inj a b : civil a = civil b → a = b.
Proof.
  intros H. destruct (Z.lt_trichotomy a b) as [Hlt%civil_lt|[?|Hlt%civil_lt] ]; [|done|];
    rewrite H in Hlt; unfold date_lt in Hlt; lia.
Qed.

Definition month_ok (doy : Z) : bool :=
  let '(m, d) := month_day doy in (1 <=? m) && (m <=? 12) && (1 <=? d) && (d <=? 31).

Lemma civil_range d : let '(_, m, day) := civil d in 1 ≤ m ≤ 12 ∧ 1 ≤ day ≤ 31.
Proof.
  destruct (civil_parts d) as (y & Hy & Hd & ->). unfold date_of.
  pose proof (years_ok y Hy) as H. unfold year_ok in H. apply andb_true_iff in H as [_ Hl%bool_decide_eq_true].
  assert (month_ok ((d + 719468) mod 146097 - year_start y) = true) as Hm.
  { apply (all_below_spec month_ok 366); [by vm_compute|]. destruct (leap (y + 1)); lia. }
  unfold month_ok in Hm. destruct (month_day _) as [m day]. lia.
Qed.

(** ** Lemmas on numbers in names *)

Lemma parse_digits_digits c s acc n :
  parse_digits acc s = Some n → digit_value c = None → contains_byte c s = false.
Proof.
  intros H Hc. revert acc H. induction s as [|x s IH]; intros acc; cbn [parse_digits contains_byte]; [done|].
  destruct (digit_value x) as [v|] eqn:Hx; [|done]. intros H.
  rewrite bool_decide_eq_false_2 by congruence. by eapply IH.
Qed.

Lemma pretty_Z_nonneg n : 0 ≤ n → pretty n = pretty (Z.to_N n).
Proof. by destruct n. Qed.

Lemma pretty_no_byte c n : 0 ≤ n → digit_value c = None → contains_byte c (pretty n) = false.
Proof. intros Hn Hc. rewrite pretty_Z_nonneg by done. eapply parse_digits_digits; [apply parse_pretty|done]. Qed.

Lemma parse_zeros k s : parse_digits 0 (zeros k +:+ s) = parse_digits 0 s.
Proof. unfold zeros. induction k as [|k IH]; [done|]. simpl. rewrite <- IH. done. Qed.

Lemma parse_pad w n : 0 ≤ n → parse_digits 0 (pad w n) = Some (Z.to_N n).
Proof.
  intros Hn. unfold pad. destruct (Z.ltb_spec n 0); [lia|]. rewrite parse_zeros, pretty_Z_nonneg by done.
  apply parse_pretty.
Qed.

Lemma pad_inj w a b : pad w a = pad w b → a = b.
Proof.
  assert (Hdash : ∀ x y, parse_digits 0 (pad w x) ≠ None → y < 0 → pad w x ≠ pad w y).
  { intros x y Hx Hy Heq. rewrite Heq in Hx. unfold pad in Hx. destruct (Z.ltb_spec y 0); [|lia]. by apply Hx. }
  intros H. destruct (Z.lt_ge_cases a 0) as [Ha|Ha], (Z.lt_ge_cases b 0) as [Hb|Hb].
  - unfold pad in H. destruct (Z.ltb_spec a 0), (Z.ltb_spec b 0); try lia.
    apply (sapp_inj_l "-") in H. apply (f_equal (parse_digits 0)) in H.
    rewrite !parse_zeros, !pretty_Z_nonneg, !parse_pretty in H by lia. injection H. lia.
  - symmetry in H. apply Hdash in H; [done| |done]. by rewrite parse_pad.
  - apply Hdash in H; [done| |done]. by rewrite parse_pad.
  - apply (f_equal (parse_digits 0)) in H. rewrite !parse_pad in H by done. injection H. lia.
Qed.

Definition months_distinct (a : Z) : bool :=
  negb (contains_byte " " (Month_String (a + 1))) &&
  all_below (λ b, bool_decide (a = b) || negb (bool_decide (Month_String (a + 1) = Month_String (b + 1)))) 12.

Lemma months_ok a : 1 ≤ a ≤ 12 → months_distinct (a - 1) = true.
Proof. intros. apply (all_below_spec months_distinct 12); [by vm_compute|lia]. Qed.

Lemma Month_String_no_space a : 1 ≤ a ≤ 12 → contains_byte " " (Month_String a) = false.
Proof.
  intros Ha. pose proof (months_ok a Ha) as H. unfold months_distinct in H.
  apply andb_true_iff in H as [H%negb_true_iff _]. by rewrite Z.sub_add in H.
Qed.

Lemma Month_String_inj a b : 1 ≤ a ≤ 12 → 1 ≤ b ≤ 12 → Month_String a = Month_String b → a = b.
Proof.
  intros Ha Hb Heq. pose proof (months_ok a Ha) as H. unfold months_distinct in H.
  apply andb_true_iff in H as [_ H]. apply (all_below_spec _ _ (b - 1)) in H; [|lia].
  rewrite !Z.sub_add in H. apply orb_true_iff in H as [H%bool_decide_eq_true|H]; [lia|].
  apply negb_true_iff, bool_decide_eq_false in H. done.
Qed.

(** ** The calendar's rules *)

(** The calendar: day 0 is the 1st of January 1970, and the date of every
    following day (before or after) is the next one by the Gregorian month
    lengths and leap years. *)
Theorem civil_calendar : civil 0 = (1970, 1, 1) ∧ ∀ d, civil (d + 1) = next_date (civil d).
Proof. split; [by vm_compute|apply civil_next]. Qed.
