(* ===== verification/Times.v ===== *)
(** * time.Time: zones, the layouts RFC1123 and RFC3339, and JSON

    What internal/handler uses of Go's time package beyond the calendar:
    printing the date of a message, and the text form in which a time crosses
    from the render stage to the upload stage. *)
From S2P Require Import Prelude GoStrings Utf8 Calendar.
Local Open Scope Z_scope.

(** A time: nanoseconds since 1970 UTC, and the zone it is shown in (seconds
    east of UTC, abbreviation). *)
Record Time := mk_Time { t_ns : Z; t_off : Z; t_zone : string }.

Definition UTC (ns : Z) : Time := mk_Time ns 0 "UTC".

(** January 1, year 1, 00:00 UTC *)
Definition zero_ns : Z := - 62135596800 * 1000000000.
Definition zero_time : Time := UTC zero_ns.
Definition IsZero (t : Time) : bool := t_ns t =? zero_ns.

(** ** The clock a time shows in its zone *)

Definition local_ns (t : Time) : Z := t_ns t + t_off t * 1000000000.
Definition day_secs (t : Time) : Z := local_ns t mod day_ns / 1000000000.
Definition t_date (t : Time) : Z * Z * Z := civil (local_ns t / day_ns).
Definition t_hour (t : Time) : Z := day_secs t / 3600.
Definition t_min (t : Time) : Z := day_secs t / 60 mod 60.
Definition t_sec (t : Time) : Z := day_secs t mod 60.
Definition t_frac (t : Time) : Z := local_ns t mod 1000000000.

(** ** RFC1123: "Mon, 02 Jan 2006 15:04:05 MST" *)

Definition abbreviation (s : string) : string := String.substring 0 3 s.

Definition zone_text (t : Time) : string :=
  if decide (t_zone t = EmptyString) then
    let z := Z.quot (t_off t) 60 in
    (if z <? 0 then "-" else "+") +:+ pad 2 (Z.abs z / 60) +:+ pad 2 (Z.abs z mod 60)
  else t_zone t.

Definition Format_RFC1123 (t : Time) : string :=
  let '(y, m, d) := t_date t in
  abbreviation (Weekday_String (weekday (local_ns t / day_ns))) +:+ ", " +:+ pad 2 d +:+ " " +:+
  abbreviation (Month_String m) +:+ " " +:+ pad 4 y +:+ " " +:+ pad 2 (t_hour t) +:+ ":" +:+
  pad 2 (t_min t) +:+ ":" +:+ pad 2 (t_sec t) +:+ " " +:+ zone_text t.

(** ** RFC3339 with nanoseconds *)

(** The [w] low decimal digits; what appendInt writes for 0 <= n < 10^w. *)
Definition digit_char (d : Z) : ascii := ascii_of_N (48 + Z.to_N d).
Fixpoint digits (w : nat) (n : Z) : bytes :=
  match w with O => [] | S w => digits w (n / 10) ++ [digit_char (n mod 10)] end.

Definition is_zero_digit (c : ascii) : bool := bool_decide (c = "0"%char).

Definition frac_text (ns : Z) : bytes :=
  if ns =? 0 then [] else "."%char :: trim_right is_zero_digit (digits 9 ns).

Definition offset_text (off : Z) : bytes :=
  if off =? 0 then ["Z"%char]
  else let z := Z.quot off 60 in
    (if z <? 0 then "-"%char else "+"%char) :: digits 2 (Z.abs z / 60) ++ ":"%char :: digits 2 (Z.abs z mod 60).

(** Time.MarshalJSON, without the quotes: a year of more than four digits or
    an offset of a day or more has no RFC 3339 form. *)
Definition MarshalTime (t : Time) : result bytes :=
  let '(y, m, d) := t_date t in
  if (y <? 0) || (9999 <? y) then Err (EText "Time.MarshalJSON: year outside of range [0,9999]")
  else if 24 <=? Z.abs (Z.quot (t_off t) 60) / 60 then
    Err (EText "Time.MarshalJSON: timezone hour outside of range [0,23]")
  else Ok (digits 4 y ++ "-"%char :: digits 2 m ++ "-"%char :: digits 2 d ++ "T"%char ::
    digits 2 (t_hour t) ++ ":"%char :: digits 2 (t_min t) ++ ":"%char :: digits 2 (t_sec t) ++
    frac_text (t_frac t) ++ offset_text (t_off t)).

(** ** Parsing *)

Fixpoint num_from (acc : Z) (l : bytes) : option Z :=
  match l with
  | [] => Some acc
  | c :: l => d ← digit_value c; num_from (acc * 10 + Z.of_N d) l
  end.

(** parseUint of a field with its range *)
Definition field (lo hi : Z) (l : bytes) : option Z :=
  n ← num_from 0 l; if (lo <=? n) && (n <=? hi) then Some n else None.

Definition is_digit (c : ascii) : bool := match digit_value c with Some _ => true | None => false end.

Fixpoint span_digits (l : bytes) : bytes * bytes :=
  match l with
  | c :: l' => if is_digit c then let '(a, b) := span_digits l' in (c :: a, b) else ([], l)
  | [] => ([], [])
  end.

(** The fractional second, in nanoseconds: further digits are dropped. *)
Definition parse_frac (l : bytes) : Z * bytes :=
  match l with
  | "."%char :: l' =>
      match span_digits l' with
      | ([], _) => (0, l)
      | (ds, rest) =>
          let ds := take 9 ds in
          (default 0 (num_from 0 ds) * 10 ^ (9 - Z.of_nat (length ds)), rest)
      end
  | _ => (0, l)
  end.

Definition parse_offset (l : bytes) : option Z :=
  match l with
  | ["Z"%char] => Some 0
  | [s; h1; h2; c; m1; m2] =>
      hr ← field 0 23 [h1; h2];
      mm ← field 0 59 [m1; m2];
      if decide (c = ":"%char) then
        if decide (s = "-"%char) then Some (- ((hr * 60 + mm) * 60))
        else if decide (s = "+"%char) then Some ((hr * 60 + mm) * 60) else None
      else None
  | _ => None
  end.

(** The day number of a date: time.Date. *)
Definition days_of (y m d : Z) : Z :=
  let y := if m <=? 2 then y - 1 else y in
  let yoe := y mod 400 in
  let doy := (153 * ((m + 9) mod 12) + 2) / 5 + d - 1 in
  y / 400 * 146097 + (365 * yoe + yoe / 4 - yoe / 100 + doy) - 719468.

(** time.parseRFC3339 *)
Definition parseRFC3339 (l : bytes) : option Time :=
  match l with
  | y1 :: y2 :: y3 :: y4 :: c1 :: o1 :: o2 :: c2 :: d1 :: d2 :: c3 :: h1 :: h2 :: c4 :: m1 :: m2 :: c5 ::
      s1 :: s2 :: rest =>
      y ← field 0 9999 [y1; y2; y3; y4];
      m ← field 1 12 [o1; o2];
      d ← field 1 (month_days y m) [d1; d2];
      h ← field 0 23 [h1; h2];
      mi ← field 0 59 [m1; m2];
      s ← field 0 59 [s1; s2];
      if decide (c1 = "-"%char ∧ c2 = "-"%char ∧ c3 = "T"%char ∧ c4 = ":"%char ∧ c5 = ":"%char) then
        let '(ns, rest) := parse_frac rest in
        off ← parse_offset rest;
        Some (mk_Time ((days_of y m d * 86400 + h * 3600 + mi * 60 + s - off) * 1000000000 + ns) off
          (if off =? 0 then "UTC" else EmptyString))
      else None
  | _ => None
  end.

(** ** Lemmas on digits *)

Lemma digit_value_of d : 0 ≤ d < 10 → digit_value (digit_char d) = Some (Z.to_N d).
Proof.
  intros Hd. assert (d = 0 ∨ d = 1 ∨ d = 2 ∨ d = 3 ∨ d = 4 ∨ d = 5 ∨ d = 6 ∨ d = 7 ∨ d = 8 ∨ d = 9) as H by lia.
  by repeat (destruct H as [->|H]; [done|]); subst.
Qed.

Lemma digits_length w n : length (digits w n) = w.
Proof. revert n. induction w as [|w IH]; intros n; simpl; [done|]. rewrite length_app, IH. simpl. lia. Qed.

Lemma num_from_app acc l1 l2 : num_from acc (l1 ++ l2) = n ← num_from acc l1; num_from n l2.
Proof.
  revert acc. induction l1 as [|c l1 IH]; intros acc; simpl; [done|].
  destruct (digit_value c); simpl; [apply IH|done].
Qed.

Lemma num_digits w n acc :
  0 ≤ n < 10 ^ Z.of_nat w → num_from acc (digits w n) = Some (acc * 10 ^ Z.of_nat w + n).
Proof.
  revert n. induction w as [|w IH]; intros n Hn; [simpl; f_equal; lia|].
  rewrite Nat2Z.inj_succ, Z.pow_succ_r in * by lia. cbn [digits].
  pose proof (Z.div_mod n 10). pose proof (Z.mod_pos_bound n 10).
  rewrite num_from_app, IH by lia. cbn [mbind option_bind num_from].
  rewrite digit_value_of by lia. cbn. f_equal. lia.
Qed.

Lemma field_digits w n lo hi :
  0 ≤ n < 10 ^ Z.of_nat w → lo ≤ n ≤ hi → field lo hi (digits w n) = Some n.
Proof.
  intros Hn Hr. unfold field. rewrite num_digits by done. cbn [mbind option_bind].
  rewrite Z.mul_0_l, Z.add_0_l. destruct ((lo <=? n) && (n <=? hi)) eqn:E; [done|lia].
Qed.

Lemma digits_all w n : 0 ≤ n → Forall (λ c, is_digit c = true) (digits w n).
Proof.
  revert n. induction w as [|w IH]; intros n Hn; [by constructor|]. cbn [digits].
  apply Forall_app. split; [apply IH, Z.div_pos; lia|]. constructor; [|constructor].
  unfold is_digit. rewrite digit_value_of; [done|]. apply Z.mod_pos_bound. lia.
Qed.

Lemma span_digits_app l rest :
  Forall (λ c, is_digit c = true) l → match rest with [] => True | c :: _ => is_digit c = false end →
  span_digits (l ++ rest) = (l, rest).
Proof.
  intros Hl Hr. induction Hl as [|c l Hc _ IH]; cbn [app span_digits].
  - destruct rest as [|c rest]; [done|]. simpl. by rewrite Hr.
  - by rewrite Hc, IH.
Qed.

Lemma num_from_trim acc l n :
  num_from acc l = Some n → let k := trim_right is_zero_digit l in
  ∃ v, num_from acc k = Some v ∧ n = v * 10 ^ (Z.of_nat (length l) - Z.of_nat (length k)).
Proof.
  intros Hn. cbv zeta. destruct (trim_right_prefix is_zero_digit l) as (b & Hl & Hb).
  set (k := trim_right is_zero_digit l) in *. rewrite Hl in Hn. rewrite num_from_app in Hn.
  destruct (num_from acc k) as [v|]; [|done]. cbn in Hn. exists v. split; [done|].
  assert (Hlen : Z.of_nat (length l) - Z.of_nat (length k) = Z.of_nat (length b)).
  { apply (f_equal length) in Hl. rewrite length_app in Hl. lia. }
  rewrite Hlen. clear -Hn Hb. revert v Hn. induction Hb as [|c b Hc _ IH]; intros v; simpl num_from.
  - intros [= <-]. simpl. lia.
  - unfold is_zero_digit in Hc. apply bool_decide_eq_true in Hc as ->.
    cbn [mbind option_bind]. change (digit_value "0") with (Some 0%N). cbn [mbind option_bind Z.of_N].
    rewrite Z.add_0_r. intros ->%IH. cbn [length]. rewrite Nat2Z.inj_succ, Z.pow_succ_r by lia. ring.
Qed.

Lemma parse_frac_text ns rest :
  0 ≤ ns < 1000000000 → match rest with [] => False | c :: _ => is_digit c = false ∧ c ≠ "."%char end →
  parse_frac (frac_text ns ++ rest) = (ns, rest).
Proof.
  intros Hns Hrest. unfold frac_text. destruct (Z.eqb_spec ns 0) as [->|Hne].
  { destruct rest as [|c rest]; [done|]. destruct Hrest as [_ Hc]. cbn [app parse_frac].
    destruct c as [ [] [] [] [] [] [] [] []]; done. }
  pose proof (num_digits 9 ns 0 Hns) as Hn. rewrite Z.mul_0_l, Z.add_0_l in Hn.
  destruct (num_from_trim _ _ _ Hn) as (v & Hv & Heq). rewrite digits_length in Heq.
  set (ds := trim_right is_zero_digit (digits 9 ns)) in *.
  assert (Hlen : (length ds ≤ 9)%nat).
  { destruct (trim_right_prefix is_zero_digit (digits 9 ns)) as (b & Hl & _).
    apply (f_equal length) in Hl. rewrite length_app, digits_length in Hl. fold ds in Hl. lia. }
  cbn [app parse_frac]. rewrite span_digits_app.
  - destruct ds as [|c ds'] eqn:Hds; [simpl in Hv; injection Hv as <-; lia|].
    rewrite take_ge by done. rewrite Hv. cbn [default]. by rewrite Heq.
  - destruct (trim_right_prefix is_zero_digit (digits 9 ns)) as (b & Hl & _). fold ds in Hl.
    assert (Hall := digits_all 9 ns ltac:(lia)). rewrite Hl in Hall. by apply Forall_app in Hall as [? _].
  - destruct rest; [done|]. apply Hrest.
Qed.

(** ** Lemmas on dates *)

Definition doy_back (doy : Z) : bool :=
  let '(m, d) := month_day doy in
  ((153 * ((m + 9) mod 12) + 2) / 5 + d - 1 =? doy) && (1 <=? m) && (m <=? 12) && (1 <=? d) &&
  (d <=? month_days (if doy =? 365 then 2000 else 2001) m).

Lemma doys_back doy : 0 ≤ doy < 366 → doy_back doy = true.
Proof. apply (all_below_spec doy_back 366). by vm_compute. Qed.

Lemma days_of_date_of era y doy :
  0 ≤ y < 400 → 0 ≤ doy < 366 →
  let '(Y, m, d) := date_of era y doy in days_of Y m d = era * 146097 + year_start y + doy - 719468.
Proof.
  intros Hy Hd. pose proof (doys_back doy Hd) as H. unfold doy_back, date_of in *.
  destruct (month_day doy) as [m d]. unfold days_of.
  replace (if m <=? 2 then y + era * 400 + (if m <=? 2 then 1 else 0) - 1
    else y + era * 400 + (if m <=? 2 then 1 else 0)) with (y + era * 400) by (destruct (m <=? 2); lia).
  rewrite Z.div_add, Z.mod_add, Z.div_small, Z.mod_small by lia. unfold year_start.
  rewrite (Z.div_small y 400) by lia. lia.
Qed.

Lemma date_of_days era y doy :
  0 ≤ y < 400 → 0 ≤ doy < year_start (y + 1) - year_start y →
  let '(Y, m, d) := date_of era y doy in 1 ≤ m ≤ 12 ∧ 1 ≤ d ≤ month_days Y m.
Proof.
  intros Hy Hd. pose proof (years_ok y Hy) as Hl. unfold year_ok in Hl.
  apply andb_true_iff in Hl as [_ Hl%bool_decide_eq_true].
  assert (Hd2 : 0 ≤ doy < 366) by (destruct (leap (y + 1)); lia).
  pose proof (doys_back doy Hd2) as H.
  assert (Hfeb : doy = 365 → month_day doy = (2, 29) ∧ leap (y + 1) = true).
  { intros ->. split; [done|]. destruct (leap (y + 1)); [done|lia]. }
  unfold doy_back, date_of in *. destruct (month_day doy) as [m d]. split; [lia|]. split; [lia|].
  destruct (Z.eqb_spec doy 365) as [Heq|_].
  - destruct (Hfeb Heq) as [ [= -> ->] Hleap]. unfold month_days. simpl.
    replace (y + era * 400 + 1) with (y + 1 + 400 * era) by lia. by rewrite leap_era, Hleap.
  - assert (month_days 2001 m ≤ month_days (y + era * 400 + (if m <=? 2 then 1 else 0)) m); [|lia].
    unfold month_days. destruct (m =? 2); [|done]. change (leap 2001) with false. cbv iota.
    by destruct (leap (y + era * 400 + _)).
Qed.

(** Dates and day numbers determine each other. *)
Lemma days_of_civil d : let '(y, m, day) := civil d in
  days_of y m day = d ∧ 1 ≤ m ≤ 12 ∧ 1 ≤ day ≤ month_days y m.
Proof.
  destruct (civil_parts d) as (y & Hy & Hd & ->).
  assert (Hdoy : 0 ≤ (d + 719468) mod 146097 - year_start y < year_start (y + 1) - year_start y) by lia.
  pose proof (date_of_days ((d + 719468) / 146097) y _ Hy Hdoy) as Hr.
  pose proof (years_ok y Hy) as Hl. unfold year_ok in Hl.
  apply andb_true_iff in Hl as [_ Hl%bool_decide_eq_true].
  assert (Hd2 : 0 ≤ (d + 719468) mod 146097 - year_start y < 366) by (destruct (leap (y + 1)); lia).
  pose proof (days_of_date_of ((d + 719468) / 146097) y _ Hy Hd2) as Hdays.
  destruct (date_of _ _ _) as [ [Y m] day]. split; [|done]. rewrite Hdays.
  pose proof (Z.div_mod (d + 719468) 146097). lia.
Qed.

Lemma offset_text_head off :
  match offset_text off with [] => False | c :: _ => is_digit c = false ∧ c ≠ "."%char end.
Proof. unfold offset_text. destruct (off =? 0); [done|]. by destruct (Z.quot off 60 <? 0). Qed.

Lemma parse_offset_text off :
  off mod 60 = 0 → Z.abs (Z.quot off 60) / 60 < 24 → parse_offset (offset_text off) = Some off.
Proof.
  intros H60 H24. unfold offset_text. destruct (Z.eqb_spec off 0) as [->|Hne]; [done|].
  assert (Hq : off = 60 * Z.quot off 60).
  { apply Z.quot_exact; [done|]. rewrite Z.rem_mod by done. apply Z.mod_divide in H60 as [k ->]; [|done]. 
    rewrite Z.abs_mul. change (Z.abs 60) with 60. rewrite Z.mod_mul by done. by rewrite Z.mul_0_r. }
  set (z := Z.quot off 60) in *. pose proof (Z.div_mod (Z.abs z) 60) as Hz.
  pose proof (Z.mod_pos_bound (Z.abs z) 60 eq_refl) as Hm. pose proof (Z.div_pos (Z.abs z) 60).
  assert (Hh := field_digits 2 (Z.abs z / 60) 0 23 ltac:(simpl; lia) ltac:(lia)).
  assert (Hmm := field_digits 2 (Z.abs z mod 60) 0 59 ltac:(simpl; lia) ltac:(lia)).
  pose proof (digits_length 2 (Z.abs z / 60)) as L1. pose proof (digits_length 2 (Z.abs z mod 60)) as L2.
  destruct (digits 2 (Z.abs z / 60)) as [|h1 [|h2 [|] ] ]; try done.
  destruct (digits 2 (Z.abs z mod 60)) as [|m1 [|m2 [|] ] ]; try done.
  cbn [app]. unfold parse_offset. destruct (Z.ltb_spec z 0) as [Hneg|Hpos];
    rewrite Hh, Hmm; cbn [mbind option_bind]; rewrite (decide_True (P := ":"%char = ":"%char)) by done.
  - rewrite decide_True by done. f_equal. lia.
  - rewrite decide_False, decide_True by done. f_equal. lia.
Qed.

(** ** The text of a time gives the time back *)

Lemma clock_ranges t :
  0 ≤ t_hour t ≤ 23 ∧ 0 ≤ t_min t ≤ 59 ∧ 0 ≤ t_sec t ≤ 59 ∧ 0 ≤ t_frac t < 1000000000.
Proof. unfold t_hour, t_min, t_sec, t_frac, day_secs, day_ns. Z.to_euclidean_division_equations. lia. Qed.

Lemma clock_sum t :
  (local_ns t / day_ns * 86400 + t_hour t * 3600 + t_min t * 60 + t_sec t) * 1000000000 + t_frac t = local_ns t.
Proof. unfold t_hour, t_min, t_sec, t_frac, day_secs, day_ns. Z.to_euclidean_division_equations. lia. Qed.

Lemma month_days_le y m : month_days y m ≤ 31.
Proof. unfold month_days. destruct (m =? 2), (leap y); simpl; try lia; destruct (_ || _); lia. Qed.

(** The text of a time: every field parses back. *)
Lemma MarshalTime_parse t s :
  MarshalTime t = Ok s → t_off t mod 60 = 0 →
  ∃ z, parseRFC3339 s = Some (mk_Time (t_ns t) (t_off t) z).
Proof.
  unfold MarshalTime, t_date. pose proof (days_of_civil (local_ns t / day_ns)) as Hdate.
  destruct (civil _) as [ [y m] d] eqn:Hciv. destruct Hdate as (Hdays & Hm & Hd).
  destruct ((y <? 0) || (9999 <? y)) eqn:Hy; [done|].
  destruct (Z.leb_spec 24 (Z.abs (Z.quot (t_off t) 60) / 60)) as [|Hoff]; [done|].
  intros [= <-] H60. pose proof (clock_ranges t) as (Hh & Hmi & Hs & Hf). pose proof (month_days_le y m).
  assert (F1 := field_digits 4 y 0 9999 ltac:(simpl; lia) ltac:(lia)).
  assert (F2 := field_digits 2 m 1 12 ltac:(simpl; lia) ltac:(lia)).
  assert (F3 := field_digits 2 d 1 (month_days y m) ltac:(simpl; lia) ltac:(lia)).
  assert (F4 := field_digits 2 (t_hour t) 0 23 ltac:(simpl; lia) ltac:(lia)).
  assert (F5 := field_digits 2 (t_min t) 0 59 ltac:(simpl; lia) ltac:(lia)).
  assert (F6 := field_digits 2 (t_sec t) 0 59 ltac:(simpl; lia) ltac:(lia)).
  cbn [digits app] in F1, F2, F3, F4, F5, F6.
  eexists. cbn [digits app parseRFC3339]. rewrite F1. cbn [mbind option_bind]. rewrite F2.
  cbn [mbind option_bind]. rewrite F3, F4, F5, F6. cbn [mbind option_bind].
  rewrite decide_True, parse_frac_text by (done || apply offset_text_head).
  rewrite parse_offset_text by done. cbn [mbind option_bind]. f_equal. f_equal. rewrite Hdays.
  pose proof (clock_sum t). unfold local_ns in *. lia.
Qed.

(** The time a message's metadata carries from the render stage to the
    upload stage arrives unchanged, to the nanosecond and in every zone with
    whole minutes; only years beyond four digits and offsets of a day or more
    have no text. *)
Theorem time_roundtrip t : t_off t mod 60 = 0 →
  match MarshalTime t with
  | Ok s => ∃ z, parseRFC3339 s = Some (mk_Time (t_ns t) (t_off t) z)
  | Err _ => (t_date t).1.1 < 0 ∨ 9999 < (t_date t).1.1 ∨ 86400 ≤ Z.abs (t_off t)
  end.
Proof.
  intros H60. destruct (MarshalTime t) as [s|e] eqn:Hm; [by apply MarshalTime_parse|].
  unfold MarshalTime in Hm. destruct (t_date t) as [ [y m] d]. cbn [fst snd].
  destruct ((y <? 0) || (9999 <? y)) eqn:Hy; [lia|].
  destruct (Z.leb_spec 24 (Z.abs (Z.quot (t_off t) 60) / 60)); [|done]. right. right.
  Z.to_euclidean_division_equations. lia.
Qed.

(** ** Witnesses *)

Definition test_time : Time := mk_Time 1709290445120000000 (- 18000) "EST".

Example test_time_text :
  of_bytes <$> (match MarshalTime test_time with Ok s => Some s | Err _ => None end) =
    Some "2024-03-01T05:54:05.12-05:00" ∧
  Format_RFC1123 test_time = "Fri, 01 Mar 2024 05:54:05 EST".
Proof. split; vm_compute; reflexivity. Qed.

Lemma time_roundtrip_witness : ∃ z,
  parseRFC3339 (to_bytes "2024-03-01T05:54:05.12-05:00") = Some (mk_Time 1709290445120000000 (- 18000) z).
Proof. exact (time_roundtrip test_time eq_refl). Defined.
