(* ===== verification/Json.v ===== *)
(** * encoding/json: what the handlers read and write

    The syntax of JSON texts (with Go's nesting limit), the quoting of strings
    by json.Marshal and their unquoting by json.Unmarshal, and how
    json.Unmarshal finds the field of a struct for a key. *)
From S2P Require Import Prelude GoStrings Utf8 Calendar Times.
Local Open Scope Z_scope.

#[local] Unset Elimination Schemes.

(** A JSON value; strings and numbers as they are written. *)
Inductive json :=
| JNull
| JBool (b : bool)
| JNum (lit : bytes)
| JStr (raw : bytes)
| JArr (l : list json)
| JObj (l : list (bytes * json)).

(** ** Tokens *)

Definition dquote : ascii := "034".
Definition backslash : ascii := "\".

Definition is_ws (c : ascii) : bool :=
  bool_decide (c ∈ [" "; "009"; "010"; "013"]%char).
Definition skip_ws (l : bytes) : bytes := trim_left is_ws l.

Definition hex_value (c : ascii) : option N :=
  let n := N_of_ascii c in
  if (48 <=? n)%N && (n <=? 57)%N then Some (n - 48)%N
  else if (97 <=? n)%N && (n <=? 102)%N then Some (n - 87)%N
  else if (65 <=? n)%N && (n <=? 70)%N then Some (n - 55)%N else None.
Definition is_hex (c : ascii) : bool := match hex_value c with Some _ => true | None => false end.

Definition simple_escape (c : ascii) : bool :=
  bool_decide (c ∈ [dquote; backslash; "/"; "b"; "f"; "n"; "r"; "t"]%char).

(** The text of a string up to the closing quote, and the rest. *)
Fixpoint string_lit (l : bytes) : option (bytes * bytes) :=
  match l with
  | [] => None
  | c :: l =>
      if decide (c = dquote) then Some ([], l)
      else if (N_of_ascii c <? 32)%N then None
      else if decide (c = backslash) then
        match l with
        | [] => None
        | e :: l =>
            if simple_escape e then '(s, rest) ← string_lit l; Some (c :: e :: s, rest)
            else if decide (e = "u"%char) then
              match l with
              | h1 :: h2 :: h3 :: h4 :: l =>
                  if is_hex h1 && is_hex h2 && is_hex h3 && is_hex h4
                  then '(s, rest) ← string_lit l; Some (c :: e :: h1 :: h2 :: h3 :: h4 :: s, rest)
                  else None
              | _ => None
              end
            else None
        end
      else '(s, rest) ← string_lit l; Some (c :: s, rest)
  end.

(** A number: sign, integer part without leading zeros, fraction, exponent. *)
Definition int_lit (l : bytes) : option (bytes * bytes) :=
  match l with
  | "0"%char :: l => Some (["0"%char], l)
  | _ => match span_digits l with ([], _) => None | p => Some p end
  end.

Definition frac_lit (l : bytes) : option (bytes * bytes) :=
  match l with
  | "."%char :: l => match span_digits l with ([], _) => None | (ds, l) => Some ("."%char :: ds, l) end
  | _ => Some ([], l)
  end.

Definition exp_lit (l : bytes) : option (bytes * bytes) :=
  match l with
  | c :: l' =>
      if decide (c = "e"%char ∨ c = "E"%char) then
        let '(sign, l'') := match l' with
          | "+"%char :: t => (["+"%char], t) | "-"%char :: t => (["-"%char], t) | _ => ([], l') end in
        match span_digits l'' with ([], _) => None | (ds, t) => Some (c :: sign ++ ds, t) end
      else Some ([], l)
  | [] => Some ([], l)
  end.

Definition number_lit (l : bytes) : option (bytes * bytes) :=
  let '(sign, l) := match l with "-"%char :: l => (["-"%char], l) | _ => ([], l) end in
  '(i, l) ← int_lit l;
  '(f, l) ← frac_lit l;
  '(e, l) ← exp_lit l;
  Some (sign ++ i ++ f ++ e, l).

Fixpoint strip (p l : bytes) : option bytes :=
  match p, l with
  | [], _ => Some l
  | a :: p, b :: l => if decide (a = b) then strip p l else None
  | _, [] => None
  end.

(** ** Values *)

Section containers.
Context (value : bytes → option (json * bytes)).

(** After the opening bracket or a comma. *)
Fixpoint elements (fuel : nat) (l : bytes) : option (list json * bytes) :=
  match fuel with
  | O => None
  | S fuel =>
      '(v, l) ← value l;
      match skip_ws l with
      | ","%char :: l => '(vs, l) ← elements fuel l; Some (v :: vs, l)
      | "]"%char :: l => Some ([v], l)
      | _ => None
      end
  end.

Fixpoint members (fuel : nat) (l : bytes) : option (list (bytes * json) * bytes) :=
  match fuel with
  | O => None
  | S fuel =>
      match skip_ws l with
      | c :: l =>
          if decide (c = dquote) then
            '(k, l) ← string_lit l;
            match skip_ws l with
            | ":"%char :: l =>
                '(v, l) ← value l;
                match skip_ws l with
                | ","%char :: l => '(vs, l) ← members fuel l; Some ((k, v) :: vs, l)
                | "}"%char :: l => Some ([(k, v)], l)
                | _ => None
                end
            | _ => None
            end
          else None
      | [] => None
      end
  end.
End containers.

(** A value that nests at most [depth] arrays and objects. *)
Fixpoint value (depth : nat) (l : bytes) : option (json * bytes) :=
  match skip_ws l with
  | [] => None
  | c :: l' =>
      if decide (c = dquote) then '(s, rest) ← string_lit l'; Some (JStr s, rest)
      else if decide (c = "["%char) then
        match depth with
        | O => None
        | S depth =>
            match skip_ws l' with
            | "]"%char :: rest => Some (JArr [], rest)
            | _ => '(vs, rest) ← elements (value depth) (S (length l')) l'; Some (JArr vs, rest)
            end
        end
      else if decide (c = "{"%char) then
        match depth with
        | O => None
        | S depth =>
            match skip_ws l' with
            | "}"%char :: rest => Some (JObj [], rest)
            | _ => '(vs, rest) ← members (value depth) (S (length l')) l'; Some (JObj vs, rest)
            end
        end
      else if decide (c = "n"%char) then rest ← strip (to_bytes "null") (c :: l'); Some (JNull, rest)
      else if decide (c = "t"%char) then rest ← strip (to_bytes "true") (c :: l'); Some (JBool true, rest)
      else if decide (c = "f"%char) then rest ← strip (to_bytes "false") (c :: l'); Some (JBool false, rest)
      else '(n, rest) ← number_lit (c :: l'); Some (JNum n, rest)
  end.

Definition maxNestingDepth : nat := Z.to_nat 10000.

(** The whole text is one value. *)
Definition parse_json (l : bytes) : option json :=
  '(v, rest) ← value maxNestingDepth l;
  match skip_ws rest with [] => Some v | _ => None end.

(** ** Strings *)

Definition hex4 (h1 h2 h3 h4 : N) : option N :=
  a ← hex_value (ascii_of_N h1); b ← hex_value (ascii_of_N h2);
  c ← hex_value (ascii_of_N h3); d ← hex_value (ascii_of_N h4);
  if (h1 <? 128)%N && (h2 <? 128)%N && (h3 <? 128)%N && (h4 <? 128)%N
  then Some (((a * 16 + b) * 16 + c) * 16 + d)%N else None.

(** utf16.DecodeRune *)
Definition surrogate_pair (r1 r2 : N) : option N :=
  if (55296 <=? r1)%N && (r1 <? 56320)%N && (56320 <=? r2)%N && (r2 <? 57344)%N
  then Some ((r1 - 55296) * 1024 + (r2 - 56320) + 65536)%N else None.

Definition escaped_rune (e : N) : N :=
  if (e =? 98)%N then 8 else if (e =? 102)%N then 12 else if (e =? 110)%N then 10
  else if (e =? 114)%N then 13 else if (e =? 116)%N then 9 else e.

(** The text of a string value, from the runes between the quotes. *)
Fixpoint unquote_runes (rs : list N) : bytes :=
  match rs with
  | [] => []
  | r :: rs =>
      if (r =? 92)%N then
        match rs with
        | [] => []
        | e :: rs =>
            if (e =? 117)%N then
              match rs with
              | h1 :: h2 :: h3 :: h4 :: rs =>
                  let u := default RuneError (hex4 h1 h2 h3 h4) in
                  if (55296 <=? u)%N && (u <? 57344)%N then
                    match rs with
                    | 92%N :: 117%N :: g1 :: g2 :: g3 :: g4 :: rs' =>
                        match g ← hex4 g1 g2 g3 g4; surrogate_pair u g with
                        | Some p => encode_rune p ++ unquote_runes rs'
                        | None => encode_rune RuneError ++ unquote_runes rs
                        end
                    | _ => encode_rune RuneError ++ unquote_runes rs
                    end
                  else encode_rune u ++ unquote_runes rs
              | _ => []
              end
            else encode_rune (escaped_rune e) ++ unquote_runes rs
        end
      else encode_rune r ++ unquote_runes rs
  end.

Definition unquote (raw : bytes) : bytes := unquote_runes (runes raw).

Definition hex_digit (n : N) : N := if (n <? 10)%N then (48 + n)%N else (87 + n)%N.

(** appendString with HTML escaping: the runes written for a rune and the
    number of bytes it was read from. *)
Definition quote_rune (r : N) (width : nat) : list N :=
  if (r <? 128)%N then
    if (r =? 34)%N || (r =? 92)%N then [92; r]%N
    else if (r =? 8)%N then [92; 98]%N else if (r =? 12)%N then [92; 102]%N
    else if (r =? 10)%N then [92; 110]%N else if (r =? 13)%N then [92; 114]%N
    else if (r =? 9)%N then [92; 116]%N
    else if (r <? 32)%N || (r =? 60)%N || (r =? 62)%N || (r =? 38)%N
    then [92; 117; 48; 48; hex_digit (r / 16); hex_digit (r mod 16)]%N
    else [r]
  else if (r =? RuneError)%N && Nat.eqb width 1 then [92; 117; 102; 102; 102; 100]%N
  else if (r =? 8232)%N then [92; 117; 50; 48; 50; 56]%N
  else if (r =? 8233)%N then [92; 117; 50; 48; 50; 57]%N
  else [r].

Definition quote_segs (ss : list (N * bytes)) : list N :=
  concat ((λ s, quote_rune s.1 (length s.2)) <$> ss).
Definition quote (l : bytes) : bytes := encode (quote_segs (segs l)).
Definition quoted (l : bytes) : bytes := dquote :: quote l ++ [dquote].

(** ** Keys of structs *)

(** The runes that fold to an ASCII letter: the letters themselves, the long
    s and the Kelvin sign. *)
Definition fold_rune (r : N) : N :=
  if (97 <=? r)%N && (r <=? 122)%N then (r - 32)%N
  else if (r =? 383)%N then 83 else if (r =? 8490)%N then 75 else r.

Definition matches_field (name : string) (rawkey : bytes) : bool :=
  bool_decide (fold_rune <$> runes (unquote rawkey) = fold_rune <$> runes (to_bytes name)).

(** ** Lemmas: quoting and unquoting *)

Lemma encode_app a b : encode (a ++ b) = encode a ++ encode b.
Proof. unfold encode. by rewrite fmap_app, concat_app. Qed.

(** Enumerate the runes below 128. *)
Ltac small_rune r H :=
  destruct r as [|r]; [|do 7 (try destruct r as [r|r|])]; try (exfalso; clear -H; lia).

Lemma unquote_quote_rune r w rs :
  scalar r = true → unquote_runes (quote_rune r w ++ rs) =
    encode_rune (if (r =? RuneError)%N && Nat.eqb w 1 then RuneError else r) ++ unquote_runes rs.
Proof.
  intros Hr. destruct (N.ltb_spec r 128) as [Hlt|Hge].
  { small_rune r Hlt; reflexivity. }
  unfold quote_rune. rewrite (proj2 (N.ltb_ge _ _) Hge). destruct (_ && _); [cbn; reflexivity|].
  destruct (N.eqb_spec r 8232) as [->|_]; [cbn; reflexivity|].
  destruct (N.eqb_spec r 8233) as [->|_]; [cbn; reflexivity|].
  cbn [app unquote_runes]. by rewrite (proj2 (N.eqb_neq r 92)) by lia.
Qed.

Lemma quote_rune_scalar r w : scalar r = true → Forall (λ x, scalar x = true) (quote_rune r w).
Proof.
  intros Hr. destruct (N.ltb_spec r 128) as [Hlt|Hge].
  { small_rune r Hlt; repeat constructor. }
  unfold quote_rune. rewrite (proj2 (N.ltb_ge _ _) Hge). destruct (_ && _); [repeat constructor|].
  destruct (N.eqb_spec r 8232) as [->|_]; [repeat constructor|].
  destruct (N.eqb_spec r 8233) as [->|_]; repeat constructor. done.
Qed.

Lemma unquote_quote l : unquote (quote l) = encode (runes l).
Proof.
  unfold unquote, quote, quote_segs. rewrite runes_encode.
  - unfold runes. generalize (segs_scalar l). induction (segs l) as [|s ss IH]; intros Hs; [done|].
    apply Forall_cons in Hs as [Hs Hss]. cbn [fmap list_fmap concat]. rewrite unquote_quote_rune, IH by done.
    unfold encode. cbn [fmap list_fmap concat]. f_equal.
    destruct s as [r bs]. cbn [fst snd]. destruct (N.eqb_spec r RuneError) as [->|_]; [|done].
    by destruct (Nat.eqb _ _).
  - generalize (segs_scalar l). induction (segs l) as [|s ss IH]; intros Hs; [done|].
    apply Forall_cons in Hs as [Hs Hss]. cbn [fmap list_fmap concat]. apply Forall_app. split; [|by apply IH].
    by apply quote_rune_scalar.
Qed.

(** Bytes that stand for themselves in a string. *)
Definition plain_byte (c : ascii) : bool :=
  (32 <=? N_of_ascii c)%N && negb (bool_decide (c = dquote)) && negb (bool_decide (c = backslash)).

Lemma string_lit_plain l rest : Forall (λ c, plain_byte c = true) l →
  string_lit (l ++ rest) = '(s, r) ← string_lit rest; Some (l ++ s, r).
Proof.
  induction 1 as [|c l Hc _ IH]; cbn [app string_lit]; [by destruct (string_lit rest) as [ [? ?]|]|].
  unfold plain_byte in Hc. apply andb_true_iff in Hc as [ [H1 H2]%andb_true_iff H3].
  apply negb_true_iff, bool_decide_eq_false in H2, H3.
  rewrite decide_False by done. destruct (N.ltb_spec (N_of_ascii c) 32); [apply N.leb_le in H1; lia|].
  rewrite decide_False, IH by done. by destruct (string_lit rest) as [ [? ?]|].
Qed.

Lemma high_rune_plain r : (128 <= r)%N → Forall (λ c, plain_byte c = true) (encode_rune r).
Proof.
  intros Hr. apply Forall_forall. intros c Hc. destruct (N.lt_ge_cases (N_of_ascii c) 128) as [Hlt|Hge].
  - pose proof (encode_rune_ascii r c Hc Hlt). lia.
  - unfold plain_byte. rewrite !bool_decide_eq_false_2 by (intros ->; by vm_compute in Hge).
    rewrite (proj2 (N.leb_le _ _)); [done|lia].
Qed.

Lemma string_lit_quote_rune r w rest : scalar r = true →
  string_lit (encode (quote_rune r w) ++ rest) =
    '(s, t) ← string_lit rest; Some (encode (quote_rune r w) ++ s, t).
Proof.
  intros Hr. destruct (N.ltb_spec r 128) as [Hlt|Hge].
  { small_rune r Hlt; reflexivity. }
  unfold quote_rune. rewrite (proj2 (N.ltb_ge _ _) Hge).
  destruct (_ && _); [reflexivity|].
  destruct (N.eqb_spec r 8232) as [->|_]; [reflexivity|].
  destruct (N.eqb_spec r 8233) as [->|_]; [reflexivity|].
  unfold encode. cbn [fmap list_fmap concat]. rewrite app_nil_r. by apply string_lit_plain, high_rune_plain.
Qed.

Lemma string_lit_quote l rest : string_lit (quote l ++ dquote :: rest) = Some (quote l, rest).
Proof.
  unfold quote, quote_segs. generalize (segs_scalar l).
  induction (segs l) as [|s ss IH]; intros Hs; [done|]. apply Forall_cons in Hs as [Hs Hss].
  cbn [fmap list_fmap concat]. rewrite encode_app, <- app_assoc, string_lit_quote_rune by done.
  by rewrite IH.
Qed.
