(* ===== verification/Meta.v ===== *)
(** * The metadata between render and upload: internal/handler/render.go

    [RenderMeta] as JSON, the way json.Marshal writes it and json.Unmarshal
    reads it.  The handlers write it with one and read it with the other. *)
From S2P Require Import Prelude GoStrings Utf8 Calendar Times Json.
Local Open Scope Z_scope.

Record RenderMeta := mk_RenderMeta {
  rm_Subject : string;
  rm_FromEmail : string;
  rm_ReceivedAt : Time;
  rm_AttachmentNames : list string
}.

(** ** json.Marshal *)

Definition key_text (k : string) : bytes := dquote :: to_bytes k ++ [dquote; ":"%char].

Fixpoint comma_sep (l : list bytes) : bytes :=
  match l with
  | [] => []
  | [x] => x
  | x :: l => x ++ ","%char :: comma_sep l
  end.

Definition names_text (names : list string) : bytes :=
  "["%char :: comma_sep ((λ n, quoted (to_bytes n)) <$> names) ++ ["]"%char].

Definition meta_text (m : RenderMeta) (t : bytes) : bytes :=
  "{"%char :: key_text "subject" ++ quoted (to_bytes (rm_Subject m)) ++
  ","%char :: key_text "from_email" ++ quoted (to_bytes (rm_FromEmail m)) ++
  ","%char :: key_text "received_at" ++ dquote :: t ++ dquote ::
  ","%char :: key_text "attachment_names" ++ names_text (rm_AttachmentNames m) ++ ["}"%char].

Definition MarshalMeta (m : RenderMeta) : result string :=
  match MarshalTime (rm_ReceivedAt m) with
  | Err e => Err (EWrap "json: error calling MarshalJSON for type time.Time" e)
  | Ok t => Ok (of_bytes (meta_text m t))
  end.

(** ** json.Unmarshal *)

(** time.Parse with the layout RFC3339, which UnmarshalJSON falls back to when
    the text is not strictly in that form. *)
Class TimeParser := { Parse_RFC3339 : bytes → option Time }.

Section unmarshal.
Context `{TP : TimeParser}.

Definition UnmarshalTime (raw : bytes) : option Time :=
  match parseRFC3339 raw with Some t => Some t | None => Parse_RFC3339 raw end.

(** A value of the wrong type is an error, null leaves the field as it is. *)
Definition decode_string (v : json) (cur : string) : option string :=
  match v with
  | JNull => Some cur
  | JStr raw => Some (of_bytes (unquote raw))
  | _ => None
  end.

Definition decode_time (v : json) (cur : Time) : option Time :=
  match v with
  | JNull => Some cur
  | JStr raw => UnmarshalTime raw
  | _ => None
  end.

Fixpoint decode_elems (vs : list json) (cur : list string) : option (list string) :=
  match vs with
  | [] => Some []
  | v :: vs =>
      s ← decode_string v (default EmptyString (head cur));
      ss ← decode_elems vs (tail cur);
      Some (s :: ss)
  end.

Definition decode_names (v : json) (cur : list string) : option (list string) :=
  match v with
  | JNull => Some []
  | JArr vs => decode_elems vs cur
  | _ => None
  end.

Definition decode_member (m : RenderMeta) (kv : bytes * json) : option RenderMeta :=
  let '(k, v) := kv in
  if matches_field "subject" k then
    s ← decode_string v (rm_Subject m);
    Some (mk_RenderMeta s (rm_FromEmail m) (rm_ReceivedAt m) (rm_AttachmentNames m))
  else if matches_field "from_email" k then
    s ← decode_string v (rm_FromEmail m);
    Some (mk_RenderMeta (rm_Subject m) s (rm_ReceivedAt m) (rm_AttachmentNames m))
  else if matches_field "received_at" k then
    t ← decode_time v (rm_ReceivedAt m);
    Some (mk_RenderMeta (rm_Subject m) (rm_FromEmail m) t (rm_AttachmentNames m))
  else if matches_field "attachment_names" k then
    ns ← decode_names v (rm_AttachmentNames m);
    Some (mk_RenderMeta (rm_Subject m) (rm_FromEmail m) (rm_ReceivedAt m) ns)
  else Some m.

Definition zero_meta : RenderMeta := mk_RenderMeta EmptyString EmptyString zero_time [].

Definition decode_meta (v : json) : option RenderMeta :=
  match v with
  | JNull => Some zero_meta
  | JObj kvs => foldl (λ m kv, m ← m; decode_member m kv) (Some zero_meta) kvs
  | _ => None
  end.

Definition UnmarshalMeta (s : string) : result RenderMeta :=
  match parse_json (to_bytes s) with
  | None => Err (EText "invalid character or unexpected end of JSON input")
  | Some v =>
      match decode_meta v with
      | None => Err (EText "json: cannot unmarshal value")
      | Some m => Ok m
      end
  end.
End unmarshal.

(** ** Lemmas: parsing what was printed *)

Lemma value_quoted d l rest : value d (quoted l ++ rest) = Some (JStr (quote l), rest).
Proof.
  unfold quoted. rewrite <- app_comm_cons, <- app_assoc.
  destruct d; cbn [value skip_ws trim_left]; change (is_ws dquote) with false; cbv iota;
    rewrite decide_True by done; cbn [app]; by rewrite string_lit_quote.
Qed.

Lemma value_plain d l rest : Forall (λ c, plain_byte c = true) l →
  value d (dquote :: l ++ dquote :: rest) = Some (JStr l, rest).
Proof.
  intros Hl. destruct d; cbn [value skip_ws trim_left]; change (is_ws dquote) with false; cbv iota;
    rewrite decide_True by done; rewrite string_lit_plain by done; cbn [string_lit];
    rewrite decide_True by done; cbn [mbind option_bind]; by rewrite app_nil_r.
Qed.

Section steps.
Context (val : bytes → option (json * bytes)).

Lemma members_comma fuel k body v tail :
  Forall (λ c, plain_byte c = true) (to_bytes k) → val body = Some (v, ","%char :: tail) →
  members val (S fuel) (key_text k ++ body) =
    '(vs, l) ← members val fuel tail; Some ((to_bytes k, v) :: vs, l).
Proof.
  intros Hk Hv. unfold key_text. cbn [app]. rewrite <- app_assoc. cbn [members skip_ws trim_left].
  change (is_ws dquote) with false. cbv iota. rewrite decide_True by done.
  rewrite string_lit_plain by done. cbn [app string_lit]. rewrite decide_True by done.
  cbn [mbind option_bind]. rewrite app_nil_r. cbn [skip_ws trim_left]. change (is_ws ":") with false.
  cbv iota. rewrite Hv. done.
Qed.

Lemma members_last fuel k body v tail :
  Forall (λ c, plain_byte c = true) (to_bytes k) → val body = Some (v, "}"%char :: tail) →
  members val (S fuel) (key_text k ++ body) = Some ([(to_bytes k, v)], tail).
Proof.
  intros Hk Hv. unfold key_text. cbn [app]. rewrite <- app_assoc. cbn [members skip_ws trim_left].
  change (is_ws dquote) with false. cbv iota. rewrite decide_True by done.
  rewrite string_lit_plain by done. cbn [app string_lit]. rewrite decide_True by done.
  cbn [mbind option_bind]. rewrite app_nil_r. cbn [skip_ws trim_left]. change (is_ws ":") with false.
  cbv iota. rewrite Hv. done.
Qed.

Lemma elements_strings fuel n names rest :
  (∀ l rest, val (quoted l ++ rest) = Some (JStr (quote l), rest)) → (length names < fuel)%nat →
  elements val fuel (comma_sep ((λ n, quoted (to_bytes n)) <$> n :: names) ++ "]"%char :: rest) =
    Some ((λ n, JStr (quote (to_bytes n))) <$> n :: names, rest).
Proof.
  intros Hval. revert fuel n. induction names as [|n2 names IH]; intros [|fuel] n Hf; try (simpl in Hf; lia).
  - cbn [fmap list_fmap comma_sep elements]. rewrite Hval. done.
  - change (comma_sep ((λ n, quoted (to_bytes n)) <$> n :: n2 :: names)) with
      (quoted (to_bytes n) ++ ","%char :: comma_sep ((λ n, quoted (to_bytes n)) <$> n2 :: names)).
    rewrite <- app_assoc. cbn [elements]. rewrite Hval. cbn [mbind option_bind app].
    change (skip_ws (","%char :: ?l)) with (","%char :: l). cbv iota.
    rewrite IH by (simpl in *; lia). done.
Qed.
End steps.

Lemma value_object d l :
  value (S d) ("{"%char :: dquote :: l) =
    '(vs, rest) ← members (value d) (S (S (length l))) (dquote :: l); Some (JObj vs, rest).
Proof. reflexivity. Qed.

Lemma value_array d l :
  value (S d) ("["%char :: dquote :: l) =
    '(vs, rest) ← elements (value d) (S (S (length l))) (dquote :: l); Some (JArr vs, rest).
Proof. reflexivity. Qed.

Lemma comma_sep_length {A} (f : A → bytes) (l : list A) :
  (∀ x, (1 ≤ length (f x))%nat) → (length l ≤ length (comma_sep (f <$> l)))%nat.
Proof.
  intros Hf. induction l as [|x [|y l] IH]; [done|simpl; auto|].
  change (comma_sep (f <$> x :: y :: l)) with (f x ++ ","%char :: comma_sep (f <$> y :: l)).
  rewrite length_app. specialize (Hf x). cbn [length] in *. lia.
Qed.

Lemma value_names d names rest :
  value (S d) (names_text names ++ rest) =
    Some (JArr ((λ n, JStr (quote (to_bytes n))) <$> names), rest).
Proof.
  unfold names_text. destruct names as [|n names]; [reflexivity|].
  rewrite <- app_comm_cons, <- app_assoc. cbn [app].
  pose proof (elements_strings (value d) (S (length (comma_sep ((λ n, quoted (to_bytes n)) <$> n :: names) ++
    "]"%char :: rest))) n names rest (value_quoted d)) as H.
  assert (Hc : ∃ l, comma_sep ((λ n, quoted (to_bytes n)) <$> n :: names) = dquote :: l).
  { destruct names; eexists; reflexivity. }
  destruct Hc as [l Hc]. rewrite Hc in *. rewrite <- app_comm_cons, value_array.
  rewrite <- app_comm_cons in H. cbn [length] in H. rewrite H; [done|].
  pose proof (comma_sep_length (λ n, quoted (to_bytes n)) (n :: names)) as Hl. rewrite Hc in Hl.
  cbn [length] in Hl. rewrite length_app. specialize (Hl ltac:(intros; simpl; lia)). lia.
Qed.

(** The text of the metadata parses to its four members. *)
Definition meta_members (m : RenderMeta) (t : bytes) : list (bytes * json) :=
  [(to_bytes "subject", JStr (quote (to_bytes (rm_Subject m))));
   (to_bytes "from_email", JStr (quote (to_bytes (rm_FromEmail m))));
   (to_bytes "received_at", JStr t);
   (to_bytes "attachment_names", JArr ((λ n, JStr (quote (to_bytes n))) <$> rm_AttachmentNames m))].

Lemma value_meta d m t : Forall (λ c, plain_byte c = true) t →
  value (S (S d)) (meta_text m t) = Some (JObj (meta_members m t), []).
Proof.
  intros Ht. unfold meta_text. change (key_text "subject" ++ ?l) with (dquote :: tail (key_text "subject") ++ l).
  rewrite value_object. change (dquote :: tail (key_text "subject") ++ ?l) with (key_text "subject" ++ l).
  set (fuel := length _). assert (∃ k, fuel = S (S k)) as [k ->] by (eexists; reflexivity).
  assert (Hk : ∀ k, k ∈ ["subject"; "from_email"; "received_at"; "attachment_names"] →
    Forall (λ c, plain_byte c = true) (to_bytes k)).
  { intros k' Hk'. repeat (apply elem_of_cons in Hk' as [->|Hk']; [repeat constructor|]). by apply elem_of_nil in Hk'. }
  erewrite members_comma; [|apply Hk; set_solver|apply value_quoted].
  erewrite members_comma; [|apply Hk; set_solver|apply value_quoted].
  erewrite members_comma; [|apply Hk; set_solver|apply value_plain, Ht].
  erewrite members_last; [|apply Hk; set_solver|apply value_names]. done.
Qed.

Lemma digit_is_plain c : is_digit c = true → plain_byte c = true.
Proof.
  unfold is_digit, digit_value, plain_byte. case_decide as H; [|done]. intros _.
  rewrite (proj2 (N.leb_le _ _)) by lia.
  rewrite !bool_decide_eq_false_2; [done|intros ->; vm_compute in H; tauto..].
Qed.

Lemma digits_plain w n : 0 ≤ n → Forall (λ c, plain_byte c = true) (digits w n).
Proof. intros Hn. eapply Forall_impl; [by apply digits_all|apply digit_is_plain]. Qed.

Lemma Forall_trim_right {A} (P : A → Prop) p l : Forall P l → Forall P (trim_right p l).
Proof. destruct (trim_right_prefix p l) as (b & Hl & _). rewrite Hl at 1. by intros [? _]%Forall_app. Qed.

Lemma MarshalTime_plain t s : MarshalTime t = Ok s → Forall (λ c, plain_byte c = true) s.
Proof.
  unfold MarshalTime, t_date. pose proof (days_of_civil (local_ns t / day_ns)) as Hdate.
  destruct (civil _) as [ [y m] d]. destruct Hdate as (_ & Hm & Hd).
  destruct ((y <? 0) || (9999 <? y)) eqn:Hy; [done|]. destruct (24 <=? _); [done|].
  pose proof (clock_ranges t) as (Hh & Hmi & Hs & Hf). intros Hok.
  assert (Hp : ∀ c l1 l2, plain_byte c = true → Forall (λ c, plain_byte c = true) l1 →
    Forall (λ c, plain_byte c = true) l2 → Forall (λ c, plain_byte c = true) (l1 ++ c :: l2)).
  { intros. apply Forall_app. split; [done|by constructor]. }
  assert (Hs' : s = digits 4 y ++ "-"%char :: digits 2 m ++ "-"%char :: digits 2 d ++ "T"%char ::
    digits 2 (t_hour t) ++ ":"%char :: digits 2 (t_min t) ++ ":"%char :: digits 2 (t_sec t) ++
    frac_text (t_frac t) ++ offset_text (t_off t)) by congruence. rewrite Hs'.
  repeat (apply Hp; [done|apply digits_plain; lia|]). rewrite !Forall_app. split; [apply digits_plain; lia|].
  split.
  - unfold frac_text. destruct (_ =? 0); [constructor|]. constructor; [done|]. apply Forall_trim_right, digits_plain. lia.
  - unfold offset_text. destruct (_ =? 0); [by constructor|]. constructor; [by destruct (Z.quot (t_off t) 60 <? 0)|].
    apply Hp; [done|apply digits_plain, Z.div_pos; lia|]. apply digits_plain, Z.mod_pos_bound. lia.
Qed.

(** A string as it comes back: bytes that are not UTF-8 are replaced. *)
Definition to_valid (s : string) : string := of_bytes (encode (runes (to_bytes s))).

(** It holds no ASCII byte that was not there. *)
Lemma to_valid_byte c s : (N_of_ascii c < 128)%N → contains_byte c s = false → contains_byte c (to_valid s) = false.
Proof.
  intros Hlt Hs. apply not_true_iff_false. intros Hc. unfold to_valid in Hc.
  rewrite contains_of_bytes in Hc. apply bool_decide_eq_true in Hc. unfold encode in Hc.
  apply list_elem_of_In, in_concat in Hc as (l & Hl & Hc). apply list_elem_of_In in Hl, Hc.
  apply list_elem_of_fmap in Hl as (r & -> & Hr). apply encode_rune_ascii in Hc as ->; [|done].
  apply runes_low in Hr as (d & Hd & Heq); [|done].
  assert (d = c) as -> by (rewrite <- (ascii_N_embedding d), Heq; apply ascii_N_embedding).
  rewrite <- (String.string_of_list_ascii_of_string s), contains_of_bytes in Hs. apply bool_decide_eq_false in Hs. done.
Qed.

Lemma decode_names_text `{TP : TimeParser} names :
  decode_elems ((λ n, JStr (quote (to_bytes n))) <$> names) [] = Some (to_valid <$> names).
Proof.
  induction names as [|n names IH]; [done|]. rewrite !fmap_cons. cbn [decode_elems tail decode_string head].
  cbn [mbind option_bind]. rewrite IH. cbn [mbind option_bind]. by rewrite unquote_quote.
Qed.

Lemma decode_members `{TP : TimeParser} m t :
  decode_meta (JObj (meta_members m t)) =
    r ← UnmarshalTime t; ns ← decode_elems ((λ n, JStr (quote (to_bytes n))) <$> rm_AttachmentNames m) [];
    Some (mk_RenderMeta (of_bytes (unquote (quote (to_bytes (rm_Subject m)))))
      (of_bytes (unquote (quote (to_bytes (rm_FromEmail m))))) r ns).
Proof.
  transitivity ((r ← UnmarshalTime t; Some (mk_RenderMeta (of_bytes (unquote (quote (to_bytes (rm_Subject m)))))
      (of_bytes (unquote (quote (to_bytes (rm_FromEmail m))))) r [])) ≫= λ m', decode_member m'
        (to_bytes "attachment_names", JArr ((λ n, JStr (quote (to_bytes n))) <$> rm_AttachmentNames m)));
    [reflexivity|]. by destruct (UnmarshalTime t).
Qed.

Lemma Unmarshal_Marshal `{TP : TimeParser} m s :
  t_off (rm_ReceivedAt m) mod 60 = 0 → MarshalMeta m = Ok s →
  ∃ z, UnmarshalMeta s = Ok (mk_RenderMeta (to_valid (rm_Subject m)) (to_valid (rm_FromEmail m))
    (mk_Time (t_ns (rm_ReceivedAt m)) (t_off (rm_ReceivedAt m)) z) (to_valid <$> rm_AttachmentNames m)).
Proof.
  intros Hoff. unfold MarshalMeta. destruct (MarshalTime _) as [t|e] eqn:Ht; [|done]. intros Hs.
  assert (s = of_bytes (meta_text m t)) as -> by congruence.
  destruct (MarshalTime_parse _ _ Ht Hoff) as [z Hz]. exists z. unfold UnmarshalMeta, parse_json.
  rewrite String.list_ascii_of_string_of_list_ascii.
  assert (∃ d, maxNestingDepth = S (S d)) as [d ->] by (exists (Z.to_nat 9998); unfold maxNestingDepth; lia).
  rewrite value_meta by by eapply MarshalTime_plain. cbn [mbind option_bind skip_ws trim_left].
  rewrite decode_members, !unquote_quote, decode_names_text. cbn [mbind option_bind].
  unfold UnmarshalTime. by rewrite Hz.
Qed.

(** The upload stage reads the metadata the render stage wrote: the same
    subject, sender and attachment names (up to bytes that are not UTF-8) in
    the same order, and the same instant. *)
Theorem meta_roundtrip `{TP : TimeParser} m s :
  t_off (rm_ReceivedAt m) mod 60 = 0 → MarshalMeta m = Ok s →
  ∃ z, UnmarshalMeta s = Ok (mk_RenderMeta (to_valid (rm_Subject m)) (to_valid (rm_FromEmail m))
    (mk_Time (t_ns (rm_ReceivedAt m)) (t_off (rm_ReceivedAt m)) z) (to_valid <$> rm_AttachmentNames m)).
Proof. apply Unmarshal_Marshal. Qed.

(** ** Witnesses *)

#[export] Instance strict_only : TimeParser := {| Parse_RFC3339 := λ _, None |}.

Definition test_meta : RenderMeta :=
  mk_RenderMeta (String "034" "Q1 <draft>") "bob@example.com" test_time ["a.pdf"; "b.txt"].

Lemma meta_roundtrip_witness :
  ∃ s z, MarshalMeta test_meta = Ok s ∧ UnmarshalMeta s = Ok (mk_RenderMeta (String "034" "Q1 <draft>")
    "bob@example.com" (mk_Time 1709290445120000000 (- 18000) z) ["a.pdf"; "b.txt"]).
Proof.
  destruct (MarshalMeta test_meta) as [s|e] eqn:Hm; [|by vm_compute in Hm]. exists s.
  destruct (meta_roundtrip test_meta s eq_refl Hm) as [z Hz]. exists z. split; [done|exact Hz].
Defined.
