(* ===== verification/Paths.v ===== *)
(** * Folder and file names: internal/handler/paths.go *)
From S2P Require Import Prelude GoStrings Utf8 Calendar.
Local Open Scope Z_scope.

(** ** DateTreeFolders *)

Definition DateTreeFolders (t : Z) : list string :=
  let d := t / day_ns in
  let '(year, month, day) := civil d in
  let m := Month_String month in
  [pad 4 year; m +:+ " " +:+ pad 4 year;
   pretty day +:+ " " +:+ m +:+ " " +:+ pad 4 year +:+ " (" +:+ Weekday_String (weekday d) +:+ ")"].

(** ** EmailFolderName and cleanSubject *)

Definition maxSubjectFolderLen : nat := 80.
Definition maxFilenameLen : nat := 200.

Definition separator (r : N) : bool := (r =? 0)%N || (r =? 47)%N || (r =? 92)%N.

(** One rune of the loop; the state is the builder and [lastSpace]. *)
Definition subject_rune (st : bytes * bool) (r : N) : bytes * bool :=
  if separator r || IsSpace r then
    if st.2 then st else (st.1 ++ [" "%char], true)
  else (st.1 ++ encode_rune r, false).

Definition cleanSubject (s : string) : string :=
  let l := TrimSpace (to_bytes s) in
  if decide (l = []) then "(no subject)"
  else
    let out := TrimSpace (foldl subject_rune ([], false) (runes l)).1 in
    let out := Trim out ["."; "-"; "_"]%char in
    if decide (out = []) then "(no subject)"
    else if (maxSubjectFolderLen <? length out)%nat
    then of_bytes (TrimSpace (take maxSubjectFolderLen out))
    else of_bytes out.

Definition EmailFolderName (receivedAt : Z) (subject fromEmail : string) : string :=
  let minutes := receivedAt mod day_ns / 60000000000 in
  let sender := of_bytes (TrimSpace (to_bytes fromEmail)) in
  let sender := if decide (sender = EmptyString) then "unknown sender" else sender in
  cleanSubject subject +:+ " - " +:+ sender +:+ " (" +:+ pad 2 (minutes / 60) +:+ ":" +:+
    pad 2 (minutes mod 60) +:+ ")".

(** ** SanitizeFilename *)

Definition filename_rune (st : bytes * bool) (r : N) : bytes * bool :=
  if separator r then
    if st.2 then st else (st.1 ++ ["-"%char], true)
  else (st.1 ++ encode_rune r, false).

(** strings.Contains *)
Fixpoint Contains (s substr : string) : bool :=
  String.prefix substr s || match s with EmptyString => false | String _ s => Contains s substr end.

Definition SanitizeFilename (name : string) : string :=
  let l := TrimSpace (to_bytes name) in
  if decide (l = []) then "unnamed"
  else
    let cut := ["."; " "; "-"]%char in
    let out := Trim (foldl filename_rune ([], false) (runes l)).1 cut in
    let out := if Contains (of_bytes out) ".."
               then Trim (to_bytes (ReplaceAll (of_bytes out) ".." "-")) cut else out in
    if decide (out = []) then "unnamed"
    else of_bytes (take maxFilenameLen out).

(** ** Lemmas on names *)

Lemma of_bytes_app l1 l2 : of_bytes (l1 ++ l2) = of_bytes l1 +:+ of_bytes l2.
Proof. induction l1 as [|c l1 IH]; [done|]. cbn [app String.string_of_list_ascii]. by rewrite IH. Qed.

Lemma length_of_bytes l : String.length (of_bytes l) = length l.
Proof. induction l; simpl; congruence. Qed.

Lemma Contains_true s p : Contains s p = true ↔ ∃ a b, s = a +:+ p +:+ b.
Proof.
  induction s as [|c s IH]; cbn [Contains]; rewrite orb_true_iff.
  - rewrite prefix_spec. split.
    + intros [ [b Hb]|?]; [exists EmptyString, b; by rewrite sapp_nil_l|done].
    + intros (a & b & H). left. destruct a; [by exists b|by rewrite sapp_cons in H].
  - rewrite prefix_spec, IH. split.
    + intros [ [b Hb]|(a & b & ->)]; [exists EmptyString, b; by rewrite sapp_nil_l|].
      by exists (String c a), b.
    + intros ([|d a] & b & H); [left; by exists b|right]. rewrite sapp_cons in H.
      injection H as -> ->. by exists a, b.
Qed.

Lemma Contains_infix s1 s2 s3 p : Contains (s1 +:+ s2 +:+ s3) p = false → Contains s2 p = false.
Proof.
  rewrite <- !not_true_iff_false, !Contains_true. intros H (a & b & ->). apply H.
  exists (s1 +:+ a), (b +:+ s3). by rewrite !sapp_assoc.
Qed.

(** After replacing every ".." by "-" there is no ".." left; the head of the
    result is a dot only if the string starts with a single one. *)
Lemma replace_dots s :
  Contains (ReplaceAll s ".." "-") ".." = false ∧
  (String.prefix "." (ReplaceAll s ".." "-") = true → String.prefix "." s = true) ∧
  ∀ c, contains_byte c (ReplaceAll s ".." "-") = true → contains_byte c s = true ∨ c = "-"%char.
Proof.
  unfold ReplaceAll. remember (String.length s) as n eqn:Hn. revert s Hn.
  induction (lt_wf n) as [n _ IH]; intros s Hn. destruct s as [|c s]; [done|].
  assert (Hkeep : String.prefix ".." (String c s) = false →
    (Contains (replace_from 0 (String c s) ".." "-") ".." = false ∧
     (String.prefix "." (replace_from 0 (String c s) ".." "-") = true → String.prefix "." (String c s) = true) ∧
     ∀ c0, contains_byte c0 (replace_from 0 (String c s) ".." "-") = true →
       contains_byte c0 (String c s) = true ∨ c0 = "-"%char)).
  { intros Hp. cbn [replace_from]. rewrite Hp.
    destruct (IH (String.length s)) with (s := s) as (H1 & H2 & H3); [simpl in Hn; lia|done|].
    split_and!.
    - cbn [Contains]. rewrite H1, orb_false_r. apply not_true_iff_false.
      rewrite prefix_cons, andb_true_iff. intros [Hc Hpre%H2].
      rewrite prefix_cons, Hc in Hp. cbn [andb] in Hp. congruence.
    - rewrite !prefix_cons, !prefix_nil. done.
    - intros c0. cbn [contains_byte]. rewrite !orb_true_iff. intros [?|?%H3]; tauto. }
  destruct (String.prefix ".." (String c s)) eqn:Hp; [|by apply Hkeep]. clear Hkeep.
  apply prefix_spec in Hp as [t Ht]. change (".." +:+ t) with (String "." (String "." t)) in Ht.
  injection Ht as -> ->. cbn [String.length] in Hn.
  destruct (IH (String.length t)) with (s := t) as (H1 & H2 & H3); [lia|done|].
  change (replace_from 0 (String "." (String "." t)) ".." "-") with
    (if String.prefix ".." (String "." (String "." t)) then String "-" (replace_from 0 t ".." "-") else
       String "." (replace_from 0 (String "." t) ".." "-")).
  replace (String.prefix ".." (String "." (String "." t))) with true by (by destruct t).
  split_and!; [|done|].
  - cbn [Contains]. by rewrite H1.
  - intros c0. cbn [contains_byte]. rewrite !orb_true_iff, bool_decide_eq_true. intros [?|?%H3]; tauto || auto.
Qed.

Lemma encode_rune_separator r c :
  separator r = false → c ∈ encode_rune r → separator (N_of_ascii c) = false.
Proof.
  intros Hr Hc. destruct (N.lt_ge_cases (N_of_ascii c) 128) as [Hlt|Hge].
  - by rewrite <- (encode_rune_ascii r c Hc Hlt).
  - unfold separator. rewrite !(proj2 (N.eqb_neq _ _)); [done|lia..].
Qed.

Definition clean (l : bytes) : Prop := ∀ c, c ∈ l → separator (N_of_ascii c) = false.

Lemma clean_app l1 l2 : clean (l1 ++ l2) ↔ clean l1 ∧ clean l2.
Proof. unfold clean. setoid_rewrite elem_of_app. naive_solver. Qed.

Lemma clean_byte l c : clean l → separator (N_of_ascii c) = true → contains_byte c (of_bytes l) = false.
Proof.
  intros Hl Hc. rewrite contains_of_bytes. apply bool_decide_eq_false_2. intros Hin.
  apply Hl in Hin. congruence.
Qed.

Lemma fold_clean (f : bytes * bool → N → bytes * bool) :
  (∀ st r, clean st.1 → clean (f st r).1) → ∀ rs st, clean st.1 → clean (foldl f st rs).1.
Proof. intros Hf. induction rs as [|r rs IH]; intros st Hst; simpl; auto. Qed.

Lemma clean_snoc l c : clean l → separator (N_of_ascii c) = false → clean (l ++ [c]).
Proof. intros Hl Hc. apply clean_app. split; [done|]. by intros ? ->%list_elem_of_singleton. Qed.

Lemma clean_rune l r : clean l → separator r = false → clean (l ++ encode_rune r).
Proof. intros Hl Hr. apply clean_app. split; [done|]. intros c. by apply encode_rune_separator. Qed.

Lemma subject_rune_clean st r : clean st.1 → clean (subject_rune st r).1.
Proof.
  intros H. unfold subject_rune. destruct (separator r) eqn:Hr; cbn [orb]; [|destruct (IsSpace r)].
  - destruct st.2; [done|by apply clean_snoc].
  - destruct st.2; [done|by apply clean_snoc].
  - by apply clean_rune.
Qed.

Lemma filename_rune_clean st r : clean st.1 → clean (filename_rune st r).1.
Proof.
  intros H. unfold filename_rune. destruct (separator r) eqn:Hr; [|by apply clean_rune].
  destruct st.2; [done|by apply clean_snoc].
Qed.

Lemma clean_subset l l' : clean l → (∀ c, c ∈ l' → c ∈ l) → clean l'.
Proof. unfold clean. eauto. Qed.

(** ** Properties of the date tree *)

(** Two messages share the year, month and day folders exactly if they
    arrived on the same UTC day. *)
Theorem DateTreeFolders_day t1 t2 :
  DateTreeFolders t1 = DateTreeFolders t2 ↔ t1 / day_ns = t2 / day_ns.
Proof.
  unfold DateTreeFolders. split; [|by intros ->].
  pose proof (civil_range (t1 / day_ns)) as Hr1. pose proof (civil_range (t2 / day_ns)) as Hr2.
  destruct (civil (t1 / day_ns)) as [ [y1 m1] d1] eqn:E1, (civil (t2 / day_ns)) as [ [y2 m2] d2] eqn:E2.
  intros H. injection H as Hy _ Hday. apply pad_inj in Hy as ->.
  apply (f_equal (Cut " ")) in Hday. rewrite !(Cut_app_sep " ") in Hday by (apply pretty_no_byte; done || lia).
  apply (inj Some), pair_equal_spec in Hday as [Hd Hm]. apply (inj pretty) in Hd as ->.
  apply (f_equal (Cut " ")) in Hm. rewrite !(Cut_app_sep " ") in Hm by (apply Month_String_no_space; lia).
  apply (inj Some), pair_equal_spec in Hm as [Hm _]. apply Month_String_inj in Hm as ->; [|lia..].
  apply civil_inj. congruence.
Qed.

Lemma Trim_infix l cut : ∃ a b, l = a ++ Trim l cut ++ b.
Proof. apply trim_infix. Qed.

Lemma Trim_subset l cut c : c ∈ Trim l cut → c ∈ l.
Proof. apply trim_subset. Qed.

Lemma Trim_head l cut c t : Trim l cut = c :: t → c ∉ cut.
Proof.
  unfold Trim, trim. set (p := λ c, _). intros Ht.
  destruct (trim_right_prefix p (trim_left p l)) as (b & Hb & _). rewrite Ht in Hb.
  apply trim_left_head in Hb. unfold p in Hb. by apply bool_decide_eq_false in Hb.
Qed.

Lemma Contains_bytes_infix a l b p : Contains (of_bytes (a ++ l ++ b)) p = false → Contains (of_bytes l) p = false.
Proof. rewrite !of_bytes_app. apply Contains_infix. Qed.

(** The two dots removed. *)
Definition undot (out cut : bytes) : bytes :=
  if Contains (of_bytes out) ".." then Trim (to_bytes (ReplaceAll (of_bytes out) ".." "-")) cut else out.

Lemma undot_spec l cut : clean l →
  clean (undot (Trim l cut) cut) ∧ Contains (of_bytes (undot (Trim l cut) cut)) ".." = false ∧
  ∃ l', undot (Trim l cut) cut = Trim l' cut.
Proof.
  intros Hl. assert (Ht : clean (Trim l cut)) by (eapply clean_subset; [exact Hl|apply Trim_subset]).
  unfold undot. destruct (Contains (of_bytes (Trim l cut)) "..") eqn:Hc; [|by split_and!; [| |exists l] ].
  set (s := ReplaceAll _ _ _). destruct (replace_dots (of_bytes (Trim l cut))) as (H1 & _ & H3).
  fold s in H1, H3. split_and!; [| |by exists (to_bytes s)].
  - intros c Hin%Trim_subset. assert (Hs : contains_byte c s = true).
    { rewrite <- (String.string_of_list_ascii_of_string s), contains_of_bytes. by apply bool_decide_eq_true_2. }
    apply H3 in Hs as [Hs| ->]; [|done]. rewrite contains_of_bytes in Hs.
    apply bool_decide_eq_true in Hs. by apply Ht.
  - destruct (Trim_infix (to_bytes s) cut) as (a & b & Hab). apply (Contains_bytes_infix a _ b).
    by rewrite <- Hab, String.string_of_list_ascii_of_string.
Qed.

Lemma encode_separator r : separator r = true → ascii_of_N r ∈ encode_rune r.
Proof.
  intros Hsep. assert (Hlt : (r < 128)%N).
  { unfold separator in Hsep. apply orb_true_iff in Hsep as [ [?%N.eqb_eq|?%N.eqb_eq]%orb_true_iff|?%N.eqb_eq]; lia. }
  unfold encode_rune, scalar. rewrite (proj2 (N.ltb_lt r 55296)) by lia. cbn [orb].
  rewrite (proj2 (N.ltb_lt r 128)) by done. apply list_elem_of_here.
Qed.

(** Without separators the loop copies. *)
Lemma fold_filename rs acc b :
  clean (encode rs) → (foldl filename_rune (acc, b) rs).1 = acc ++ encode rs.
Proof.
  revert acc b. induction rs as [|r rs IH]; intros acc b Hrs; [by rewrite app_nil_r|]. unfold encode in *.
  rewrite fmap_cons in Hrs |- *. cbn [concat foldl] in *. apply clean_app in Hrs as [Hr Hrs].
  assert (Hsep : separator r = false).
  { apply not_true_iff_false. intros Hsep. pose proof (Hr _ (encode_separator r Hsep)) as Hn.
    rewrite N_of_ascii_of_N in Hn; [congruence|].
    unfold separator in Hsep. apply orb_true_iff in Hsep as [ [?%N.eqb_eq|?%N.eqb_eq]%orb_true_iff|?%N.eqb_eq]; lia. }
  unfold filename_rune at 2. rewrite Hsep. cbn [fst]. by rewrite IH, app_assoc.
Qed.

(** What the properties say of a name. *)
Definition plain_name (out : string) : Prop :=
  out ≠ EmptyString ∧ (String.length out ≤ 200)%nat ∧ Contains out ".." = false ∧ out ≠ "." ∧
  ∀ c, separator (N_of_ascii c) = true → contains_byte c out = false.

Lemma plain_unnamed : plain_name "unnamed".
Proof.
  split_and!; [done|simpl; lia|done|done|]. intros c Hc. apply (clean_byte (to_bytes "unnamed")); [|done].
  intros d Hd. simpl in Hd. rewrite !elem_of_cons, elem_of_nil in Hd. naive_solver.
Qed.

(** ** Properties of names *)

Lemma SanitizeFilename_plain name : plain_name (SanitizeFilename name).
Proof.
  unfold SanitizeFilename. destruct (decide _) as [_|_]; [apply plain_unnamed|]. cbv zeta.
  set (cut := ["."; " "; "-"]%char). set (b := (foldl filename_rune ([], false) _).1).
  fold (undot (Trim b cut) cut).
  destruct (undot_spec b cut) as (Hclean & Hdd & l & Hl).
  { apply fold_clean; [apply filename_rune_clean|by intros c ?%elem_of_nil]. }
  destruct (decide _) as [_|Hne]; [apply plain_unnamed|].
  destruct (undot (Trim b cut) cut) as [|c out]; [done|].
  split_and!; [done|rewrite length_of_bytes, length_take; unfold maxFilenameLen; lia| | |].
  - apply (Contains_bytes_infix [] _ (drop maxFilenameLen (c :: out))). by rewrite app_nil_l, take_drop.
  - intros Heq. assert (c = "."%char) as -> by (simpl in Heq; by injection Heq).
    symmetry in Hl. apply Trim_head in Hl. apply Hl, list_elem_of_here.
  - intros c0 Hc0. apply (clean_byte (take maxFilenameLen (c :: out))); [|done].
    eapply clean_subset; [exact Hclean|]. intros d. apply subseteq_take.
Qed.

(** Whatever an attachment is called, its sanitised name is a plain file
    name: not empty, at most 200 bytes, without slash, backslash and NUL,
    without two dots in a row, and not a single dot. *)
Theorem SanitizeFilename_safe name : plain_name (SanitizeFilename name).
Proof. apply SanitizeFilename_plain. Qed.

Lemma cleanSubject_plain s :
  (String.length (cleanSubject s) ≤ 80)%nat ∧
  ∀ c, separator (N_of_ascii c) = true → contains_byte c (cleanSubject s) = false.
Proof.
  assert (Hnone : (String.length "(no subject)" ≤ 80)%nat ∧
    ∀ c, separator (N_of_ascii c) = true → contains_byte c "(no subject)" = false).
  { split; [simpl; lia|]. intros c Hc. apply (clean_byte (to_bytes "(no subject)")); [|done].
    intros d Hd. simpl in Hd. rewrite !elem_of_cons, elem_of_nil in Hd. naive_solver. }
  unfold cleanSubject. destruct (decide _) as [_|_]; [done|]. cbv zeta.
  set (b := (foldl subject_rune ([], false) _).1). set (out := Trim _ _).
  assert (Hout : clean out).
  { eapply clean_subset; [|intros c; apply Trim_subset]. eapply clean_subset; [|intros c; apply TrimSpace_subset].
    apply fold_clean; [apply subject_rune_clean|by intros c ?%elem_of_nil]. }
  destruct (decide _) as [_|_]; [done|]. destruct (Nat.ltb_spec maxSubjectFolderLen (length out)) as [Hl|Hl].
  - split.
    + rewrite length_of_bytes. etrans; [apply TrimSpace_length|]. rewrite length_take. unfold maxSubjectFolderLen. lia.
    + intros c Hc. apply clean_byte; [|done]. eapply clean_subset; [exact Hout|].
      intros d Hd%TrimSpace_subset. by apply subseteq_take in Hd.
  - split; [rewrite length_of_bytes; exact Hl|]. intros c Hc. by apply clean_byte.
Qed.

(** The subject part of a folder name holds no slash, backslash or NUL and
    is at most 80 bytes long. *)
Theorem cleanSubject_safe s :
  (String.length (cleanSubject s) ≤ 80)%nat ∧
  ∀ c, separator (N_of_ascii c) = true → contains_byte c (cleanSubject s) = false.
Proof. apply cleanSubject_plain. Qed.

(** A name that needs no cleaning is kept as it is. *)
Theorem SanitizeFilename_keeps name :
  let l := to_bytes name in
  encode (runes l) = l → TrimSpace l = l → Trim l ["."; " "; "-"]%char = l → l ≠ [] →
  (length l ≤ 200)%nat → Contains name ".." = false → clean l → SanitizeFilename name = name.
Proof.
  cbv zeta. set (l := to_bytes name). intros Hv Hs Ht Hne Hlen Hdd Hclean. unfold SanitizeFilename.
  fold l. rewrite Hs, decide_False by done. rewrite fold_filename, Hv, app_nil_l, Ht by (by rewrite Hv).
  cbv zeta. replace (of_bytes l) with name by (symmetry; apply String.string_of_list_ascii_of_string).
  rewrite Hdd, decide_False, take_ge by done. apply String.string_of_list_ascii_of_string.
Qed.

(** ** Witnesses *)

Lemma SanitizeFilename_keeps_witness : SanitizeFilename "Q1 report (final).pdf" = "Q1 report (final).pdf".
Proof.
  apply SanitizeFilename_keeps; [vm_compute; reflexivity..|discriminate|vm_compute; lia|vm_compute; reflexivity|].
  intros c Hc. revert c Hc. apply Forall_forall. vm_compute. repeat constructor.
Defined.

(** Attempts to leave the directory. *)
Example sanitize_traversal : SanitizeFilename "../../etc/passwd" = "etc-passwd".
Proof. vm_compute. reflexivity. Qed.
Example sanitize_backslashes : SanitizeFilename "..\..\x" = "x".
Proof. vm_compute. reflexivity. Qed.
