(* ===== verification/Base64.v ===== *)
(** * Go's encoding/base64

    The decoder the Gmail client and the MIME parser call, for the standard
    and the URL alphabet, with and without padding, and an encoder to state
    the round trip.  Byte sequences are strings. *)
From S2P Require Import Prelude.
Local Open Scope N_scope.

Inductive alphabet := StdEncoding | URLEncoding.

Definition digits (a : alphabet) : list ascii :=
  String.list_ascii_of_string
    (match a with
     | StdEncoding => "ABCDEFGHIJKLMNOPQRSTUVWXYZabcdefghijklmnopqrstuvwxyz0123456789+/"
     | URLEncoding => "ABCDEFGHIJKLMNOPQRSTUVWXYZabcdefghijklmnopqrstuvwxyz0123456789-_"
     end).

(** The value of a digit. *)
Fixpoint index_of (c : ascii) (l : list ascii) : option N :=
  match l with
  | [] => None
  | d :: l => if decide (d = c) then Some 0 else N.succ <$> index_of c l
  end.

Definition value (a : alphabet) (c : ascii) : option N := index_of c (digits a).

Definition digit (a : alphabet) (v : N) : ascii := default "A"%char (digits a !! N.to_nat v).

Definition byte (n : N) : ascii := ascii_of_N (n mod 256).

(** The 24 bits of four digits, as one, two or three bytes. *)
Definition quantum (v0 v1 v2 v3 : N) : N := v0 * 2 ^ 18 + v1 * 2 ^ 12 + v2 * 2 ^ 6 + v3.
Definition byte0 (n : N) : ascii := byte (n / 2 ^ 16).
Definition byte1 (n : N) : ascii := byte (n / 2 ^ 8).
Definition byte2 (n : N) : ascii := byte n.

(** Decoding a text without line breaks; [padded] tells whether the encoding
    uses the padding character.  Bits left over in the last quantum are not
    checked (the decoder is not Strict). *)
Fixpoint decode_quanta (a : alphabet) (padded : bool) (s : string) : option string :=
  match s with
  | EmptyString => Some EmptyString
  | String c0 (String c1 EmptyString) =>
      if padded then None else
      v0 ← value a c0; v1 ← value a c1;
      Some (String (byte0 (quantum v0 v1 0 0)) EmptyString)
  | String c0 (String c1 (String c2 EmptyString)) =>
      if padded then None else
      v0 ← value a c0; v1 ← value a c1; v2 ← value a c2;
      Some (String (byte0 (quantum v0 v1 v2 0)) (String (byte1 (quantum v0 v1 v2 0)) EmptyString))
  | String c0 (String c1 (String c2 (String c3 s))) =>
      v0 ← value a c0; v1 ← value a c1;
      match value a c2, value a c3 with
      | Some v2, Some v3 =>
          let n := quantum v0 v1 v2 v3 in
          t ← decode_quanta a padded s;
          Some (String (byte0 n) (String (byte1 n) (String (byte2 n) t)))
      | Some v2, None =>
          if padded && bool_decide (c3 = "="%char) && bool_decide (s = EmptyString) then
            let n := quantum v0 v1 v2 0 in
            Some (String (byte0 n) (String (byte1 n) EmptyString))
          else None
      | None, None =>
          if padded && bool_decide (c2 = "="%char) && bool_decide (c3 = "="%char) &&
             bool_decide (s = EmptyString) then
            Some (String (byte0 (quantum v0 v1 0 0)) EmptyString)
          else None
      | None, Some _ => None
      end
  | String _ EmptyString => None
  end.

(** The decoder skips line breaks wherever they are. *)
Fixpoint strip_newlines (s : string) : string :=
  match s with
  | EmptyString => EmptyString
  | String c s =>
      if decide (c = "013"%char ∨ c = "010"%char) then strip_newlines s
      else String c (strip_newlines s)
  end.

(** DecodeString *)
Definition DecodeString (a : alphabet) (padded : bool) (s : string) : option string :=
  decode_quanta a padded (strip_newlines s).

(** EncodeToString *)
Definition quantum_of (b0 b1 b2 : ascii) : N :=
  N_of_ascii b0 * 2 ^ 16 + N_of_ascii b1 * 2 ^ 8 + N_of_ascii b2.

Definition digit_at (a : alphabet) (n : N) (k : N) : ascii := digit a (n / 2 ^ k mod 64).

Fixpoint EncodeToString (a : alphabet) (padded : bool) (s : string) : string :=
  match s with
  | EmptyString => EmptyString
  | String b0 EmptyString =>
      let n := quantum_of b0 zero zero in
      String (digit_at a n 18) (String (digit_at a n 12) (if padded then "==" else EmptyString))
  | String b0 (String b1 EmptyString) =>
      let n := quantum_of b0 b1 zero in
      String (digit_at a n 18) (String (digit_at a n 12) (String (digit_at a n 6)
        (if padded then "=" else EmptyString)))
  | String b0 (String b1 (String b2 s)) =>
      let n := quantum_of b0 b1 b2 in
      String (digit_at a n 18) (String (digit_at a n 12) (String (digit_at a n 6)
        (String (digit_at a n 0) (EncodeToString a padded s))))
  end.

(** ** Lemmas *)

Lemma value_digit a v : v < 64 → value a (digit a v) = Some v.
Proof.
  intros Hv. assert (Hall : forallb (λ k, bool_decide (value a (digit a (N.of_nat k)) = Some (N.of_nat k)))
    (seq 0 64) = true) by (destruct a; vm_compute; reflexivity).
  rewrite forallb_forall in Hall. specialize (Hall (N.to_nat v)).
  rewrite N2Nat.id in Hall. apply (proj1 (bool_decide_eq_true _)), Hall, in_seq. lia.
Qed.

Lemma value_digit_at a n k : value a (digit_at a n k) = Some (n / 2 ^ k mod 64).
Proof. apply value_digit. apply N.mod_lt. done. Qed.

Lemma value_pad a : value a "="%char = None.
Proof. by destruct a; vm_compute. Qed.

Lemma digit_plain a v : v < 64 → digit a v ≠ "013"%char ∧ digit a v ≠ "010"%char.
Proof.
  intros Hv. pose proof (value_digit a v Hv) as H.
  split; intros Heq; rewrite Heq in H; destruct a; vm_compute in H; done.
Qed.

Lemma digit_at_plain a n k :
  ¬ (digit_at a n k = "013"%char ∨ digit_at a n k = "010"%char).
Proof. destruct (digit_plain a (n / 2 ^ k mod 64)); [by apply N.mod_lt|]. tauto. Qed.

Lemma byte_lt b : N_of_ascii b < 256.
Proof. apply N_ascii_bounded. Qed.

Lemma split24 n : n < 2 ^ 24 →
  quantum (n / 2 ^ 18 mod 64) (n / 2 ^ 12 mod 64) (n / 2 ^ 6 mod 64) (n / 2 ^ 0 mod 64) = n.
Proof. intros Hn. unfold quantum. simpl N.pow in *. zify. Z.to_euclidean_division_equations. lia. Qed.

Lemma quantum_lt b0 b1 b2 : quantum_of b0 b1 b2 < 2 ^ 24.
Proof.
  unfold quantum_of. pose proof (byte_lt b0). pose proof (byte_lt b1). pose proof (byte_lt b2).
  simpl N.pow. lia.
Qed.

Lemma byte0_of b0 b1 b2 : byte0 (quantum_of b0 b1 b2) = b0.
Proof.
  unfold byte0, byte, quantum_of. rewrite <- (ascii_N_embedding b0) at 2. f_equal.
  pose proof (byte_lt b0). pose proof (byte_lt b1). pose proof (byte_lt b2). simpl N.pow.
  zify. Z.to_euclidean_division_equations. lia.
Qed.

Lemma byte1_of b0 b1 b2 : byte1 (quantum_of b0 b1 b2) = b1.
Proof.
  unfold byte1, byte, quantum_of. rewrite <- (ascii_N_embedding b1) at 2. f_equal.
  pose proof (byte_lt b0). pose proof (byte_lt b1). pose proof (byte_lt b2). simpl N.pow.
  zify. Z.to_euclidean_division_equations. lia.
Qed.

Lemma byte2_of b0 b1 b2 : byte2 (quantum_of b0 b1 b2) = b2.
Proof.
  unfold byte2, byte, quantum_of. rewrite <- (ascii_N_embedding b2) at 2. f_equal.
  pose proof (byte_lt b0). pose proof (byte_lt b1). pose proof (byte_lt b2). simpl N.pow.
  zify. Z.to_euclidean_division_equations. lia.
Qed.

(** A last quantum without its last digits. *)
Lemma tail_zero b0 b1 n : n = quantum_of b0 b1 zero → n / 2 ^ 0 mod 64 = 0.
Proof.
  intros ->. unfold quantum_of. simpl N.pow. change (N_of_ascii zero) with 0.
  zify. Z.to_euclidean_division_equations. lia.
Qed.

Lemma tail_zero2 b0 n : n = quantum_of b0 zero zero → n / 2 ^ 6 mod 64 = 0.
Proof.
  intros ->. unfold quantum_of. simpl N.pow. change (N_of_ascii zero) with 0.
  zify. Z.to_euclidean_division_equations. lia.
Qed.

Lemma strip_String c s :
  ¬ (c = "013"%char ∨ c = "010"%char) → strip_newlines (String c s) = String c (strip_newlines s).
Proof. intros Hc. cbn [strip_newlines]. by rewrite decide_False. Qed.

(** Induction three bytes at a time. *)
Lemma string_ind3 (P : string → Prop) :
  P EmptyString → (∀ b0, P (String b0 EmptyString)) →
  (∀ b0 b1, P (String b0 (String b1 EmptyString))) →
  (∀ b0 b1 b2 s, P s → P (String b0 (String b1 (String b2 s)))) → ∀ s, P s.
Proof.
  intros H0 H1 H2 H3. assert (H : ∀ n s, (String.length s ≤ n)%nat → P s).
  { induction n as [|n IH]; intros s Hn; destruct s as [|b0 [|b1 [|b2 s] ] ]; simpl in Hn; auto; try lia.
    apply H3, IH. lia. }
  intros s. by apply (H (String.length s)).
Qed.

Lemma strip_encoded a p s : strip_newlines (EncodeToString a p s) = EncodeToString a p s.
Proof.
  induction s as [|b0|b0 b1|b0 b1 b2 s IH] using string_ind3; cbn [EncodeToString]; cbv zeta;
    rewrite ?strip_String by apply digit_at_plain; try done.
  - by destruct p.
  - by destruct p.
  - by rewrite IH.
Qed.

Lemma decode_encoded a p s : decode_quanta a p (EncodeToString a p s) = Some s.
Proof.
  induction s as [|b0|b0 b1|b0 b1 b2 s IH] using string_ind3; cbn [EncodeToString]; cbv zeta; [done|..].
  - set (n := quantum_of b0 zero zero). pose proof (split24 n (quantum_lt _ _ _)) as Hn.
    rewrite (tail_zero b0 zero n eq_refl), (tail_zero2 b0 n eq_refl) in Hn.
    assert (byte0 n = b0) as Hb by apply byte0_of.
    destruct p; cbn [decode_quanta]; rewrite !value_digit_at, ?value_pad; cbn [mbind option_bind andb];
      rewrite ?bool_decide_eq_true_2 by done; cbn [andb]; by rewrite Hn, Hb.
  - set (n := quantum_of b0 b1 zero). pose proof (split24 n (quantum_lt _ _ _)) as Hn.
    rewrite (tail_zero b0 b1 n eq_refl) in Hn.
    assert (byte0 n = b0) as Hb by apply byte0_of. assert (byte1 n = b1) as Hb1 by apply byte1_of.
    destruct p; cbn [decode_quanta]; rewrite !value_digit_at, ?value_pad; cbn [mbind option_bind andb];
      rewrite ?bool_decide_eq_true_2 by done; cbn [andb]; by rewrite Hn, Hb, Hb1.
  - set (n := quantum_of b0 b1 b2). pose proof (split24 n (quantum_lt _ _ _)) as Hn.
    cbn [decode_quanta]. rewrite !value_digit_at. cbn [mbind option_bind].
    rewrite IH, Hn. cbn [mbind option_bind]. unfold n. by rewrite byte0_of, byte1_of, byte2_of.
Qed.

(** A padded text is either refused by the unpadded decoder or needed no
    padding. *)
Lemma decode_unpadded a s :
  decode_quanta a false (EncodeToString a true s) = None ∨
  decode_quanta a false (EncodeToString a true s) = Some s.
Proof.
  induction s as [|b0|b0 b1|b0 b1 b2 s IH] using string_ind3; cbn [EncodeToString]; cbv zeta.
  - by right.
  - left. cbn [decode_quanta]. by rewrite !value_digit_at, value_pad.
  - left. cbn [decode_quanta]. by rewrite !value_digit_at, value_pad.
  - set (n := quantum_of b0 b1 b2). pose proof (split24 n (quantum_lt _ _ _)) as Hn.
    cbn [decode_quanta]. rewrite !value_digit_at. cbn [mbind option_bind]. rewrite Hn.
    destruct IH as [-> | ->]; [by left|right]. cbn [mbind option_bind].
    unfold n. by rewrite byte0_of, byte1_of, byte2_of.
Qed.

(** ** Properties *)

(** Decoding inverts encoding, for both alphabets, with and without
    padding, on every byte sequence. *)
Lemma base64_roundtrip a padded s :
  DecodeString a padded (EncodeToString a padded s) = Some s.
Proof. unfold DecodeString. rewrite strip_encoded. apply decode_encoded. Qed.
