(* ===== verification/Mime.v ===== *)
(** * Messages and their parts: internal/handler/mime.go

    Go's mail and MIME parsers ([MailLib]: net/mail, mime, mime/multipart,
    mime/quotedprintable) are functions the model takes as they are; what the
    program does with them is here: which part is an attachment, which part is
    the body, and how a part's content is decoded. *)
From S2P Require Import Prelude GoStrings Utf8 Base64 Calendar Times.
Local Open Scope Z_scope.

(** textproto.MIMEHeader, by canonical key *)
Definition Header := gmap string (list string).
Definition Header_Get (h : Header) (k : string) : string :=
  match h !! k with Some (v :: _) => v | _ => EmptyString end.

(** What an io.Reader yields until its end: the bytes, and the error it ends
    with if that is not io.EOF. *)
Record reader := mk_reader { rd_data : string; rd_err : option err }.

Class MailLib := {
  ReadMessage : string → result (Header * reader);
  ParseAddress : string → result string;
  ParseDate : string → result Time;
  ParseMediaType : string → result (string * gmap string string);
  (** The parts NextPart yields, and the error after the last one unless that
      is io.EOF. *)
  Parts : string → reader → list (Header * reader) * option err;
  QuotedPrintable : string → result string;
  (** A body holds its parts between delimiters. *)
  Parts_shorter b body h r :
    (h, r) ∈ (Parts b body).1 → (String.length (rd_data r) < String.length (rd_data body))%nat
}.

Record Attachment := mk_Attachment { a_Filename : string; a_ContentType : string; a_Content : string }.

Record ParsedMessage := mk_ParsedMessage {
  HTML : string;
  Text : string;
  Attachments : list Attachment;
  pm_Subject : string;
  pm_From : string;
  pm_FromEmail : string;
  pm_ReceivedAt : Time
}.

Definition set_html (s : string) (m : ParsedMessage) : ParsedMessage :=
  mk_ParsedMessage s (Text m) (Attachments m) (pm_Subject m) (pm_From m) (pm_FromEmail m) (pm_ReceivedAt m).
Definition set_text (s : string) (m : ParsedMessage) : ParsedMessage :=
  mk_ParsedMessage (HTML m) s (Attachments m) (pm_Subject m) (pm_From m) (pm_FromEmail m) (pm_ReceivedAt m).
Definition add_attachment (a : Attachment) (m : ParsedMessage) : ParsedMessage :=
  mk_ParsedMessage (HTML m) (Text m) (Attachments m ++ [a]) (pm_Subject m) (pm_From m) (pm_FromEmail m)
    (pm_ReceivedAt m).

Section mime.
Context `{ML : MailLib}.

Definition ReadAll (r : reader) : result string :=
  match rd_err r with Some e => Err e | None => Ok (rd_data r) end.

(** strings.ToLower, as far as the result is compared with ASCII text: the
    runes whose lower case is ASCII. *)
Definition lower_rune (r : N) : N :=
  if (65 <=? r)%N && (r <=? 90)%N then (r + 32)%N
  else if (r =? 304)%N then 105 else if (r =? 8490)%N then 107 else r.
Definition lower_is (s word : string) : bool :=
  bool_decide (lower_rune <$> runes (to_bytes s) = runes (to_bytes word)).

Definition decodePart (headers : Header) (body : reader) : result string :=
  match ReadAll body with
  | Err e => Err e
  | Ok raw =>
      let enc := trim_space (Header_Get headers "Content-Transfer-Encoding") in
      if lower_is enc "base64" then
        match DecodeString StdEncoding true (ReplaceAll (ReplaceAll raw (String "013" EmptyString) EmptyString)
                (String "010" EmptyString) EmptyString) with
        | Some s => Ok s
        | None => Err (EText "illegal base64 data")
        end
      else if lower_is enc "quoted-printable" then QuotedPrintable raw
      else Ok raw
  end.

(** The media type and its parameters; text/plain if the header is no media type. *)
Definition media_type (contentType : string) : string * gmap string string :=
  match ParseMediaType contentType with Ok mt => mt | Err _ => ("text/plain", ∅) end.

(** The attachment's name and whether the part is one, by its disposition. *)
Definition disposition (headers : Header) : string * bool :=
  let disp := Header_Get headers "Content-Disposition" in
  if decide (disp = EmptyString) then (EmptyString, false)
  else
    match ParseMediaType disp with
    | Err _ => (EmptyString, false)
    | Ok (d, dp) =>
        let isAttachment := bool_decide (d = "attachment") in
        let n := default EmptyString (dp !! "filename") in
        if decide (n = EmptyString) then (EmptyString, isAttachment)
        else (n, isAttachment || negb (bool_decide (d = "inline")))
    end.

Definition attachment_name (mediaType : string) (params : gmap string string) (headers : Header) : string * bool :=
  let '(attachName, isAttachment) := disposition headers in
  let name := default EmptyString (params !! "name") in
  if bool_decide (attachName = EmptyString) && negb (bool_decide (name = EmptyString)) &&
     negb (String.prefix "multipart/" mediaType) && negb (String.prefix "text/" mediaType)
  then (name, true) else (attachName, isAttachment).

Definition put_leaf (mediaType content : string) (out : ParsedMessage) : ParsedMessage :=
  if bool_decide (mediaType = "text/html") then
    (if bool_decide (HTML out = EmptyString) then set_html content out else out)
  else if bool_decide (mediaType = "text/plain") then
    (if bool_decide (Text out = EmptyString) then set_text content out else out)
  else out.

Definition part_type (h : Header) : string :=
  let ct := Header_Get h "Content-Type" in if decide (ct = EmptyString) then "text/plain" else ct.

(** The loop over the parts, given how one part is walked. *)
Fixpoint walk_parts (walk : ParsedMessage → string → Header → reader → option (result ParsedMessage))
    (parts : list (Header * reader)) (end_err : option err) (out : ParsedMessage) : option (result ParsedMessage) :=
  match parts with
  | [] => Some (match end_err with Some e => Err (EWrap "next part" e) | None => Ok out end)
  | (h, r) :: parts =>
      match walk out (part_type h) h r with
      | None => None
      | Some (Err e) => Some (Err e)
      | Some (Ok out) => walk_parts walk parts end_err out
      end
  end.

(** [None]: out of fuel. *)
Fixpoint walkPart (fuel : nat) (out : ParsedMessage) (contentType : string) (headers : Header) (body : reader)
    : option (result ParsedMessage) :=
  match fuel with
  | O => None
  | S fuel =>
      let '(mediaType, params) := media_type contentType in
      let '(attachName, isAttachment) := attachment_name mediaType params headers in
      if isAttachment then
        Some (match decodePart headers body with
              | Err e => Err (EWrap "decode attachment" e)
              | Ok decoded => Ok (add_attachment (mk_Attachment attachName mediaType decoded) out)
              end)
      else if String.prefix "multipart/" mediaType then
        let boundary := default EmptyString (params !! "boundary") in
        if decide (boundary = EmptyString) then Some (Err (EText "multipart without boundary"))
        else walk_parts (walkPart fuel) (Parts boundary body).1 (Parts boundary body).2 out
      else
        Some (match decodePart headers body with
              | Err e => Err (EWrap "decode leaf" e)
              | Ok decoded => Ok (put_leaf mediaType decoded out)
              end)
  end.

(** The message of the headers alone. *)
Definition header_part (h : Header) : ParsedMessage :=
  let from := Header_Get h "From" in
  let date := Header_Get h "Date" in
  mk_ParsedMessage EmptyString EmptyString [] (Header_Get h "Subject") from
    (match ParseAddress from with Ok a => a | Err _ => EmptyString end)
    (if decide (date = EmptyString) then zero_time
     else match ParseDate date with Ok t => t | Err _ => zero_time end).

Definition parseMessage (raw : string) : option (result ParsedMessage) :=
  match ReadMessage raw with
  | Err e => Some (Err (EWrap "read message" e))
  | Ok (h, body) =>
      match walkPart (S (String.length (rd_data body))) (header_part h) (part_type h) h body with
      | None => None
      | Some (Err e) => Some (Err (EWrap "walk" e))
      | Some (Ok out) => Some (Ok out)
      end
  end.
End mime.

(** ** Lemmas: enough fuel *)

Section spec.
Context `{ML : MailLib}.

Lemma walk_parts_total walk parts e out :
  Forall (λ p, ∀ out ct, walk out ct p.1 p.2 ≠ None) parts → walk_parts walk parts e out ≠ None.
Proof.
  intros H. revert out. induction H as [|[h r] parts Hw _ IH]; intros out; cbn [walk_parts]; [done|].
  cbn [fst snd] in Hw. specialize (Hw out (part_type h)). destruct (walk out (part_type h) h r) as [ [o|e']|]; auto.
Qed.

Lemma walkPart_total fuel out ct h body : (String.length (rd_data body) < fuel)%nat →
  walkPart fuel out ct h body ≠ None.
Proof.
  revert out ct h body. induction fuel as [|fuel IH]; intros out ct h body Hf; [lia|]. cbn [walkPart].
  destruct (media_type ct) as [mt params]. destruct (attachment_name mt params h) as [name []]; [done|].
  destruct (String.prefix _ mt); [|done]. case_decide; [done|].
  apply walk_parts_total, Forall_forall. intros [h' r] Hin out' ct'. apply IH. cbn [fst snd].
  apply Parts_shorter in Hin. lia.
Qed.

Lemma parseMessage_total raw : parseMessage raw ≠ None.
Proof.
  unfold parseMessage. destruct (ReadMessage raw) as [ [h body]|e]; [|done].
  pose proof (walkPart_total (S (String.length (rd_data body))) (header_part h) (part_type h) h body) as H.
  destruct (walkPart _ _ _ _ _) as [ [m|e]|]; try done. apply H. lia.
Qed.

(** ** What a message contains *)

(** The contents of a message: attachments and body parts, in the order of
    the text. *)
Inductive item :=
| IAttach (a : Attachment)
| IBody (mediaType content : string).

Fixpoint items_of_parts (items : string → Header → reader → result (list item))
    (parts : list (Header * reader)) (end_err : option err) : result (list item) :=
  match parts with
  | [] => match end_err with Some e => Err (EWrap "next part" e) | None => Ok [] end
  | (h, r) :: parts =>
      match items (part_type h) h r with
      | Err e => Err e
      | Ok l =>
          match items_of_parts items parts end_err with
          | Err e => Err e
          | Ok l' => Ok (l ++ l')
          end
      end
  end.

(** What walkPart collects, as a list: a step towards MimeSpec.v, which compares
    it with rules of its own. *)
Fixpoint items (depth : nat) (contentType : string) (headers : Header) (body : reader) : result (list item) :=
  match depth with
  | O => Ok []
  | S depth =>
      let '(mediaType, params) := media_type contentType in
      let '(attachName, isAttachment) := attachment_name mediaType params headers in
      if isAttachment then
        match decodePart headers body with
        | Err e => Err (EWrap "decode attachment" e)
        | Ok decoded => Ok [IAttach (mk_Attachment attachName mediaType decoded)]
        end
      else if String.prefix "multipart/" mediaType then
        let boundary := default EmptyString (params !! "boundary") in
        if decide (boundary = EmptyString) then Err (EText "multipart without boundary")
        else items_of_parts (items depth) (Parts boundary body).1 (Parts boundary body).2
      else
        match decodePart headers body with
        | Err e => Err (EWrap "decode leaf" e)
        | Ok decoded => Ok [IBody mediaType decoded]
        end
  end.

Definition put_item (out : ParsedMessage) (i : item) : ParsedMessage :=
  match i with
  | IAttach a => add_attachment a out
  | IBody mt content => put_leaf mt content out
  end.

Lemma walk_parts_items walk its parts e out :
  (∀ h r, (h, r) ∈ parts → ∀ out,
     walk out (part_type h) h r = Some (match its (part_type h) h r with
       Err e => Err e | Ok l => Ok (foldl put_item out l) end)) →
  walk_parts walk parts e out = Some (match items_of_parts its parts e with
    Err e => Err e | Ok l => Ok (foldl put_item out l) end).
Proof.
  revert out. induction parts as [|[h r] parts IH]; intros out Hw; cbn [walk_parts items_of_parts]; [by destruct e|].
  rewrite Hw by apply list_elem_of_here. destruct (its (part_type h) h r) as [l|e']; [|done].
  rewrite IH by (intros; apply Hw; by apply list_elem_of_further).
  destruct (items_of_parts its parts e) as [l'|e']; [|done]. by rewrite foldl_app.
Qed.

Lemma walkPart_items fuel out ct h body : (String.length (rd_data body) < fuel)%nat →
  walkPart fuel out ct h body = Some (match items fuel ct h body with
    Err e => Err e | Ok l => Ok (foldl put_item out l) end).
Proof.
  revert out ct h body. induction fuel as [|fuel IH]; intros out ct h body Hf; [lia|]. cbn [walkPart items].
  destruct (media_type ct) as [mt params]. destruct (attachment_name mt params h) as [name []].
  { by destruct (decodePart h body). }
  destruct (String.prefix _ mt); [|by destruct (decodePart h body)]. case_decide; [done|].
  apply walk_parts_items. intros h' r Hin out'. apply IH. apply Parts_shorter in Hin. lia.
Qed.

(** The attachments among the items, and the first body part of a type that
    is not empty. *)
Definition attachments_of (l : list item) : list Attachment :=
  omap (λ i, match i with IAttach a => Some a | _ => None end) l.
Definition bodies_of (mt : string) (l : list item) : list string :=
  omap (λ i, match i with IBody mt' c => if bool_decide (mt' = mt ∧ c ≠ EmptyString) then Some c else None
                        | _ => None end) l.

Lemma put_items_attachments l out :
  Attachments (foldl put_item out l) = Attachments out ++ attachments_of l.
Proof.
  revert out. induction l as [|[a|mt c] l IH]; intros out; cbn [foldl put_item]; [by rewrite app_nil_r|..].
  - rewrite IH. cbn. by rewrite <- app_assoc.
  - rewrite IH. cbn [attachments_of omap list_omap]. f_equal. unfold put_leaf. by repeat case_match.
Qed.

Lemma put_items_html l out : HTML (foldl put_item out l) =
  if decide (HTML out = EmptyString) then default EmptyString (head (bodies_of "text/html" l)) else HTML out.
Proof.
  revert out. induction l as [|[a|mt c] l IH]; intros out; cbn [foldl put_item]; [by case_decide|..].
  - by rewrite IH.
  - rewrite IH. cbn [bodies_of omap list_omap]. unfold put_leaf.
    destruct (bool_decide_reflect (mt = "text/html")) as [->|Hmt].
    + rewrite bool_decide_decide. destruct (decide (HTML out = EmptyString)) as [Hh|Hh]; cbn [HTML set_html].
      * destruct (decide (c = EmptyString)) as [->|Hc].
        -- by rewrite bool_decide_eq_false_2 by naive_solver.
        -- by rewrite bool_decide_eq_true_2.
      * by rewrite decide_False.
    + rewrite (bool_decide_eq_false_2 (mt = "text/html" ∧ _)) by naive_solver.
      destruct (bool_decide (mt = "text/plain")); [|done]. by destruct (bool_decide (Text out = EmptyString)).
Qed.

Lemma put_items_text l out : Text (foldl put_item out l) =
  if decide (Text out = EmptyString) then default EmptyString (head (bodies_of "text/plain" l)) else Text out.
Proof.
  revert out. induction l as [|[a|mt c] l IH]; intros out; cbn [foldl put_item]; [by case_decide|..].
  - by rewrite IH.
  - rewrite IH. cbn [bodies_of omap list_omap]. unfold put_leaf.
    destruct (bool_decide_reflect (mt = "text/plain")) as [->|Hmt].
    + rewrite (bool_decide_eq_false_2 ("text/plain" = "text/html")) by done.
      rewrite bool_decide_decide. destruct (decide (Text out = EmptyString)) as [Hh|Hh]; cbn [Text set_text].
      * destruct (decide (c = EmptyString)) as [->|Hc].
        -- by rewrite bool_decide_eq_false_2 by naive_solver.
        -- by rewrite bool_decide_eq_true_2.
      * by rewrite decide_False.
    + rewrite (bool_decide_eq_false_2 (mt = "text/plain" ∧ _)) by naive_solver.
      destruct (bool_decide (mt = "text/html")); [|done]. by destruct (bool_decide (HTML out = EmptyString)).
Qed.

Lemma put_items_header l out :
  pm_Subject (foldl put_item out l) = pm_Subject out ∧ pm_From (foldl put_item out l) = pm_From out ∧
  pm_FromEmail (foldl put_item out l) = pm_FromEmail out ∧
  pm_ReceivedAt (foldl put_item out l) = pm_ReceivedAt out.
Proof.
  revert out. induction l as [|[a|mt c] l IH]; intros out; cbn [foldl put_item]; [done| |].
  { by destruct (IH (add_attachment a out)) as (-> & -> & -> & ->). }
  destruct (IH (put_leaf mt c out)) as (-> & -> & -> & ->). unfold put_leaf. by repeat case_match.
Qed.

(** The sender and the time come from the message's header. *)
Lemma parseMessage_header raw m : parseMessage raw = Some (Ok m) →
  ∃ h, pm_FromEmail m = pm_FromEmail (header_part h) ∧ pm_ReceivedAt m = pm_ReceivedAt (header_part h).
Proof.
  unfold parseMessage. destruct (ReadMessage raw) as [ [h body]|e]; [|done].
  rewrite walkPart_items by lia. destruct (items _ _ _ _) as [l|e]; [|done]. intros [= <-].
  exists h. by destruct (put_items_header l (header_part h)) as (_ & _ & ? & ?).
Qed.
End spec.

(** ** A parser for the witnesses: headers line by line, parts between lines
    of two dashes and the boundary. *)
Module MimeModel.

Definition newline : ascii := "010".
Definition lines (s : string) : list string := Split s newline.
Fixpoint unlines (l : list string) : string :=
  match l with [] => EmptyString | [x] => x | x :: l => x +:+ String newline (unlines l) end.

Fixpoint read_lines (h : Header) (l : list string) : Header * string :=
  match l with
  | [] => (h, EmptyString)
  | x :: l =>
      match Cut ":" x with
      | Some (k, v) => read_lines (<[k := [trim_space v]]> h) l
      | None => (h, unlines l)
      end
  end.

Definition read (s : string) : Header * reader :=
  let '(h, b) := read_lines ∅ (lines s) in (h, mk_reader b None).

Fixpoint between_marks (mark : string) (cur : option (list string)) (l : list string) : list (list string) :=
  match l with
  | [] => []
  | x :: l =>
      if decide (x = mark) then
        match cur with Some c => [c] | None => [] end ++ between_marks mark (Some []) l
      else if decide (x = mark +:+ "--") then match cur with Some c => [c] | None => [] end
      else between_marks mark (match cur with Some c => Some (c ++ [x]) | None => None end) l
  end.

Definition parts (b : string) (body : reader) : list (Header * reader) :=
  filter (λ p, (String.length (rd_data p.2) < String.length (rd_data body))%nat)
    ((λ l, read (unlines l)) <$> between_marks ("--" +:+ b) None (lines (rd_data body))).

Definition param (s : string) : string * string :=
  match Cut "=" (trim_space s) with Some kv => kv | None => (trim_space s, EmptyString) end.

Definition media (s : string) : result (string * gmap string string) :=
  match Split s ";" with
  | mt :: ps => if decide (mt = EmptyString) then Err (EText "mime: no media type")
                else Ok (mt, list_to_map (param <$> ps))
  | [] => Err (EText "mime: no media type")
  end.

Definition address (s : string) : result string :=
  match Cut "<" s with
  | Some (_, t) => match Cut ">" t with Some (a, _) => Ok a | None => Err (EText "mail: no address") end
  | None => Ok s
  end.

#[export] Instance mail_model : MailLib.
Proof.
  refine {| ReadMessage s := Ok (read s); ParseAddress := address;
    ParseDate s := match parseRFC3339 (to_bytes s) with Some t => Ok t | None => Err (EText "mail: no date") end;
    ParseMediaType := media; Parts b body := (parts b body, None); QuotedPrintable s := Ok s |}.
  intros b body h r [H _]%list_elem_of_filter. exact H.
Defined.

End MimeModel.
