(* ===== verification/MimeSpec.v ===== *)
(** * What a message contains: rules, and that the parser finds just that

    The rules say when a part is an attachment and under which name, how its
    bytes are encoded, and what a message contains; they share with Mime.v only
    Go's libraries (the parsers of [MailLib], Base64.v, and the functions of
    package strings), none of the functions that translate mime.go. *)
From S2P Require Import Prelude GoStrings Utf8 Base64 Calendar Times Mime.
Local Open Scope Z_scope.

Section rules.
Context `{ML : MailLib}.

(** ** The rules *)

(** The part's type: what its Content-Type says, which counts as text/plain if
    there is none; and text/plain if that is no media type. *)
Inductive kind (h : Header) : string → gmap string string → Prop :=
| kind_said mt ps : Header_Get h "Content-Type" ≠ EmptyString →
    ParseMediaType (Header_Get h "Content-Type") = Ok (mt, ps) → kind h mt ps
| kind_none mt ps : Header_Get h "Content-Type" = EmptyString →
    ParseMediaType "text/plain" = Ok (mt, ps) → kind h mt ps
| kind_wrong e : Header_Get h "Content-Type" ≠ EmptyString →
    ParseMediaType (Header_Get h "Content-Type") = Err e → kind h "text/plain" ∅
| kind_none_wrong e : Header_Get h "Content-Type" = EmptyString →
    ParseMediaType "text/plain" = Err e → kind h "text/plain" ∅.

(** The part has a Content-Disposition that can be read. *)
Definition disposed (h : Header) (d : string) (ps : gmap string string) : Prop :=
  Header_Get h "Content-Disposition" ≠ EmptyString ∧ ParseMediaType (Header_Get h "Content-Disposition") = Ok (d, ps).

(** A parameter that is given and not empty. *)
Definition given (ps : gmap string string) (k v : string) : Prop := ps !! k = Some v ∧ v ≠ EmptyString.

(** The disposition names a file. *)
Definition has_filename (h : Header) : Prop := ∃ d ps n, disposed h d ps ∧ given ps "filename" n.

(** The type names a file, which counts unless it is a text or has parts. *)
Definition type_names (mt : string) (ps : gmap string string) (n : string) : Prop :=
  given ps "name" n ∧ String.prefix "multipart/" mt = false ∧ String.prefix "text/" mt = false.

(** The part is an attachment of that name: its disposition names a file and is
    not inline; or only its type names one; or it is disposed as an attachment
    and nothing names it. *)
Inductive attached (h : Header) (mt : string) (ps : gmap string string) : string → Prop :=
| attached_file d dps n : disposed h d dps → given dps "filename" n → d ≠ "inline" → attached h mt ps n
| attached_typed n : ¬ has_filename h → type_names mt ps n → attached h mt ps n
| attached_bare dps : disposed h "attachment" dps → ¬ has_filename h → (∀ n, ¬ type_names mt ps n) →
    attached h mt ps EmptyString.

(** The content of a part that could be read to its end. *)
Definition encoding (h : Header) (word : string) : Prop :=
  lower_is (trim_space (Header_Get h "Content-Transfer-Encoding")) word = true.

Inductive coded (h : Header) (r : reader) : string → Prop :=
| coded_base64 c : rd_err r = None → encoding h "base64" → DecodeString StdEncoding true (rd_data r) = Some c → coded h r c
| coded_quoted c : rd_err r = None → encoding h "quoted-printable" → QuotedPrintable (rd_data r) = Ok c → coded h r c
| coded_plain : rd_err r = None → ¬ encoding h "base64" → ¬ encoding h "quoted-printable" → coded h r (rd_data r).

(** A part holds one attachment, or what its parts hold, or one body. *)
Inductive holds : Header → reader → list item → Prop :=
| holds_attachment h r mt ps n c : kind h mt ps → attached h mt ps n → coded h r c →
    holds h r [IAttach (mk_Attachment n mt c)]
| holds_parts h r mt ps b l : kind h mt ps → (∀ n, ¬ attached h mt ps n) → String.prefix "multipart/" mt = true →
    given ps "boundary" b → (Parts b r).2 = None → all_hold (Parts b r).1 l → holds h r l
| holds_body h r mt ps c : kind h mt ps → (∀ n, ¬ attached h mt ps n) → String.prefix "multipart/" mt = false →
    coded h r c → holds h r [IBody mt c]
with all_hold : list (Header * reader) → list item → Prop :=
| all_nil : all_hold [] []
| all_cons h r ps l l' : holds h r l → all_hold ps l' → all_hold ((h, r) :: ps) (l ++ l').

(** The message of a header and of what the body holds: the attachments in the
    order of the text, the first body of each type that is not empty. *)
Record message_is (h : Header) (l : list item) (m : ParsedMessage) : Prop := {
  mi_attachments : Attachments m = attachments_of l;
  mi_html : HTML m = default EmptyString (head (bodies_of "text/html" l));
  mi_text : Text m = default EmptyString (head (bodies_of "text/plain" l));
  mi_subject : pm_Subject m = Header_Get h "Subject";
  mi_from : pm_From m = Header_Get h "From";
  mi_email a : ParseAddress (Header_Get h "From") = Ok a → pm_FromEmail m = a;
  mi_no_email e : ParseAddress (Header_Get h "From") = Err e → pm_FromEmail m = EmptyString;
  mi_date t : Header_Get h "Date" ≠ EmptyString → ParseDate (Header_Get h "Date") = Ok t → pm_ReceivedAt m = t;
  mi_no_date : Header_Get h "Date" = EmptyString ∨ is_ok (ParseDate (Header_Get h "Date")) = false → pm_ReceivedAt m = zero_time
}.

(** ** The program follows the rules *)

Lemma kind_media h mt ps : kind h mt ps ↔ media_type (part_type h) = (mt, ps).
Proof.
  unfold media_type, part_type. split.
  - destruct 1 as [mt ps Hn E|mt ps Hn E|e Hn E|e Hn E]; case_decide; try done; by rewrite E.
  - case_decide as Hn; destruct (ParseMediaType _) as [ [mt' ps']|e] eqn:E; intros [= <- <-].
    + by apply kind_none.
    + by eapply kind_none_wrong.
    + by apply kind_said.
    + by eapply kind_wrong.
Qed.

Lemma kind_fun h mt ps mt' ps' : kind h mt ps → kind h mt' ps' → mt' = mt ∧ ps' = ps.
Proof. rewrite !kind_media. intros -> [= -> ->]. done. Qed.

Lemma disposed_fun h d ps d' ps' : disposed h d ps → disposed h d' ps' → d' = d ∧ ps' = ps.
Proof. intros [_ E] [_ E']. split; congruence. Qed.

(** The parameter as the program reads it. *)
Lemma given_default ps k v : given ps k v ↔ default EmptyString (ps !! k) = v ∧ v ≠ EmptyString.
Proof. unfold given. destruct (ps !! k); naive_solver. Qed.

Lemma disposition_spec h :
  match disposition h with
  | (n, att) => (n = EmptyString ∧ ¬ has_filename h ∧ (att = true ↔ ∃ ps, disposed h "attachment" ps)) ∨
      (∃ d ps, disposed h d ps ∧ given ps "filename" n ∧ (att = true ↔ d ≠ "inline"))
  end.
Proof.
  unfold disposition. case_decide as Hd.
  { left. split; [done|]. split; [by intros (? & ? & ? & [? _] & _)|]. by split; [|intros (? & ? & _)]. }
  destruct (ParseMediaType _) as [ [d ps]|e] eqn:E.
  - assert (Hdis : disposed h d ps) by done. case_decide as Hn.
    + left. split; [done|]. split.
      * intros (d' & ps' & n & H' & [Hg Hne]%given_default). destruct (disposed_fun _ _ _ _ _ Hdis H') as [-> ->]. congruence.
      * rewrite bool_decide_eq_true. split; [intros ->; by exists ps|]. intros (ps' & H'). by destruct (disposed_fun _ _ _ _ _ Hdis H').
    + right. exists d, ps. split; [done|]. split; [by apply given_default|].
      rewrite orb_true_iff, negb_true_iff, bool_decide_eq_true, bool_decide_eq_false. naive_solver.
  - left. split; [done|]. split; [intros (? & ? & ? & [_ ?] & _); congruence|]. split; [done|]. intros (? & _ & ?). congruence.
Qed.

Lemma attached_spec h mt ps : match attachment_name mt ps h with
  | (n, true) => ∀ n', attached h mt ps n' ↔ n' = n
  | (_, false) => ∀ n', ¬ attached h mt ps n'
  end.
Proof.
  unfold attachment_name. pose proof (disposition_spec h) as H. destruct (disposition h) as [n att].
  set (b := _ && _). assert (Hb : b = true ↔ n = EmptyString ∧ type_names mt ps (default EmptyString (ps !! "name"))).
  { unfold b, type_names. rewrite !andb_true_iff, !negb_true_iff, bool_decide_eq_true, bool_decide_eq_false, given_default. tauto. }
  assert (Hname : ∀ n', type_names mt ps n' → n' = default EmptyString (ps !! "name")) by (by intros n' [ [<- _]%given_default _]).
  destruct H as [(-> & Hno & Hatt)|(d & dps & Hdis & Hg & Hatt)].
  - destruct b; [destruct (proj1 Hb eq_refl) as [_ Ht]|].
    + intros n'. split; [|intros ->; by apply attached_typed]. destruct 1 as [d dps n' Hd Hg _|n' _ Ht'|dps _ _ Hn].
      * destruct Hno. by exists d, dps, n'.
      * by apply Hname.
      * by destruct (Hn _ Ht).
    + assert (Hn : ∀ n, ¬ type_names mt ps n).
      { intros n Ht. pose proof (Hname n Ht) as ->. by discriminate (proj2 Hb (conj eq_refl Ht)). }
      destruct att; [destruct (proj1 Hatt eq_refl) as [dps Hdis]|]; intros n'.
      * split; [|intros ->; by eapply attached_bare]. destruct 1 as [d dps' n' Hd Hg _|n' _ Ht'|dps' _ _ _]; [|by destruct (Hn n')|done].
        destruct Hno. by exists d, dps', n'.
      * intros [d dps n'' Hd Hg _|n'' _ Ht'|dps Hd _ _]; [destruct Hno; by exists d, dps, n''|by destruct (Hn n'')|].
        assert (false = true) by (apply Hatt; by exists dps). done.
  - assert (Hfile : has_filename h) by (by exists d, dps, n).
    destruct b; [destruct (proj1 Hb eq_refl) as [-> _]; by destruct Hg|].
    destruct att; intros n'.
    + split; [|intros ->; apply (attached_file _ _ _ d dps); [done..|by apply Hatt] ].
      destruct 1 as [d' dps' n' Hd' Hg' _|? ? _|? _ ? _]; [|done..]. destruct (disposed_fun _ _ _ _ _ Hdis Hd') as [-> ->].
      destruct Hg, Hg'. congruence.
    + intros [d' dps' n'' Hd' Hg' Hin|? ? _|? _ ? _]; [|done..]. destruct (disposed_fun _ _ _ _ _ Hdis Hd') as [-> ->].
      by discriminate (proj2 Hatt Hin).
Qed.

(** Removing the line breaks first makes no difference to the decoder. *)
Lemma ReplaceAll_byte c s : c = "013"%char ∨ c = "010"%char →
  strip_newlines (ReplaceAll s (String c EmptyString) EmptyString) = strip_newlines s.
Proof.
  intros Hc. unfold ReplaceAll. induction s as [|x s IH]; [done|]. cbn [replace_from String.prefix].
  destruct (ascii_dec c x) as [<-|Hne].
  - replace (String.prefix EmptyString s) with true by (by destruct s). rewrite sapp_nil_l. cbn [strip_newlines String.length Nat.sub].
    by rewrite decide_True.
  - cbn [strip_newlines]. case_decide; [done|by rewrite IH].
Qed.

Lemma lower_once v : lower_is v "base64" = true → lower_is v "quoted-printable" = true → False.
Proof. unfold lower_is. rewrite !bool_decide_eq_true. intros -> H. vm_compute in H. done. Qed.

Lemma coded_spec h r c : coded h r c ↔ decodePart h r = Ok c.
Proof.
  unfold decodePart, ReadAll. destruct (rd_err r) as [e|] eqn:Hr; [split; [by destruct 1; congruence|done]|].
  assert (Hdec : DecodeString StdEncoding true (ReplaceAll (ReplaceAll (rd_data r) (String "013" EmptyString) EmptyString)
    (String "010" EmptyString) EmptyString) = DecodeString StdEncoding true (rd_data r)).
  { unfold DecodeString. by rewrite !ReplaceAll_byte by auto. }
  rewrite Hdec. clear Hdec. cbv zeta.
  split.
  - destruct 1 as [c _ E D|c _ E D|_ E1 E2]; unfold encoding in *.
    + rewrite E, D. done.
    + destruct (lower_is _ "base64") eqn:E'; [|by rewrite E]. by destruct (lower_once _ E' E).
    + by rewrite (not_true_is_false _ E1), (not_true_is_false _ E2).
  - destruct (lower_is _ "base64") eqn:E1; [|destruct (lower_is _ "quoted-printable") eqn:E2].
    + destruct (DecodeString _ _ _) as [c'|] eqn:D; [|done]. intros [= <-]. by apply coded_base64.
    + intros D. by apply coded_quoted.
    + intros [= <-]. apply coded_plain; [done|unfold encoding; congruence..].
Qed.

Lemma items_of_parts_fails f ps e l : items_of_parts f ps (Some e) ≠ Ok l.
Proof.
  revert l. induction ps as [|[h r] ps IH]; intros l; cbn [items_of_parts]; [done|].
  destruct (f _ h r) as [l1|?]; [|done]. destruct (items_of_parts f ps (Some e)) as [l2|?] eqn:E; [|done]. by destruct (IH l2).
Qed.

Lemma items_of_parts_spec f ps l : (∀ h r l, (h, r) ∈ ps → f (part_type h) h r = Ok l ↔ holds h r l) →
  items_of_parts f ps None = Ok l ↔ all_hold ps l.
Proof.
  revert l. induction ps as [|[h r] ps IH]; intros l Hf; cbn [items_of_parts].
  { split; [intros [= <-]; constructor|by inversion 1]. }
  assert (IH' : ∀ l, items_of_parts f ps None = Ok l ↔ all_hold ps l).
  { intros l'. apply IH. intros h' r' l'' Hin. apply Hf. by apply list_elem_of_further. }
  assert (Hh : ∀ l, f (part_type h) h r = Ok l ↔ holds h r l) by (intros l'; apply Hf, list_elem_of_here).
  split.
  - destruct (f _ h r) as [l1|e]; [|done]. destruct (items_of_parts f ps None) as [l2|e]; [|done].
    intros [= <-]. constructor; [by apply Hh|by apply IH'].
  - inversion 1 as [|h' r' ps' l1 l2 H1 H2]; subst. apply Hh in H1 as ->. by apply IH' in H2 as ->.
Qed.

Lemma items_spec fuel h r l : (String.length (rd_data r) < fuel)%nat → items fuel (part_type h) h r = Ok l ↔ holds h r l.
Proof.
  revert h r l. induction fuel as [|fuel IH]; intros h r l Hf; [lia|]. cbn [items].
  destruct (media_type (part_type h)) as [mt ps] eqn:Hk. apply kind_media in Hk.
  pose proof (attached_spec h mt ps) as Ha. destruct (attachment_name mt ps h) as [n [] ]; [|destruct (String.prefix "multipart/" mt) eqn:Hm].
  - split.
    + destruct (decodePart h r) as [c|e] eqn:Hc; [|done]. intros [= <-]. eapply holds_attachment; [done|by apply Ha|by apply coded_spec].
    + destruct 1 as [h r mt' ps' n' c Hk' Hn Hc|h r mt' ps' b l Hk' Hno _ _ _ _|h r mt' ps' c Hk' Hno _ _];
        destruct (kind_fun _ _ _ _ _ Hk Hk') as [-> ->].
      * apply coded_spec in Hc as ->. by apply Ha in Hn as ->.
      * by destruct (Hno n); apply Ha.
      * by destruct (Hno n); apply Ha.
  - assert (Hparts : ∀ b l, items_of_parts (items fuel) (Parts b r).1 None = Ok l ↔ all_hold (Parts b r).1 l).
    { intros b l'. apply items_of_parts_spec. intros h' r' l'' Hin. apply IH. apply Parts_shorter in Hin. lia. }
    split.
    + case_decide as Hb; [done|]. destruct (Parts _ r).2 eqn:He; [by intros ?%items_of_parts_fails|]. intros H.
      eapply holds_parts; [done|done|done|by apply given_default|done|by apply Hparts].
    + destruct 1 as [h r mt' ps' n' c Hk' Hn Hc|h r mt' ps' b l Hk' Hno _ [Hb Hne]%given_default He Hall|h r mt' ps' c Hk' Hno Hm' _];
        destruct (kind_fun _ _ _ _ _ Hk Hk') as [-> ->].
      * by destruct (Ha n').
      * rewrite Hb, decide_False, He by done. by apply Hparts.
      * congruence.
  - split.
    + destruct (decodePart h r) as [c|e] eqn:Hc; [|done]. intros [= <-]. eapply holds_body; [done..|by apply coded_spec].
    + destruct 1 as [h r mt' ps' n' c Hk' Hn Hc|h r mt' ps' b l Hk' Hno Hm' _ _ _|h r mt' ps' c Hk' Hno _ Hc];
        destruct (kind_fun _ _ _ _ _ Hk Hk') as [-> ->]; [by destruct (Ha n')|congruence|].
      by apply coded_spec in Hc as ->.
Qed.

Lemma message_is_fun h l m1 m2 : message_is h l m1 → message_is h l m2 → m1 = m2.
Proof.
  intros [A1 H1 T1 S1 F1 E1 N1 D1 Z1] [A2 H2 T2 S2 F2 E2 N2 D2 Z2]. destruct m1, m2; cbn in *. f_equal; try congruence.
  - destruct (ParseAddress (Header_Get h "From")) as [a|e]; [by rewrite (E1 a), (E2 a)|by rewrite (N1 e), (N2 e)].
  - destruct (decide (Header_Get h "Date" = EmptyString)) as [Hd|Hd]; [rewrite Z1, Z2; auto|].
    destruct (ParseDate (Header_Get h "Date")) as [t|e]; [by rewrite (D1 t), (D2 t)|rewrite Z1, Z2; auto].
Qed.

Lemma foldl_message_is h l : message_is h l (foldl put_item (header_part h) l).
Proof.
  destruct (put_items_header l (header_part h)) as (Hs & Hf & He & Hr).
  constructor; rewrite ?put_items_attachments, ?put_items_html, ?put_items_text, ?Hs, ?Hf, ?He, ?Hr; try done; cbn.
  - by intros a ->.
  - by intros e ->.
  - intros t Hd ->. by rewrite decide_False.
  - case_decide; [done|]. intros [?|Hok]; [done|]. by destruct (ParseDate _).
Qed.

(** C25. Every message is parsed to the end, and what the parser returns is what
    the rules say: it succeeds with a message exactly if the text can be read
    as a header and a body, the body, by the rules, holds some items, each
    decoded as its part's transfer encoding says, and the message has these
    items: the attachments at any depth in the order of the text, each with the
    name and the type that its part gives it, the first HTML and the first plain
    text body that are not empty, and the subject, the sender and the date of
    the header. *)
Theorem parseMessage_contents raw : ∃ r, parseMessage raw = Some r ∧
  ∀ m, r = Ok m ↔ ∃ h body l, ReadMessage raw = Ok (h, body) ∧ holds h body l ∧ message_is h l m.
Proof.
  unfold parseMessage. destruct (ReadMessage raw) as [ [h body]|e].
  2: { eexists. split; [done|]. intros m. split; [done|by intros (? & ? & ? & ? & _)]. }
  rewrite walkPart_items by lia. pose proof (items_spec (S (String.length (rd_data body))) h body) as Hit.
  destruct (items _ _ _ _) as [l|e]; (eexists; split; [done|]; intros m; split).
  - intros [= <-]. exists h, body, l. split; [done|]. split; [apply Hit; [lia|done]|apply foldl_message_is].
  - intros (h' & body' & l' & [= <- <-] & Hl & Hm). apply Hit in Hl; [|lia]. injection Hl as ->. f_equal.
    eapply message_is_fun; [apply foldl_message_is|done].
  - done.
  - intros (h' & body' & l' & [= <- <-] & Hl & Hm). apply Hit in Hl; [done|lia].
Qed.
End rules.
