(* ===== verification/Html.v ===== *)
(** * The page a message is rendered from: internal/handler/render.go

    [buildHTMLWrapper] puts the header fields, escaped, above the message's
    own HTML, or above its text in a pre element. *)
From S2P Require Import Prelude GoStrings Utf8 Calendar Times Mime.
Local Open Scope Z_scope.

Definition escape_byte (c : ascii) : string :=
  if decide (c = "<"%char) then "&lt;"
  else if decide (c = ">"%char) then "&gt;"
  else if decide (c = "&"%char) then "&amp;"
  else if decide (c = "034"%char) then "&quot;"
  else String c EmptyString.

Fixpoint htmlEscape (s : string) : string :=
  match s with
  | EmptyString => EmptyString
  | String c s => escape_byte c +:+ htmlEscape s
  end.

Definition attr (name value : string) : string :=
  " " +:+ name +:+ "=" +:+ String "034" value +:+ String "034" EmptyString.

Definition row (label value : string) : string :=
  "<div><strong>" +:+ label +:+ ":</strong> " +:+ htmlEscape value +:+ "</div>".

Definition body_html (p : ParsedMessage) : string :=
  if decide (HTML p = EmptyString) then "<pre>" +:+ htmlEscape (Text p) +:+ "</pre>" else HTML p.

(** What is written before the body. *)
Definition page_head (p : ParsedMessage) : string :=
  "<!doctype html><html><head><meta" +:+ attr "charset" "utf-8" +:+ "><title>" +:+
  htmlEscape (pm_Subject p) +:+ "</title></head><body>" +:+
  "<div" +:+ attr "style" ("font-family:sans-serif;border-bottom:1px solid #ccc;" +:+
    "padding-bottom:8px;margin-bottom:12px") +:+ ">" +:+
  row "From" (pm_From p) +:+
  (if IsZero (pm_ReceivedAt p) then EmptyString else row "Date" (Format_RFC1123 (pm_ReceivedAt p))) +:+
  row "Subject" (pm_Subject p) +:+ "</div>".

Definition buildHTMLWrapper (p : ParsedMessage) : string :=
  page_head p +:+ body_html p +:+ "</body></html>".

(** ** Reading the escapes back *)

(** The characters a browser shows for a text without tags; the fuel bounds
    the number of characters. *)
Fixpoint shown (fuel : nat) (s : string) : string :=
  match fuel with
  | O => EmptyString
  | S fuel =>
      match s with
      | EmptyString => EmptyString
      | String "&" (String "l" (String "t" (String ";" s))) => String "<" (shown fuel s)
      | String "&" (String "g" (String "t" (String ";" s))) => String ">" (shown fuel s)
      | String "&" (String "a" (String "m" (String "p" (String ";" s)))) => String "&" (shown fuel s)
      | String "&" (String "q" (String "u" (String "o" (String "t" (String ";" s))))) =>
          String "034" (shown fuel s)
      | String c s => String c (shown fuel s)
      end
  end.

Lemma shown_escape fuel s : (String.length s ≤ fuel)%nat → shown fuel (htmlEscape s) = s.
Proof.
  revert fuel. induction s as [|c s IH]; intros [|fuel] Hf; try (simpl in Hf; lia); [done..|].
  cbn [htmlEscape]. simpl in Hf. unfold escape_byte.
  destruct (decide (c = "<"%char)) as [->|]; [cbn; f_equal; apply IH; lia|].
  destruct (decide (c = ">"%char)) as [->|]; [cbn; f_equal; apply IH; lia|].
  destruct (decide (c = "&"%char)) as [->|Hamp]; [cbn; f_equal; apply IH; lia|].
  destruct (decide (c = "034"%char)) as [->|]; [cbn; f_equal; apply IH; lia|].
  rewrite sapp_cons, sapp_nil_l. transitivity (String c (shown fuel (htmlEscape s))); [|f_equal; apply IH; lia].
  destruct c as [ [] [] [] [] [] [] [] []]; reflexivity || done.
Qed.

(** The characters that start or end tags, attributes and entities. *)
Definition markup (c : ascii) : bool := bool_decide (c ∈ ["<"; ">"; "034"]%char).

Lemma escape_no_markup c s : markup c = true → contains_byte c (htmlEscape s) = false.
Proof.
  intros Hc. induction s as [|d s IH]; [done|]. cbn [htmlEscape]. rewrite contains_byte_app, IH, orb_false_r.
  unfold markup in Hc. apply bool_decide_eq_true in Hc. rewrite !elem_of_cons, elem_of_nil in Hc.
  unfold escape_byte. repeat case_decide; destruct Hc as [->|[->|[->|[] ] ] ]; try reflexivity;
    cbn [contains_byte]; rewrite bool_decide_eq_false_2 by done; done.
Qed.

(** A header field cannot inject markup into the page: whatever bytes the
    subject holds, its text in the page has no angle bracket and no quote,
    and it shows as the subject itself. *)
Theorem htmlEscape_safe s :
  (∀ c, markup c = true → contains_byte c (htmlEscape s) = false) ∧
  shown (String.length s) (htmlEscape s) = s.
Proof. split; [intros c; apply escape_no_markup|by apply shown_escape]. Qed.

Example page_of_text :
  buildHTMLWrapper (mk_ParsedMessage EmptyString "1 < 2" [] "hi" "bob" "bob@x" zero_time) =
  "<!doctype html><html><head><meta" +:+ attr "charset" "utf-8" +:+ "><title>hi</title></head><body><div" +:+
  attr "style" "font-family:sans-serif;border-bottom:1px solid #ccc;padding-bottom:8px;margin-bottom:12px" +:+
  "><div><strong>From:</strong> bob</div><div><strong>Subject:</strong> hi</div></div>" +:+
  "<pre>1 &lt; 2</pre></body></html>".
Proof. reflexivity. Qed.
