(* ===== verification/Services.v ===== *)
(** * Google APIs, the PDF renderer, and AES-GCM

    What the program uses of code that is not in the repository: the requests
    it sends to Gmail, the OAuth token endpoint and the PDF renderer (their
    answers are the environment's), Google Drive as a store of files with the
    documented behaviour of its list and create calls ([DriveServer]), and
    authenticated encryption ([AeadLib]).  Concrete instances for the
    witnesses are at the end. *)
From S2P Require Import Prelude Schema GoStrings.
Local Open Scope Z_scope.

(** ** Requests and the parts of the responses the program reads *)

(** oauth2.Token *)
Record Token := mk_Token {
  AccessToken : string; RefreshToken : string; TokenType : string; Expiry : Z
}.

Record Message := mk_Message { msg_Id : string; msg_LabelIds : list string }.
Record HistoryEntry := mk_HistoryEntry {
  MessagesAdded : list (option Message);
  LabelsAdded : list (list string * option Message)
}.
Record HistoryResp := mk_HistoryResp {
  History : list HistoryEntry;
  HistoryId : N;
  h_NextPageToken : string
}.
Record MessagesResp := mk_MessagesResp {
  Messages : list (option string);
  NextPageToken : string
}.

Section requests.
Context `{UL : UuidLib}.

(** The service construction, the token source of oauth2.Config, the Gmail
    REST calls, and the renderer's HTTP response (status, the part of the
    body that was read, and the error reading it met). *)
Inductive api_req : Type → Type :=
| NewService : api_req unit
| TokenSource (user : uuid) : api_req Token
| HistoryList (user : uuid) (startHistoryId : N) (types : list string) (labelId : string)
  : api_req HistoryResp
| MessagesList (user : uuid) (labelIds : list string) (q pageToken : string) : api_req MessagesResp
| MessagesGet (user : uuid) (id format : string) : api_req string
| GetProfile (user : uuid) : api_req N
| RenderPost (html : string) : api_req (Z * string * option err).

End requests.

(** ** Google Drive *)

Record dfile := mk_dfile {
  f_id : string; f_name : string; f_parent : string; f_mime : string; f_content : string
}.

Definition folderMime : string := "application/vnd.google-apps.folder".

(** The documented way to write a name in a query string: quotes and
    backslashes are escaped with a backslash. *)
Fixpoint drive_quote (s : string) : string :=
  match s with
  | EmptyString => EmptyString
  | String c s =>
      if decide (c = "'"%char ∨ c = "\"%char) then String "\" (String c (drive_quote s))
      else String c (drive_quote s)
  end.

(** Query strings, given the quoted name. *)
Definition folder_query (quoted parent : string) : string :=
  "name = '" +:+ quoted +:+ "' and '" +:+ parent +:+ "' in parents and mimeType = '" +:+
  folderMime +:+ "' and trashed = false".
Definition file_query (quoted parent : string) : string :=
  "name = '" +:+ quoted +:+ "' and '" +:+ parent +:+ "' in parents and trashed = false".

(** Drive identifiers hold no quote. *)
Definition drive_id_ok (id : string) : Prop := contains_byte "'"%char id = false.

Class DriveServer := {
  dstate : Type;
  (** the files that are not in the trash *)
  d_files : dstate → list dfile;
  (** files.list: the ids of the files on the first page of the answer *)
  FilesList : string → dstate → list string;
  (** files.create: the new file's id *)
  FilesCreate : string → string → string → string → dstate → string * dstate;
  FilesList_folder st name parent :
    drive_id_ok parent →
    (∀ id, id ∈ FilesList (folder_query (drive_quote name) parent) st → ∃ f, f ∈ d_files st ∧
       f_id f = id ∧ f_name f = name ∧ f_parent f = parent ∧ f_mime f = folderMime) ∧
    (∀ f, f ∈ d_files st → f_name f = name → f_parent f = parent → f_mime f = folderMime →
       FilesList (folder_query (drive_quote name) parent) st ≠ []);
  FilesList_file st name parent :
    drive_id_ok parent →
    (∀ id, id ∈ FilesList (file_query (drive_quote name) parent) st → ∃ f, f ∈ d_files st ∧
       f_id f = id ∧ f_name f = name ∧ f_parent f = parent) ∧
    (∀ f, f ∈ d_files st → f_name f = name → f_parent f = parent →
       FilesList (file_query (drive_quote name) parent) st ≠ []);
  FilesCreate_spec st name parent mime content :
    let '(id, st') := FilesCreate name parent mime content st in
    drive_id_ok id ∧ (∀ f, f ∈ d_files st → f_id f ≠ id ∧ f_parent f ≠ id) ∧ parent ≠ id ∧
    d_files st' ≡ₚ mk_dfile id name parent mime content :: d_files st
}.

(** ** Authenticated encryption: AES-256-GCM of crypto/cipher *)

Class AeadLib := {
  Seal : list Byte.byte → list Byte.byte → list Byte.byte → list Byte.byte;
  Open : list Byte.byte → list Byte.byte → list Byte.byte → option (list Byte.byte);
  NonceSize : nat;
  (** [Seal key nonce plaintext] opens under the same key and nonce, and
      nothing else opens. *)
  Open_Seal k n pt : length k = 32%nat → length n = NonceSize → Open k n (Seal k n pt) = Some pt;
  Open_only k n ct pt : length k = 32%nat → length n = NonceSize →
    Open k n ct = Some pt → ct = Seal k n pt
}.

(** ** Concrete instances *)

Module DriveModel.

Lemma drive_quote_end s1 s2 r1 r2 :
  drive_quote s1 +:+ String "'" r1 = drive_quote s2 +:+ String "'" r2 → s1 = s2 ∧ r1 = r2.
Proof.
  revert s2. induction s1 as [|c s1 IH]; intros [|d s2]; cbn [drive_quote];
    repeat case_decide; rewrite ?sapp_cons, ?sapp_nil_l; try (by intros [= ->]);
    try (intros [= -> ?]; naive_solver); try (intros [= <- ?]; naive_solver).
Qed.

Lemma until_quote s1 s2 r1 r2 :
  drive_id_ok s1 → drive_id_ok s2 → s1 +:+ String "'" r1 = s2 +:+ String "'" r2 → s1 = s2 ∧ r1 = r2.
Proof.
  unfold drive_id_ok. intros H1 H2 H. apply (f_equal (Cut "'")) in H.
  rewrite !Cut_app in H by done. by injection H as -> ->.
Qed.

Definition drive := list dfile.

Definition answers (q : string) (f : dfile) : bool :=
  negb (contains_byte "'"%char (f_parent f)) &&
  ((bool_decide (q = folder_query (drive_quote (f_name f)) (f_parent f)) &&
    bool_decide (f_mime f = folderMime)) ||
   bool_decide (q = file_query (drive_quote (f_name f)) (f_parent f))).

Definition list_files (q : string) (st : drive) : list string :=
  f_id <$> filter (λ f, answers q f = true) st.

Lemma folder_query_inj n1 n2 p1 p2 :
  drive_id_ok p1 → drive_id_ok p2 →
  folder_query (drive_quote n1) p1 = folder_query (drive_quote n2) p2 → n1 = n2 ∧ p1 = p2.
Proof.
  intros H1 H2 H. apply sapp_inj_l, drive_quote_end in H as [-> H]. split; [done|].
  change (String " " ("and '" +:+ ?x)) with (" and '" +:+ x) in H.
  apply (sapp_inj_l " and '"), until_quote in H as [-> _]; done.
Qed.

Lemma file_query_inj n1 n2 p1 p2 :
  drive_id_ok p1 → drive_id_ok p2 →
  file_query (drive_quote n1) p1 = file_query (drive_quote n2) p2 → n1 = n2 ∧ p1 = p2.
Proof.
  intros H1 H2 H. apply sapp_inj_l, drive_quote_end in H as [-> H]. split; [done|].
  apply (sapp_inj_l " and '"), until_quote in H as [-> _]; done.
Qed.

Lemma folder_file_query n1 n2 p1 p2 :
  drive_id_ok p1 → drive_id_ok p2 →
  folder_query (drive_quote n1) p1 ≠ file_query (drive_quote n2) p2.
Proof.
  intros H1 H2 H. apply sapp_inj_l, drive_quote_end in H as [-> H].
  apply (sapp_inj_l " and '"), until_quote in H as [_ H]; done.
Qed.

Lemma elem_of_list_files q st id :
  id ∈ list_files q st ↔ ∃ f, f ∈ st ∧ f_id f = id ∧ answers q f = true.
Proof.
  unfold list_files. rewrite list_elem_of_fmap. setoid_rewrite list_elem_of_filter. naive_solver.
Qed.

Lemma list_files_nonempty q st f : f ∈ st → answers q f = true → list_files q st ≠ [].
Proof.
  intros Hf Hq Hnil. assert (f_id f ∈ list_files q st) as H by (apply elem_of_list_files; eauto).
  rewrite Hnil in H. by apply elem_of_nil in H.
Qed.

(** A fresh identifier: longer than every other. *)
Definition ids_length (st : drive) : nat := sum_list_with (λ f, String.length (f_id f) + String.length (f_parent f))%nat st.
Definition fresh_id (parent : string) (st : drive) : string :=
  String.string_of_list_ascii (replicate (S (String.length parent + ids_length st)) "x"%char).

Definition create (name parent mime content : string) (st : drive) : string * drive :=
  (fresh_id parent st, mk_dfile (fresh_id parent st) name parent mime content :: st).

Lemma fresh_id_length parent st :
  String.length (fresh_id parent st) = S (String.length parent + ids_length st).
Proof.
  unfold fresh_id. generalize (S (String.length parent + ids_length st)) as n.
  induction n as [|n IH]; simpl; [done|]. by rewrite IH.
Qed.

Lemma fresh_id_ok parent st : drive_id_ok (fresh_id parent st).
Proof.
  unfold drive_id_ok, fresh_id. generalize (S (String.length parent + ids_length st)) as n.
  by induction n.
Qed.

Lemma fresh_id_new parent st f : f ∈ st → f_id f ≠ fresh_id parent st ∧ f_parent f ≠ fresh_id parent st.
Proof.
  intros Hf. assert (String.length (f_id f) + String.length (f_parent f) ≤ ids_length st)%nat as H.
  { unfold ids_length. clear -Hf. induction st as [|g st IH]; [by apply elem_of_nil in Hf|].
    apply elem_of_cons in Hf as [->|Hf]; simpl; [lia|]. specialize (IH Hf). lia. }
  split; intros Heq; apply (f_equal String.length) in Heq; rewrite fresh_id_length in Heq; lia.
Qed.

Lemma fresh_id_parent parent st : parent ≠ fresh_id parent st.
Proof. intros Heq. apply (f_equal String.length) in Heq. rewrite fresh_id_length in Heq. lia. Qed.

#[export] Instance drive_model : DriveServer.
Proof.
  refine {| dstate := drive; d_files := λ st, st; FilesList := list_files; FilesCreate := create |}.
  - intros st name parent Hp. split.
    + intros id (f & Hf & Hid & [Hok Hq]%andb_true_iff)%elem_of_list_files. exists f.
      apply negb_true_iff in Hok. apply orb_true_iff in Hq as [ [Hq Hm]%andb_true_iff|Hq].
      * apply bool_decide_eq_true in Hq, Hm. apply folder_query_inj in Hq as [-> ->]; done.
      * apply bool_decide_eq_true in Hq. by apply folder_file_query in Hq.
    + intros f Hf Hn Hpf Hm. eapply list_files_nonempty; [done|]. unfold answers, drive_id_ok in *.
      rewrite Hpf, Hp, Hn, Hm. by rewrite !bool_decide_eq_true_2 by done.
  - intros st name parent Hp. split.
    + intros id (f & Hf & Hid & [Hok Hq]%andb_true_iff)%elem_of_list_files. exists f.
      apply negb_true_iff in Hok. apply orb_true_iff in Hq as [ [Hq Hm]%andb_true_iff|Hq].
      * apply bool_decide_eq_true in Hq, Hm. symmetry in Hq. by apply folder_file_query in Hq.
      * apply bool_decide_eq_true in Hq. apply file_query_inj in Hq as [-> ->]; done.
    + intros f Hf Hn Hpf. eapply list_files_nonempty; [done|]. unfold answers, drive_id_ok in *.
      rewrite Hpf, Hp, Hn, 
        (bool_decide_eq_true_2 (file_query (drive_quote name) parent = file_query (drive_quote name) parent))
        by done. by rewrite orb_true_r.
  - intros st name parent mime content. split; [apply fresh_id_ok|]. split; [apply fresh_id_new|]. split; [apply fresh_id_parent|done].
Defined.

End DriveModel.

(** Encryption that appends a fixed tag. *)
Module AeadModel.

Definition tag : list Byte.byte := replicate 16 Byte.x00.

Definition seal (k n pt : list Byte.byte) : list Byte.byte := pt ++ tag.

#[export] Instance byte_eq_dec : EqDecision Byte.byte.
Proof. intros x y. exact (Byte.byte_eq_dec x y). Defined.

Definition open (k n ct : list Byte.byte) : option (list Byte.byte) :=
  let pt := take (length ct - 16) ct in
  if decide (ct = pt ++ tag) then Some pt else None.

#[export] Instance aead_model : AeadLib.
Proof.
  refine {| Seal := seal; Open := open; NonceSize := 12 |}.
  - intros k n pt _ _. unfold open, seal.
    replace (length (pt ++ tag) - 16)%nat with (length pt) by (rewrite length_app; simpl; lia).
    rewrite take_app_length. by rewrite decide_True.
  - intros k n ct pt _ _. unfold open, seal. case_decide as H; [|done]. by intros [= <-].
Defined.

End AeadModel.
