(* ===== verification/Effects.v ===== *)
(** * Effects: programs as sequences of calls on shared services

    A Go function of the repository is a value of [prog A]: a tree of calls,
    each of which is one Redis command, one SQL statement, one file or Drive
    operation, or one question to the process's surroundings (clock, uuid,
    random number, cancelled context, stage handler, remote API).  One call is atomic, as the services promise; what
    happens between calls is up to the semantics:
    - [run] executes a program alone, against an oracle that decides for each
      call how long it takes, whether it fails (before or after taking effect
      on the server), and what the surroundings answer;
    - System.v interleaves the calls of several programs.
    A loop carries fuel; [NoFuel] marks a program whose fuel ran out. *)
From S2P Require Import Prelude Redis Schema Services.
Local Open Scope Z_scope.

(** How a call to a service fails: not at all, without having reached the
    server, or after the server executed it (the reply was lost). *)
Inductive fault := NoFault | FailBefore (msg : string) | FailAfter (msg : string).

Section effects.
Context `{UL : UuidLib} `{RS : RedisServer} `{DS : DriveServer}.

(** The disk the worker pods share (contents of the files, directories) and
    each account's Google Drive. *)
Record outside := mk_outside { o_files : gmap string string; o_dirs : gset string; o_drive : uuid → dstate }.
Definition disk (x : outside) : gmap string string * gset string := (o_files x, o_dirs x).

Inductive cmd : Type → Type :=
| Redis {X} (f : Z → rstate → result X * rstate) : cmd (result X)
| Sql {X} (f : Z → DB → result X * DB) : cmd (result X)
| Now : cmd Z
| NewUUID : cmd uuid
| Rand : cmd N
| CtxDone : cmd bool
| Handle (j : Job) : cmd (result string)
| Ext {X} (f : Z → outside → result X * outside) : cmd (result X)
| Api {X} (rq : api_req X) : cmd (result X).

Inductive prog (A : Type) : Type :=
| Ret (a : A)
| Vis {X} (c : cmd X) (k : X → prog A)
| NoFuel.
Arguments Ret {A} a.
Arguments Vis {A X} c k.
Arguments NoFuel {A}.

Fixpoint bind {A B} (p : prog A) (f : A → prog B) : prog B :=
  match p with
  | Ret a => f a
  | Vis c k => Vis c (λ x, bind (k x) f)
  | NoFuel => NoFuel
  end.

#[global] Instance prog_ret : MRet prog := @Ret.
#[global] Instance prog_bind : MBind prog := λ A B f p, bind p f.

Definition call {X} (c : cmd X) : prog X := Vis c Ret.

(** The state all processes share. *)
Record shared := mk_shared { s_db : DB; s_redis : rstate; s_ext : outside; s_now : Z }.

(** What the surroundings decide about one call. *)
Record outcome := mk_outcome {
  o_fault : fault;
  o_dt : N;
  o_uuid : uuid;
  o_rand : N;
  o_ctx : bool;
  o_handler : Job → result string;
  o_api : ∀ X, api_req X → result X
}.

Definition set_now (t : Z) (s : shared) : shared := mk_shared (s_db s) (s_redis s) (s_ext s) t.
Definition set_db (d : DB) (s : shared) : shared := mk_shared d (s_redis s) (s_ext s) (s_now s).
Definition set_redis (r : rstate) (s : shared) : shared := mk_shared (s_db s) r (s_ext s) (s_now s).
Definition set_ext (x : outside) (s : shared) : shared := mk_shared (s_db s) (s_redis s) x (s_now s).

(** Time passes while a call is under way. *)
Definition elapse (o : outcome) (s : shared) : shared := set_now (s_now s + Z.of_N (o_dt o)) s.

Definition with_fault {X} (f : fault) (s : shared) (r : result X * shared) : result X * shared :=
  match f with
  | NoFault => r
  | FailBefore msg => (Err (EText msg), s)
  | FailAfter msg => (Err (EText msg), r.2)
  end.

(** One atomic call. *)
Definition exec {X} (o : outcome) (c : cmd X) (s : shared) : X * shared :=
  let s := elapse o s in
  match c in cmd X return X * shared with
  | Redis f =>
      with_fault (o_fault o) s
        (let '(x, r) := f (s_now s) (s_redis s) in (x, set_redis r s))
  | Sql f =>
      with_fault (o_fault o) s
        (let '(x, d) := f (s_now s) (s_db s) in (x, set_db d s))
  | Now => (s_now s, s)
  | NewUUID => (o_uuid o, s)
  | Rand => (o_rand o, s)
  | CtxDone => (o_ctx o, s)
  | Handle j => (o_handler o j, s)
  | Ext f =>
      with_fault (o_fault o) s
        (let '(x, e) := f (s_now s) (s_ext s) in (x, set_ext e s))
  | Api rq => with_fault (o_fault o) s (o_api o _ rq, s)
  end.

(** Run a program alone.  The oracle is indexed by the number of the call. *)
Fixpoint run {A} (orc : nat → outcome) (p : prog A) (i : nat) (s : shared)
  : option (A * nat * shared) :=
  match p with
  | Ret a => Some (a, i, s)
  | Vis c k => let '(x, s) := exec (orc i) c s in run orc (k x) (S i) s
  | NoFuel => None
  end.

Lemma run_bind {A B} orc (p : prog A) (f : A → prog B) i s :
  run orc (p ≫= f) i s =
  match run orc p i s with
  | Some (a, i', s') => run orc (f a) i' s'
  | None => None
  end.
Proof.
  unfold mbind, prog_bind.
  revert i s. induction p as [a|X c k IH|]; intros i s; simpl; [done| |done].
  destruct (exec (orc i) c s) as [x s']. apply IH.
Qed.

Lemma run_ret {A} orc (a : A) i s : run orc (mret a) i s = Some (a, i, s).
Proof. done. Qed.

Lemma run_call {X} orc (c : cmd X) i s :
  run orc (call c) i s = Some ((exec (orc i) c s).1, S i, (exec (orc i) c s).2).
Proof. simpl. by destruct (exec _ _ _). Qed.

(** No call of the run fails in transit; answers and delays stay arbitrary. *)
Definition reliable (orc : nat → outcome) : Prop := ∀ i, o_fault (orc i) = NoFault.

(** A run only depends on the outcomes of the calls it makes. *)
Lemma run_ext {A} orc orc' (p : prog A) i s a i' s' :
  run orc p i s = Some (a, i', s') → (∀ k, (i ≤ k < i')%nat → orc k = orc' k) →
  run orc' p i s = Some (a, i', s').
Proof.
  revert i s. induction p as [b|X c k IH|]; intros i s H Hext; simpl in *; [done| |done].
  assert (Hlt : (S i ≤ i')%nat).
  { clear -H. destruct (exec (orc i) c s) as [x s1]. revert H. generalize (S i) s1.
    induction (k x) as [b|Y d g IH|]; simpl; intros n s2 H; [by simplify_eq|destruct (exec _ _ _)|done].
    apply IH in H. lia. }
  rewrite <- Hext by lia. destruct (exec (orc i) c s) as [x s1]. apply IH; [done|].
  intros n Hn. apply Hext. lia.
Qed.

(** Calls are numbered upwards. *)
Lemma run_mono {A} orc (p : prog A) i s a i' s' : run orc p i s = Some (a, i', s') → (i ≤ i')%nat.
Proof.
  revert i s. induction p as [b|X c k IH|]; intros i s H; simpl in *; [by simplify_eq| |done].
  destruct (exec _ _ _) as [x s1]. apply IH in H. lia.
Qed.

(** One call that does not fail behaves like in a reliable run. *)
Lemma run_one {A} orc (p : prog A) i s (P : A → shared → Prop) :
  o_fault (orc i) = NoFault →
  (∀ orc', reliable orc' → ∃ a s', run orc' p i s = Some (a, S i, s') ∧ P a s') →
  ∃ a s', run orc p i s = Some (a, S i, s') ∧ P a s'.
Proof.
  intros Hf H. destruct (H (λ _, orc i)) as (a & s' & Hrun & HP); [by intros ?|].
  exists a, s'. split; [|done]. eapply run_ext; [exact Hrun|]. intros k Hk. by replace k with i by lia.
Qed.

(** ** Reading the semantics *)

Lemma exec_Redis {X} o (f : Z → rstate → result X * rstate) s :
  o_fault o = NoFault →
  exec o (Redis f) s =
  let t := s_now s + Z.of_N (o_dt o) in
  ((f t (s_redis s)).1, mk_shared (s_db s) (f t (s_redis s)).2 (s_ext s) t).
Proof. intros Hf. simpl. rewrite Hf. simpl. by destruct (f _ _). Qed.

Lemma exec_Sql {X} o (f : Z → DB → result X * DB) s :
  o_fault o = NoFault →
  exec o (Sql f) s =
  let t := s_now s + Z.of_N (o_dt o) in
  ((f t (s_db s)).1, mk_shared (f t (s_db s)).2 (s_redis s) (s_ext s) t).
Proof. intros Hf. simpl. rewrite Hf. simpl. by destruct (f _ _). Qed.

(** Whatever fails, a Redis call leaves the tables alone and an SQL call
    leaves Redis alone, and no call takes the clock back. *)
Lemma exec_Redis_db {X} o (f : Z → rstate → result X * rstate) s :
  s_db (exec o (Redis f) s).2 = s_db s.
Proof. simpl. destruct (o_fault o); simpl; try done; by destruct (f _ _). Qed.

Lemma exec_Sql_redis {X} o (f : Z → DB → result X * DB) s :
  s_redis (exec o (Sql f) s).2 = s_redis s.
Proof. simpl. destruct (o_fault o); simpl; try done; by destruct (f _ _). Qed.

Lemma exec_now {X} o (c : cmd X) s : s_now (exec o c s).2 = s_now s + Z.of_N (o_dt o).
Proof.
  destruct c as [Y f|Y f| | | | |j|Y f|Y rq]; simpl; try done; destruct (o_fault o); simpl; try done;
    by destruct (f _ _).
Qed.

(** The clock before the [n]-th call of a run that starts with call [i0] at
    time [t0]. *)
Fixpoint clock (orc : nat → outcome) (i0 : nat) (t0 : Z) (n : nat) : Z :=
  match n with
  | O => t0
  | S n => clock orc i0 t0 n + Z.of_N (o_dt (orc (i0 + n)%nat))
  end.

Lemma clock_mono orc i0 t0 n : clock orc i0 t0 n ≤ clock orc i0 t0 (S n).
Proof. simpl. lia. Qed.

Lemma clock_ge orc i0 t0 n : t0 ≤ clock orc i0 t0 n.
Proof. induction n; simpl; lia. Qed.

(** An SQL call that failed in transit executed its statement or did not. *)
Lemma exec_Sql_cases {X} o (f : Z → DB → result X * DB) s :
  let t := s_now s + Z.of_N (o_dt o) in
  let '(x, s') := exec o (Sql f) s in
  s_now s' = t ∧ s_redis s' = s_redis s ∧
  ((x = (f t (s_db s)).1 ∧ s_db s' = (f t (s_db s)).2) ∨
   (∃ msg, x = Err (EText msg) ∧
      (s_db s' = s_db s ∨ (o_fault o = FailAfter msg ∧ s_db s' = (f t (s_db s)).2)))).
Proof.
  simpl. destruct (o_fault o); simpl; destruct (f _ _) eqn:E; simpl in *; rewrite ?E;
    naive_solver.
Qed.

(** ** Programs that only make certain calls *)

Fixpoint calls_only {A} (P : ∀ X, cmd X → Prop) (p : prog A) : Prop :=
  match p with
  | Ret _ => True
  | @Vis _ X c k => P X c ∧ ∀ x, calls_only P (k x)
  | NoFuel => True
  end.

Lemma calls_only_bind {A B} (P : ∀ X, cmd X → Prop) (p : prog A) (f : A → prog B) :
  calls_only P p → (∀ a, calls_only P (f a)) → calls_only P (p ≫= f).
Proof.
  unfold mbind, prog_bind. induction p as [a|X c k IH|]; simpl; [auto| |done].
  intros [Hc Hk] Hf. split; [done|]. intros x. by apply IH.
Qed.

Lemma calls_only_ret {A} (P : ∀ X, cmd X → Prop) (a : A) : calls_only P (mret a).
Proof. done. Qed.

Lemma calls_only_call {X} (P : ∀ X, cmd X → Prop) (c : cmd X) : P X c → calls_only P (call c).
Proof. done. Qed.

Lemma calls_only_impl {A} (P Q : ∀ X, cmd X → Prop) (p : prog A) :
  (∀ X c, P X c → Q X c) → calls_only P p → calls_only Q p.
Proof. intros HPQ. induction p as [a|X c k IH|]; simpl; [done| |done]. intros [? ?]. split; auto. Qed.

(** What every call keeps, a run keeps, whatever the outcomes. *)
Lemma run_calls_only {A} (P : ∀ X, cmd X → Prop) (I : shared → Prop) orc (p : prog A) i s a i' s' :
  (∀ X (c : cmd X) o s, P X c → I s → I (exec o c s).2) →
  calls_only P p → I s → run orc p i s = Some (a, i', s') → I s'.
Proof.
  intros Hexec. revert i s. induction p as [b|X c k IH|]; intros i s; simpl; [by intros _ ? [= <- <- <-]| |done].
  intros [Hc Hk] HI. pose proof (Hexec X c (orc i) s Hc HI) as HI'.
  destruct (exec (orc i) c s) as [x s1]. by apply IH.
Qed.

(** The states a run leaves behind each of its calls: where it may be cut off. *)
Fixpoint states {A} (orc : nat → outcome) (p : prog A) (i : nat) (s : shared) : list shared :=
  match p with
  | Vis c k => let '(x, s) := exec (orc i) c s in s :: states orc (k x) (S i) s
  | _ => []
  end.

Lemma states_bind {A B} orc (p : prog A) (f : A → prog B) i s a i' s' :
  run orc p i s = Some (a, i', s') → states orc (p ≫= f) i s = states orc p i s ++ states orc (f a) i' s'.
Proof.
  unfold mbind, prog_bind. revert i s. induction p as [b|X c k IH|]; intros i s; simpl; [by intros [= -> -> ->]| |done].
  destruct (exec (orc i) c s) as [x s1]. intros H. simpl. f_equal. by apply IH.
Qed.

Lemma states_calls_only {A} (P : ∀ X, cmd X → Prop) (I : shared → Prop) orc (p : prog A) i s :
  (∀ X (c : cmd X) o s, P X c → I s → I (exec o c s).2) → calls_only P p → I s → Forall I (states orc p i s).
Proof.
  intros Hexec. revert i s. induction p as [b|X c k IH|]; intros i s; simpl; [constructor| |constructor].
  intros [Hc Hk] HI. pose proof (Hexec X c (orc i) s Hc HI) as HI'.
  destruct (exec (orc i) c s) as [x s1]. constructor; [done|by apply IH].
Qed.

(** A run beside other processes, which act whenever the program waits, that
    is at its questions for a signal: [others] is what they do to the state. *)
Fixpoint run_with {A} (others : nat → shared → shared) (orc : nat → outcome) (p : prog A) (i : nat) (s : shared)
    : option (A * nat * shared) :=
  match p with
  | Ret a => Some (a, i, s)
  | Vis c k =>
      let '(x, s) := exec (orc i) c s in
      run_with others orc (k x) (S i) (match c with CtxDone => others i s | _ => s end)
  | NoFuel => None
  end.

Lemma run_with_bind {A B} others orc (p : prog A) (f : A → prog B) i s :
  run_with others orc (p ≫= f) i s =
  match run_with others orc p i s with
  | Some (a, i', s') => run_with others orc (f a) i' s'
  | None => None
  end.
Proof.
  unfold mbind, prog_bind. revert i s. induction p as [a|X c k IH|]; intros i s; simpl; [done| |done].
  destruct (exec (orc i) c s) as [x s']. apply IH.
Qed.

Definition no_wait (X : Type) (c : cmd X) : Prop := match c with CtxDone => False | _ => True end.

Lemma run_with_plain {A} others orc (p : prog A) i s : calls_only no_wait p → run_with others orc p i s = run orc p i s.
Proof.
  revert i s. induction p as [a|X c k IH|]; intros i s; simpl; [done| |done]. intros [Hc Hk].
  destruct (exec (orc i) c s) as [x s']. rewrite IH by done. by destruct c.
Qed.

(** Nobody else does anything. *)
Lemma run_with_nobody {A} orc (p : prog A) i s : run_with (λ _ s, s) orc p i s = run orc p i s.
Proof.
  revert i s. induction p as [a|X c k IH|]; intros i s; simpl; [done| |done].
  destruct (exec (orc i) c s) as [x s']. rewrite IH. by destruct c.
Qed.

(** Programs without fuel return, whatever the outcomes. *)
Fixpoint total {A} (p : prog A) : Prop :=
  match p with
  | Ret _ => True
  | Vis _ k => ∀ x, total (k x)
  | NoFuel => False
  end.

Lemma total_bind {A B} (p : prog A) (f : A → prog B) :
  total p → (∀ a, total (f a)) → total (p ≫= f).
Proof. unfold mbind, prog_bind. induction p as [a|X c k IH|]; simpl; auto. Qed.

Lemma run_total {A} orc (p : prog A) i s : total p → ∃ a i' s', run orc p i s = Some (a, i', s').
Proof.
  revert i s. induction p as [b|X c k IH|]; intros i s; simpl; [by eexists _, _, _| |done].
  intros Hk. destruct (exec (orc i) c s) as [x s1]. by apply IH.
Qed.

(** What every result of a program satisfies, whatever its calls answer. *)
Fixpoint results {A} (P : A → Prop) (p : prog A) : Prop :=
  match p with
  | Ret a => P a
  | Vis _ k => ∀ x, results P (k x)
  | NoFuel => True
  end.

Lemma results_bind {A B} (P : B → Prop) (p : prog A) (f : A → prog B) :
  (∀ a, results P (f a)) → results P (p ≫= f).
Proof. intros Hf. unfold mbind, prog_bind. induction p as [a|X c k IH|]; simpl; auto. Qed.

Lemma run_results {A} (P : A → Prop) orc (p : prog A) i s a i' s' :
  results P p → run orc p i s = Some (a, i', s') → P a.
Proof.
  revert i s. induction p as [b|X c k IH|]; intros i s; simpl; [by intros ? [= <- _ _]| |done].
  intros Hk. destruct (exec (orc i) c s) as [x s1]. by apply IH.
Qed.

(** Calls that do not touch the disks and Drive. *)
Definition not_ext (X : Type) (c : cmd X) : Prop := match c with Ext _ => False | _ => True end.

(** Calls that touch neither those nor Redis. *)
Definition quiet (X : Type) (c : cmd X) : Prop := match c with Ext _ | Redis _ => False | _ => True end.

Lemma quiet_not_ext X (c : cmd X) : quiet X c → not_ext X c.
Proof. by destruct c. Qed.

Lemma exec_quiet X (c : cmd X) o s :
  quiet X c → s_ext (exec o c s).2 = s_ext s ∧ s_redis (exec o c s).2 = s_redis s.
Proof.
  destruct c as [Y f|Y f| | | | |j|Y f|Y rq]; simpl; try done; intros _; destruct (o_fault o); simpl; try done;
    by destruct (f _ _).
Qed.

(** Calls that do not touch Redis. *)
Definition not_redis (X : Type) (c : cmd X) : Prop := match c with Redis _ => False | _ => True end.

Lemma quiet_not_redis X (c : cmd X) : quiet X c → not_redis X c.
Proof. by destruct c. Qed.

Lemma run_not_redis {A} orc (p : prog A) i s a i' s' :
  calls_only not_redis p → run orc p i s = Some (a, i', s') → s_redis s' = s_redis s.
Proof.
  intros Hp. apply (run_calls_only not_redis (λ s1, s_redis s1 = s_redis s)); [|done|done].
  intros X c o s1 Hc <-. destruct c; simpl; try done; destruct (o_fault o); simpl; try done; by destruct (f _ _).
Qed.

(** Time does not go back. *)
Lemma run_now {A} orc (p : prog A) i s a i' s' : run orc p i s = Some (a, i', s') → s_now s ≤ s_now s'.
Proof.
  revert i s. induction p as [b|X c k IH|]; intros i s; simpl; [by intros [= <- <- <-]| |done].
  pose proof (exec_now (orc i) c s) as H. destruct (exec (orc i) c s) as [x s1]. intros Hrun%IH. simpl in H. lia.
Qed.

Lemma exec_not_ext X (c : cmd X) o s : not_ext X c → s_ext (exec o c s).2 = s_ext s.
Proof.
  destruct c as [Y f|Y f| | | | |j|Y f|Y rq]; simpl; try done; intros _; destruct (o_fault o); simpl; try done;
    by destruct (f _ _).
Qed.

Lemma run_not_ext {A} orc (p : prog A) i s a i' s' :
  calls_only not_ext p → run orc p i s = Some (a, i', s') → s_ext s' = s_ext s.
Proof.
  intros Hp. apply (run_calls_only not_ext (λ s1, s_ext s1 = s_ext s)); [|done|done].
  intros X c o s1 Hc <-. by apply exec_not_ext.
Qed.

Lemma run_quiet {A} orc (p : prog A) i s a i' s' :
  calls_only quiet p → run orc p i s = Some (a, i', s') → s_ext s' = s_ext s ∧ s_redis s' = s_redis s.
Proof.
  intros Hp. apply (run_calls_only quiet (λ s1, s_ext s1 = s_ext s ∧ s_redis s1 = s_redis s)); [|done|done].
  intros X c o s1 Hc [<- <-]. by apply exec_quiet.
Qed.

End effects.

(** Walk through a program for [calls_only], [total] and [results]. *)
Ltac walk_prog :=
  repeat first
    [ done
    | progress intros
    | apply calls_only_bind | apply total_bind | apply results_bind
    | match goal with |- context [match ?x with _ => _ end] => destruct x end ].

Arguments Ret {_ _ _ _} a.
Arguments Vis {_ _ _ _ X} c k.
Arguments NoFuel {_ _ _ _}.


(** ** A concrete oracle for the witnesses: every call takes one nanosecond,
    nothing fails, and the handler answers [h]. *)
Module EffectsModel.
Import SchemaModel DriveModel.

Definition no_ext : outside := mk_outside ∅ ∅ (λ _, []).


Definition calm (h : Job → result string) (i : nat) : outcome := {|
  o_fault := NoFault; o_dt := 1; o_uuid := pretty i; o_rand := 0; o_ctx := false;
  o_handler := h; o_api := λ _ _, Err (EText "not connected") |}.

(** The same, with the fault [f] at call [n]. *)
Definition calm_but (n : nat) (f : fault) (h : Job → result string) (i : nat) : outcome := {|
  o_fault := if decide (i = n) then f else NoFault; o_dt := 1; o_uuid := pretty i; o_rand := 0;
  o_ctx := false; o_handler := h; o_api := λ _ _, Err (EText "not connected") |}.

(** The same with remote services that answer [api]. *)
Definition calm_api (api : ∀ X, api_req X → result X) (i : nat) : outcome := {|
  o_fault := NoFault; o_dt := 1; o_uuid := pretty i; o_rand := 0; o_ctx := false;
  o_handler := λ _, Ok EmptyString; o_api := api |}.

Lemma calm_reliable h : reliable (calm h).
Proof. done. Qed.

End EffectsModel.
