(* ===== verification/Files.v ===== *)
(** * Paths and files: path, path/filepath and os

    The disk the worker pods share, as the handlers use it: lexical path
    cleaning, and the calls MkdirAll, WriteFile and ReadFile. *)
From S2P Require Import Prelude Redis Schema GoStrings Services Effects.
Local Open Scope Z_scope.

(** ** Clean and Join *)

(** One component of a path; the stack holds the components kept so far, the
    last one first. *)
Definition push_comp (rooted : bool) (stack : list string) (c : string) : list string :=
  if decide (c = EmptyString ∨ c = ".") then stack
  else if decide (c = "..") then
    match stack with
    | [] => if rooted then [] else [c]
    | top :: rest => if decide (top = "..") then c :: stack else rest
    end
  else c :: stack.

Definition is_rooted (p : string) : bool := String.prefix "/" p.

Definition clean_comps (p : string) : list string :=
  rev (foldl (push_comp (is_rooted p)) [] (Split p "/")).

Fixpoint join_comps (l : list string) : string :=
  match l with
  | [] => EmptyString
  | [c] => c
  | c :: l => c +:+ "/" +:+ join_comps l
  end.

Definition Clean (p : string) : string :=
  match is_rooted p, clean_comps p with
  | true, cs => "/" +:+ join_comps cs
  | false, [] => "."
  | false, cs => join_comps cs
  end.

(** Join: empty elements in front are ignored. *)
Fixpoint Join (elems : list string) : string :=
  match elems with
  | [] => EmptyString
  | e :: elems' => if decide (e = EmptyString) then Join elems' else Clean (join_comps elems)
  end.

(** filepath.Dir *)
Definition Dir (p : string) : string :=
  match before_last "/" p with
  | None => "."
  | Some d => Clean (d +:+ "/")
  end.

(** ** Files *)

Section files.
Context `{UL : UuidLib} `{RS : RedisServer} `{DS : DriveServer}.

Definition set_files (f : gmap string string) (x : outside) : outside := mk_outside f (o_dirs x) (o_drive x).
Definition set_dirs (d : gset string) (x : outside) : outside := mk_outside (o_files x) d (o_drive x).

Definition is_dir (p : string) (x : outside) : Prop := p = "/" ∨ p = "." ∨ p ∈ o_dirs x.
#[global] Instance is_dir_dec p x : Decision (is_dir p x).
Proof. unfold is_dir. apply _. Defined.

(** The directories on the way to [p], and [p]. *)
Fixpoint prefixes (done p : string) : list string :=
  match p with
  | EmptyString => [done]
  | String c p =>
      if decide (c = "/"%char) then
        (if decide (done = EmptyString) then [] else [done]) ++ prefixes (done +:+ "/") p
      else prefixes (done +:+ String c EmptyString) p
  end.

(** os.MkdirAll of a cleaned path *)
Definition MkdirAll (p : string) : cmd (result unit) :=
  Ext (λ _ x,
    if decide (Exists (λ d, is_Some (o_files x !! d)) (prefixes EmptyString p))
    then (Err (EText ("mkdir " +:+ p +:+ ": not a directory")), x)
    else (Ok tt, set_dirs (list_to_set (prefixes EmptyString p) ∪ o_dirs x) x)).

(** os.WriteFile: create or truncate the file, then write. *)
Definition Create (p : string) : cmd (result unit) :=
  Ext (λ _ x,
    if decide (is_dir p x) then (Err (EText ("open " +:+ p +:+ ": is a directory")), x)
    else if decide (is_dir (Dir p) x) then (Ok tt, set_files (<[p := EmptyString]> (o_files x)) x)
    else (Err (EText ("open " +:+ p +:+ ": no such file or directory")), x)).
Definition Write (p data : string) : cmd (result unit) :=
  Ext (λ _ x, (Ok tt, set_files (<[p := data]> (o_files x)) x)).

Definition WriteFile (p data : string) : prog (result unit) :=
  r ← call (Create p);
  match r with
  | Err e => mret (Err e)
  | Ok _ => call (Write p data)
  end.

Definition ReadFile (p : string) : cmd (result string) :=
  Ext (λ _ x,
    match o_files x !! p with
    | Some data => (Ok data, x)
    | None => (Err (EText ("open " +:+ p +:+ ": no such file or directory")), x)
    end).

End files.

(** ** Lemmas on paths *)

(** A name that is one component of a path. *)
Definition component (c : string) : Prop :=
  c ≠ EmptyString ∧ c ≠ "." ∧ c ≠ ".." ∧ contains_byte "/" c = false.
#[global] Instance component_dec c : Decision (component c).
Proof. unfold component. apply _. Defined.

Lemma push_component rooted stack c : component c → push_comp rooted stack c = c :: stack.
Proof. intros (? & ? & ? & _). unfold push_comp. rewrite decide_False by tauto. by rewrite decide_False. Qed.

(** The pieces of a string between separators. *)
Fixpoint pieces (sep : ascii) (s : string) : list string :=
  match s with
  | EmptyString => [EmptyString]
  | String c s =>
      if decide (c = sep) then EmptyString :: pieces sep s
      else match pieces sep s with [] => [String c EmptyString] | p :: ps => String c p :: ps end
  end.

Lemma pieces_Cut sep s :
  pieces sep s = match Cut sep s with None => [s] | Some (a, b) => a :: pieces sep b end.
Proof.
  induction s as [|c s IH]; [done|]. cbn [pieces Cut]. destruct (decide (c = sep)); [done|].
  rewrite IH. by destruct (Cut sep s) as [ [a b]|].
Qed.

Lemma Cut_length sep s a b : Cut sep s = Some (a, b) → (String.length b < String.length s)%nat.
Proof.
  revert a. induction s as [|c s IH]; intros a; cbn [Cut]; [done|]. case_decide.
  - intros [= _ <-]. simpl. lia.
  - destruct (Cut sep s) as [ [a' b']|] eqn:E; [|done]. intros [= _ <-]. specialize (IH a' eq_refl). simpl. lia.
Qed.

Lemma Split_pieces s sep : Split s sep = pieces sep s.
Proof.
  unfold Split. assert (∀ n, (String.length s < n)%nat → SplitN s sep n = pieces sep s) as H; [|apply H; lia].
  intros n. revert s. induction n as [|n IH]; intros s Hn; [lia|]. rewrite pieces_Cut. destruct n as [|n].
  - destruct s; [reflexivity|simpl in Hn; lia].
  - cbn [SplitN] in *. destruct (Cut sep s) as [ [a b]|] eqn:E; [|done]. f_equal. apply IH.
    apply Cut_length in E. lia.
Qed.

Lemma pieces_nonempty sep s : pieces sep s ≠ [].
Proof. rewrite pieces_Cut. by destruct (Cut sep s) as [ [? ?]|]. Qed.

Lemma pieces_app sep a b : pieces sep (a +:+ String sep b) = pieces sep a ++ pieces sep b.
Proof.
  induction a as [|c a IH]; rewrite ?sapp_nil_l, ?sapp_cons; cbn [pieces]; [by rewrite decide_True|].
  rewrite IH. destruct (decide (c = sep)); [done|]. pose proof (pieces_nonempty sep a).
  by destruct (pieces sep a).
Qed.

Lemma pieces_none sep c : contains_byte sep c = false → pieces sep c = [c].
Proof. intros H%Cut_None. by rewrite pieces_Cut, H. Qed.

Lemma pieces_no_sep sep s : Forall (λ c, contains_byte sep c = false) (pieces sep s).
Proof.
  induction s as [|c s IH]; [by constructor|]. cbn [pieces]. destruct (decide (c = sep)); [by constructor|].
  pose proof (pieces_nonempty sep s). destruct (pieces sep s) as [|p ps]; [done|].
  apply Forall_cons in IH as [Hp Hps]. constructor; [|done]. simpl. by rewrite bool_decide_eq_false_2, Hp.
Qed.

(** The stacks that occur while a path is cleaned: each component was pushed
    on what is below it. *)
Inductive good (rooted : bool) : list string → Prop :=
| good_nil : good rooted []
| good_cons c st : good rooted st → push_comp rooted st c = c :: st →
    contains_byte "/" c = false → good rooted (c :: st).

Lemma good_push rooted st c :
  good rooted st → contains_byte "/" c = false → good rooted (push_comp rooted st c).
Proof.
  intros Hst Hc. destruct (decide (push_comp rooted st c = c :: st)) as [He|Hne]; [rewrite He; by constructor|].
  revert Hne. unfold push_comp. case_decide; [done|]. case_decide as Hd; [|done].
  destruct Hst as [|top st Hst _ _]; [destruct rooted; [constructor|done] |]. case_decide; done.
Qed.

Lemma good_fold rooted cs st :
  good rooted st → Forall (λ c, contains_byte "/" c = false) cs → good rooted (foldl (push_comp rooted) st cs).
Proof. intros Hst Hcs. revert st Hst. induction Hcs; intros st Hst; simpl; [done|]. auto using good_push. Qed.

Lemma good_again rooted st : good rooted st → foldl (push_comp rooted) [] (rev st) = st.
Proof.
  induction 1 as [|c st _ IH Hc _]; [done|]. cbn [rev]. rewrite foldl_app, IH. done.
Qed.

Lemma clean_comps_good p : good (is_rooted p) (rev (clean_comps p)).
Proof.
  unfold clean_comps. rewrite rev_involutive, Split_pieces. apply good_fold; [constructor|apply pieces_no_sep].
Qed.

(** The part of a cleaned path in front of further components. *)
Definition base (d : string) : string :=
  (if is_rooted d then "/" else EmptyString) +:+ foldr (λ c s, c +:+ "/" +:+ s) EmptyString (clean_comps d).

Lemma is_rooted_app d s : d ≠ EmptyString → is_rooted (d +:+ s) = is_rooted d.
Proof. intros Hd. destruct d as [|c d]; [done|]. unfold is_rooted. rewrite sapp_cons, !prefix_cons, !prefix_nil. done. Qed.

Lemma join_comps_app l c : join_comps (l ++ [c]) = foldr (λ c s, c +:+ "/" +:+ s) EmptyString l +:+ c.
Proof.
  induction l as [|x l IH]; [done|]. cbn [app foldr]. rewrite <- !sapp_assoc, <- IH.
  destruct l; reflexivity.
Qed.

Lemma clean_comps_snoc d c : d ≠ EmptyString → component c → clean_comps (d +:+ "/" +:+ c) = clean_comps d ++ [c].
Proof.
  intros Hd Hc. unfold clean_comps. rewrite is_rooted_app, !Split_pieces by done.
  change ("/" +:+ c) with (String "/" c). rewrite pieces_app, foldl_app, (pieces_none _ c) by apply Hc.
  cbn [foldl]. by rewrite push_component.
Qed.

Lemma Clean_snoc p cs c : clean_comps p = cs ++ [c] →
  Clean p = (if is_rooted p then "/" else EmptyString) +:+ foldr (λ c s, c +:+ "/" +:+ s) EmptyString cs +:+ c.
Proof.
  intros H. unfold Clean. rewrite H, <- join_comps_app. destruct (is_rooted p); [done|]. by destruct cs.
Qed.

(** Paths below a directory. *)
Definition under (d c : string) : string := base d +:+ c.

Lemma base_nil : base EmptyString = EmptyString.
Proof. reflexivity. Qed.

Lemma Join1 d c : component c → Join [d; c] = under d c.
Proof.
  intros Hc. unfold under. cbn [Join]. destruct (decide (d = EmptyString)) as [->|Hd].
  - rewrite base_nil, sapp_nil_l. rewrite decide_False by apply Hc. cbn [join_comps].
    erewrite (Clean_snoc c [] c).
    + unfold is_rooted. destruct c as [|x c]; [by destruct Hc|]. destruct Hc as (_ & _ & _ & Hc).
      simpl in Hc. apply orb_false_iff in Hc as [Hx%bool_decide_eq_false _].
      rewrite prefix_cons, bool_decide_eq_false_2 by congruence. done.
    + unfold clean_comps. rewrite Split_pieces, pieces_none by apply Hc. cbn [foldl].
      by rewrite push_component.
  - cbn [join_comps]. erewrite Clean_snoc by by apply clean_comps_snoc. unfold base.
    change ("/" +:+ c) with ("/" +:+ c). rewrite is_rooted_app by done. by rewrite sapp_assoc.
Qed.

Lemma under_nonempty d c : c ≠ EmptyString → under d c ≠ EmptyString.
Proof.
  unfold under. intros Hc H. apply Hc. destruct (base d); [done|]. by rewrite sapp_cons in H.
Qed.

Lemma is_rooted_base d : is_rooted (base d) = true → is_rooted d = true.
Proof.
  unfold base. destruct (is_rooted d) eqn:Hd; [done|]. rewrite sapp_nil_l. intros H.
  pose proof (clean_comps_good d) as Hg. rewrite Hd in Hg. destruct (clean_comps d) as [|c cs]; [done|].
  cbn [foldr rev] in *. exfalso. assert (Hc : c ≠ EmptyString ∧ contains_byte "/" c = false).
  { clear H. revert Hg. generalize (rev cs). induction l as [|x l IH]; cbn [app]; intros Hg.
    - inversion Hg as [|? ? _ Hp Hs]; subst. split; [|done]. intros ->. done.
    - inversion Hg; subst. by apply IH. }
  destruct Hc as [Hne Hs]. destruct c as [|x c]; [done|]. unfold is_rooted in H. rewrite sapp_cons, prefix_cons in H.
  simpl in Hs. apply orb_false_iff in Hs as [Hx%bool_decide_eq_false _].
  by rewrite bool_decide_eq_false_2 in H by congruence.
Qed.

Lemma is_rooted_under d c : component c → is_rooted (under d c) = is_rooted d.
Proof.
  intros (Hne & _ & _ & Hs). unfold under. destruct (is_rooted d) eqn:Hd.
  - unfold base. rewrite Hd, <- sapp_assoc. unfold is_rooted. change ("/" +:+ ?s) with (String "/" s).
    by rewrite prefix_cons, prefix_nil.
  - apply not_true_iff_false. intros H. destruct (decide (base d = EmptyString)) as [Hb|Hb].
    + rewrite Hb, sapp_nil_l in H. destruct c as [|x c]; [done|]. unfold is_rooted in H.
      rewrite prefix_cons in H. simpl in Hs. apply orb_false_iff in Hs as [Hx%bool_decide_eq_false _].
      by rewrite bool_decide_eq_false_2 in H by congruence.
    + rewrite is_rooted_app in H by done. apply is_rooted_base in H. congruence.
Qed.

Lemma pieces_comps cs c : Forall (λ c, contains_byte "/" c = false) cs →
  pieces "/" (foldr (λ c s, c +:+ "/" +:+ s) EmptyString cs +:+ c) = cs ++ pieces "/" c.
Proof.
  induction 1 as [|x cs Hx _ IH]; cbn [foldr app]; [by rewrite sapp_nil_l|].
  rewrite <- !sapp_assoc. change ("/" +:+ ?s) with (String "/" s). by rewrite pieces_app, IH, pieces_none.
Qed.

Lemma clean_comps_plain d : Forall (λ c, contains_byte "/" c = false) (clean_comps d).
Proof.
  rewrite <- (rev_involutive (clean_comps d)). apply Forall_rev. induction (clean_comps_good d); by constructor.
Qed.

Lemma clean_comps_under d c : component c → clean_comps (under d c) = clean_comps d ++ [c].
Proof.
  intros Hc. unfold clean_comps at 1. rewrite is_rooted_under, Split_pieces by done.
  assert (Hfold : foldl (push_comp (is_rooted d)) [] (clean_comps d ++ pieces "/" c) = c :: rev (clean_comps d)).
  { rewrite foldl_app. pose proof (good_again _ _ (clean_comps_good d)) as H. rewrite rev_involutive in H.
    rewrite H, pieces_none by apply Hc. cbn [foldl]. by rewrite push_component. }
  unfold under, base. rewrite <- sapp_assoc. destruct (is_rooted d) eqn:Hd.
  - change ("/" +:+ ?s) with (EmptyString +:+ String "/" s). rewrite pieces_app, pieces_comps by apply clean_comps_plain.
    cbn [app foldl pieces]. change (push_comp true [] EmptyString) with (@nil string). rewrite Hfold.
    cbn [rev]. by rewrite rev_involutive.
  - rewrite sapp_nil_l, pieces_comps, Hfold by apply clean_comps_plain. cbn [rev]. by rewrite rev_involutive.
Qed.

Lemma foldr_comps_app cs c : foldr (λ c s, c +:+ "/" +:+ s) EmptyString (cs ++ [c]) =
  foldr (λ c s, c +:+ "/" +:+ s) EmptyString cs +:+ c +:+ "/".
Proof.
  induction cs as [|x cs IH]; cbn [app foldr]; [by rewrite sapp_nil_r|]. rewrite IH. by rewrite <- !sapp_assoc.
Qed.

Lemma base_under d c : component c → base (under d c) = under d c +:+ "/".
Proof.
  intros Hc. unfold base. rewrite is_rooted_under, clean_comps_under, foldr_comps_app by done.
  unfold under, base. by rewrite <- !sapp_assoc.
Qed.

Lemma under_under d a b : component a → under (under d a) b = under d a +:+ "/" +:+ b.
Proof. intros Ha. unfold under at 1. rewrite base_under by done. by rewrite <- sapp_assoc. Qed.

Lemma Clean_under d c : component c → Clean (under d c) = under d c.
Proof.
  intros Hc. rewrite (Clean_snoc _ _ _ (clean_comps_under d c Hc)), is_rooted_under by done.
  unfold under, base. by rewrite <- sapp_assoc.
Qed.

Lemma slash_app s : "/" +:+ s = String "/" s.
Proof. done. Qed.

Lemma Clean_join d cs c : d ≠ EmptyString → component c → Forall component cs →
  Clean (d +:+ "/" +:+ join_comps (cs ++ [c])) = foldl under d (cs ++ [c]).
Proof.
  revert d. induction cs as [|x cs IH]; intros d Hd Hc Hcs.
  - cbn [app join_comps foldl]. rewrite <- Join1 by done. cbn [Join]. by rewrite decide_False.
  - apply Forall_cons in Hcs as [Hx Hcs]. cbn [app foldl]. rewrite <- IH; [|by apply under_nonempty, Hx|done..].
    assert (Hj : join_comps (x :: cs ++ [c]) = x +:+ "/" +:+ join_comps (cs ++ [c])) by (by destruct cs).
    rewrite Hj. unfold Clean. rewrite !is_rooted_app, is_rooted_under by (done || by apply under_nonempty, Hx).
    assert (Hcomps : clean_comps (d +:+ "/" +:+ x +:+ "/" +:+ join_comps (cs ++ [c])) =
      clean_comps (under d x +:+ "/" +:+ join_comps (cs ++ [c]))); [|by rewrite Hcomps].
    unfold clean_comps. rewrite !is_rooted_app, is_rooted_under, !Split_pieces by (done || by apply under_nonempty, Hx).
    rewrite !slash_app, !pieces_app, !foldl_app. do 2 f_equal.
    pose proof (clean_comps_under d x Hx) as H. unfold clean_comps in H.
    rewrite is_rooted_under, !Split_pieces in H by done. apply (f_equal (@rev string)) in H.
    rewrite rev_app_distr, !rev_involutive in H. rewrite H, (pieces_none _ x) by apply Hx. cbn [foldl rev app].
    by rewrite push_component.
Qed.

(** Join on a directory and plain names. *)
Lemma Join_under d cs c : Forall component (cs ++ [c]) → Join (d :: cs ++ [c]) = foldl under d (cs ++ [c]).
Proof.
  intros [Hcs [Hc _]%Forall_cons]%Forall_app. cbn [Join]. destruct (decide (d = EmptyString)) as [->|Hd].
  - destruct cs as [|x cs]; cbn [app].
    + cbn [foldl]. by rewrite <- Join1.
    + apply Forall_cons in Hcs as [Hx Hcs]. cbn [Join foldl]. rewrite decide_False by apply Hx.
      rewrite <- Clean_join; [|by apply under_nonempty, Hx|done..].
      assert (Hj : join_comps (x :: cs ++ [c]) = x +:+ "/" +:+ join_comps (cs ++ [c])) by (by destruct cs).
      rewrite Hj. done.
  - assert (Hj : join_comps (d :: cs ++ [c]) = d +:+ "/" +:+ join_comps (cs ++ [c])) by (by destruct cs).
    rewrite Hj. by apply Clean_join.
Qed.

Lemma before_last_app sep a b : contains_byte sep b = false → before_last sep (a +:+ String sep b) = Some a.
Proof.
  intros Hb. assert (Hn : before_last sep b = None).
  { induction b as [|c b IH]; [done|]. simpl in Hb. apply orb_false_iff in Hb as [Hc%bool_decide_eq_false Hb].
    cbn [before_last]. rewrite IH by done. by rewrite decide_False. }
  induction a as [|c a IH]; rewrite ?sapp_nil_l, ?sapp_cons; cbn [before_last].
  - by rewrite Hn, decide_True.
  - by rewrite IH.
Qed.

Lemma Dir_under d a b : component a → component b → Dir (under (under d a) b) = under d a.
Proof.
  intros Ha Hb. rewrite under_under by done. unfold Dir. change ("/" +:+ b) with (String "/" b).
  rewrite before_last_app by apply Hb. rewrite <- Clean_under at 2 by done.
  unfold Clean. rewrite is_rooted_app by (by apply under_nonempty, Ha).
  assert (H : clean_comps (under d a +:+ "/") = clean_comps (under d a)); [|by rewrite H].
  unfold clean_comps. rewrite is_rooted_app, !Split_pieces by (by apply under_nonempty, Ha).
  change "/" with (String "/" EmptyString). rewrite pieces_app, foldl_app. done.
Qed.

Lemma prefixes_last acc p : acc +:+ p ∈ prefixes acc p.
Proof.
  revert acc. induction p as [|c p IH]; intros acc; cbn [prefixes].
  - rewrite sapp_nil_r. apply list_elem_of_here.
  - specialize (IH (acc +:+ String c EmptyString)). rewrite <- sapp_assoc, sapp_cons, sapp_nil_l in IH.
    case_decide as Hc; [|done]. apply elem_of_app. right. rewrite Hc in *. done.
Qed.

Lemma prefixes_prefix acc p q : q ∈ prefixes acc p → ∃ r, acc +:+ p = q +:+ r.
Proof.
  revert acc. induction p as [|c p IH]; intros acc; cbn [prefixes].
  - intros ->%list_elem_of_singleton. by exists EmptyString.
  - assert (Hacc : acc +:+ String c p = (acc +:+ String c EmptyString) +:+ p) by (by rewrite <- sapp_assoc).
    case_decide as Hc.
    + intros [Hq|Hq]%elem_of_app; [|rewrite Hacc, Hc; by apply IH].
      case_decide; [by apply elem_of_nil in Hq|]. apply list_elem_of_singleton in Hq as ->. by eexists.
    + intros Hq. rewrite Hacc. by apply IH.
Qed.

(** Paths made of plain names. *)
Lemma pieces_join l : l ≠ [] → Forall component l → pieces "/" (join_comps l) = l.
Proof.
  induction l as [|c l IH]; intros Hne Hl; [done|]. apply Forall_cons in Hl as [Hc Hl].
  destruct l as [|c' l]; [apply pieces_none, Hc|].
  assert (Hj : join_comps (c :: c' :: l) = c +:+ String "/" (join_comps (c' :: l))) by done.
  rewrite Hj, pieces_app, IH by done. by rewrite (pieces_none _ c) by apply Hc.
Qed.

Lemma join_comps_inj l1 l2 :
  l1 ≠ [] → l2 ≠ [] → Forall component l1 → Forall component l2 → join_comps l1 = join_comps l2 → l1 = l2.
Proof.
  intros H1 H2 Hl1 Hl2 Heq. apply (f_equal (pieces "/")) in Heq. by rewrite !pieces_join in Heq.
Qed.

Lemma join_comps_nonempty l : l ≠ [] → Forall component l → join_comps l ≠ EmptyString.
Proof.
  destruct l as [|c l]; [done|]. intros _ [Hc _]%Forall_cons Heq. destruct l; [by destruct Hc|].
  cbn [join_comps] in Heq. destruct c; [by destruct Hc|done].
Qed.

Lemma is_rooted_join l : Forall component l → is_rooted (join_comps l) = false.
Proof.
  intros Hl. unfold is_rooted. destruct l as [|c l]; [done|]. apply Forall_cons in Hl as [(Hne & _ & _ & Hc) _].
  destruct c as [|a c]; [done|]. cbn [contains_byte] in Hc. apply orb_false_iff in Hc as [Hc%bool_decide_eq_false _].
  assert (H : ∀ s, String.prefix "/" (String a s) = false).
  { intros s. rewrite prefix_cons, prefix_nil. by apply andb_false_intro1, bool_decide_eq_false. }
  destruct l; apply H.
Qed.

Lemma Join_join l c : l ≠ [] → Forall component (l ++ [c]) → Join [join_comps l; c] = join_comps (l ++ [c]).
Proof.
  intros Hne [Hl [Hc _]%Forall_cons]%Forall_app. rewrite Join1, join_comps_app by done. unfold under, base.
  rewrite is_rooted_join, sapp_nil_l by done. do 2 f_equal.
  unfold clean_comps. rewrite is_rooted_join, Split_pieces, pieces_join by done.
  assert (H : ∀ st, foldl (push_comp false) st l = rev l ++ st); [|by rewrite H, app_nil_r, rev_involutive].
  clear Hne Hc. induction Hl as [|x l Hx Hl IH]; intros st; [done|]. cbn [foldl rev].
  by rewrite push_component, IH, <- app_assoc.
Qed.

(** Joining plain names to a directory is injective. *)
Lemma foldl_under d cs c : Forall component (cs ++ [c]) → foldl under d (cs ++ [c]) = base d +:+ join_comps (cs ++ [c]).
Proof.
  revert c. induction cs as [|x cs IH] using rev_ind; intros c H; [done|]. apply Forall_app in H as [Hcs Hc].
  rewrite !foldl_app. cbn [foldl].
  pose proof Hcs as [_ [Hx _]%Forall_cons]%Forall_app. rewrite under_under by done.
  specialize (IH x Hcs). rewrite foldl_app in IH. cbn [foldl] in IH. rewrite IH, !join_comps_app.
  rewrite foldr_comps_app, <- !sapp_assoc. done.
Qed.

Lemma Join_inj d cs1 c1 cs2 c2 :
  Forall component (cs1 ++ [c1]) → Forall component (cs2 ++ [c2]) →
  Join (d :: cs1 ++ [c1]) = Join (d :: cs2 ++ [c2]) → cs1 ++ [c1] = cs2 ++ [c2].
Proof.
  intros H1 H2. rewrite !Join_under, !foldl_under by done. intros H%sapp_inj_l.
  apply join_comps_inj in H; [done|by destruct cs1|by destruct cs2|done..].
Qed.

(** Join in two steps. *)
Lemma Join_Join d a c : component a → component c → Join [Join [d; a]; c] = Join [d; a; c].
Proof.
  intros Ha Hc. rewrite !Join1 by done. symmetry. apply (Join_under d [a] c). by repeat (constructor; try done).
Qed.

Lemma Join_Join3 d a b c : component a → component b → component c → Join [Join [d; a; b]; c] = Join [d; a; b; c].
Proof.
  intros Ha Hb Hc. rewrite <- (Join_Join d a b), !Join1 by done. symmetry. apply (Join_under d [a; b] c).
  by repeat (constructor; try done).
Qed.
