(* ===== verification/Disk.v ===== *)
(** * Programs that work on files

    [writes orc lo hi W p G]: when [p] runs alone within the calls [lo] to
    [hi], whatever the outcomes of its calls, it leaves every Drive and every
    file outside [W] as it is; and when it succeeds with [a], [G a F F'] holds
    of the files before and after.  The rules follow the shape of the Go code:
    one call after the other, an early return on every error. *)
From S2P Require Import Prelude Redis Schema GoStrings Services Effects Files.
Local Open Scope Z_scope.

(** Only files in [W] differ. *)
Definition keeps (W : string → Prop) (F F' : gmap string string) : Prop := ∀ p, ¬ W p → F' !! p = F !! p.

Lemma keeps_refl W F : keeps W F F.
Proof. done. Qed.

Lemma keeps_trans W F1 F2 F3 : keeps W F1 F2 → keeps W F2 F3 → keeps W F1 F3.
Proof. intros H1 H2 p Hp. by rewrite H2, H1. Qed.

Lemma keeps_insert (W : string → Prop) p d F : W p → keeps W F (<[p := d]> F).
Proof. intros Hp q Hq. apply lookup_insert_ne. by intros ->. Qed.

Lemma keeps_impl (W W' : string → Prop) F F' : (∀ p, W p → W' p) → keeps W F F' → keeps W' F F'.
Proof. intros HW H p Hp. apply H. naive_solver. Qed.

#[export] Hint Resolve keeps_refl keeps_insert : core.

Section writes.
Context `{UL : UuidLib} `{RS : RedisServer} `{DS : DriveServer} (orc : nat → outcome) (lo hi : nat).

Definition files (s : shared) : gmap string string := o_files (s_ext s).
Definition drives (s : shared) : uuid → dstate := o_drive (s_ext s).

(** Among these calls is a run of the program that returned the value. *)
Definition returns {A} (p : prog A) (a : A) : Prop :=
  ∃ i s i' s', (lo ≤ i)%nat ∧ (i' ≤ hi)%nat ∧ run orc p i s = Some (a, i', s').

Definition writes {A} (W : string → Prop) (p : prog (result A))
    (G : A → gmap string string → gmap string string → Prop) : Prop :=
  ∀ i s r i' s', (lo ≤ i)%nat → (i' ≤ hi)%nat → run orc p i s = Some (r, i', s') →
    drives s' = drives s ∧ keeps W (files s) (files s') ∧ ∀ a, r = Ok a → G a (files s) (files s').

Lemma writes_conseq {A} W (p : prog (result A)) (G G' : A → _ → _ → Prop) :
  writes W p G → (∀ a F F', G a F F' → G' a F F') → writes W p G'.
Proof. intros H HG i s r i' s' Hlo Hhi Hrun. destruct (H i s r i' s' Hlo Hhi Hrun) as (? & ? & ?). eauto. Qed.

Lemma writes_ok {A} W (a : A) (G : A → _ → _ → Prop) : (∀ F, G a F F) → writes W (mret (Ok a)) G.
Proof. intros H i s r i' s' _ _ [= <- _ <-]. split; [done|]. split; [done|]. by intros ? [= <-]. Qed.

Lemma writes_err {A} W e (G : A → _ → _ → Prop) : writes W (mret (Err e)) G.
Proof. by intros i s r i' s' _ _ [= <- _ <-]. Qed.

Lemma writes_bind {A B} W (p : prog (result A)) (f : A → prog (result B)) (h : err → err)
    (G1 : A → _ → _ → Prop) (G2 : A → B → _ → _ → Prop) :
  writes W p G1 → (∀ a, writes W (f a) (G2 a)) →
  writes W (r ← p; match r with Ok a => f a | Err e => mret (Err (h e)) end)
    (λ b F F', ∃ a F1, G1 a F F1 ∧ G2 a b F1 F').
Proof.
  intros Hp Hf i s r i' s' Hlo Hhi. rewrite run_bind.
  destruct (run orc p i s) as [ [ [r1 i1] s1]|] eqn:E; [|done]. cbv beta iota. intros Hrun.
  pose proof (run_mono _ _ _ _ _ _ _ E). pose proof (run_mono _ _ _ _ _ _ _ Hrun).
  destruct (Hp i s r1 i1 s1) as (Hd1 & Hk1 & HG1); [lia|lia|done|].
  destruct r1 as [a|e]; [|by injection Hrun as <- <- <-].
  destruct (Hf a i1 s1 r i' s') as (Hd2 & Hk2 & HG2); [lia|lia|done|].
  split; [congruence|]. split; [by eapply keeps_trans|]. intros b Hb. exists a, (files s1). auto.
Qed.

(** Programs that touch neither files nor Drives; the second form is of the
    clients, which return themselves with the result. *)
Lemma writes_quiet {A} W (p : prog (result A)) :
  calls_only not_ext p → writes W p (λ a F F', F' = F ∧ returns p (Ok a)).
Proof.
  intros Hp i s r i' s' Hlo Hhi Hrun. unfold drives, files. rewrite (run_not_ext _ _ _ _ _ _ _ Hp Hrun).
  split; [done|]. split; [done|]. intros a ->. split; [done|]. by exists i, s, i', s'.
Qed.

Lemma writes_bind_quiet {A B C} W (p : prog (result A * C)) (f : A → prog (result B)) (h : err → err)
    (G2 : A → B → _ → _ → Prop) :
  calls_only not_ext p → (∀ a, writes W (f a) (G2 a)) →
  writes W ('(r, _) ← p; match r with Ok a => f a | Err e => mret (Err (h e)) end)
    (λ b F F', ∃ a c, returns p (Ok a, c) ∧ G2 a b F F').
Proof.
  intros Hp Hf i s r i' s' Hlo Hhi. rewrite run_bind.
  destruct (run orc p i s) as [ [ [ [r1 c] i1] s1]|] eqn:E; [|done]. cbv beta iota. intros Hrun.
  pose proof (run_mono _ _ _ _ _ _ _ E). pose proof (run_mono _ _ _ _ _ _ _ Hrun).
  pose proof (run_not_ext _ _ _ _ _ _ _ Hp E) as Hx. unfold drives, files in *. rewrite <- Hx.
  destruct r1 as [a|e]; [|by injection Hrun as <- <- <-].
  destruct (Hf a i1 s1 r i' s') as (Hd2 & Hk2 & HG2); [lia|lia|done|].
  split; [done|]. split; [done|]. intros b Hb. exists a, c. split; [|auto].
  exists i, s, i1, s1. split_and!; [lia|lia|done].
Qed.

(** A disk call. *)
Lemma writes_ext {X} W (f : Z → outside → result X * outside) (G : X → _ → _ → Prop) :
  (∀ t x, o_drive (f t x).2 = o_drive x ∧ keeps W (o_files x) (o_files (f t x).2) ∧
     ∀ a, (f t x).1 = Ok a → G a (o_files x) (o_files (f t x).2)) →
  writes W (call (Ext f)) G.
Proof.
  intros H i s r i' s' _ _. rewrite run_call. cbn [exec]. unfold elapse, drives, files. cbn [set_now s_ext s_now].
  destruct (H (s_now s + Z.of_N (o_dt (orc i))) (s_ext s)) as (H1 & H2 & H3).
  destruct (f _ _) as [x e] eqn:E. cbn [fst snd] in *.
  destruct (o_fault (orc i)) as [|m|m]; cbn [with_fault fst snd]; intros [= <- _ <-]; cbn; auto; done.
Qed.

Lemma writes_MkdirAll W p : writes W (call (MkdirAll p)) (λ _ F F', F' = F).
Proof. apply writes_ext. intros t x. by case_decide. Qed.

Lemma writes_ReadFile W p : writes W (call (ReadFile p)) (λ data F F', F' = F ∧ F !! p = Some data).
Proof.
  apply writes_ext. intros t x. destruct (o_files x !! p) as [d|]; (split; [done|split; [done|] ]).
  - by intros a [= <-].
  - done.
Qed.

Lemma writes_WriteFile (W : string → Prop) p data :
  W p → writes W (WriteFile p data) (λ _ F F', F' = <[p := data]> F).
Proof.
  intros Hp. unfold WriteFile. eapply writes_conseq.
  - eapply (writes_bind W _ _ (λ e, e) (λ _ F F', F' = <[p := EmptyString]> F) (λ _ _ F F', F' = <[p := data]> F)).
    + apply writes_ext. intros t x. repeat case_decide; (split; [done|split; [auto|] ]); try done; cbn; auto.
    + intros _. apply writes_ext. intros t x. split; [done|]. split; [cbn; auto|done].
  - intros [] F F' (_ & F1 & -> & ->). apply insert_insert_eq.
Qed.

End writes.

(** Over its own calls. *)
Lemma writes_run `{UL : UuidLib} `{RS : RedisServer} `{DS : DriveServer} {A} W (p : prog (result A))
    (G : nat → nat → A → _ → _ → Prop) orc i s :
  total p → (∀ lo hi, writes orc lo hi W p (G lo hi)) →
  ∃ r i' s', run orc p i s = Some (r, i', s') ∧
    drives s' = drives s ∧ keeps W (files s) (files s') ∧ ∀ a, r = Ok a → G i i' a (files s) (files s').
Proof.
  intros Ht H. destruct (run_total orc p i s Ht) as (r & i' & s' & Hrun). exists r, i', s'. split; [done|].
  by apply (H i i' i s r i' s').
Qed.
