(* ===== verification/Queue.v ===== *)
(** * The Redis queue: internal/queue/queue.go

    One list per stage ([key]) and one processing list per worker
    ([processingKey]); heartbeats are string keys with an expiry. *)
From S2P Require Import Prelude Redis Schema Services Effects GoStrings.
Local Open Scope Z_scope.

Section queue.
Context `{UL : UuidLib} `{RS : RedisServer} `{DS : DriveServer}.

(** ** The go-redis calls: one command each; a nil reply is the error
    [redis.Nil]. *)

Definition cli_LPush (k v : string) : cmd (result unit) :=
  Redis (λ _ r, (Ok tt, LPush k v r)).

Definition cli_LMove (src dst : string) (a b : side) : cmd (result string) :=
  Redis (λ _ r,
    match LMove src dst a b r with
    | (Some x, r) => (Ok x, r)
    | (None, r) => (Err (ESentinel redisNil), r)
    end).

(** BLMOVE waits for an element up to [timeout]; the call is the moment it
    stops waiting. *)
Definition cli_BLMove (src dst : string) (a b : side) (timeout : Z) : cmd (result string) :=
  cli_LMove src dst a b.

Definition cli_LLen (k : string) : cmd (result Z) :=
  Redis (λ _ r, (Ok (Z.of_nat (length (rlist r k))), r)).

Definition cli_Exists (k : string) : cmd (result Z) :=
  Redis (λ t r, (Ok (if decide (rlist r k ≠ [] ∨ is_Some (rstr r t k)) then 1 else 0), r)).

Definition cli_Set (k v : string) (ttl : Z) : cmd (result unit) :=
  Redis (λ t r, (Ok tt, SetKey t k v ttl r)).

Definition cli_LRem (k : string) (n : Z) (v : string) : cmd (result unit) :=
  Redis (λ _ r, (Ok tt, LRem k n v r)).

(** The COUNT argument of SCAN is a hint and is not modelled. *)
Definition cli_Scan (cursor : N) (pat : string) : cmd (result (list string * N)) :=
  Redis (λ t r, (Ok (Scan t r cursor pat), r)).

(** ** Operations *)

Definition key (stage : string) : string := "queue:" +:+ stage.

Definition processingKey (stage workerID : string) : string :=
  "processing:" +:+ stage +:+ ":" +:+ workerID.

Definition heartbeatKey (workerID : string) : string := "heartbeat:" +:+ workerID.

Definition Push (stage jobID : string) : prog (result unit) :=
  r ← call (cli_LPush (key stage) jobID);
  match r with
  | Err e => mret (Err (EWrap "push" e))
  | Ok _ => mret (Ok tt)
  end.

Definition BlockingPop (stage workerID : string) (timeout : Z) : prog (result string) :=
  r ← call (cli_BLMove (key stage) (processingKey stage workerID) RIGHT LEFT timeout);
  match r with
  | Err e =>
      if errors_Is e redisNil then mret (Err (ESentinel ErrEmpty))
      else mret (Err (EWrap "pop" e))
  | Ok res => mret (Ok res)
  end.

Definition Depth (stage : string) : prog (result Z) :=
  r ← call (cli_LLen (key stage));
  match r with
  | Err e => mret (Err (EWrap "depth" e))
  | Ok n => mret (Ok n)
  end.

Definition IsWorkerAlive (workerID : string) : prog (result bool) :=
  r ← call (cli_Exists (heartbeatKey workerID));
  match r with
  | Err e => mret (Err (EWrap "exists" e))
  | Ok n => mret (Ok (bool_decide (0 < n)))
  end.

(** strconv.FormatInt(time.Now().Unix(), 10) *)
Definition unix_text (t : Z) : string := pretty (t / 1000000000).

Definition Heartbeat (workerID : string) (ttl : Z) : prog (result unit) :=
  now ← call Now;
  r ← call (cli_Set (heartbeatKey workerID) (unix_text now) ttl);
  match r with
  | Err e => mret (Err (EWrap "heartbeat" e))
  | Ok _ => mret (Ok tt)
  end.

Definition Ack (stage workerID jobID : string) : prog (result unit) :=
  r ← call (cli_LRem (processingKey stage workerID) 1 jobID);
  match r with
  | Err e => mret (Err (EWrap "ack" e))
  | Ok _ => mret (Ok tt)
  end.

Record ProcessingRef := mk_ProcessingRef { pr_Stage : string; pr_WorkerID : string }.

(** The body of the inner loop of ListProcessing: parse one key. *)
Definition parse_ref (k : string) : option ProcessingRef :=
  match SplitN k ":"%char 3 with
  | [_; stage; workerID] => Some (mk_ProcessingRef stage workerID)
  | _ => None
  end.

Fixpoint list_processing_loop (fuel : nat) (out : list ProcessingRef) (cursor : N)
    : prog (result (list ProcessingRef)) :=
  match fuel with
  | O => NoFuel
  | S fuel =>
      r ← call (cli_Scan cursor "processing:*");
      match r with
      | Err e => mret (Err (EWrap "scan processing" e))
      | Ok (keys, next) =>
          let out := out ++ omap parse_ref keys in
          if decide (next = 0%N) then mret (Ok out)
          else list_processing_loop fuel out next
      end
  end.

Definition ListProcessing (fuel : nat) : prog (result (list ProcessingRef)) :=
  list_processing_loop fuel [] 0%N.

(** The count moved so far is returned beside the error. *)
Fixpoint reclaim_loop (fuel : nat) (stage workerID : string) (moved : Z)
    : prog (Z * result unit) :=
  match fuel with
  | O => NoFuel
  | S fuel =>
      r ← call (cli_LMove (processingKey stage workerID) (key stage) RIGHT RIGHT);
      match r with
      | Err e =>
          if errors_Is e redisNil then mret (moved, Ok tt)
          else mret (moved, Err (EWrap "reclaim" e))
      | Ok _ => reclaim_loop fuel stage workerID (moved + 1)
      end
  end.

Definition ReclaimProcessing (fuel : nat) (stage workerID : string) : prog (Z * result unit) :=
  reclaim_loop fuel stage workerID 0.

(** ** Abstract specification: FIFO queues with items in flight *)

(** Per stage the waiting ids, oldest first; per stage and worker the ids
    popped and not acknowledged, newest first. *)
Record aqueue := mk_aqueue {
  waiting : string → list string;
  inflight : string → string → list string
}.

Definition set_waiting (st : string) (l : list string) (q : aqueue) : aqueue :=
  mk_aqueue (λ st', if decide (st' = st) then l else waiting q st') (inflight q).
Definition set_inflight (st w : string) (l : list string) (q : aqueue) : aqueue :=
  mk_aqueue (waiting q)
    (λ st' w', if decide (st' = st ∧ w' = w) then l else inflight q st' w').

Inductive qop :=
| OPush (stage id : string)
| OPop (stage workerID : string) (timeout : Z)
| OAck (stage workerID id : string)
| OReclaim (stage workerID : string)
| ODepth (stage : string).

Inductive qres := RUnit | REmpty | RId (id : string) | RCount (n : Z).

(** A push goes to the back, a pop comes from the front, an acknowledgement
    forgets one in-flight occurrence, and a reclaim puts everything the worker
    has in flight at the front, the newest first. *)
Definition spec_op (op : qop) (q : aqueue) : qres * aqueue :=
  match op with
  | OPush st id => (RUnit, set_waiting st (waiting q st ++ [id]) q)
  | OPop st w _ =>
      match waiting q st with
      | [] => (REmpty, q)
      | id :: rest => (RId id, set_inflight st w (id :: inflight q st w) (set_waiting st rest q))
      end
  | OAck st w id => (RUnit, set_inflight st w (remove_first id (inflight q st w)) q)
  | OReclaim st w =>
      (RCount (Z.of_nat (length (inflight q st w))),
       set_inflight st w [] (set_waiting st (inflight q st w ++ waiting q st) q))
  | ODepth st => (RCount (Z.of_nat (length (waiting q st))), q)
  end.

Fixpoint spec_ops (ops : list qop) (q : aqueue) : list qres * aqueue :=
  match ops with
  | [] => ([], q)
  | op :: ops =>
      let '(r, q) := spec_op op q in
      let '(rs, q) := spec_ops ops q in (r :: rs, q)
  end.

(** The same operations on Redis.  [None] is an error of the code. *)
Definition do_op (fuel : nat) (op : qop) : prog (option qres) :=
  match op with
  | OPush st id => r ← Push st id; mret (if is_ok r then Some RUnit else None)
  | OPop st w timeout =>
      r ← BlockingPop st w timeout;
      mret (match r with
            | Ok id => Some (RId id)
            | Err e => if errors_Is e ErrEmpty then Some REmpty else None
            end)
  | OAck st w id => r ← Ack st w id; mret (if is_ok r then Some RUnit else None)
  | OReclaim st w =>
      r ← ReclaimProcessing fuel st w;
      mret (if is_ok r.2 then Some (RCount r.1) else None)
  | ODepth st => r ← Depth st; mret (match r with Ok n => Some (RCount n) | Err _ => None end)
  end.

Fixpoint do_ops (fuel : nat) (ops : list qop) : prog (option (list qres)) :=
  match ops with
  | [] => mret (Some [])
  | op :: ops =>
      r ← do_op fuel op;
      rs ← do_ops fuel ops;
      mret (r ← r; rs ← rs; Some (r :: rs))
  end.

(** Stage names hold no colon (they are the constants of cmd/worker). *)
Definition stage_ok (st : string) : Prop := contains_byte ":"%char st = false.

Definition op_stage (op : qop) : string :=
  match op with
  | OPush st _ | OPop st _ _ | OAck st _ _ | OReclaim st _ | ODepth st => st
  end.

Definition qrel (q : aqueue) (r : rstate) : Prop :=
  (∀ st, rlist r (key st) = rev (waiting q st)) ∧
  (∀ st w, stage_ok st → rlist r (processingKey st w) = inflight q st w).

(** ** Keys *)

Lemma key_list st : list_key (key st).
Proof. left. apply prefix_spec. by exists st. Qed.

Lemma processingKey_list st w : list_key (processingKey st w).
Proof. right. apply prefix_spec. by exists (st +:+ ":" +:+ w). Qed.

Lemma heartbeatKey_string w : string_key (heartbeatKey w).
Proof. left. apply prefix_spec. by exists w. Qed.

#[local] Hint Resolve key_list processingKey_list heartbeatKey_string : dtq.

Lemma key_inj st st' : key st = key st' → st = st'.
Proof. apply sapp_inj_l. Qed.

Lemma heartbeatKey_inj w w' : heartbeatKey w = heartbeatKey w' → w = w'.
Proof. apply sapp_inj_l. Qed.

Lemma key_processingKey st st' w : key st ≠ processingKey st' w.
Proof. discriminate. Qed.

Lemma parse_processingKey st w :
  stage_ok st → parse_ref (processingKey st w) = Some (mk_ProcessingRef st w).
Proof.
  intros Hst. unfold parse_ref, processingKey.
  change ("processing:" +:+ st +:+ ":" +:+ w)
    with ("processing" +:+ String ":" (st +:+ String ":" w)).
  unfold SplitN. rewrite Cut_app by done. by rewrite Cut_app.
Qed.

(** A listed stage is never one with a colon. *)
Lemma parse_ref_stage k ref : parse_ref k = Some ref → stage_ok (pr_Stage ref).
Proof.
  unfold parse_ref, SplitN. destruct (Cut ":" k) as [[a b]|]; [|done].
  destruct (Cut ":" b) as [[st w]|] eqn:Hb; [|done]. intros [= <-]. by eapply Cut_before.
Qed.

Lemma processingKey_inj st w st' w' :
  stage_ok st → stage_ok st' →
  processingKey st w = processingKey st' w' → st = st' ∧ w = w'.
Proof.
  intros Hst Hst' Heq. apply (f_equal parse_ref) in Heq.
  rewrite !parse_processingKey in Heq by done. by injection Heq.
Qed.

(** ** What each operation does to Redis, call by call *)

(** Two server states that no list or live string key tells apart, except
    that the lists of the keys [ks] may differ. *)
Definition same_but (ks : list string) (s s' : shared) : Prop :=
  s_db s' = s_db s ∧ s_now s ≤ s_now s' ∧
  (∀ k, k ∉ ks → rlist (s_redis s') k = rlist (s_redis s) k) ∧
  (∀ t k, rstr (s_redis s') t k = rstr (s_redis s) t k).

Lemma same_but_refl ks s : same_but ks s s.
Proof. repeat split; done || lia. Qed.

Lemma same_but_trans ks s1 s2 s3 :
  same_but ks s1 s2 → same_but ks s2 s3 → same_but ks s1 s3.
Proof.
  intros (Hd & Ht & Hl & Hs) (Hd' & Ht' & Hl' & Hs').
  repeat split; [congruence|lia| |].
  - intros k Hk. by rewrite Hl', Hl.
  - intros t k. by rewrite Hs', Hs.
Qed.

Lemma same_but_weaken ks ks' s s' : ks ⊆ ks' → same_but ks s s' → same_but ks' s s'.
Proof. intros Hsub (? & ? & Hl & ?). repeat split; try done. intros k Hk. apply Hl. set_solver. Qed.

Lemma key_notin st st' w : st' ≠ st → key st' ∉ [key st; processingKey st w].
Proof.
  intros Hne. rewrite !not_elem_of_cons. split_and!; [|done|apply not_elem_of_nil].
  by intros ?%key_inj.
Qed.

Lemma processingKey_notin st w st' w' :
  stage_ok st → stage_ok st' → ¬ (st' = st ∧ w' = w) →
  processingKey st' w' ∉ [key st; processingKey st w].
Proof.
  intros Hst Hst' Hne. rewrite !not_elem_of_cons. split_and!; [done| |apply not_elem_of_nil].
  by intros ?%processingKey_inj.
Qed.

Section reliable.
Context (orc : nat → outcome) (Hrel : reliable orc).

Lemma run_Push st id i s :
  ∃ s', run orc (Push st id) i s = Some (Ok tt, S i, s') ∧
    same_but [key st] s s' ∧
    rlist (s_redis s') (key st) = id :: rlist (s_redis s) (key st).
Proof.
  unfold Push. rewrite run_bind, run_call. unfold cli_LPush.
  rewrite exec_Redis by apply Hrel. eexists. split; [done|]. simpl.
  split; [|rewrite rlist_LPush by eauto with dtq; by rewrite decide_True].
  repeat split; simpl; [lia| |].
  - intros k Hk. rewrite rlist_LPush by eauto with dtq. rewrite decide_False; [done|set_solver].
  - intros t k. apply rstr_LPush; eauto with dtq.
Qed.

Lemma run_BlockingPop st w timeout i s :
  ∃ s', same_but [key st; processingKey st w] s s' ∧
  match unsnoc (rlist (s_redis s) (key st)) with
  | None =>
      run orc (BlockingPop st w timeout) i s = Some (Err (ESentinel ErrEmpty), S i, s') ∧
      same_but [] s s'
  | Some (l, x) =>
      run orc (BlockingPop st w timeout) i s = Some (Ok x, S i, s') ∧
      rlist (s_redis s') (key st) = l ∧
      rlist (s_redis s') (processingKey st w) = x :: rlist (s_redis s) (processingKey st w)
  end.
Proof.
  unfold BlockingPop. rewrite run_bind, run_call. unfold cli_BLMove, cli_LMove.
  rewrite exec_Redis by apply Hrel.
  destruct (unsnoc (rlist (s_redis s) (key st))) as [[l x]|] eqn:Hu.
  - destruct (LMove_Some (s_redis s) (key st) (processingKey st w) RIGHT LEFT l x)
      as [Hx Hl]; eauto with dtq.
    pose proof (λ t k, rstr_LMove (s_redis s) (key st) (processingKey st w) RIGHT LEFT t k
      ltac:(eauto with dtq) ltac:(eauto with dtq)) as Hs.
    destruct (LMove _ _ _ _ _) as [o r]; simpl in *; subst o.
    eexists. split; [|split; [done|]; simpl].
    + repeat split; simpl; [lia| |done]. intros k Hk. rewrite Hl, !decide_False; set_solver.
    + rewrite !Hl, decide_True by done. split; [done|]. by rewrite decide_False, decide_True.
  - rewrite (LMove_empty (s_redis s) (key st)) by eauto with dtq. simpl.
    eexists. split_and!; [|done|]; repeat split; simpl; done || lia.
Qed.

Lemma run_Depth st i s :
  ∃ s', run orc (Depth st) i s =
      Some (Ok (Z.of_nat (length (rlist (s_redis s) (key st)))), S i, s') ∧ same_but [] s s'.
Proof.
  unfold Depth. rewrite run_bind, run_call. unfold cli_LLen. rewrite exec_Redis by apply Hrel.
  eexists. split; [done|]. repeat split; simpl; done || lia.
Qed.

Lemma run_Ack st w id i s :
  ∃ s', run orc (Ack st w id) i s = Some (Ok tt, S i, s') ∧
    same_but [processingKey st w] s s' ∧
    rlist (s_redis s') (processingKey st w) =
      remove_first id (rlist (s_redis s) (processingKey st w)).
Proof.
  unfold Ack. rewrite run_bind, run_call. unfold cli_LRem.
  rewrite exec_Redis by apply Hrel. eexists. split; [done|]. simpl.
  split; [|rewrite rlist_LRem by eauto with dtq; by rewrite decide_True].
  repeat split; simpl; [lia| |].
  - intros k Hk. rewrite rlist_LRem by eauto with dtq. rewrite decide_False; [done|set_solver].
  - intros t k. apply rstr_LRem; eauto with dtq.
Qed.

(** Reclaiming terminates, moves everything, and keeps nothing back. *)
Lemma run_reclaim fuel st w moved i s :
  (length (rlist (s_redis s) (processingKey st w)) < fuel)%nat →
  ∃ i' s', run orc (reclaim_loop fuel st w moved) i s =
      Some ((moved + Z.of_nat (length (rlist (s_redis s) (processingKey st w))), Ok tt), i', s') ∧
    same_but [key st; processingKey st w] s s' ∧
    rlist (s_redis s') (processingKey st w) = [] ∧
    rlist (s_redis s') (key st) =
      rlist (s_redis s) (key st) ++ rev (rlist (s_redis s) (processingKey st w)).
Proof.
  revert i s moved. induction fuel as [|fuel IH]; intros i s moved Hlen; [lia|].
  cbn [reclaim_loop]. rewrite run_bind, run_call. unfold cli_LMove.
  rewrite exec_Redis by apply Hrel.
  destruct (unsnoc (rlist (s_redis s) (processingKey st w))) as [[l x]|] eqn:Hu.
  - destruct (LMove_Some (s_redis s) (processingKey st w) (key st) RIGHT RIGHT l x)
      as [Hx Hl]; eauto with dtq.
    pose proof (λ t k, rstr_LMove (s_redis s) (processingKey st w) (key st) RIGHT RIGHT t k
      ltac:(eauto with dtq) ltac:(eauto with dtq)) as Hs.
    apply unsnoc_Some in Hu. rewrite Hu in *. rewrite length_app in *. simpl in *.
    destruct (LMove _ _ _ _ _) as [o r]; simpl in *; subst o.
    set (s1 := mk_shared _ _ _ _).
    assert (Hp1 : rlist (s_redis s1) (processingKey st w) = l).
    { simpl. by rewrite Hl, decide_True. }
    assert (Hk1 : rlist (s_redis s1) (key st) = rlist (s_redis s) (key st) ++ [x]).
    { simpl. by rewrite Hl, decide_False, decide_True. }
    destruct (IH (S i) s1 (moved + 1)) as (i' & s' & Hrun & Hsame & Hp & Hk);
      [rewrite Hp1; lia|].
    exists i', s'. rewrite Hp1 in *. cbn [fst]. rewrite Hrun.
    split_and!; [| |done|].
    + by replace (moved + 1 + Z.of_nat (length l)) with (moved + Z.of_nat (length l + 1)) by lia.
    + eapply same_but_trans; [|done]. repeat split; simpl; [lia| |done].
      intros k Hk'. rewrite Hl, !decide_False; set_solver.
    + rewrite Hk, Hk1, rev_app_distr, <- app_assoc. done.
  - rewrite (LMove_empty (s_redis s) (processingKey st w)) by eauto with dtq. simpl.
    apply unsnoc_None in Hu. rewrite Hu. simpl. eexists _, _. split; [|split_and!].
    + rewrite Z.add_0_r. done.
    + repeat split; simpl; done || lia.
    + done.
    + by rewrite app_nil_r.
Qed.

(** ListProcessing parses the keys of one SCAN iteration. *)
Lemma run_list_processing i0 t0 fuel n out c r x db ks :
  scan_iter (λ j, Scan (clock orc i0 t0 (S j)) r) fuel n c "processing:*" = Some ks →
  ∃ m, run orc (list_processing_loop fuel out c) (i0 + n) (mk_shared db r x (clock orc i0 t0 n)) =
    Some (Ok (out ++ omap parse_ref ks), (i0 + m)%nat, mk_shared db r x (clock orc i0 t0 m)).
Proof.
  revert n out c ks. induction fuel as [|fuel IH]; intros n out c ks H; [done|].
  rewrite scan_iter_S in H. cbn [list_processing_loop]. rewrite run_bind, run_call.
  unfold cli_Scan. rewrite exec_Redis by apply Hrel. cbn [fst snd s_now s_redis s_db s_ext].
  change (clock orc i0 t0 n + Z.of_N (o_dt (orc (i0 + n)%nat))) with (clock orc i0 t0 (S n)).
  destruct (Scan _ r c _) as [ks0 next]. case_decide as Hn.
  - injection H as <-. exists (S n). by rewrite Nat.add_succ_r.
  - destruct (scan_iter _ fuel _ _ _) as [ks'|] eqn:E; [|done]. injection H as <-.
    destruct (IH (S n) (out ++ omap parse_ref ks0) next ks' E) as [m Hm].
    exists m. rewrite Nat.add_succ_r in Hm. by rewrite Hm, omap_app, <- app_assoc.
Qed.

(** With enough fuel ListProcessing returns, changes nothing, and lists every
    non-empty processing list of a stage. *)
Lemma run_ListProcessing i s :
  ∃ fuel0 refs, ∀ fuel, (fuel0 ≤ fuel)%nat → ∃ i' s',
    run orc (ListProcessing fuel) i s = Some (Ok refs, i', s') ∧
    s_db s' = s_db s ∧ s_redis s' = s_redis s ∧ s_now s ≤ s_now s' ∧
    (∀ st w, stage_ok st → rlist (s_redis s) (processingKey st w) ≠ [] →
      mk_ProcessingRef st w ∈ refs) ∧
    (∀ ref, ref ∈ refs → stage_ok (pr_Stage ref)).
Proof.
  destruct s as [db r x t0].
  destruct (Scan_complete r (λ j, clock orc i t0 (S j)) "processing:") as (fuel0 & ks & Hks & Hin & _);
    [done|intros j; apply clock_mono|].
  exists fuel0, (omap parse_ref ks). intros fuel Hle.
  destruct (run_list_processing i t0 fuel 0 [] 0%N r x db ks) as [m Hm];
    [by eapply scan_iter_mono|].
  rewrite Nat.add_0_r in Hm. eexists _, _. split; [exact Hm|]. simpl.
  split_and!; [done|done|apply clock_ge| |].
  2: { intros ref (k & _ & Hk)%list_elem_of_omap. by eapply parse_ref_stage. }
  intros st w Hst Hne. rewrite list_elem_of_omap. exists (processingKey st w).
  split; [|by apply parse_processingKey]. apply Hin; [|by left].
  apply prefix_spec. by exists (st +:+ ":" +:+ w).
Qed.

(** An operation on one stage and worker keeps the abstraction, if it does so
    at that stage and worker. *)
Lemma qrel_touch q q' s s' st w :
  stage_ok st → qrel q (s_redis s) →
  same_but [key st; processingKey st w] s s' →
  rlist (s_redis s') (key st) = rev (waiting q' st) →
  rlist (s_redis s') (processingKey st w) = inflight q' st w →
  (∀ st', st' ≠ st → waiting q' st' = waiting q st') →
  (∀ st' w', ¬ (st' = st ∧ w' = w) → inflight q' st' w' = inflight q st' w') →
  qrel q' (s_redis s').
Proof.
  intros Hst [Hw Hp] (_ & _ & Hl & _) Hk1 Hp1 Hw' Hi'. split.
  - intros st'. destruct (decide (st' = st)) as [->|Hne]; [done|].
    by rewrite Hl, Hw, Hw' by auto using key_notin.
  - intros st' w' Hst'. destruct (decide (st' = st ∧ w' = w)) as [[-> ->]|Hne]; [done|].
    by rewrite Hl, Hp, Hi' by auto using processingKey_notin.
Qed.

Definition inflight_le (n : nat) (q : aqueue) : Prop :=
  ∀ st w, (length (inflight q st w) ≤ n)%nat.

Lemma inflight_le_op n op q : inflight_le n q → inflight_le (S n) (spec_op op q).2.
Proof.
  intros H st w. pose proof (H st w). destruct op as [s1 id|s1 w1 tmo|s1 w1 id|s1 w1|s1]; simpl;
    try (case_decide as Hd; [destruct Hd as [-> ->]|]); simpl; try lia.
  - pose proof (H s1 w1). destruct (waiting q s1); simpl; [lia|]. case_decide; simpl; lia.
  - pose proof (H s1 w1). enough (length (remove_first id (inflight q s1 w1)) ≤ length (inflight q s1 w1))%nat by lia.
    apply length_remove_first.
Qed.

(** One operation implements its specification. *)
Definition op_refines (fuel : nat) (op : qop) (q : aqueue) : Prop := ∀ i s,
  stage_ok (op_stage op) → inflight_le fuel q → qrel q (s_redis s) →
  ∃ i' s', run orc (do_op (S fuel) op) i s = Some (Some (spec_op op q).1, i', s') ∧
    qrel (spec_op op q).2 (s_redis s') ∧ s_db s' = s_db s.

Lemma push_refines fuel st id q : op_refines fuel (OPush st id) q.
Proof.
  intros i s Hst _ Hq. pose proof Hq as [Hw Hp]. cbn [do_op op_stage] in *. rewrite run_bind.
  destruct (run_Push st id i s) as (s' & -> & Hs & Hk). eexists _, s'. split; [done|].
  split; [|apply Hs]. simpl.
  apply (qrel_touch q _ s s' st EmptyString); simpl; try done.
  - eapply same_but_weaken; [|done]. set_solver.
  - by rewrite decide_True, Hk, Hw, rev_app_distr.
  - destruct Hs as (_ & _ & Hl & _). rewrite Hl, Hp; [done..|].
    rewrite not_elem_of_cons. split; [by intros ?%eq_sym%key_processingKey|apply not_elem_of_nil].
  - intros st' Hne. by rewrite decide_False.
Qed.

Lemma pop_refines fuel st w tmo q : op_refines fuel (OPop st w tmo) q.
Proof.
  intros i s Hst _ Hq. pose proof Hq as [Hw Hp]. cbn [do_op op_stage] in *. rewrite run_bind.
  destruct (run_BlockingPop st w tmo i s) as (s' & Hs & Hr). simpl.
  rewrite Hw in Hr. destruct (waiting q st) as [|id rest] eqn:Hwait; simpl in Hr.
  - destruct Hr as [-> Hs0]. eexists _, s'. split; [done|]. split; [|apply Hs]. simpl.
    apply (qrel_touch q _ s s' st w); try done; destruct Hs0 as (_ & _ & Hl & _).
    + rewrite Hl, Hw; [done|apply not_elem_of_nil].
    + rewrite Hl, Hp; [done..|apply not_elem_of_nil].
  - rewrite unsnoc_app in Hr. destruct Hr as (-> & Hk & Hpr).
    eexists _, s'. split; [done|]. split; [|apply Hs]. simpl.
    apply (qrel_touch q _ s s' st w); simpl; try done.
    + by rewrite decide_True, Hk.
    + by rewrite decide_True, Hpr, Hp.
    + intros st' Hne. by rewrite decide_False.
    + intros st' w' Hne. by rewrite decide_False.
Qed.

Lemma ack_refines fuel st w id q : op_refines fuel (OAck st w id) q.
Proof.
  intros i s Hst _ Hq. pose proof Hq as [Hw Hp]. cbn [do_op op_stage] in *. rewrite run_bind.
  destruct (run_Ack st w id i s) as (s' & -> & Hs & Hk). eexists _, s'. split; [done|].
  split; [|apply Hs]. simpl.
  apply (qrel_touch q _ s s' st w); simpl; try done.
  - eapply same_but_weaken; [|done]. set_solver.
  - destruct Hs as (_ & _ & Hl & _). rewrite Hl, Hw; [done|].
    rewrite not_elem_of_cons. split; [apply key_processingKey|apply not_elem_of_nil].
  - by rewrite decide_True, Hk, Hp.
  - intros st' w' Hne. by rewrite decide_False.
Qed.

Lemma reclaim_refines fuel st w q : op_refines fuel (OReclaim st w) q.
Proof.
  intros i s Hst Hle Hq. pose proof Hq as [Hw Hp]. cbn [do_op op_stage] in *. rewrite run_bind.
  unfold ReclaimProcessing.
  destruct (run_reclaim (S fuel) st w 0 i s) as (i' & s' & -> & Hs & Hpr & Hk);
    [rewrite Hp by done; specialize (Hle st w); lia|].
  exists i', s'. rewrite Hp, Hw in * by done. split; [done|]. split; [|apply Hs]. simpl.
  apply (qrel_touch q _ s s' st w); simpl; try done.
  - by rewrite decide_True, Hk, rev_app_distr.
  - by rewrite decide_True.
  - intros st' Hne. by rewrite decide_False.
  - intros st' w' Hne. by rewrite decide_False.
Qed.

Lemma depth_refines fuel st q : op_refines fuel (ODepth st) q.
Proof.
  intros i s Hst _ Hq. pose proof Hq as [Hw Hp]. cbn [do_op op_stage] in *. rewrite run_bind.
  destruct (run_Depth st i s) as (s' & -> & Hs). eexists _, s'. split.
  { simpl. by rewrite Hw, length_rev. }
  split; [|apply Hs]. simpl. pose proof Hs as (_ & _ & Hl & _).
  apply (qrel_touch q _ s s' st EmptyString); try done.
  - eapply same_but_weaken; [|done]. set_solver.
  - rewrite Hl, Hw; [done|apply not_elem_of_nil].
  - rewrite Hl, Hp; [done..|apply not_elem_of_nil].
Qed.

Lemma do_op_refines fuel op q : op_refines fuel op q.
Proof.
  destruct op;
    [apply push_refines|apply pop_refines|apply ack_refines|apply reclaim_refines|apply depth_refines].
Qed.

(** C17. The Redis queue refines the FIFO specification: any sequence of
    pushes, pops, acknowledgements, reclaims and depth readings returns, call
    for call, what the abstract queues return, and ends in the corresponding
    state; the reclaim loop always terminates. *)
Theorem queue_refines_fifo ops fuel q i s :
  Forall (λ op, stage_ok (op_stage op)) ops →
  inflight_le fuel q → qrel q (s_redis s) →
  ∃ i' s', run orc (do_ops (S (fuel + length ops)) ops) i s =
      Some (Some (spec_ops ops q).1, i', s') ∧
    qrel (spec_ops ops q).2 (s_redis s') ∧ s_db s' = s_db s.
Proof.
  intros Hall. remember (fuel + length ops)%nat as n eqn:Hn. revert fuel Hn q i s.
  induction Hall as [|op ops Hop _ IH]; intros fuel Hn q i s Hle Hq; cbn [do_ops spec_ops].
  { by exists i, s. }
  simpl in Hn. rewrite run_bind.
  destruct (do_op_refines n op q i s) as (i1 & s1 & -> & Hq1 & Hd1);
    [done|intros st w; specialize (Hle st w); lia|done|].
  pose proof (inflight_le_op fuel op q Hle) as Hle1.
  destruct (spec_op op q) as [r q1]; simpl in *.
  destruct (IH (S fuel) ltac:(lia) q1 i1 s1) as (i2 & s2 & Hrun & Hq2 & Hd2); [done..|].
  rewrite run_bind, Hrun. destruct (spec_ops ops q1) as [rs q2]; simpl in *.
  eexists _, _. split_and!; [done|done|congruence].
Qed.

End reliable.

End queue.

(** ** Witnesses *)
Import SchemaModel RedisModel DriveModel EffectsModel.

Definition test_ops : list qop :=
  [OPush "fetch" "a"; OPush "fetch" "b"; OPop "fetch" "w1" 1; ODepth "fetch"; OReclaim "fetch" "w1";
   OPop "fetch" "w2" 1; OAck "fetch" "w2" "a"].

Definition no_queues : aqueue := mk_aqueue (λ _, []) (λ _ _, []).

Definition idle : shared := mk_shared no_rows RedisModel.empty no_ext 0.

Lemma queue_refines_fifo_witness :
  ∃ i' s', run (calm (λ _, Ok EmptyString)) (do_ops 8 test_ops) 0 idle =
      Some (Some [RUnit; RUnit; RId "a"; RCount 1; RCount 1; RId "a"; RUnit], i', s') ∧
    qrel (spec_ops test_ops no_queues).2 (s_redis s') ∧ s_db s' = s_db idle.
Proof.
  apply (queue_refines_fifo (calm (λ _, Ok EmptyString)) (calm_reliable _) test_ops 0 no_queues 0 idle).
  - repeat constructor.
  - intros st w. simpl. lia.
  - split; reflexivity.
Defined.
