(* ===== verification/Store.v ===== *)
(** * The job store: internal/store

    Each method is one SQL statement, a function of the server's [now()] and
    the tables, and the Go code around it.  The statements' text is in
    store.go, users.go, gmail_sync.go and oauth.go. *)
From stdpp Require Import sorting.
From S2P Require Import Prelude Redis Schema Services Effects.
Local Open Scope Z_scope.

Section store.
Context `{UL : UuidLib} `{PG : !PgServer} `{RS : RedisServer} `{DS : DriveServer}.

(** ** SQL statements *)

(** INSERT INTO pipeline_jobs (...) VALUES (...) RETURNING ...: the primary
    key, the unique index and the foreign key are checked in that order. *)
Definition sql_enqueue (id : uuid) (nj : NewJob) (payload : string) (now : Z) (db : DB)
    : result Job * DB :=
  let j := {|
    ID := id; UserID := nj_UserID nj; GmailMessageID := nj_GmailMessageID nj;
    Stage := nj_Stage nj; Status := StatusQueued; Payload := payload;
    IsSynthetic := nj_IsSynthetic nj; WorkerID := None; Attempts := 0;
    MaxAttempts := max_attempts_default; LastError := None; NextRunAt := now;
    ClaimedAt := None; CompletedAt := None; CreatedAt := now; UpdatedAt := now |} in
  if decide (is_Some (pipeline_jobs db !! id))
  then (Err (EPg "23505" "pipeline_jobs_pkey"), db)
  else match put_job id j db with
  | Err e => (Err e, db)
  | Ok db' =>
      if user_ref_ok (nj_UserID nj) db then (Ok j, db')
      else (Err (EPg "23503" "pipeline_jobs_user_id_fkey"), db)
  end.

(** An UPDATE of the row [id], if the WHERE clause holds of it: the number of
    rows affected.  [f] computes the new row, or fails. *)
Definition sql_update (id : uuid) (where_ : Job → bool) (f : Job → result Job) (db : DB)
    : result Z * DB :=
  match pipeline_jobs db !! id with
  | None => (Ok 0, db)
  | Some j =>
      if where_ j then
        match f j with
        | Err e => (Err e, db)
        | Ok j' =>
            match put_job id j' db with
            | Err e => (Err e, db)
            | Ok db' => (Ok 1, db')
            end
        end
      else (Ok 0, db)
  end.

Definition is_status (st : JobStatus) (j : Job) : bool := bool_decide (Status j = st).

(** SET status = 'running', worker_id, claimed_at = now(), updated_at = now()
    WHERE id AND status = 'queued' *)
Definition claim_row (workerID : string) (now : Z) (j : Job) : Job :=
  {| ID := ID j; UserID := UserID j; GmailMessageID := GmailMessageID j;
     Stage := Stage j; Status := StatusRunning; Payload := Payload j;
     IsSynthetic := IsSynthetic j; WorkerID := Some workerID;
     Attempts := Attempts j; MaxAttempts := MaxAttempts j;
     LastError := LastError j; NextRunAt := NextRunAt j;
     ClaimedAt := Some now; CompletedAt := CompletedAt j;
     CreatedAt := CreatedAt j; UpdatedAt := now |}.

Definition sql_claim (id : uuid) (workerID : string) (now : Z) (db : DB) : result Z * DB :=
  sql_update id (is_status StatusQueued) (λ j, Ok (claim_row workerID now j)) db.

(** SET status = 'done', completed_at = now(), updated_at = now() WHERE id *)
Definition done_row (now : Z) (j : Job) : Job :=
  {| ID := ID j; UserID := UserID j; GmailMessageID := GmailMessageID j;
     Stage := Stage j; Status := StatusDone; Payload := Payload j;
     IsSynthetic := IsSynthetic j; WorkerID := WorkerID j;
     Attempts := Attempts j; MaxAttempts := MaxAttempts j;
     LastError := LastError j; NextRunAt := NextRunAt j;
     ClaimedAt := ClaimedAt j; CompletedAt := Some now;
     CreatedAt := CreatedAt j; UpdatedAt := now |}.

Definition sql_mark_done (id : uuid) (now : Z) (db : DB) : result Z * DB :=
  sql_update id (λ _, true) (λ j, Ok (done_row now j)) db.

(** SET attempts = attempts + 1, status = CASE WHEN attempts + 1 >=
    max_attempts THEN 'dead' ELSE 'queued' END, worker_id = NULL, last_error,
    next_run_at, updated_at = now() WHERE id; the INT addition may overflow. *)
Definition failed_row (errMsg : string) (nextRunAt : Z) (now : Z) (j : Job) : result Job :=
  if Attempts j + 1 >? int4_max then Err (EPg "22003" EmptyString) else
  Ok {| ID := ID j; UserID := UserID j; GmailMessageID := GmailMessageID j;
     Stage := Stage j;
     Status := if Attempts j + 1 >=? MaxAttempts j then StatusDead else StatusQueued;
     Payload := Payload j; IsSynthetic := IsSynthetic j; WorkerID := None;
     Attempts := Attempts j + 1; MaxAttempts := MaxAttempts j;
     LastError := Some errMsg; NextRunAt := nextRunAt;
     ClaimedAt := ClaimedAt j; CompletedAt := CompletedAt j;
     CreatedAt := CreatedAt j; UpdatedAt := now |}.

Definition sql_mark_failed (id : uuid) (errMsg : string) (nextRunAt : Z) (now : Z) (db : DB)
    : result Z * DB :=
  sql_update id (λ _, true) (failed_row errMsg nextRunAt now) db.

(** SET stage, status = 'queued', worker_id = NULL, claimed_at = NULL,
    updated_at = now() WHERE id AND status = 'running' *)
Definition advance_row (nextStage : string) (now : Z) (j : Job) : Job :=
  {| ID := ID j; UserID := UserID j; GmailMessageID := GmailMessageID j;
     Stage := nextStage; Status := StatusQueued; Payload := Payload j;
     IsSynthetic := IsSynthetic j; WorkerID := None;
     Attempts := Attempts j; MaxAttempts := MaxAttempts j;
     LastError := LastError j; NextRunAt := NextRunAt j;
     ClaimedAt := None; CompletedAt := CompletedAt j;
     CreatedAt := CreatedAt j; UpdatedAt := now |}.

Definition sql_advance (id : uuid) (nextStage : string) (now : Z) (db : DB) : result Z * DB :=
  sql_update id (is_status StatusRunning) (λ j, Ok (advance_row nextStage now j)) db.

(** SELECT ... FROM pipeline_jobs WHERE ..., in the server's scan order. *)
Definition sql_select (where_ : Job → bool) (db : DB) : list Job :=
  filter (λ j, where_ j = true) (seq_scan (pipeline_jobs db)).

(** WHERE status = 'queued' AND last_error IS NOT NULL AND next_run_at <= now() *)
Definition ready_retry (now : Z) (j : Job) : bool :=
  is_status StatusQueued j && bool_decide (is_Some (LastError j)) && (NextRunAt j <=? now).

(** WHERE status = 'queued' AND last_error IS NULL
    AND created_at < now() - make_interval(secs => threshold) *)
Definition stale_queued (threshold now : Z) (j : Job) : bool :=
  is_status StatusQueued j && bool_decide (LastError j = None) &&
  (CreatedAt j <? now - threshold).

(** ** Go methods on jobs *)

Definition EnqueueJob (nj : NewJob) : prog (result Job) :=
  id ← call NewUUID;
  let payload := default "{}" (nj_Payload nj) in
  r ← call (Sql (sql_enqueue id nj payload));
  match r with
  | Err (EPg code constraint as e) =>
      if bool_decide (code = "23505") &&
         bool_decide (constraint = "pipeline_jobs_user_message_unique")
      then mret (Err (EWrap "enqueue" (ESentinel ErrDuplicateJob)))
      else mret (Err (EWrap "enqueue" e))
  | Err e => mret (Err (EWrap "enqueue" e))
  | Ok j => mret (Ok j)
  end.

(** UPDATE ... RETURNING id scanned with QueryRow: no row is ErrNoRows. *)
Definition query_row (r : result Z) : result unit :=
  match r with
  | Err e => Err e
  | Ok n => if n =? 0 then Err (ESentinel pgxErrNoRows) else Ok tt
  end.

Definition ClaimJob (id : uuid) (workerID : string) : prog (result unit) :=
  r ← call (Sql (sql_claim id workerID));
  match query_row r with
  | Err e =>
      if errors_Is e pgxErrNoRows then mret (Err (ESentinel ErrJobNotClaimable))
      else mret (Err (EWrap "claim" e))
  | Ok _ => mret (Ok tt)
  end.

(** [tag.RowsAffected() == 0] after an UPDATE. *)
Definition affected (pre : string) (r : result Z) : result unit :=
  match r with
  | Err e => Err (EWrap pre e)
  | Ok n => if n =? 0 then Err (ESentinel ErrJobNotFound) else Ok tt
  end.

Definition MarkDone (id : uuid) : prog (result unit) :=
  r ← call (Sql (sql_mark_done id));
  mret (affected "mark done" r).

Definition MarkFailed (id : uuid) (errMsg : string) (nextRunAt : Z) : prog (result unit) :=
  r ← call (Sql (sql_mark_failed id errMsg nextRunAt));
  mret (affected "mark failed" r).

Definition AdvanceJob (id : uuid) (nextStage : string) : prog (result unit) :=
  r ← call (Sql (sql_advance id nextStage));
  mret (affected "advance" r).

Definition ListRunningJobs : prog (result (list Job)) :=
  r ← call (Sql (λ _ db, (Ok (sql_select (is_status StatusRunning) db), db)));
  match r with
  | Err e => mret (Err (EWrap "list running" e))
  | Ok js => mret (Ok js)
  end.

Definition ListReadyRetryJobs : prog (result (list Job)) :=
  r ← call (Sql (λ now db, (Ok (sql_select (ready_retry now) db), db)));
  match r with
  | Err e => mret (Err (EWrap "list ready retries" e))
  | Ok js => mret (Ok js)
  end.

Definition ListStaleQueuedJobs (threshold : Z) : prog (result (list Job)) :=
  r ← call (Sql (λ now db, (Ok (sql_select (stale_queued threshold now) db), db)));
  match r with
  | Err e => mret (Err (EWrap "list stale queued" e))
  | Ok js => mret (Ok js)
  end.

Definition GetJob (id : uuid) : prog (result Job) :=
  r ← call (Sql (λ _ db,
    (match pipeline_jobs db !! id with
     | Some j => Ok j
     | None => Err (ESentinel pgxErrNoRows)
     end, db)));
  match r with
  | Err e =>
      if errors_Is e pgxErrNoRows then mret (Err (ESentinel ErrJobNotFound))
      else mret (Err (EWrap "get" e))
  | Ok j => mret (Ok j)
  end.

(** ** Go methods on users, sync state and tokens *)

(** users.email is UNIQUE. *)
Definition email_free (email : string) (db : DB) : Prop :=
  map_Forall (λ _ u, Email u ≠ email) (users db).

#[global] Instance email_free_dec email db : Decision (email_free email db).
Proof. unfold email_free. apply _. Defined.

Definition sql_create_user (id : uuid) (email : string) (now : Z) (db : DB) : result User * DB :=
  if decide (is_Some (users db !! id)) then (Err (EPg "23505" "users_pkey"), db)
  else if decide (email_free email db) then
    let u := mk_User id email now in
    (Ok u, with_users (<[id := u]> (users db)) db)
  else (Err (EPg "23505" "users_email_key"), db).

Definition CreateUser (email : string) : prog (result User) :=
  id ← call NewUUID;
  r ← call (Sql (sql_create_user id email));
  match r with
  | Err e => mret (Err (EWrap "create user" e))
  | Ok u => mret (Ok u)
  end.

Definition GetUserByEmail (email : string) : prog (result User) :=
  r ← call (Sql (λ _ db,
    (match filter (λ u, Email u = email) (seq_scan (users db)) with
     | u :: _ => Ok u
     | [] => Err (ESentinel pgxErrNoRows)
     end, db)));
  match r with
  | Err e =>
      if errors_Is e pgxErrNoRows then mret (Err (ESentinel ErrUserNotFound))
      else mret (Err (EWrap "get user" e))
  | Ok u => mret (Ok u)
  end.

Definition created_le (a b : User) : Prop := u_CreatedAt a ≤ u_CreatedAt b.
#[global] Instance created_le_dec a b : Decision (created_le a b).
Proof. unfold created_le. apply _. Defined.

(** SELECT ... FROM users ORDER BY created_at *)
Definition sql_list_users (db : DB) : list User :=
  merge_sort created_le (seq_scan (users db)).

Definition ListUsers : prog (result (list User)) :=
  r ← call (Sql (λ _ db, (Ok (sql_list_users db), db)));
  match r with
  | Err e => mret (Err (EWrap "list users" e))
  | Ok us => mret (Ok us)
  end.

Definition GetGmailSyncState (userID : uuid) : prog (result string) :=
  r ← call (Sql (λ _ db,
    (match gmail_sync_state db !! userID with
     | Some (hid, _) => Ok hid
     | None => Err (ESentinel pgxErrNoRows)
     end, db)));
  match r with
  | Err e =>
      if errors_Is e pgxErrNoRows then mret (Ok EmptyString)
      else mret (Err (EWrap "get sync state" e))
  | Ok hid => mret (Ok hid)
  end.

(** INSERT ... ON CONFLICT (user_id) DO UPDATE; user_id references users. *)
Definition sql_set_sync (userID : uuid) (historyID : string) (now : Z) (db : DB)
    : result unit * DB :=
  if user_ref_ok (Some userID) db
  then (Ok tt, with_sync (<[userID := (historyID, now)]> (gmail_sync_state db)) db)
  else (Err (EPg "23503" "gmail_sync_state_user_id_fkey"), db).

Definition SetGmailSyncState (userID : uuid) (historyID : string) : prog (result unit) :=
  r ← call (Sql (sql_set_sync userID historyID));
  match r with
  | Err e => mret (Err (EWrap "set sync state" e))
  | Ok _ => mret (Ok tt)
  end.

(** Some row of any status has this user and message. *)
Definition has_message (userID : uuid) (gmailMessageID : string) (j : Job) : bool :=
  bool_decide (UserID j = Some userID) && bool_decide (GmailMessageID j = Some gmailMessageID).

Definition HasJobForMessage (userID : uuid) (gmailMessageID : string) : prog (result bool) :=
  r ← call (Sql (λ _ db,
    (match sql_select (has_message userID gmailMessageID) db with
     | _ :: _ => Ok tt
     | [] => Err (ESentinel pgxErrNoRows)
     end, db)));
  match r with
  | Err e =>
      if errors_Is e pgxErrNoRows then mret (Ok false)
      else mret (Err (EWrap "has job for message" e))
  | Ok _ => mret (Ok true)
  end.

Definition sql_save_token (t : OAuthToken) (now : Z) (db : DB) : result unit * DB :=
  if user_ref_ok (Some (ot_UserID t)) db
  then (Ok tt, with_tokens
          (<[(ot_UserID t, Provider t) :=
               mk_OAuthToken (ot_UserID t) (Provider t) (AccessCT t) (RefreshCT t) (ExpiresAt t) now]>
             (oauth_tokens db)) db)
  else (Err (EPg "23503" "oauth_tokens_user_id_fkey"), db).

Definition SaveOAuthToken (t : OAuthToken) : prog (result unit) :=
  r ← call (Sql (sql_save_token t));
  match r with
  | Err e => mret (Err (EWrap "save oauth" e))
  | Ok _ => mret (Ok tt)
  end.

Definition GetOAuthToken (userID : uuid) (provider : string) : prog (result OAuthToken) :=
  r ← call (Sql (λ _ db,
    (match oauth_tokens db !! (userID, provider) with
     | Some t => Ok t
     | None => Err (ESentinel pgxErrNoRows)
     end, db)));
  match r with
  | Err e =>
      if errors_Is e pgxErrNoRows then mret (Err (ESentinel ErrOAuthTokenNotFound))
      else mret (Err (EWrap "get oauth" e))
  | Ok t => mret (Ok t)
  end.

(** ** The table invariant *)

(** What every row of pipeline_jobs satisfies: the key is the row's id; a
    running job names its worker and its claim time; a job that may still run
    has attempts left; the foreign key points at a user. *)
Record job_ok (db : DB) (id : uuid) (j : Job) : Prop := {
  ok_id : ID j = id;
  ok_running : Status j = StatusRunning → is_Some (WorkerID j) ∧ is_Some (ClaimedAt j);
  ok_queued : Status j = StatusQueued → WorkerID j = None;
  ok_nonneg : 0 ≤ Attempts j;
  ok_attempts : terminal (Status j) = false → Attempts j < MaxAttempts j;
  ok_max : MaxAttempts j ≤ int4_max;
  ok_user : user_ref_ok (UserID j) db = true
}.

Record db_ok (db : DB) : Prop := {
  ok_jobs : map_Forall (job_ok db) (pipeline_jobs db);
  ok_unique : ∀ id1 id2 j1 j2,
    pipeline_jobs db !! id1 = Some j1 → pipeline_jobs db !! id2 = Some j2 →
    live_key j1 = live_key j2 → is_Some (live_key j1) → id1 = id2
}.

(** ** Statements as data: the write statements, and sequences of them *)

Inductive stmt :=
| SEnqueue (id : uuid) (nj : NewJob) (payload : string)
| SClaim (id : uuid) (workerID : string)
| SMarkDone (id : uuid)
| SMarkFailed (id : uuid) (errMsg : string) (nextRunAt : Z)
| SAdvance (id : uuid) (nextStage : string)
| SCreateUser (id : uuid) (email : string)
| SSetSync (id : uuid) (historyID : string)
| SSaveToken (t : OAuthToken).

Definition exec_stmt (st : stmt) (now : Z) (db : DB) : DB :=
  match st with
  | SEnqueue id nj payload => (sql_enqueue id nj payload now db).2
  | SClaim id w => (sql_claim id w now db).2
  | SMarkDone id => (sql_mark_done id now db).2
  | SMarkFailed id msg t => (sql_mark_failed id msg t now db).2
  | SAdvance id st => (sql_advance id st now db).2
  | SCreateUser id email => (sql_create_user id email now db).2
  | SSetSync id h => (sql_set_sync id h now db).2
  | SSaveToken t => (sql_save_token t now db).2
  end.

Definition exec_stmts (sts : list (stmt * Z)) (db : DB) : DB :=
  foldl (λ db '(st, now), exec_stmt st now db) db sts.

(** The statements that put a claimed job back in the queued state. *)
Definition releases (id : uuid) (st : stmt) : Prop :=
  match st with
  | SMarkFailed id' _ _ | SAdvance id' _ => id' = id
  | _ => False
  end.

(** ** Lemmas *)

Lemma put_job_Ok id row db db' :
  put_job id row db = Ok db' →
  live_key_free id row (pipeline_jobs db) ∧
  db' = with_jobs (<[id := row]> (pipeline_jobs db)) db.
Proof. unfold put_job. case_decide; [|done]. by intros [= <-]. Qed.

(** Every UPDATE leaves the tables alone or rewrites the one row it names. *)
Lemma sql_update_cases id where_ f db :
  (∃ j j', pipeline_jobs db !! id = Some j ∧ where_ j = true ∧ f j = Ok j' ∧
     live_key_free id j' (pipeline_jobs db) ∧
     sql_update id where_ f db = (Ok 1, with_jobs (<[id := j']> (pipeline_jobs db)) db)) ∨
  ((sql_update id where_ f db).1 ≠ Ok 1 ∧ (sql_update id where_ f db).2 = db).
Proof.
  unfold sql_update. destruct (pipeline_jobs db !! id) as [j|] eqn:Hj; [|by right].
  destruct (where_ j) eqn:Hw; [|by right].
  destruct (f j) as [j'|e] eqn:Hf; [|by right].
  destruct (put_job id j' db) as [db'|e] eqn:Hp; [|by right].
  apply put_job_Ok in Hp as [? ->]. left. naive_solver.
Qed.

Lemma user_ref_ok_mono uid db db' :
  dom (users db) ⊆ dom (users db') → user_ref_ok uid db = true → user_ref_ok uid db' = true.
Proof.
  unfold user_ref_ok. destruct uid as [u|]; [|done].
  rewrite !bool_decide_eq_true, <- !elem_of_dom. set_solver.
Qed.

Lemma job_ok_mono db db' id j :
  dom (users db) ⊆ dom (users db') → job_ok db id j → job_ok db' id j.
Proof. intros Hd []. constructor; eauto using user_ref_ok_mono. Qed.

(** Writing an acceptable row that respects the unique index keeps the
    invariant. *)
Lemma db_ok_put id row db :
  db_ok db → job_ok db id row → live_key_free id row (pipeline_jobs db) →
  db_ok (with_jobs (<[id := row]> (pipeline_jobs db)) db).
Proof.
  intros [Hjobs Huniq] Hrow Hfree. constructor; simpl.
  - apply map_Forall_insert_2; [by apply (job_ok_mono db)|].
    intros id' j' Hj'. by apply (job_ok_mono db), Hjobs.
  - assert (Hf : ∀ id' j', pipeline_jobs db !! id' = Some j' →
      live_key j' = live_key row → is_Some (live_key row) → id' = id).
    { intros id' j' Hj' Hk [k Hsome]. destruct (Hfree id' j' Hj') as [|[|]]; [done|congruence|done]. }
    intros id1 id2 j1 j2. rewrite !lookup_insert_Some.
    intros [[<- <-]|[? H1]] [[<- <-]|[? H2]] Hk Hs; [done| | |by eapply Huniq].
    + symmetry. eapply Hf; [done|by rewrite Hk|done].
    + eapply Hf; [done..|by rewrite <- Hk].
Qed.

Lemma db_ok_frame db db' :
  pipeline_jobs db' = pipeline_jobs db → dom (users db) ⊆ dom (users db') →
  db_ok db → db_ok db'.
Proof.
  intros Hj Hu [Hjobs Huniq]. constructor; rewrite Hj; [|done].
  intros id j Hl. by apply (job_ok_mono db), Hjobs.
Qed.

Lemma db_ok_update id where_ f db :
  db_ok db →
  (∀ j j', job_ok db id j → where_ j = true → f j = Ok j' → job_ok db id j') →
  db_ok (sql_update id where_ f db).2.
Proof.
  intros Hok Hf.
  destruct (sql_update_cases id where_ f db) as [(j & j' & Hj & Hw & Hfj & Hfree & ->)|[_ ->] ];
    [|done].
  apply db_ok_put; eauto. eapply Hf; eauto. by apply (ok_jobs _ Hok).
Qed.

Lemma is_status_true st j : is_status st j = true ↔ Status j = st.
Proof. apply bool_decide_eq_true. Qed.

Lemma terminal_false st : terminal st = false ↔ st = StatusQueued ∨ st = StatusRunning.
Proof. destruct st; naive_solver. Qed.

Lemma job_ok_claim db id w now j :
  job_ok db id j → Status j = StatusQueued → job_ok db id (claim_row w now j).
Proof.
  intros [] Hq. constructor; simpl; try done. intros _.
  apply ok_attempts0. by rewrite Hq.
Qed.

Lemma job_ok_done db id now j : job_ok db id j → job_ok db id (done_row now j).
Proof. intros []. by constructor. Qed.

Lemma job_ok_failed db id msg t now j j' :
  job_ok db id j → failed_row msg t now j = Ok j' → job_ok db id j'.
Proof.
  intros [] Hf. unfold failed_row in Hf.
  destruct (Attempts j + 1 >? int4_max) eqn:Hov; [done|]. injection Hf as <-.
  constructor; simpl; try done; [|lia|];
    destruct (Attempts j + 1 >=? MaxAttempts j) eqn:Hmax; try done.
  intros _. lia.
Qed.

Lemma job_ok_advance db id stage now j :
  job_ok db id j → Status j = StatusRunning → job_ok db id (advance_row stage now j).
Proof.
  intros [] Hr. constructor; simpl; try done. intros _.
  apply ok_attempts0. by rewrite Hr.
Qed.

#[local] Hint Resolve job_ok_claim job_ok_done job_ok_failed job_ok_advance : dtq.

Lemma db_ok_enqueue id nj payload now db :
  db_ok db → db_ok (sql_enqueue id nj payload now db).2.
Proof.
  intros Hok. unfold sql_enqueue. case_decide; [done|].
  destruct (put_job _ _ _) as [db'|e] eqn:Hp; [|done].
  destruct (user_ref_ok _ _) eqn:Hu; [|done]. simpl.
  apply put_job_Ok in Hp as [Hfree ->]. apply db_ok_put; [done| |done].
  constructor; simpl; try done; unfold max_attempts_default, int4_max; lia.
Qed.

(** Each write statement preserves the table invariant. *)
Lemma exec_stmt_ok st now db : db_ok db → db_ok (exec_stmt st now db).
Proof.
  intros Hok. destruct st; simpl.
  - by apply db_ok_enqueue.
  - apply db_ok_update; [done|]. intros j j' Hj Hw%is_status_true [= <-]. eauto with dtq.
  - apply db_ok_update; [done|]. intros j j' Hj _ [= <-]. eauto with dtq.
  - apply db_ok_update; [done|]. intros j j' Hj _ Hf. eauto with dtq.
  - apply db_ok_update; [done|]. intros j j' Hj Hw%is_status_true [= <-]. eauto with dtq.
  - unfold sql_create_user. repeat case_decide; [done| |done].
    apply (db_ok_frame db); simpl; [done|set_solver|done].
  - unfold sql_set_sync. destruct (user_ref_ok _ _); [|done].
    by apply (db_ok_frame db).
  - unfold sql_save_token. destruct (user_ref_ok _ _); [|done].
    by apply (db_ok_frame db).
Qed.

Lemma put_job_other id row db db' id' :
  id ≠ id' → put_job id row db = Ok db' → pipeline_jobs db' !! id' = pipeline_jobs db !! id'.
Proof. intros Hne [_ ->]%put_job_Ok. simpl. by rewrite lookup_insert_ne. Qed.

Lemma sql_update_other id where_ f db id' :
  id ≠ id' → pipeline_jobs (sql_update id where_ f db).2 !! id' = pipeline_jobs db !! id'.
Proof.
  intros Hne. destruct (sql_update_cases id where_ f db)
    as [(j & j' & Hj & Hw & Hfj & Hfree & ->)|[_ ->] ]; [|done].
  simpl. by rewrite lookup_insert_ne.
Qed.

(** A job that is not queued stays so, whatever is executed, until MarkFailed
    or AdvanceJob names it. *)
Lemma exec_stmt_not_queued id st now db j :
  pipeline_jobs db !! id = Some j → Status j ≠ StatusQueued → ¬ releases id st →
  ∃ j', pipeline_jobs (exec_stmt st now db) !! id = Some j' ∧ Status j' ≠ StatusQueued.
Proof.
  intros Hj Hq Hr. destruct st as [id' nj payload|id' w|id'|id' msg t|id' stage|id' em|id' h|t]; simpl in *.
  - unfold sql_enqueue. case_decide as Hex; [by eauto|].
    destruct (put_job _ _ _) as [db'|e] eqn:Hp; [|by eauto].
    destruct (user_ref_ok _ _); [|by eauto]. simpl.
    exists j. erewrite put_job_other; [done| |done].
    intros ->. apply Hex. by rewrite Hj.
  - destruct (decide (id' = id)) as [->|]; [|unfold sql_claim; rewrite sql_update_other; eauto].
    unfold sql_claim, sql_update. rewrite Hj.
    destruct (is_status _ _) eqn:Hs; [by apply is_status_true in Hs|by eauto].
  - destruct (decide (id' = id)) as [->|]; [|unfold sql_mark_done; rewrite sql_update_other; eauto].
    unfold sql_mark_done.
    destruct (sql_update_cases id (λ _, true) (λ j, Ok (done_row now j)) db)
      as [(j1 & j' & Hj1 & _ & Hfj & _ & ->)|[_ ->] ]; [|by eauto].
    injection Hfj as <-. simpl. rewrite lookup_insert_eq. by eauto.
  - unfold sql_mark_failed. rewrite sql_update_other; eauto.
  - unfold sql_advance. rewrite sql_update_other; eauto.
  - unfold sql_create_user. repeat case_decide; eauto.
  - unfold sql_set_sync. destruct (user_ref_ok _ _); eauto.
  - unfold sql_save_token. destruct (user_ref_ok _ _); eauto.
Qed.

Lemma exec_stmts_not_queued id sts db j :
  pipeline_jobs db !! id = Some j → Status j ≠ StatusQueued →
  Forall (λ p, ¬ releases id p.1) sts →
  ∃ j', pipeline_jobs (exec_stmts sts db) !! id = Some j' ∧ Status j' ≠ StatusQueued.
Proof.
  intros Hj Hq Hall. revert db j Hj Hq.
  induction Hall as [|[st now] sts Hst _ IH]; intros db j Hj Hq; simpl; [by eauto|].
  destruct (exec_stmt_not_queued id st now db j) as (j' & Hj' & Hq'); eauto.
Qed.

(** A successful claim, in terms of the row. *)
Lemma sql_claim_Ok id w now db :
  (sql_claim id w now db).1 = Ok 1 →
  ∃ j, pipeline_jobs db !! id = Some j ∧ Status j = StatusQueued ∧
    (sql_claim id w now db).2 = with_jobs (<[id := claim_row w now j]> (pipeline_jobs db)) db.
Proof.
  unfold sql_claim. intros H.
  destruct (sql_update_cases id (is_status StatusQueued) (λ j, Ok (claim_row w now j)) db)
    as [(j & j' & Hj & Hw%is_status_true & Hfj & _ & Heq)|[Hn _] ]; [|done].
  injection Hfj as <-. rewrite Heq. by exists j.
Qed.

Lemma sql_claim_not_queued id w now db j :
  pipeline_jobs db !! id = Some j → Status j ≠ StatusQueued → sql_claim id w now db = (Ok 0, db).
Proof.
  intros Hj Hq. unfold sql_claim, sql_update. rewrite Hj.
  destruct (is_status _ _) eqn:Hs; [by apply is_status_true in Hs|done].
Qed.

Lemma sql_update_range id where_ f db n :
  (sql_update id where_ f db).1 = Ok n → n = 0 ∨ n = 1.
Proof. unfold sql_update. repeat case_match; simpl; intros [= <-]; auto. Qed.

(** ** The methods under every pattern of failures

    A call either took effect and said so, or took no effect, or failed in
    transit, in which case the error tells nothing about its effect. *)

(** The row [id] went from [j] to [f t j], everything else is as before. *)
Definition row_step (id : uuid) (f : Z → Job → result Job) (db db' : DB) : Prop :=
  ∃ t j j', pipeline_jobs db !! id = Some j ∧ f t j = Ok j' ∧
    db' = with_jobs (<[id := j']> (pipeline_jobs db)) db.

Definition update_effect {A} (id : uuid) (where_ : Job → bool) (f : Z → Job → result Job)
    (r : result A) (db db' : DB) : Prop :=
  let step := row_step id (λ t j, if where_ j then f t j else Err (EText EmptyString)) db db' in
  (is_ok r = true ∧ step) ∨ (is_ok r = false ∧ (db' = db ∨ step)).

Lemma run_sql_update (orc : nat → outcome) id where_ f {A} (g : result Z → result A) i s :
  (∀ e, is_ok (g (Err e)) = false) → (∀ n, is_ok (g (Ok n)) = negb (n =? 0)) →
  ∃ s' r, exec (orc i) (Sql (λ t, sql_update id where_ (f t))) s = (r, s') ∧
    s_redis s' = s_redis s ∧ update_effect id where_ f (g r) (s_db s) (s_db s') ∧
    (g r = g (Ok 0) → s_db s' = s_db s ∨ ∃ msg, r = Err (EText msg)).
Proof.
  intros Hg Hg0. pose proof (exec_Sql_cases (orc i) (λ t, sql_update id where_ (f t)) s) as H.
  destruct (exec (orc i) _ s) as [r s']. destruct H as (_ & Hr & Hc). exists s', r.
  split; [done|]. split; [done|]. set (t := _ + _) in *.
  destruct (sql_update_cases id where_ (f t) (s_db s))
    as [(j & j' & Hj & Hw & Hf & _ & Heq)|[Hn Hd] ].
  - assert (Hstep : row_step id (λ t j, if where_ j then f t j else Err (EText EmptyString)) (s_db s)
      (with_jobs (<[id := j']> (pipeline_jobs (s_db s))) (s_db s))).
    { exists t, j, j'. rewrite Hw. done. }
    rewrite Heq in Hc. simpl in Hc. destruct Hc as [[-> ->]|(msg & -> & Hd)].
    + split; [by left; rewrite Hg0|]. intros Hcontra.
      apply (f_equal is_ok) in Hcontra. by rewrite !Hg0 in Hcontra.
    + split; [right; rewrite Hg; split; [done|]; destruct Hd as [->|[_ ->] ]; auto|]. eauto.
  - rewrite Hd in Hc. destruct Hc as [[-> ->]|(msg & -> & Hd')].
    + split; [right|by left]. split; [|by left].
      destruct (sql_update id where_ (f t) (s_db s)).1 as [n|e] eqn:E; [|apply Hg].
      rewrite Hg0. destruct (sql_update_range _ _ _ _ _ E) as [->| ->]; [done|congruence].
    + split; [right; rewrite Hg; split; [done|]; destruct Hd' as [->|[_ ->] ]; auto|]. eauto.
Qed.

Lemma affected_Err pre e : is_ok (affected pre (Err e)) = false.
Proof. done. Qed.
Lemma affected_Ok pre n : is_ok (affected pre (Ok n)) = negb (n =? 0).
Proof. simpl. by destruct (n =? 0). Qed.

Lemma run_MarkDone orc id i s :
  ∃ r s', run orc (MarkDone id) i s = Some (r, S i, s') ∧ s_redis s' = s_redis s ∧
    update_effect id (λ _, true) (λ t j, Ok (done_row t j)) r (s_db s) (s_db s').
Proof.
  destruct (run_sql_update orc id (λ _, true) (λ t j, Ok (done_row t j)) (affected "mark done") i s)
    as (s' & r & He & Hr & Hu & _); [apply affected_Err|apply affected_Ok|].
  exists (affected "mark done" r), s'. unfold MarkDone. rewrite run_bind, run_call.
  change (sql_mark_done id) with (λ t, sql_update id (λ _, true) (λ j, Ok (done_row t j))).
  by rewrite He.
Qed.

Lemma run_MarkFailed orc id msg next i s :
  ∃ r s', run orc (MarkFailed id msg next) i s = Some (r, S i, s') ∧ s_redis s' = s_redis s ∧
    update_effect id (λ _, true) (failed_row msg next) r (s_db s) (s_db s').
Proof.
  destruct (run_sql_update orc id (λ _, true) (failed_row msg next) (affected "mark failed") i s)
    as (s' & r & He & Hr & Hu & _); [apply affected_Err|apply affected_Ok|].
  exists (affected "mark failed" r), s'. unfold MarkFailed. rewrite run_bind, run_call.
  change (sql_mark_failed id msg next)
    with (λ t, sql_update id (λ _, true) (failed_row msg next t)).
  by rewrite He.
Qed.

Lemma run_AdvanceJob orc id stage i s :
  ∃ r s', run orc (AdvanceJob id stage) i s = Some (r, S i, s') ∧ s_redis s' = s_redis s ∧
    update_effect id (is_status StatusRunning) (λ t j, Ok (advance_row stage t j)) r
      (s_db s) (s_db s').
Proof.
  destruct (run_sql_update orc id (is_status StatusRunning) (λ t j, Ok (advance_row stage t j))
    (affected "advance") i s)
    as (s' & r & He & Hr & Hu & _); [apply affected_Err|apply affected_Ok|].
  exists (affected "advance" r), s'. unfold AdvanceJob. rewrite run_bind, run_call.
  change (sql_advance id stage)
    with (λ t, sql_update id (is_status StatusRunning) (λ j, Ok (advance_row stage t j))).
  by rewrite He.
Qed.

Definition claim_step (id : uuid) (w : string) : DB → DB → Prop :=
  row_step id (λ t j,
    if is_status StatusQueued j then Ok (claim_row w t j) else Err (EText EmptyString)).

Lemma run_ClaimJob orc id w i s :
  ∃ r s', run orc (ClaimJob id w) i s = Some (r, S i, s') ∧ s_redis s' = s_redis s ∧
    ((r = Ok tt ∧ claim_step id w (s_db s) (s_db s')) ∨
     (r = Err (ESentinel ErrJobNotClaimable) ∧ s_db s' = s_db s) ∨
     (∃ e, r = Err (EWrap "claim" e) ∧
        (s_db s' = s_db s ∨ (claim_step id w (s_db s) (s_db s') ∧
           ∃ msg, e = EText msg ∧ o_fault (orc i) = FailAfter msg)))).
Proof.
  unfold ClaimJob. rewrite run_bind, run_call.
  pose proof (exec_Sql_cases (orc i) (sql_claim id w) s) as H.
  destruct (exec (orc i) _ s) as [r s']. destruct H as (_ & Hr & Hc). simpl.
  set (t := _ + _) in *.
  assert (Hcl : (claim_step id w (s_db s) (sql_claim id w t (s_db s)).2 ∧
      (sql_claim id w t (s_db s)).1 = Ok 1) ∨
    ((sql_claim id w t (s_db s)).2 = s_db s ∧
     ((sql_claim id w t (s_db s)).1 = Ok 0 ∨ (sql_claim id w t (s_db s)).1 = Err unique_violation))).
  { unfold sql_claim, sql_update. destruct (pipeline_jobs (s_db s) !! id) as [j|] eqn:Hj; [|auto].
    destruct (is_status StatusQueued j) eqn:Hq; [|auto].
    unfold put_job. case_decide; simpl; [left|auto]. split; [|done].
    exists t, j, (claim_row w t j). by rewrite Hq. }
  destruct Hc as [[-> Hd]|(msg & -> & Hd)]; [|simpl].
  - destruct Hcl as [[Hstep ->]|[Hd' [-> | ->] ] ]; simpl; eexists _, s'; (split; [done|]);
      (split; [done|]); [left|right; left|right; right].
    + by rewrite Hd.
    + by rewrite Hd.
    + eexists. split; [done|]. left. by rewrite Hd.
  - eexists _, s'. split; [done|]. split; [done|]. right; right. eexists. split; [done|].
    destruct Hd as [->|[Hf ->] ]; [by left|].
    destruct Hcl as [[Hstep _]|[-> _] ]; [right; eauto|by left].
Qed.

Lemma run_GetJob orc id i s :
  ∃ r s', run orc (GetJob id) i s = Some (r, S i, s') ∧ s_redis s' = s_redis s ∧
    s_db s' = s_db s ∧
    (∀ j, pipeline_jobs (s_db s) !! id = Some j → r = Ok j ∨ ∃ msg, r = Err (EWrap "get" (EText msg))).
Proof.
  unfold GetJob. rewrite run_bind, run_call.
  match goal with |- context [exec _ (Sql ?f) s] =>
    pose proof (exec_Sql_cases (orc i) f s) as H end.
  destruct (exec (orc i) _ s) as [r s']. simpl in H. destruct H as (_ & Hr & Hc). simpl.
  assert (Hd : s_db s' = s_db s) by naive_solver.
  destruct (pipeline_jobs (s_db s) !! id) as [j|] eqn:Hj.
  - destruct Hc as [[-> _]|(msg & -> & _)]; simpl; eexists _, s'; naive_solver.
  - destruct Hc as [[-> _]|(msg & -> & _)]; simpl; eexists _, s'; naive_solver.
Qed.

(** ** The methods when nothing fails *)

(** An update that keeps a row's place in the unique index, or removes it,
    cannot be refused. *)
Lemma live_key_free_keep db id j j' :
  db_ok db → pipeline_jobs db !! id = Some j →
  live_key j' = None ∨ live_key j' = live_key j →
  live_key_free id j' (pipeline_jobs db).
Proof.
  intros Hok Hj Hk id' j0 Hj0. destruct (decide (id' = id)) as [|Hne]; [by left|right].
  destruct (live_key j') as [k|] eqn:E; [|by left]. right. intros Hk0.
  destruct Hk as [|Hk]; [done|]. apply Hne.
  eapply (ok_unique _ Hok); [done..|by rewrite Hk0|by rewrite Hk0].
Qed.

Lemma sql_update_keep db id where_ f j j' :
  db_ok db → pipeline_jobs db !! id = Some j → where_ j = true → f j = Ok j' →
  live_key j' = None ∨ live_key j' = live_key j →
  sql_update id where_ f db = (Ok 1, with_jobs (<[id := j']> (pipeline_jobs db)) db).
Proof.
  intros Hok Hj Hw Hf Hk. unfold sql_update, put_job. rewrite Hj, Hw, Hf.
  by rewrite decide_True by eauto using live_key_free_keep.
Qed.

Lemma live_key_claim w t j : Status j = StatusQueued → live_key (claim_row w t j) = live_key j.
Proof. intros Hq. unfold live_key. simpl. by rewrite Hq. Qed.

Lemma live_key_done t j : live_key (done_row t j) = None.
Proof. done. Qed.

Lemma live_key_advance st t j :
  Status j = StatusRunning → live_key (advance_row st t j) = live_key j.
Proof. intros Hq. unfold live_key. simpl. by rewrite Hq. Qed.

(** An attempt can be added to a job that may still run. *)
Lemma failed_row_Ok db id msg next t j :
  job_ok db id j → terminal (Status j) = false →
  ∃ j', failed_row msg next t j = Ok j' ∧ (live_key j' = None ∨ live_key j' = live_key j).
Proof.
  intros [] Ht. unfold failed_row. specialize (ok_attempts0 Ht).
  replace (Attempts j + 1 >? int4_max) with false by lia.
  eexists. split; [done|]. unfold live_key. simpl. rewrite Ht.
  destruct (Attempts j + 1 >=? MaxAttempts j); simpl; auto.
Qed.

Section reliable.
Context (orc : nat → outcome) (Hrel : reliable orc).

Lemma run_Sql_reliable {X} (f : Z → DB → result X * DB) {B} (g : result X → B) i s :
  let t := s_now s + Z.of_N (o_dt (orc i)) in
  run orc (r ← call (Sql f); mret (g r)) i s =
    Some (g (f t (s_db s)).1, S i, mk_shared (f t (s_db s)).2 (s_redis s) (s_ext s) t).
Proof. rewrite run_bind, run_call, exec_Sql by apply Hrel. done. Qed.

Lemma run_ClaimJob_ok id w i s j :
  db_ok (s_db s) → pipeline_jobs (s_db s) !! id = Some j → Status j = StatusQueued →
  ∃ t, s_now s ≤ t ∧ run orc (ClaimJob id w) i s =
    Some (Ok tt, S i, mk_shared (with_jobs (<[id := claim_row w t j]> (pipeline_jobs (s_db s))) (s_db s))
      (s_redis s) (s_ext s) t).
Proof.
  intros Hok Hj Hq. unfold ClaimJob. rewrite run_bind, run_call, exec_Sql by apply Hrel.
  exists (s_now s + Z.of_N (o_dt (orc i))). split; [lia|]. unfold sql_claim.
  rewrite (sql_update_keep _ _ _ _ j (claim_row w (s_now s + Z.of_N (o_dt (orc i))) j)); try done.
  - by apply is_status_true.
  - right. by apply live_key_claim.
Qed.

Lemma run_GetJob_ok id i s j :
  pipeline_jobs (s_db s) !! id = Some j →
  ∃ t, s_now s ≤ t ∧ run orc (GetJob id) i s = Some (Ok j, S i, mk_shared (s_db s) (s_redis s) (s_ext s) t).
Proof.
  intros Hj. unfold GetJob. rewrite run_bind, run_call, exec_Sql by apply Hrel.
  exists (s_now s + Z.of_N (o_dt (orc i))). split; [lia|]. simpl. by rewrite Hj.
Qed.

Lemma run_MarkDone_ok id i s j :
  db_ok (s_db s) → pipeline_jobs (s_db s) !! id = Some j →
  ∃ t, s_now s ≤ t ∧ run orc (MarkDone id) i s =
    Some (Ok tt, S i, mk_shared (with_jobs (<[id := done_row t j]> (pipeline_jobs (s_db s))) (s_db s))
      (s_redis s) (s_ext s) t).
Proof.
  intros Hok Hj. unfold MarkDone. rewrite run_Sql_reliable.
  exists (s_now s + Z.of_N (o_dt (orc i))). split; [lia|]. unfold sql_mark_done.
  erewrite sql_update_keep; [done|done|exact Hj|done|done|by left].
Qed.

Lemma run_MarkFailed_ok id msg next i s j :
  db_ok (s_db s) → pipeline_jobs (s_db s) !! id = Some j → terminal (Status j) = false →
  ∃ t j', s_now s ≤ t ∧ failed_row msg next t j = Ok j' ∧
    run orc (MarkFailed id msg next) i s =
    Some (Ok tt, S i, mk_shared (with_jobs (<[id := j']> (pipeline_jobs (s_db s))) (s_db s))
      (s_redis s) (s_ext s) t).
Proof.
  intros Hok Hj Ht. unfold MarkFailed. rewrite run_Sql_reliable.
  set (t := _ + _). destruct (failed_row_Ok (s_db s) id msg next t j) as (j' & Hf & Hk);
    [by apply (ok_jobs _ Hok)|done|].
  exists t, j'. split; [lia|]. split; [done|]. unfold sql_mark_failed.
  by rewrite (sql_update_keep _ _ _ _ j j').
Qed.

Lemma run_AdvanceJob_ok id stage i s j :
  db_ok (s_db s) → pipeline_jobs (s_db s) !! id = Some j → Status j = StatusRunning →
  ∃ t, s_now s ≤ t ∧ run orc (AdvanceJob id stage) i s =
    Some (Ok tt, S i, mk_shared (with_jobs (<[id := advance_row stage t j]> (pipeline_jobs (s_db s))) (s_db s))
      (s_redis s) (s_ext s) t).
Proof.
  intros Hok Hj Hr. unfold AdvanceJob. rewrite run_Sql_reliable.
  exists (s_now s + Z.of_N (o_dt (orc i))). split; [lia|]. unfold sql_advance.
  rewrite (sql_update_keep _ _ _ _ j (advance_row stage (s_now s + Z.of_N (o_dt (orc i))) j)); try done.
  - by apply is_status_true.
  - right. by apply live_key_advance.
Qed.

End reliable.

(** ** Listings *)

Lemma elem_of_select P db j :
  db_ok db → j ∈ sql_select P db ↔ pipeline_jobs db !! ID j = Some j ∧ P j = true.
Proof.
  intros Hok. unfold sql_select. rewrite list_elem_of_filter, seq_scan_perm, list_elem_of_fmap.
  split.
  - intros (HP & [id j'] & Heq & Hj%elem_of_map_to_list). simpl in Heq. subst j'.
    by rewrite (ok_id _ _ _ (ok_jobs _ Hok _ _ Hj)).
  - intros [Hj HP]. split; [done|]. exists (ID j, j). by rewrite elem_of_map_to_list.
Qed.

Lemma NoDup_select P db : db_ok db → NoDup (ID <$> sql_select P db).
Proof.
  intros Hok.
  assert (Hsub : ∀ l : list Job, NoDup (ID <$> l) → NoDup (ID <$> filter (λ j, P j = true) l)).
  { induction l as [|j l IH]; [done|]. rewrite filter_cons. simpl. intros [Hj Hl]%NoDup_cons.
    case_decide; [|auto]. simpl. apply NoDup_cons. split; [|auto].
    rewrite list_elem_of_fmap in *. intros (y & ? & [_ Hy]%list_elem_of_filter). eauto. }
  apply Hsub. rewrite seq_scan_perm, <- list_fmap_compose.
  rewrite (list_fmap_ext _ fst); [apply NoDup_fst_map_to_list|].
  intros k [id j] Hk%list_elem_of_lookup_2. simpl. apply elem_of_map_to_list in Hk.
  by apply (ok_id db), (ok_jobs _ Hok).
Qed.

(** ** Properties *)

(** C18. [ClaimJob]'s conditional UPDATE is a mutex: after one successful
    claim, however many statements of any kind follow, a second claim of the
    same job affects no row unless a MarkFailed or AdvanceJob of that job was
    executed in between. *)
Theorem claim_exclusive id w1 w2 now1 now2 sts db :
  (sql_claim id w1 now1 db).1 = Ok 1 →
  Forall (λ p, ¬ releases id p.1) sts →
  (sql_claim id w2 now2 (exec_stmts sts (sql_claim id w1 now1 db).2)).1 = Ok 0.
Proof.
  intros Hc Hall. apply sql_claim_Ok in Hc as (j & Hj & Hq & ->).
  destruct (exec_stmts_not_queued id sts
    (with_jobs (<[id := claim_row w1 now1 j]> (pipeline_jobs db)) db) (claim_row w1 now1 j))
    as (j' & Hj' & Hq'); [by simpl; rewrite lookup_insert_eq|done|done|].
  by erewrite sql_claim_not_queued.
Qed.

(** C19. Starting from empty tables, whatever statements the processes
    execute and in whatever order, every row stays well formed (a running job
    names its worker, a job that may still run has attempts left, its user
    exists) and at most one live, non-synthetic job exists per user and
    message. *)
Theorem tables_stay_ok sts db : db_ok db → db_ok (exec_stmts sts db).
Proof.
  revert db. induction sts as [|[st now] sts IH]; intros db Hok; simpl; [done|].
  by apply IH, exec_stmt_ok.
Qed.

End store.

(** ** Witnesses *)
Import SchemaModel.

Lemma no_rows_ok : db_ok no_rows.
Proof. constructor; [apply map_Forall_empty|]. intros id1 id2 j1 j2 H. simpl in H. by destruct (lookup_empty_Some _ _ H). Qed.

Lemma claim_exclusive_witness :
  (sql_claim "a" "w1" 5 one_job).1 = Ok 1 ∧
  (sql_claim "a" "w2" 9
     (exec_stmts [(SMarkDone "a", 6); (SClaim "a" "w3", 7)] (sql_claim "a" "w1" 5 one_job).2)).1
  = Ok 0.
Proof.
  split; [by vm_compute|].
  apply claim_exclusive; [by vm_compute|].
  repeat constructor; simpl; tauto.
Defined.

Lemma tables_stay_ok_witness :
  db_ok (exec_stmts
    [(SCreateUser "u" "a@b.c", 1);
     (SEnqueue "j" (mk_NewJob "fetch" None (Some "u") (Some "m") false) "{}", 2);
     (SClaim "j" "w", 3)] no_rows).
Proof. apply tables_stay_ok, no_rows_ok. Defined.
