(* ===== verification/Worker.v ===== *)
(** * The worker: internal/worker

    Retry backoff, worker identifiers, the handling of one queue item
    ([ProcessOne]) and the worker's loops.  The stage handler is the call
    [Handle]; the handlers themselves are modelled elsewhere. *)
From S2P Require Import Prelude Redis Schema Services Effects GoStrings Queue Store.
Local Open Scope Z_scope.

(** ** Backoff: backoff.go *)

(** rand.Float64() is the 53 low bits of a random word over 2^53. *)
Definition rand_num (x : N) : Z := Z.of_N x mod 2 ^ 53.

(** time.Duration(base * (0.75 + rand.Float64()*0.5) * 1e9), in exact
    arithmetic: 0.75 + n/2^54 is (3*2^52 + n)/2^54. *)
Definition Compute (attempts : Z) (x : N) : Z :=
  let attempts := if attempts <? 1 then 1 else attempts in
  let base := 2 ^ attempts in
  let base := if base >? 600 then 600 else base in
  base * 1000000000 * (3 * 2 ^ 52 + rand_num x) / 2 ^ 54.

(** ** Worker identifiers: id.go *)

(** [host] is os.Hostname()'s result, [b] the eight random bytes. *)
Definition NewWorkerID (host : result string) (b : list Byte.byte) : string :=
  let host := match host with
    | Err _ => "unknown"
    | Ok h => if decide (h = EmptyString) then "unknown" else h
    end in
  let host := ReplaceAll host "-" EmptyString in
  host +:+ "-" +:+ hex_EncodeToString b.

Section worker.
Context `{UL : UuidLib} `{PG : !PgServer} `{RS : RedisServer} `{DS : DriveServer}.

Record Config := mk_Config {
  c_Stage : string;
  c_WorkerID : string;
  PopTimeout : Z;
  HeartbeatTTL : Z;
  HeartbeatInterval : Z
}.

(** fmt's %q, for printable text *)
Definition quoted (s : string) : string :=
  String "034"%char (s +:+ String "034"%char EmptyString).

(** ** ProcessOne *)

(** After the handler failed. *)
Definition settle_failed (jobID : uuid) (job : Job) (handlerErr : err)
    : prog (bool * result unit) :=
  now ← call Now;
  x ← call Rand;
  let nextRun := now + Compute (Attempts job + 1) x in
  m ← MarkFailed jobID (Error handlerErr) nextRun;
  match m with
  | Err e => mret (true, Err (EWrap2 "mark failed" e (ESentinel errPostClaim)))
  | Ok _ => mret (true, Ok tt)
  end.

(** After the handler asked for a further stage. *)
Definition settle_advance (jobID : uuid) (nextStage : string) : prog (bool * result unit) :=
  a ← AdvanceJob jobID nextStage;
  match a with
  | Err e => mret (true, Err (EWrap2 "advance" e (ESentinel errPostClaim)))
  | Ok _ =>
      p ← Push nextStage (uuid_String jobID);
      match p with
      | Err e => mret (true, Err (EWrap "push next stage" e))
      | Ok _ => mret (true, Ok tt)
      end
  end.

Definition settle_done (jobID : uuid) : prog (bool * result unit) :=
  d ← MarkDone jobID;
  match d with
  | Err e => mret (true, Err (EWrap2 "mark done" e (ESentinel errPostClaim)))
  | Ok _ => mret (true, Ok tt)
  end.

(** From [Handler.Process] to the end. *)
Definition process_job (jobID : uuid) (job : Job) : prog (bool * result unit) :=
  h ← call (Handle job);
  match h with
  | Err handlerErr => settle_failed jobID job handlerErr
  | Ok nextStage =>
      if decide (nextStage = EmptyString) then settle_done jobID
      else settle_advance jobID nextStage
  end.

(** From [uuid.Parse] to the end: everything the deferred Ack follows. *)
Definition process_popped (cfg : Config) (rawID : string) : prog (bool * result unit) :=
  match uuid_Parse rawID with
  | Err e => mret (true, Err (EWrap ("parse job id " +:+ quoted rawID) e))
  | Ok jobID =>
      c ← ClaimJob jobID (c_WorkerID cfg);
      match c with
      | Err e =>
          if errors_Is e ErrJobNotClaimable then mret (true, Ok tt)
          else mret (true, Err (EWrap "claim" e))
      | Ok _ =>
          g ← GetJob jobID;
          match g with
          | Err e => mret (true, Err (EWrap2 "get" e (ESentinel errPostClaim)))
          | Ok job => process_job jobID job
          end
      end
  end.

(** The result is the pair (didWork, err). *)
Definition ProcessOne (cfg : Config) : prog (bool * result unit) :=
  r ← BlockingPop (c_Stage cfg) (c_WorkerID cfg) (PopTimeout cfg);
  match r with
  | Err e =>
      if errors_Is e ErrEmpty then mret (false, Ok tt)
      else mret (false, Err (EWrap "pop" e))
  | Ok rawID =>
      res ← process_popped cfg rawID;
      _ ← Ack (c_Stage cfg) (c_WorkerID cfg) rawID;
      mret res
  end.

(** ** The loops; the fuel bounds the number of turns *)

Fixpoint run_loop (fuel : nat) (cfg : Config) : prog (result unit) :=
  match fuel with
  | O => NoFuel
  | S fuel =>
      stop ← call CtxDone;
      if stop : bool then mret (Ok tt) else
      '(_, e) ← ProcessOne cfg;
      match e with
      | Ok _ => run_loop fuel cfg
      | Err e =>
          stop ← call CtxDone;
          if stop : bool then mret (Ok tt)
          else if errors_Is e errPostClaim then mret (Err e)
          else run_loop fuel cfg
      end
  end.

(** The goroutine [heartbeatLoop] runs beside [run_loop]. *)
Definition Run (fuel : nat) (cfg : Config) : prog (result unit) :=
  _ ← Heartbeat (c_WorkerID cfg) (HeartbeatTTL cfg);
  run_loop fuel cfg.

Fixpoint heartbeat_ticks (fuel : nat) (cfg : Config) : prog unit :=
  match fuel with
  | O => NoFuel
  | S fuel =>
      stop ← call CtxDone;
      if stop : bool then mret tt else
      _ ← Heartbeat (c_WorkerID cfg) (HeartbeatTTL cfg);
      heartbeat_ticks fuel cfg
  end.

Definition heartbeatLoop (fuel : nat) (cfg : Config) : prog unit :=
  _ ← Heartbeat (c_WorkerID cfg) (HeartbeatTTL cfg);
  heartbeat_ticks fuel cfg.

(** ** Specification of ProcessOne on the job's row *)

(** How the row of a job whose handler returned [h] is settled. *)
Inductive settled (h : result string) (j : Job) : Job → Prop :=
| settled_failed he t x t' j' :
    h = Err he →
    failed_row (Error he) (t + Compute (Attempts j + 1) x) t' j = Ok j' →
    settled h j j'
| settled_advanced stage t :
    h = Ok stage → stage ≠ EmptyString → settled h j (advance_row stage t j)
| settled_as_done t :
    h = Ok EmptyString → settled h j (done_row t j).

(** [err] wraps the post-claim marker, so the worker process exits. *)
Definition post_claim (e : result unit) : bool :=
  match e with Ok _ => false | Err e => errors_Is e errPostClaim end.

(** The claim's reply was lost in transit. *)
Definition lost_claim (orc : nat → outcome) (e : result unit) : Prop :=
  ∃ k msg, o_fault (orc k) = FailAfter msg ∧ e = Err (EWrap "claim" (EWrap "claim" (EText msg))).

(** What one call of ProcessOne of worker [w] that returned [e] can have done
    to the row [j] of the popped job; [h] is the handler. *)
Inductive row_outcome (orc : nat → outcome) (w : string) (h : Job → result string) (e : result unit) (j : Job)
  : Job → Prop :=
| row_untouched : row_outcome orc w h e j j
| row_settled t j' :
    Status j = StatusQueued → settled (h (claim_row w t j)) (claim_row w t j) j' →
    row_outcome orc w h e j j'
| row_held t :
    Status j = StatusQueued → post_claim e = true ∨ lost_claim orc e →
    row_outcome orc w h e j (claim_row w t j).

(** ** Lemmas *)

(** The calls of Push and Ack do not touch the tables. *)
Lemma run_Redis_only orc {X} (f : Z → rstate → result X * rstate) (g : result X → prog (result unit)) i s :
  (∀ r, ∃ r', g r = mret r') →
  ∃ r s', run orc (x ← call (Redis f); g x) i s = Some (r, S i, s') ∧ s_db s' = s_db s.
Proof.
  intros Hg. rewrite run_bind, run_call. pose proof (exec_Redis_db (orc i) f s) as Hd.
  destruct (exec (orc i) _ s) as [r s']. simpl in *. destruct (Hg r) as [r' ->].
  by exists r', s'.
Qed.

(** Push reports success only if the id is on the queue. *)
Lemma run_Push_cases orc st id i s :
  ∃ r s', run orc (Push st id) i s = Some (r, S i, s') ∧ s_db s' = s_db s ∧
    (s_redis s' = LPush (key st) id (s_redis s) ∨ (s_redis s' = s_redis s ∧ is_ok r = false)).
Proof.
  unfold Push. rewrite run_bind, run_call. unfold cli_LPush. cbn [exec fst snd].
  destruct (o_fault (orc i)) as [|msg|msg]; cbn [with_fault fst snd]; eexists _, _;
    (split; [done|]); simpl; auto.
Qed.

Lemma run_Ack_db orc st w id i s :
  ∃ r s', run orc (Ack st w id) i s = Some (r, S i, s') ∧ s_db s' = s_db s.
Proof. apply run_Redis_only. intros [u|e]; eauto. Qed.

Lemma run_BlockingPop_db orc st w tmo i s :
  ∃ r s', run orc (BlockingPop st w tmo) i s = Some (r, S i, s') ∧ s_db s' = s_db s.
Proof.
  unfold BlockingPop, cli_BLMove, cli_LMove. rewrite run_bind, run_call.
  match goal with |- context [exec _ (Redis ?f) s] =>
    pose proof (exec_Redis_db (orc i) f s) as Hd end.
  destruct (exec (orc i) _ s) as [r s']. simpl in *.
  destruct r as [x|e]; [|destruct (errors_Is e redisNil)]; eexists _, s'; done.
Qed.

(** An update settles the row or reports a post-claim error. *)
Definition settle_ok (jobID : uuid) (h : result string) (job : Job) (e : result unit)
    (s s' : shared) : Prop :=
  (s_db s' = s_db s ∧ post_claim e = true) ∨
  ∃ job', settled h job job' ∧
    s_db s' = with_jobs (<[jobID := job']> (pipeline_jobs (s_db s))) (s_db s).

(** Settling pushes the id on the next stage's queue, if there is a next
    stage; without an error it did so. *)
Definition settle_redis (jobID : uuid) (h : result string) (e : result unit) (s s' : shared)
    : Prop :=
  (s_redis s' = s_redis s ∧
     (is_ok e = true → ∀ stage, h = Ok stage → stage = EmptyString)) ∨
  (∃ stage, h = Ok stage ∧ stage ≠ EmptyString ∧
     s_redis s' = LPush (key stage) (uuid_String jobID) (s_redis s)).

(** Close the goals [settle_ok] leaves after the effect [Hu] of an update. *)
Ltac settle_cases Hu Hstep :=
  let Ho := fresh "Ho" in
  unfold settle_ok; destruct Hu as [[Ho Hu]|[Ho [Hu|Hu] ] ];
  first [simpl in Ho; discriminate Ho | right; exact (Hstep Hu)
        | left; split; [exact Hu|apply orb_true_r] ].

Section settle.
Context (orc : nat → outcome) (jobID : uuid) (job : Job) (s : shared).
Context (Hj : pipeline_jobs (s_db s) !! jobID = Some job).

Lemma run_settle_done i :
  ∃ e s', run orc (settle_done jobID) i s = Some (e, S i, s') ∧
    settle_ok jobID (Ok EmptyString) job e.2 s s' ∧
    settle_redis jobID (Ok EmptyString) e.2 s s'.
Proof.
  unfold settle_done. rewrite run_bind.
  destruct (run_MarkDone orc jobID i s) as (r & s' & -> & Hr & Hu).
  assert (Hstep : row_step jobID (λ t j, if true then Ok (done_row t j) else Err (EText EmptyString))
    (s_db s) (s_db s') → ∃ job', settled (Ok EmptyString) job job' ∧
    s_db s' = with_jobs (<[jobID := job']> (pipeline_jobs (s_db s))) (s_db s)).
  { intros (t & j & j' & Hj' & [= <-] & ->). simplify_eq. eexists. split; [|done].
    by apply settled_as_done. }
  destruct r as [u|e]; eexists _, s'; (split; [done|]);
    (split; [settle_cases Hu Hstep|left; naive_solver]).
Qed.

Lemma run_settle_failed he i :
  ∃ e i' s', run orc (settle_failed jobID job he) i s = Some (e, i', s') ∧
    settle_ok jobID (Err he) job e.2 s s' ∧ settle_redis jobID (Err he) e.2 s s'.
Proof.
  unfold settle_failed. rewrite run_bind, run_call. cbn [exec fst snd].
  rewrite run_bind, run_call. cbn [exec fst snd]. rewrite run_bind.
  set (next := _ + Compute _ _). set (s2 := elapse _ _).
  destruct (run_MarkFailed orc jobID (Error he) next (S (S i)) s2) as (r & s' & -> & Hr & Hu).
  change (s_db s2) with (s_db s) in Hu.
  assert (Hstep : row_step jobID
    (λ t j, if true then failed_row (Error he) next t j else Err (EText EmptyString))
    (s_db s) (s_db s') → ∃ job', settled (Err he) job job' ∧
    s_db s' = with_jobs (<[jobID := job']> (pipeline_jobs (s_db s))) (s_db s)).
  { intros (t & j & j' & Hj' & Hf & ->). simplify_eq. exists j'. split; [|done].
    by eapply settled_failed. }
  destruct r as [u|e]; eexists _, _, s'; (split; [done|]);
    (split; [settle_cases Hu Hstep|left; by rewrite Hr]).
Qed.

Lemma run_settle_advance stage i :
  stage ≠ EmptyString →
  ∃ e i' s', run orc (settle_advance jobID stage) i s = Some (e, i', s') ∧
    settle_ok jobID (Ok stage) job e.2 s s' ∧ settle_redis jobID (Ok stage) e.2 s s'.
Proof.
  intros Hne. unfold settle_advance. rewrite run_bind.
  destruct (run_AdvanceJob orc jobID stage i s) as (r & s1 & -> & Hr & Hu).
  assert (Hstep : row_step jobID
    (λ t j, if is_status StatusRunning j then Ok (advance_row stage t j) else Err (EText EmptyString))
    (s_db s) (s_db s1) → ∃ job', settled (Ok stage) job job' ∧
    s_db s1 = with_jobs (<[jobID := job']> (pipeline_jobs (s_db s))) (s_db s)).
  { intros (t & j & j' & Hj' & Hf & ->). simplify_eq.
    destruct (is_status _ _); [|done]. injection Hf as <-. eexists. split; [|done].
    by apply settled_advanced. }
  destruct r as [u|e].
  - rewrite run_bind. destruct (run_Push_cases orc stage (uuid_String jobID) (S i) s1)
      as (p & s' & -> & Hd & Hp).
    rewrite Hr in Hp. destruct p as [u'|e]; eexists _, _, s'; (split; [done|]).
    all: split; [unfold settle_ok; rewrite Hd; settle_cases Hu Hstep|].
    all: destruct Hp as [Hp|[Hp Ho] ]; [right; by exists stage|left; by rewrite Hp].
  - eexists _, _, s1. split; [done|]. split; [settle_cases Hu Hstep|].
    left. by rewrite Hr.
Qed.
End settle.

Lemma run_process_job orc jobID job i s :
  pipeline_jobs (s_db s) !! jobID = Some job →
  ∃ e i' s', run orc (process_job jobID job) i s = Some (e, i', s') ∧
    settle_ok jobID (o_handler (orc i) job) job e.2 s s' ∧
    settle_redis jobID (o_handler (orc i) job) e.2 s s'.
Proof.
  intros Hj. unfold process_job. rewrite run_bind, run_call. cbn [exec fst snd].
  destruct (o_handler (orc i) job) as [stage|he].
  - case_decide as Hs.
    + subst. destruct (run_settle_done orc jobID job (elapse (orc i) s) Hj (S i)) as (e & s' & H).
      by exists e, (S (S i)), s'.
    + by apply (run_settle_advance orc jobID job (elapse (orc i) s) Hj).
  - by apply (run_settle_failed orc jobID job (elapse (orc i) s) Hj).
Qed.

(** What a turn of the worker can do to the tables. *)
Definition turn_ok (w : string) (orc : nat → outcome) (e : result unit) (db db' : DB) : Prop :=
  db' = db ∨ ∃ id j j' k, pipeline_jobs db !! id = Some j ∧
    row_outcome orc w (o_handler (orc k)) e j j' ∧
    db' = with_jobs (<[id := j']> (pipeline_jobs db)) db.

Lemma run_process_popped orc cfg raw i s :
  ∃ e i' s', run orc (process_popped cfg raw) i s = Some (e, i', s') ∧
    turn_ok (c_WorkerID cfg) orc e.2 (s_db s) (s_db s').
Proof.
  unfold process_popped. destruct (uuid_Parse raw) as [id|pe].
  2: { eexists _, i, s. split; [done|]. by left. }
  rewrite run_bind. destruct (run_ClaimJob orc id (c_WorkerID cfg) i s)
    as (r & s1 & -> & _ & [[-> Hc]|[[-> Hd]|(ce & -> & Hd)] ]).
  - destruct Hc as (t & j & j' & Hj & Hf & Hdb).
    destruct (is_status StatusQueued j) eqn:Hq; [|done]. apply is_status_true in Hq.
    injection Hf as <-. set (jc := claim_row _ t j) in *.
    assert (Hjc : pipeline_jobs (s_db s1) !! id = Some jc)
      by (rewrite Hdb; simpl; by rewrite lookup_insert_eq).
    rewrite run_bind. destruct (run_GetJob orc id (S i) s1) as (g & s2 & -> & _ & Hd2 & Hg).
    destruct (Hg jc Hjc) as [->|[msg ->] ].
    + rewrite <- Hd2 in Hjc.
      destruct (run_process_job orc id jc (S (S i)) s2 Hjc) as (e & i' & s' & -> & Hs & _).
      exists e, i', s'. split; [done|]. right. unfold settle_ok in Hs. rewrite Hd2, Hdb in Hs.
      destruct Hs as [[Hs He]|(j' & Hset & Hs)].
      * exists id, j, jc, 0%nat. split_and!; [done| |done]. apply row_held; auto.
      * exists id, j, j', (S (S i)). split_and!; [done|by eapply row_settled|].
        rewrite Hs. simpl. by rewrite insert_insert_eq.
    + eexists _, _, s2. split; [done|]. right. exists id, j, jc, 0%nat.
      split_and!; [done| |congruence]. apply row_held; [done|]. left. apply orb_true_r.
  - eexists _, _, s1. split; [done|]. by left.
  - assert (Hrun : ∃ e i', run orc (if errors_Is (EWrap "claim" ce) ErrJobNotClaimable
        then mret (true, Ok ()) else mret (true, Err (EWrap "claim" (EWrap "claim" ce)))) (S i) s1
      = Some (e, i', s1) ∧ (∀ msg, ce = EText msg → o_fault (orc i) = FailAfter msg → lost_claim orc e.2)).
    { destruct (errors_Is _ _) eqn:E; eexists _, _; (split; [done|]); intros msg -> Hft; [done|by exists i, msg]. }
    destruct Hrun as (e & i' & Hrun & Hl). rewrite Hrun. exists e, i', s1. split; [done|].
    destruct Hd as [Hd|(Hstep & msg & He & Hft)]; [by left|right].
    destruct Hstep as (t & j & j' & Hj & Hf & Hdb).
    destruct (is_status StatusQueued j) eqn:Hq; [|done]. apply is_status_true in Hq.
    injection Hf as <-. exists id, j, (claim_row (c_WorkerID cfg) t j), 0%nat.
    split_and!; [done| |done]. apply row_held; eauto.
Qed.

(** One turn always returns, whatever fails. *)
Lemma run_ProcessOne orc cfg i s :
  ∃ b e i' s', run orc (ProcessOne cfg) i s = Some ((b, e), i', s') ∧
    turn_ok (c_WorkerID cfg) orc e (s_db s) (s_db s').
Proof.
  unfold ProcessOne. rewrite run_bind.
  destruct (run_BlockingPop_db orc (c_Stage cfg) (c_WorkerID cfg) (PopTimeout cfg) i s)
    as (r & s1 & -> & Hd1).
  destruct r as [raw|pe].
  - rewrite run_bind.
    destruct (run_process_popped orc cfg raw (S i) s1) as ([b e] & i2 & s2 & -> & Ht).
    rewrite run_bind. destruct (run_Ack_db orc (c_Stage cfg) (c_WorkerID cfg) raw i2 s2)
      as (a & s3 & -> & Hd3).
    exists b, e, (S i2), s3. split; [done|]. by rewrite Hd3, <- Hd1.
  - destruct (errors_Is pe ErrEmpty); eexists _, _, _, s1; (split; [done|]); by left.
Qed.

(** ** One turn when nothing fails *)

Section reliable.
Context (orc : nat → outcome) (Hrel : reliable orc).

Lemma run_process_job_ok id job i s :
  db_ok (s_db s) → pipeline_jobs (s_db s) !! id = Some job → Status job = StatusRunning →
  ∃ i' s' j', run orc (process_job id job) i s = Some ((true, Ok tt), i', s') ∧
    settled (o_handler (orc i) job) job j' ∧
    s_db s' = with_jobs (<[id := j']> (pipeline_jobs (s_db s))) (s_db s) ∧
    s_redis s' =
      match o_handler (orc i) job with
      | Ok stage =>
          if decide (stage = EmptyString) then s_redis s
          else LPush (key stage) (uuid_String id) (s_redis s)
      | Err _ => s_redis s
      end.
Proof.
  intros Hok Hj Hr. unfold process_job. rewrite run_bind, run_call. cbn [exec fst snd].
  destruct (o_handler (orc i) job) as [stage|he]; [case_decide as Hs|].
  - subst. unfold settle_done. rewrite run_bind.
    destruct (run_MarkDone_ok orc Hrel id (S i) (elapse (orc i) s) job) as (t & _ & ->); [done..|].
    eexists _, _, _. split; [done|]. split; [by apply settled_as_done|done].
  - unfold settle_advance. rewrite run_bind.
    destruct (run_AdvanceJob_ok orc Hrel id stage (S i) (elapse (orc i) s) job) as (t & _ & ->);
      [done..|].
    rewrite run_bind. unfold Push. rewrite run_bind, run_call. unfold cli_LPush.
    rewrite exec_Redis by apply Hrel. eexists _, _, _. split; [done|].
    split; [by apply settled_advanced|done].
  - unfold settle_failed. rewrite run_bind, run_call. cbn [exec fst snd].
    rewrite run_bind, run_call. cbn [exec fst snd]. rewrite run_bind.
    set (next := _ + Compute _ _). set (s2 := elapse _ _).
    destruct (run_MarkFailed_ok orc Hrel id (Error he) next (S (S (S i))) s2 job)
      as (t & j' & _ & Hf & ->); [done|done|by rewrite Hr|].
    eexists _, _, _. split; [done|]. split; [by eapply settled_failed|done].
Qed.

Lemma run_process_popped_ok cfg raw id j i s :
  db_ok (s_db s) → uuid_Parse raw = Ok id →
  pipeline_jobs (s_db s) !! id = Some j → Status j = StatusQueued →
  ∃ t i' s' j', let jc := claim_row (c_WorkerID cfg) t j in
    let h := o_handler (orc (i + 2)%nat) jc in
    run orc (process_popped cfg raw) i s = Some ((true, Ok tt), i', s') ∧
    settled h jc j' ∧
    s_db s' = with_jobs (<[id := j']> (pipeline_jobs (s_db s))) (s_db s) ∧
    s_redis s' =
      match h with
      | Ok stage =>
          if decide (stage = EmptyString) then s_redis s
          else LPush (key stage) (uuid_String id) (s_redis s)
      | Err _ => s_redis s
      end.
Proof.
  intros Hok Hp Hj Hq. unfold process_popped. rewrite Hp, run_bind.
  destruct (run_ClaimJob_ok orc Hrel id (c_WorkerID cfg) i s j) as (t & _ & ->); [done..|].
  set (jc := claim_row _ t j). set (s1 := mk_shared _ _ _ _).
  assert (Hjc : pipeline_jobs (s_db s1) !! id = Some jc) by (simpl; by rewrite lookup_insert_eq).
  rewrite run_bind. destruct (run_GetJob_ok orc Hrel id (S i) s1 jc Hjc) as (t2 & _ & ->).
  set (s2 := mk_shared _ _ _ _).
  destruct (run_process_job_ok id jc (S (S i)) s2) as (i' & s' & j' & Hrun & Hset & Hdb & Hred);
    [|done|done|].
  { simpl. apply db_ok_put; [done| |].
    - apply job_ok_claim; [by apply (ok_jobs _ Hok)|done].
    - eapply live_key_free_keep; [done..|]. right. by apply live_key_claim. }
  exists t, i', s', j'. cbv zeta. replace (i + 2)%nat with (S (S i)) by lia.
  split; [done|]. split; [done|]. split; [|done].
  rewrite Hdb. simpl. by rewrite insert_insert_eq.
Qed.

End reliable.

(** ** The loop *)

(** Turns one after the other, with their results and the questions for a
    signal around them, none of which finds one; what the loop does with a
    result does not matter here. *)
Inductive turns (orc : nat → outcome) (cfg : Config) : list (result unit) → nat → shared → nat → shared → Prop :=
| turns_nil i s : turns orc cfg [] i s i s
| turns_ok es i s b i1 s1 i' s' :
    o_ctx (orc i) = false →
    run orc (ProcessOne cfg) (S i) (elapse (orc i) s) = Some ((b, Ok tt), i1, s1) →
    turns orc cfg es i1 s1 i' s' → turns orc cfg (Ok tt :: es) i s i' s'
| turns_err es i s b e i1 s1 i' s' :
    o_ctx (orc i) = false →
    run orc (ProcessOne cfg) (S i) (elapse (orc i) s) = Some ((b, Err e), i1, s1) →
    o_ctx (orc i1) = false →
    turns orc cfg es (S i1) (elapse (orc i1) s1) i' s' → turns orc cfg (Err e :: es) i s i' s'.

(** The loop goes on, unless there was an error behind a claim. *)
Lemma run_loop_turns orc cfg es i s i' s' fuel :
  turns orc cfg es i s i' s' → Forall (λ e, post_claim e = false) es →
  run orc (run_loop (length es + fuel) cfg) i s = run orc (run_loop fuel cfg) i' s'.
Proof.
  induction 1 as [i s|es i s b i1 s1 i' s' Hc Hrun _ IH|es i s b e i1 s1 i' s' Hc Hrun Hc1 _ IH];
    [done|intros [_ Hes]%Forall_cons|intros [He Hes]%Forall_cons]; cbn [run_loop Nat.add length]; rewrite run_bind, run_call; cbn [exec fst snd];
    rewrite Hc, run_bind, Hrun; [by apply IH|].
  rewrite run_bind, run_call. cbn [exec fst snd]. cbn [post_claim] in He. rewrite Hc1, He. by apply IH.
Qed.

Lemma run_loop_stops orc cfg e i s i' s' fuel :
  turns orc cfg [e] i s i' s' → post_claim e = true → run orc (run_loop (S fuel) cfg) i s = Some (e, i', s').
Proof.
  intros Ht He. inversion Ht as [|es i0 s0 b i1 s1 i2 s2 Hc Hrun Hn|es i0 s0 b e0 i1 s1 i2 s2 Hc Hrun Hc1 Hn]; subst; [done|].
  inversion Hn; subst. cbn [run_loop]. rewrite run_bind, run_call. cbn [exec fst snd]. rewrite Hc, run_bind, Hrun.
  rewrite run_bind, run_call. cbn [exec fst snd]. cbn [post_claim] in He. by rewrite Hc1, He.
Qed.

(** Some row is running under [w]'s name. *)
Definition holds (w : string) (db : DB) : Prop :=
  ∃ id j, pipeline_jobs db !! id = Some j ∧ Status j = StatusRunning ∧ WorkerID j = Some w.

Lemma settled_not_running h j j' : settled h j j' → Status j' ≠ StatusRunning.
Proof.
  destruct 1 as [he t x t' j' _ Hf| |]; simpl; try done.
  unfold failed_row in Hf. destruct (_ >? _); [done|]. injection Hf as <-. simpl.
  by destruct (_ >=? _).
Qed.

Lemma turn_holds w orc e db db' :
  turn_ok w orc e db db' → holds w db' → holds w db ∨ post_claim e = true ∨ lost_claim orc e.
Proof.
  intros [->|(id & j & j' & k & Hj & Hrow & ->)] (id0 & j0 & Hj0 & Hs0 & Hw0); [left; by exists id0, j0|].
  simpl in Hj0. apply lookup_insert_Some in Hj0 as [[<- <-]|[Hne Hj0] ]; [|left; by exists id0, j0].
  destruct Hrow as [|t j' Hq Hset|t Hq He]; [left; by exists id, j| |by right].
  by apply settled_not_running in Hset.
Qed.

(** No call fails after it took effect. *)
Definition replies_kept (orc : nat → outcome) : Prop := ∀ i msg, o_fault (orc i) ≠ FailAfter msg.

(** ** Backoff and identifiers *)

Lemma Compute_range attempts x :
  3 * (Z.min (2 ^ Z.max 1 attempts) 600 * 1000000000) ≤ 4 * Compute attempts x <
  5 * (Z.min (2 ^ Z.max 1 attempts) 600 * 1000000000).
Proof.
  unfold Compute. replace (if attempts <? 1 then 1 else attempts) with (Z.max 1 attempts)
    by (destruct (attempts <? 1) eqn:E; lia).
  set (p := 2 ^ Z.max 1 attempts).
  replace (if p >? 600 then 600 else p) with (Z.min p 600) by (destruct (p >? 600) eqn:E; lia).
  assert (Hp : 2 ≤ p) by (change 2 with (2 ^ 1) at 1; apply Z.pow_le_mono_r; lia).
  set (b := Z.min p 600). assert (Hb : 2 ≤ b ≤ 600) by (unfold b; lia).
  assert (Hr : 0 ≤ rand_num x < 2 ^ 53) by (apply Z.mod_pos_bound; lia).
  set (r := rand_num x) in *. set (d := b * 1000000000 * (3 * 2 ^ 52 + r) / 2 ^ 54).
  pose proof (Z.mul_div_le (b * 1000000000 * (3 * 2 ^ 52 + r)) (2 ^ 54)) as H1.
  pose proof (Z.mul_succ_div_gt (b * 1000000000 * (3 * 2 ^ 52 + r)) (2 ^ 54)) as H2.
  fold d in H1, H2. nia.
Qed.

Lemma Compute_nominal attempts b x :
  Z.min (2 ^ Z.max 1 attempts) 600 = b →
  3 * (b * 1000000000) ≤ 4 * Compute attempts x < 5 * (b * 1000000000).
Proof. intros <-. apply Compute_range. Qed.

Lemma Cut_NewWorkerID host b :
  ∃ h, Cut "-"%char (NewWorkerID host b) = Some (h, hex_EncodeToString b).
Proof.
  eexists. unfold NewWorkerID. change ("-" +:+ hex_EncodeToString b)
    with (String "-" (hex_EncodeToString b)).
  apply Cut_app, replace_byte_gone.
Qed.

(** A row after a sequence of failures: message, next run, time of each. *)
Fixpoint fail_row_times (fs : list (string * Z * Z)) (j : Job) : result Job :=
  match fs with
  | [] => Ok j
  | (msg, next, t) :: fs =>
      match failed_row msg next t j with
      | Err e => Err e
      | Ok j => fail_row_times fs j
      end
  end.

(** ** Properties *)

(** C12. Whatever fails and whenever, one turn of the worker returns, and the
    tables differ from before in at most the popped job's row, which is
    untouched, or settled as the handler's result says (done, advanced to the
    next stage, or failed with one more attempt), or left running under this
    worker's name, the last only together with an error that is the
    post-claim marker or the loss of the claim's own reply. *)
Theorem ProcessOne_outcome orc cfg i s :
  ∃ b e i' s', run orc (ProcessOne cfg) i s = Some ((b, e), i', s') ∧
    (s_db s' = s_db s ∨ ∃ id j j' k,
       pipeline_jobs (s_db s) !! id = Some j ∧
       row_outcome orc (c_WorkerID cfg) (o_handler (orc k)) e j j' ∧
       s_db s' = with_jobs (<[id := j']> (pipeline_jobs (s_db s))) (s_db s)).
Proof. apply run_ProcessOne. Qed.

(** C21. When nothing fails and the oldest id on the stage's queue names a
    queued job, a turn settles that job as its handler's result says, takes
    the id off the queue, leaves the worker's processing list as it was, and
    puts the id on the next stage's queue exactly if the handler named one. *)
Theorem ProcessOne_reliable orc cfg i s l raw id j :
  reliable orc → db_ok (s_db s) → stage_ok (c_Stage cfg) →
  rlist (s_redis s) (key (c_Stage cfg)) = l ++ [raw] →
  uuid_Parse raw = Ok id → pipeline_jobs (s_db s) !! id = Some j → Status j = StatusQueued →
  ∃ t i' s' j', let jc := claim_row (c_WorkerID cfg) t j in
    let h := o_handler (orc (i + 3)%nat) jc in
    run orc (ProcessOne cfg) i s = Some ((true, Ok tt), i', s') ∧
    settled h jc j' ∧
    s_db s' = with_jobs (<[id := j']> (pipeline_jobs (s_db s))) (s_db s) ∧
    rlist (s_redis s') (processingKey (c_Stage cfg) (c_WorkerID cfg)) =
      rlist (s_redis s) (processingKey (c_Stage cfg) (c_WorkerID cfg)) ∧
    ∀ st, rlist (s_redis s') (key st) =
      (if bool_decide (h = Ok st ∧ st ≠ EmptyString) then [uuid_String id] else []) ++
      (if decide (st = c_Stage cfg) then l else rlist (s_redis s) (key st)).
Proof.
  intros Hrel Hok Hst Hq Hp Hj Hs. unfold ProcessOne. rewrite run_bind.
  destruct (run_BlockingPop orc Hrel (c_Stage cfg) (c_WorkerID cfg) (PopTimeout cfg) i s)
    as (s1 & Hsame & Hr).
  rewrite Hq, unsnoc_app in Hr. destruct Hr as (-> & Hk & Hpr).
  rewrite run_bind. pose proof Hsame as (Hd & _ & Hl & _).
  destruct (run_process_popped_ok orc Hrel cfg raw id j (S i) s1) as (t & i' & s' & j' & Hrun);
    [by rewrite Hd|done|by rewrite Hd|done|].
  cbv zeta in Hrun. destruct Hrun as (-> & Hset & Hdb & Hred).
  rewrite run_bind. destruct (run_Ack orc Hrel (c_Stage cfg) (c_WorkerID cfg) raw i' s')
    as (s2 & -> & (Hd2 & _ & Hl2 & _) & Hack).
  exists t, (S i'), s2, j'. cbv zeta. replace (i + 3)%nat with (S i + 2)%nat by lia.
  set (h := o_handler _ _) in *. split_and!; [done|done|by rewrite Hd2, Hdb, Hd| |].
  - rewrite Hack, Hred. destruct h as [stage|he]; [case_decide as He|];
      rewrite ?rlist_LPush, ?(decide_False _ _ (P := _ = key _)) by eauto using key_list;
      rewrite Hpr; simpl; by rewrite decide_True.
  - intros st. rewrite Hl2 by (rewrite not_elem_of_cons; split; [apply key_processingKey|apply not_elem_of_nil]).
    rewrite Hred.
    assert (Hbase : rlist (s_redis s1) (key st) =
      if decide (st = c_Stage cfg) then l else rlist (s_redis s) (key st)).
    { case_decide as Hc; [by subst|]. by rewrite Hl by auto using key_notin. }
    rewrite <- Hbase. clear Hbase. destruct h as [stage|he]; [destruct (decide (stage = EmptyString)) as [He|He]|].
    + rewrite bool_decide_eq_false_2; [done|]. intros [ [= <-] ?]. done.
    + rewrite rlist_LPush by apply key_list. case_decide as Hkk.
      * apply key_inj in Hkk as ->. rewrite bool_decide_eq_true_2 by done. done.
      * rewrite bool_decide_eq_false_2; [done|]. intros [ [= ->] ?]. done.
    + rewrite bool_decide_eq_false_2; [done|]. by intros [? _].
Qed.

(** C22. The worker is fail-stop.  Take any turns of a worker that held no
    running job before, one after the other and whatever fails in them, except
    that no reply is lost after its call took effect, and let no signal come.
    As long as none of them ends with an error behind a claim, the worker holds
    no running job, and its loop goes on to the next turn.  The first turn that
    ends with such an error, and only such a turn can leave a job running, ends
    the loop, which returns the error. *)
Theorem run_loop_fail_stop orc cfg es i s i' s' :
  replies_kept orc → ¬ holds (c_WorkerID cfg) (s_db s) →
  turns orc cfg es i s i' s' → Forall (λ e, post_claim e = false) es →
  ¬ holds (c_WorkerID cfg) (s_db s') ∧
  (∀ fuel, run orc (run_loop (length es + fuel) cfg) i s = run orc (run_loop fuel cfg) i' s') ∧
  ∀ e i2 s2, turns orc cfg [e] i' s' i2 s2 →
    (holds (c_WorkerID cfg) (s_db s2) → post_claim e = true) ∧
    (post_claim e = true → ∀ fuel, run orc (run_loop (length es + S fuel) cfg) i s = Some (e, i2, s2)).
Proof.
  intros Hkept Hno Ht Hes.
  assert (Hstep : ∀ i s b e i1 s1, run orc (ProcessOne cfg) (S i) (elapse (orc i) s) = Some ((b, e), i1, s1) →
    post_claim e = false → ¬ holds (c_WorkerID cfg) (s_db s) → ¬ holds (c_WorkerID cfg) (s_db s1)).
  { intros i0 s0 b e i1 s1 Hrun He Hno0 Hh.
    destruct (run_ProcessOne orc cfg (S i0) (elapse (orc i0) s0)) as (b' & e' & i2 & s2 & Hrun' & Hok).
    rewrite Hrun in Hrun'. simplify_eq.
    destruct (turn_holds _ _ _ _ _ Hok Hh) as [?|[?|(k & msg & Hf & _)] ]; [done|congruence|].
    by apply Hkept in Hf. }
  assert (Hgen : ∀ es i s i' s', turns orc cfg es i s i' s' → Forall (λ e, post_claim e = false) es →
    ¬ holds (c_WorkerID cfg) (s_db s) → ¬ holds (c_WorkerID cfg) (s_db s')).
  { clear -Hstep. intros es i s i' s' Ht.
    induction Ht as [i s|es i s b i1 s1 i' s' Hc Hrun _ IH|es i s b e i1 s1 i' s' Hc Hrun Hc1 _ IH];
      [done|intros [He Hes]%Forall_cons Hno; apply IH; [done|]|intros [He Hes]%Forall_cons Hno; apply IH; [done|simpl] ];
      by eapply Hstep. }
  split; [by eapply Hgen|]. split; [intros fuel; by apply run_loop_turns|]. intros e i2 s2 Hlast. split.
  - intros Hh. destruct (post_claim e) eqn:He; [done|]. exfalso.
    eapply (Hgen [e]); [exact Hlast|by constructor|by eapply Hgen|exact Hh].
  - intros He fuel. rewrite (run_loop_turns _ _ _ _ _ _ _ _ Ht Hes). by apply run_loop_stops.
Qed.

(** One lost reply breaks that: if the claim takes effect but its reply
    is lost, ProcessOne reports an ordinary error (the loop goes on), has
    acknowledged the id, and the job stays running under a worker that is
    alive and has forgotten it. *)
Theorem lost_claim_strands orc cfg i s l raw id j msg :
  o_fault (orc i) = NoFault → o_fault (orc (S i)) = FailAfter msg →
  o_fault (orc (S (S i))) = NoFault → db_ok (s_db s) →
  rlist (s_redis s) (key (c_Stage cfg)) = l ++ [raw] →
  uuid_Parse raw = Ok id → pipeline_jobs (s_db s) !! id = Some j → Status j = StatusQueued →
  ∃ e s' t, run orc (ProcessOne cfg) i s = Some ((true, Err e), (i + 3)%nat, s') ∧
    errors_Is e errPostClaim = false ∧
    pipeline_jobs (s_db s') !! id = Some (claim_row (c_WorkerID cfg) t j) ∧
    rlist (s_redis s') (key (c_Stage cfg)) = l ∧
    rlist (s_redis s') (processingKey (c_Stage cfg) (c_WorkerID cfg)) =
      rlist (s_redis s) (processingKey (c_Stage cfg) (c_WorkerID cfg)).
Proof.
  intros Hf0 Hf1 Hf2 Hok Hq Hp Hj Hs. set (st := c_Stage cfg). set (w := c_WorkerID cfg).
  destruct (run_one orc (BlockingPop st w (PopTimeout cfg)) i s (λ a s', a = Ok raw ∧ s_db s' = s_db s ∧
    rlist (s_redis s') (key st) = l ∧
    rlist (s_redis s') (processingKey st w) = raw :: rlist (s_redis s) (processingKey st w)))
    as (a & s1 & Hrun1 & -> & Hd1 & Hk1 & Hp1); [done| |].
  { intros orc' Hrel. destruct (run_BlockingPop orc' Hrel st w (PopTimeout cfg) i s) as (s1 & (Hd & _) & Hr).
    unfold st in *. rewrite Hq, unsnoc_app in Hr. destruct Hr as (Hrun & ? & ?). by exists (Ok raw), s1. }
  unfold ProcessOne. fold st w. rewrite run_bind, Hrun1, run_bind.
  unfold process_popped, ClaimJob. rewrite Hp, run_bind, run_bind, run_call. cbn [exec with_fault]. rewrite Hf1.
  set (t := s_now _). unfold sql_claim.
  rewrite (sql_update_keep _ _ _ _ j (claim_row w t j)); cbn [fst snd elapse set_now s_db]; rewrite ?Hd1; try done;
    [|by apply is_status_true|right; by apply live_key_claim].
  cbn [with_fault fst snd query_row]. change (errors_Is (EText msg) pgxErrNoRows) with false. cbn iota. rewrite run_ret.
  change (errors_Is (EWrap "claim" (EText msg)) ErrJobNotClaimable) with false. cbn iota. rewrite run_ret, run_bind.
  set (s2 := set_db _ _).
  destruct (run_one orc (Ack st w raw) (S (S i)) s2 (λ a s', s_db s' = s_db s2 ∧
    rlist (s_redis s') (key st) = l ∧
    rlist (s_redis s') (processingKey st w) = rlist (s_redis s) (processingKey st w)))
    as (a & s3 & -> & Hd3 & Hk3 & Hp3); [done| |].
  { intros orc' Hrel. destruct (run_Ack orc' Hrel st w raw (S (S i)) s2) as (s3 & Hrun & (Hd & _ & Hl & _) & Ha).
    eexists _, s3. split; [exact Hrun|]. split; [done|]. rewrite Hl, Ha; simpl.
    - by rewrite Hk1, Hp1; simpl; rewrite decide_True.
    - rewrite not_elem_of_cons. split; [apply key_processingKey|apply not_elem_of_nil]. }
  replace (i + 3)%nat with (S (S (S i))) by lia. eexists _, s3, t. split; [done|].
  split_and!; [done| |done|done]. rewrite Hd3. simpl. by rewrite lookup_insert_eq.
Qed.

(** The retry delay: at least three quarters and less than five quarters
    of min(2^attempts, 600) seconds, with no overflow of the nanosecond
    counter. *)
Theorem Compute_bounds attempts x :
  let base := Z.min (2 ^ Z.max 1 attempts) 600 * 1000000000 in
  3 * base ≤ 4 * Compute attempts x < 5 * base ∧ Compute attempts x < 2 ^ 63.
Proof.
  cbv zeta. pose proof (Compute_range attempts x). lia.
Qed.
(** C27. Retries are bounded: a job that may still run and has [r] attempts
    left survives [r] - 1 failures, counting each, and is dead exactly after
    the [r]-th; the counter never reaches the column's maximum. *)
Theorem retries_bounded db id j fs :
  job_ok db id j → terminal (Status j) = false →
  Z.of_nat (length fs) ≤ MaxAttempts j - Attempts j → fs ≠ [] →
  ∃ j', fail_row_times fs j = Ok j' ∧ Attempts j' = Attempts j + Z.of_nat (length fs) ∧
    Attempts j' ≤ int4_max ∧
    Status j' = if decide (Z.of_nat (length fs) = MaxAttempts j - Attempts j)
                then StatusDead else StatusQueued.
Proof.
  intros Hok. pose proof (ok_max _ _ _ Hok) as Hmax.
  assert (Hgen : Attempts j < MaxAttempts j → Z.of_nat (length fs) ≤ MaxAttempts j - Attempts j → fs ≠ [] →
    ∃ j', fail_row_times fs j = Ok j' ∧ Attempts j' = Attempts j + Z.of_nat (length fs) ∧
      Attempts j' ≤ int4_max ∧ Status j' = if decide (Z.of_nat (length fs) = MaxAttempts j - Attempts j)
        then StatusDead else StatusQueued).
  { clear Hok. revert j Hmax. induction fs as [|[ [msg next] t] fs IH]; intros j Hmax Ha Hle Hne; [done|].
    cbn [fail_row_times length] in *. unfold failed_row at 1.
    replace (Attempts j + 1 >? int4_max) with false by lia. set (j1 := mk_Job _ _ _ _ _ _ _ _ _ _ _ _ _ _ _ _).
    destruct fs as [|f fs].
    - exists j1. simpl. split_and!; [done|lia|lia|]. destruct (_ >=? _) eqn:E; case_decide; done || lia.
    - destruct (IH j1) as (j' & Hrun & Hat & Hmx & Hst); simpl in *; [lia..|done|].
      exists j'. split_and!; [done|lia|done|]. rewrite Hst. repeat case_decide; done || lia. }
  intros Ht. apply Hgen. by apply (ok_attempts _ _ _ Hok).
Qed.

(** With the default of eight attempts the seven retry delays of a job
    that keeps failing add up to between 190.5 and 317.5 seconds, 254 seconds
    without jitter. *)
Theorem retry_window xs :
  length xs = 7%nat →
  let total := foldr Z.add 0 (imap (λ k x, Compute (Z.of_nat k + 1) x) xs) in
  190500000000 ≤ total < 317500000000.
Proof.
  intros Hl. destruct xs as [|x1 [|x2 [|x3 [|x4 [|x5 [|x6 [|x7 [|] ] ] ] ] ] ] ]; try done.
  cbv zeta. cbn [imap foldr].
  pose proof (Compute_nominal 1 2 x1 eq_refl). pose proof (Compute_nominal 2 4 x2 eq_refl).
  pose proof (Compute_nominal 3 8 x3 eq_refl). pose proof (Compute_nominal 4 16 x4 eq_refl).
  pose proof (Compute_nominal 5 32 x5 eq_refl). pose proof (Compute_nominal 6 64 x6 eq_refl).
  pose proof (Compute_nominal 7 128 x7 eq_refl).
  unfold compose. change (Z.of_nat 0 + 1) with 1. change (Z.of_nat 1 + 1) with 2.
  change (Z.of_nat 2 + 1) with 3. change (Z.of_nat 3 + 1) with 4. change (Z.of_nat 4 + 1) with 5.
  change (Z.of_nat 5 + 1) with 6. change (Z.of_nat 6 + 1) with 7. lia.
Qed.

(** A worker identifier is the dash-free host name, one dash, and the
    random bytes in hexadecimal, so two workers whose random bytes differ
    never share an identifier, whatever their hosts are called. *)
Theorem NewWorkerID_unique host1 host2 b1 b2 :
  NewWorkerID host1 b1 = NewWorkerID host2 b2 →
  b1 = b2 ∧ (∃ h, Cut "-"%char (NewWorkerID host1 b1) = Some (h, hex_EncodeToString b1)).
Proof.
  intros H. pose proof (Cut_NewWorkerID host1 b1) as [h1 H1].
  pose proof (Cut_NewWorkerID host2 b2) as [h2 H2]. split; [|by exists h1].
  rewrite H, H2 in H1. injection H1 as _ H1. symmetry. by apply hex_inj.
Qed.

End worker.

(** ** Witnesses *)
Import SchemaModel RedisModel DriveModel EffectsModel.

Definition test_cfg : Config := mk_Config "test" "w1" 1000 15000 5000.

(** One queued job, its id on the queue. *)
Definition one_pushed : shared :=
  mk_shared one_job (mk_server {[ "queue:test" := ["ua"] ]} ∅) no_ext 0.

Lemma one_job_lookup id j : pipeline_jobs one_job !! id = Some j → id = "a" ∧ j = queued_job "a".
Proof.
  change (pipeline_jobs one_job) with ({[ "a" := queued_job "a" ]} : gmap string Job).
  rewrite lookup_singleton_Some. by intros [<- <-].
Qed.

Lemma one_job_ok : db_ok one_job.
Proof.
  constructor.
  - intros id j [-> ->]%one_job_lookup. constructor; done || (intros; vm_compute; done).
  - intros id1 id2 j1 j2 [-> _]%one_job_lookup [-> _]%one_job_lookup. done.
Qed.

Lemma ProcessOne_reliable_witness :
  let h := λ _ : Job, Ok "next" in
  ∃ t i' s' j', let jc := claim_row "w1" t (queued_job "a") in
    run (calm h) (ProcessOne test_cfg) 0 one_pushed = Some ((true, Ok tt), i', s') ∧
    settled (Ok "next") jc j' ∧
    s_db s' = with_jobs (<["a" := j']> (pipeline_jobs one_job)) one_job ∧
    rlist (s_redis s') (processingKey "test" "w1") = [] ∧
    ∀ st, rlist (s_redis s') (key st) =
      (if bool_decide (Ok (A:=string) "next" = Ok st ∧ st ≠ EmptyString) then ["ua"] else []) ++
      (if decide (st = "test") then [] else rlist (s_redis one_pushed) (key st)).
Proof.
  cbv zeta. refine (ProcessOne_reliable (calm (λ _, Ok "next")) test_cfg 0 one_pushed [] "ua" "a"
    (queued_job "a") _ _ _ _ _ _ _); try reflexivity.
  - apply calm_reliable.
  - apply one_job_ok.
Defined.

Lemma lost_claim_strands_witness :
  let orc := calm_but 1 (FailAfter "connection reset") (λ _, Ok EmptyString) in
  ∃ e s' t, run orc (ProcessOne test_cfg) 0 one_pushed = Some ((true, Err e), 3%nat, s') ∧
    errors_Is e errPostClaim = false ∧
    pipeline_jobs (s_db s') !! "a" = Some (claim_row "w1" t (queued_job "a")) ∧
    rlist (s_redis s') (key "test") = [] ∧
    rlist (s_redis s') (processingKey "test" "w1") =
      rlist (s_redis one_pushed) (processingKey "test" "w1").
Proof.
  cbv zeta. refine (lost_claim_strands _ test_cfg 0 one_pushed [] "ua" "a" (queued_job "a")
    "connection reset" _ _ _ _ _ _ _ _); try reflexivity. apply one_job_ok.
Defined.

Definition one_turn {A} (r : option (A * nat * shared)) : shared :=
  match r with Some (_, _, s) => s | None => one_pushed end.

Lemma one_turn_eq {A} (r : option (A * nat * shared)) a i :
  match r with Some (a', i', _) => Some (a', i') | None => None end = Some (a, i) →
  r = Some (a, i, one_turn r).
Proof. destruct r as [ [ [a' i'] s']|]; simpl; congruence. Qed.

(** The claimed job cannot be read. *)
Definition read_fails (i : nat) : outcome :=
  let o := calm (λ _, Ok EmptyString) i in
  if decide (i = 3%nat) then
    {| o_fault := FailBefore "connection reset"; o_dt := o_dt o; o_uuid := o_uuid o; o_rand := o_rand o; o_ctx := o_ctx o;
       o_handler := o_handler o; o_api := o_api o |}
  else o.

Definition read_error : result unit :=
  Err (EWrap2 "get" (EWrap "get" (EText "connection reset")) (ESentinel errPostClaim)).

Definition left_running : shared := one_turn (run read_fails (ProcessOne test_cfg) 1 (elapse (read_fails 0) one_pushed)).

Lemma run_loop_fail_stop_witness :
  ¬ holds "w1" (s_db one_pushed) ∧ holds "w1" (s_db (elapse (read_fails 5) left_running)) ∧
  ∀ fuel, run read_fails (run_loop (S fuel) test_cfg) 0 one_pushed = Some (read_error, 6%nat, elapse (read_fails 5) left_running).
Proof.
  assert (Hno : ¬ holds "w1" (s_db one_pushed)).
  { intros (id & j & Hj & Hs & _). apply one_job_lookup in Hj as [_ ->]. done. }
  split; [exact Hno|]. split.
  { exists "a". eexists. split; [vm_compute; reflexivity|]. by split. }
  assert (Hk : replies_kept read_fails).
  { intros i msg. unfold read_fails. by destruct (decide (i = 3%nat)). }
  destruct (run_loop_fail_stop read_fails test_cfg [] 0 one_pushed 0 one_pushed Hk Hno (turns_nil _ _ _ _) (Forall_nil_2 _))
    as (_ & _ & H).
  destruct (H read_error 6%nat (elapse (read_fails 5) left_running)) as [_ Hstop].
  - eapply turns_err; [done|apply one_turn_eq; vm_compute; reflexivity|done|apply turns_nil].
  - exact (Hstop eq_refl).
Defined.

Lemma retries_bounded_witness :
  ∃ j', fail_row_times (replicate 8 ("x", 0, 0)) (queued_job "a") = Ok j' ∧
    Attempts j' = 8 ∧ Attempts j' ≤ int4_max ∧ Status j' = StatusDead.
Proof.
  apply (retries_bounded one_job "a" (queued_job "a") (replicate 8 ("x", 0, 0))).
  - apply (ok_jobs _ one_job_ok). done.
  - done.
  - done.
  - done.
Defined.

Lemma retry_window_witness :
  190500000000 ≤ foldr Z.add 0 (imap (λ k x, Compute (Z.of_nat k + 1) x) (replicate 7 0%N)) < 317500000000.
Proof. apply (retry_window (replicate 7 0%N)). reflexivity. Defined.

Lemma NewWorkerID_unique_witness :
  let b := [Byte.x01; Byte.xff] in
  b = b ∧ ∃ h, Cut "-"%char (NewWorkerID (Ok "pod-1") b) = Some (h, hex_EncodeToString b).
Proof. apply (NewWorkerID_unique (Ok "pod-1") (Ok "pod1")). reflexivity. Defined.
