(* ===== verification/Sweeper.v ===== *)
(** * The sweeper: internal/sweeper/sweeper.go

    Four passes that repair what crashed workers, lost queue entries and
    waiting retries leave behind.  Each pass is a listing followed by a loop
    over the listed items; an item that fails is skipped. *)
From S2P Require Import Prelude Redis Schema Services Effects GoStrings Queue Store.
Local Open Scope Z_scope.

Section sweeper.
Context `{UL : UuidLib} `{PG : !PgServer} `{RS : RedisServer} `{DS : DriveServer}.

Record Config := mk_Config { Interval : Z; StaleThreshold : Z }.

Definition second : Z := 1000000000.

Definition New (cfg : Config) : Config := {|
  Interval := if Interval cfg =? 0 then 5 * second else Interval cfg;
  StaleThreshold := if StaleThreshold cfg =? 0 then 60 * second else StaleThreshold cfg |}.

(** ** The passes; [fuel] bounds the SCAN calls and the elements moved *)

Fixpoint reclaim_refs (fuel : nat) (refs : list ProcessingRef) : prog (result unit) :=
  match refs with
  | [] => mret (Ok tt)
  | ref :: refs =>
      alive ← IsWorkerAlive (pr_WorkerID ref);
      match alive with
      | Err _ => reclaim_refs fuel refs
      | Ok true => reclaim_refs fuel refs
      | Ok false =>
          _ ← ReclaimProcessing fuel (pr_Stage ref) (pr_WorkerID ref);
          reclaim_refs fuel refs
      end
  end.

Definition reclaimProcessing (fuel : nat) : prog (result unit) :=
  refs ← ListProcessing fuel;
  match refs with
  | Err e => mret (Err e)
  | Ok refs => reclaim_refs fuel refs
  end.

Fixpoint revive_jobs (running : list Job) : prog (result unit) :=
  match running with
  | [] => mret (Ok tt)
  | j :: running =>
      match WorkerID j with
      | None => revive_jobs running
      | Some w =>
          alive ← IsWorkerAlive w;
          match alive with
          | Err _ => revive_jobs running
          | Ok true => revive_jobs running
          | Ok false =>
              now ← call Now;
              _ ← MarkFailed (ID j) "worker died" now;
              revive_jobs running
          end
      end
  end.

Definition reviveOrphans : prog (result unit) :=
  running ← ListRunningJobs;
  match running with
  | Err e => mret (Err e)
  | Ok running => revive_jobs running
  end.

(** The loop of repushStale and of promoteDelayed. *)
Fixpoint push_jobs (js : list Job) : prog (result unit) :=
  match js with
  | [] => mret (Ok tt)
  | j :: js =>
      _ ← Push (Stage j) (uuid_String (ID j));
      push_jobs js
  end.

Definition repushStale (cfg : Config) : prog (result unit) :=
  stale ← ListStaleQueuedJobs (StaleThreshold cfg);
  match stale with
  | Err e => mret (Err e)
  | Ok stale => push_jobs stale
  end.

Definition promoteDelayed : prog (result unit) :=
  ready ← ListReadyRetryJobs;
  match ready with
  | Err e => mret (Err e)
  | Ok ready => push_jobs ready
  end.

Definition SweepOnce (fuel : nat) (cfg : Config) : prog (result unit) :=
  e ← reclaimProcessing fuel;
  match e with
  | Err e => mret (Err (EWrap "reclaim processing" e))
  | Ok _ =>
  e ← reviveOrphans;
  match e with
  | Err e => mret (Err (EWrap "revive orphans" e))
  | Ok _ =>
  e ← promoteDelayed;
  match e with
  | Err e => mret (Err (EWrap "promote delayed" e))
  | Ok _ =>
  e ← repushStale cfg;
  match e with
  | Err e => mret (Err (EWrap "repush stale" e))
  | Ok _ => mret (Ok tt)
  end end end end.

(** One turn per tick; a failed sweep is logged and the loop goes on. *)
Fixpoint Run (turns fuel : nat) (cfg : Config) : prog (result unit) :=
  match turns with
  | O => NoFuel
  | S turns =>
      stop ← call CtxDone;
      if stop : bool then mret (Ok tt) else
      _ ← SweepOnce fuel cfg;
      Run turns fuel cfg
  end.

(** ** Liveness as the sweeper sees it *)

Definition alive (r : rstate) (t : Z) (w : string) : Prop :=
  rlist r (heartbeatKey w) ≠ [] ∨ is_Some (rstr r t (heartbeatKey w)).

#[global] Instance alive_dec r t w : Decision (alive r t w).
Proof. unfold alive. apply _. Defined.

(** A worker whose heartbeat has lapsed stays dead while nobody writes it. *)
Lemma alive_back r t t' w : t ≤ t' → alive r t' w → alive r t w.
Proof. intros Ht [H|[v H] ]; [by left|right]. exists v. by eapply rstr_mono. Qed.

(** ** Facts about runs with any faults *)

Lemma run_IsWorkerAlive_frame orc w i s :
  ∃ r s', run orc (IsWorkerAlive w) i s = Some (r, S i, s') ∧
    s_db s' = s_db s ∧ s_redis s' = s_redis s ∧ s_now s ≤ s_now s' ∧
    (r = Ok false → ¬ alive (s_redis s) (s_now s') w) ∧
    (r = Ok true → alive (s_redis s) (s_now s') w) ∧
    (o_fault (orc i) = NoFault → is_ok r = true).
Proof.
  unfold IsWorkerAlive. rewrite run_bind, run_call. unfold cli_Exists. cbn [exec fst snd].
  destruct (o_fault (orc i)); cbn [with_fault fst snd]; [case_decide as Hd|..]; simpl;
    eexists _, _; (split; [done|]); split_and!; simpl; try done; lia.
Qed.

(** ** The passes when nothing fails *)

(** What reclaiming may do: nothing outside the queue and processing lists;
    queues only grow at their old end; a processing list is untouched, or
    emptied with all its ids on the stage's queue. *)
Record reclaim_step (s s' : shared) : Prop := {
  rs_db : s_db s' = s_db s;
  rs_now : s_now s ≤ s_now s';
  rs_str t k : rstr (s_redis s') t k = rstr (s_redis s) t k;
  rs_hb w : rlist (s_redis s') (heartbeatKey w) = rlist (s_redis s) (heartbeatKey w);
  rs_queue st : ∃ back, rlist (s_redis s') (key st) = rlist (s_redis s) (key st) ++ back;
  rs_proc st w : stage_ok st →
    rlist (s_redis s') (processingKey st w) = rlist (s_redis s) (processingKey st w) ∨
    (rlist (s_redis s') (processingKey st w) = [] ∧
     ∀ x, x ∈ rlist (s_redis s) (processingKey st w) → x ∈ rlist (s_redis s') (key st))
}.

Lemma reclaim_step_refl s s' :
  s_db s' = s_db s → s_redis s' = s_redis s → s_now s ≤ s_now s' → reclaim_step s s'.
Proof. intros Hd Hr Ht. constructor; rewrite ?Hr; auto. intros st. exists []. by rewrite app_nil_r. Qed.

Lemma reclaim_step_trans s1 s2 s3 : reclaim_step s1 s2 → reclaim_step s2 s3 → reclaim_step s1 s3.
Proof.
  intros [] []. constructor; [congruence|lia|congruence|congruence| |].
  - intros st. destruct (rs_queue0 st) as [b1 H1], (rs_queue1 st) as [b2 H2].
    exists (b1 ++ b2). by rewrite H2, H1, app_assoc.
  - intros st w Hst. destruct (rs_queue1 st) as [b2 H2].
    destruct (rs_proc0 st w Hst) as [E|[E Hin] ], (rs_proc1 st w Hst) as [E'|[E' Hin'] ].
    + left. congruence.
    + right. split; [done|]. by rewrite <- E.
    + right. split; [congruence|]. intros x Hx. rewrite H2. apply elem_of_app. auto.
    + right. split; [done|]. intros x Hx. rewrite H2. apply elem_of_app. auto.
Qed.

Lemma reclaim_step_alive s s' t w :
  reclaim_step s s' → alive (s_redis s') t w ↔ alive (s_redis s) t w.
Proof. intros []. unfold alive. by rewrite rs_hb0, rs_str0. Qed.

Section reliable.
Context (orc : nat → outcome) (Hrel : reliable orc).

Lemma run_IsWorkerAlive w i s :
  ∃ b s', run orc (IsWorkerAlive w) i s = Some (Ok b, S i, s') ∧
    s_db s' = s_db s ∧ s_redis s' = s_redis s ∧ s_now s ≤ s_now s' ∧
    (b = true ↔ alive (s_redis s) (s_now s') w).
Proof.
  destruct (run_IsWorkerAlive_frame orc w i s) as (r & s' & Hrun & Hd & Hr & Ht & Hf & Htr & Hok).
  specialize (Hok (Hrel i)). destruct r as [b|]; [|done]. exists b, s'. split_and!; try done.
  destruct b; split; [by intros _; apply Htr|done|done|intros H; by apply Hf in H].
Qed.

Lemma run_reclaim_one fuel st w i s :
  stage_ok st → (length (rlist (s_redis s) (processingKey st w)) < fuel)%nat →
  ∃ r i' s', run orc (ReclaimProcessing fuel st w) i s = Some (r, i', s') ∧
    reclaim_step s s' ∧ rlist (s_redis s') (processingKey st w) = [].
Proof.
  intros Hst Hf. destruct (run_reclaim orc Hrel fuel st w 0 i s Hf)
    as (i' & s' & Hrun & (Hd & Ht & Hl & Hs) & Hp & Hk).
  eexists _, i', s'. split; [exact Hrun|]. split; [|done]. constructor; try done.
  - intros w'. apply Hl. rewrite !not_elem_of_cons. split_and!; [done|done|apply not_elem_of_nil].
  - intros st'. destruct (decide (st' = st)) as [->|Hne]; [by eexists|].
    exists []. rewrite app_nil_r. apply Hl. by apply key_notin.
  - intros st' w' Hst'. destruct (decide (st' = st ∧ w' = w)) as [[-> ->]|Hne].
    + right. split; [done|]. intros x Hx. rewrite Hk. apply elem_of_app. right.
      apply list_elem_of_In. rewrite <- in_rev. by apply list_elem_of_In.
    + left. apply Hl. by apply processingKey_notin.
Qed.

Definition short (fuel : nat) (refs : list ProcessingRef) (s : shared) : Prop := ∀ ref, ref ∈ refs →
  stage_ok (pr_Stage ref) ∧
  (length (rlist (s_redis s) (processingKey (pr_Stage ref) (pr_WorkerID ref))) < fuel)%nat.

Lemma short_step fuel ref refs s s' :
  reclaim_step s s' → short fuel (ref :: refs) s → short fuel refs s'.
Proof.
  intros Hstep Hs ref' Hin. destruct (Hs ref') as [Hst Hl]; [by apply list_elem_of_further|].
  split; [done|]. destruct (rs_proc _ _ Hstep (pr_Stage ref') (pr_WorkerID ref') Hst) as [->|[-> _] ];
    [done|simpl; lia].
Qed.

Lemma run_reclaim_refs fuel refs i s :
  short fuel refs s →
  ∃ i' s', run orc (reclaim_refs fuel refs) i s = Some (Ok tt, i', s') ∧ reclaim_step s s' ∧
    ∀ ref, ref ∈ refs → ¬ alive (s_redis s) (s_now s) (pr_WorkerID ref) →
      rlist (s_redis s') (processingKey (pr_Stage ref) (pr_WorkerID ref)) = [].
Proof.
  revert i s. induction refs as [|ref refs IH]; intros i s Hs; cbn [reclaim_refs].
  { eexists _, s. split; [done|]. split; [by apply reclaim_step_refl|]. intros ref []%elem_of_nil. }
  rewrite run_bind.
  destruct (run_IsWorkerAlive (pr_WorkerID ref) i s) as (b & s1 & -> & Hd1 & Hr1 & Ht1 & Hb).
  pose proof (reclaim_step_refl s s1 Hd1 Hr1 Ht1) as Hstep1.
  assert (Hdead : ∀ s2 w, reclaim_step s s2 → ¬ alive (s_redis s) (s_now s) w →
    ¬ alive (s_redis s2) (s_now s2) w).
  { intros s2 w Hst Ha. rewrite (reclaim_step_alive _ _ _ _ Hst). intros H. apply Ha.
    eapply alive_back, H. apply Hst. }
  destruct b.
  - destruct (IH (S i) s1) as (i' & s' & -> & Hst & Hall); [by eapply short_step|].
    exists i', s'. split; [done|]. split; [by eapply reclaim_step_trans|].
    intros ref' [->|Hin]%elem_of_cons Hdd; [|apply Hall; [done|by apply Hdead]].
    exfalso. apply Hdd. eapply alive_back; [exact Ht1|by apply Hb].
  - rewrite run_bind. destruct (Hs ref) as [Hsto Hl]; [by apply list_elem_of_here|].
    destruct (run_reclaim_one fuel (pr_Stage ref) (pr_WorkerID ref) (S i) s1)
      as (r & i2 & s2 & -> & Hstep2 & Hnil); [done|by rewrite Hr1|].
    pose proof (reclaim_step_trans _ _ _ Hstep1 Hstep2) as Hstep.
    destruct (IH i2 s2) as (i' & s' & -> & Hst & Hall); [by eapply short_step|].
    exists i', s'. split; [done|]. split; [by eapply reclaim_step_trans|].
    intros ref' [->|Hin]%elem_of_cons Hdd; [|apply Hall; [done|by apply Hdead]].
    destruct (rs_proc _ _ Hst (pr_Stage ref) (pr_WorkerID ref) Hsto) as [->|[-> _] ]; done.
Qed.

Lemma run_reclaimProcessing i s :
  ∃ fuel0, ∀ fuel, (fuel0 ≤ fuel)%nat → ∃ i' s',
    run orc (reclaimProcessing fuel) i s = Some (Ok tt, i', s') ∧ reclaim_step s s' ∧
    ∀ st w, stage_ok st → ¬ alive (s_redis s) (s_now s) w →
      rlist (s_redis s') (processingKey st w) = [].
Proof.
  destruct (run_ListProcessing orc Hrel i s) as (f0 & refs & Hlist).
  set (len := λ ref, length (rlist (s_redis s) (processingKey (pr_Stage ref) (pr_WorkerID ref)))).
  exists (f0 + S (sum_list_with len refs))%nat. intros fuel Hf.
  destruct (Hlist fuel) as (i1 & s1 & Hrun & Hd1 & Hr1 & Ht1 & Hin & Hsto); [lia|].
  pose proof (reclaim_step_refl s s1 Hd1 Hr1 Ht1) as Hstep1.
  destruct (run_reclaim_refs fuel refs i1 s1) as (i' & s' & Hrun' & Hstep & Hall).
  { intros ref Hi. split; [by apply Hsto|]. rewrite Hr1. fold (len ref).
    assert (len ref ≤ sum_list_with len refs)%nat; [|lia].
    clear -Hi. induction refs as [|r refs IH]; [by apply elem_of_nil in Hi|].
    apply elem_of_cons in Hi as [->|Hi]; simpl; [lia|]. specialize (IH Hi). lia. }
  exists i', s'. unfold reclaimProcessing. rewrite run_bind, Hrun. split; [done|].
  split; [by eapply reclaim_step_trans|]. intros st w Hst Hdead.
  destruct (decide (rlist (s_redis s) (processingKey st w) = [])) as [E|E].
  - destruct (rs_proc _ _ (reclaim_step_trans _ _ _ Hstep1 Hstep) st w Hst) as [->|[-> _] ]; done.
  - apply (Hall (mk_ProcessingRef st w)); [by apply Hin|].
    intros Ha. apply Hdead. rewrite Hr1 in Ha. by eapply alive_back.
Qed.

(** ** Reviving *)

(** The row of a job taken back from a dead worker. *)
Definition revived (t0 t1 : Z) (j j' : Job) : Prop :=
  ∃ next t, t0 ≤ next ≤ t1 ∧ t0 ≤ t ≤ t1 ∧ failed_row "worker died" next t j = Ok j'.

(** A row after reviving: that of a worker alive to the end is as it was, that
    of a worker dead from the start is revived, any other is one or the other. *)
Definition revive_row (r : rstate) (t0 t1 : Z) (j j' : Job) : Prop :=
  (j' = j ∧ ∀ w, Status j = StatusRunning → WorkerID j = Some w → alive r t0 w) ∨
  (revived t0 t1 j j' ∧ Status j = StatusRunning ∧ ∃ w, WorkerID j = Some w ∧ ¬ alive r t1 w).

Lemma run_revive_one id j s i w :
  db_ok (s_db s) → pipeline_jobs (s_db s) !! id = Some j → Status j = StatusRunning →
  WorkerID j = Some w →
  ∃ i' s' j', (∀ js, run orc (revive_jobs (j :: js)) i s = run orc (revive_jobs js) i' s') ∧
    s_redis s' = s_redis s ∧ s_now s ≤ s_now s' ∧ db_ok (s_db s') ∧
    revive_row (s_redis s) (s_now s) (s_now s') j j' ∧
    s_db s' = with_jobs (<[id := j']> (pipeline_jobs (s_db s))) (s_db s).
Proof.
  intros Hok Hj Hr Hw.
  assert (Hid : ID j = id) by (by apply (ok_id (s_db s)), (ok_jobs _ Hok)).
  destruct (run_IsWorkerAlive w i s) as (b & s1 & Hrun1 & Hd1 & Hr1 & Ht1 & Hb).
  destruct b.
  - exists (S i), s1, j. split_and!; [|done|done|by rewrite Hd1| |].
    + intros js. cbn [revive_jobs]. by rewrite Hw, run_bind, Hrun1.
    + left. split; [done|]. intros w' _ Hw'. simplify_eq. eapply alive_back, Hb; done.
    + rewrite Hd1, insert_id by done. by destruct (s_db s).
  - set (s2 := elapse (orc (S i)) s1).
    assert (Ht2 : s_now s1 ≤ s_now s2) by (simpl; lia).
    destruct (run_MarkFailed_ok orc Hrel id "worker died" (s_now s2) (S (S i)) s2 j)
      as (t & j' & Ht & Hf & Hrun2); [simpl; by rewrite Hd1..|by rewrite Hr|].
    eexists (S (S (S i))), _, j'. split; [|split; [|split; [|split; [|split] ] ] ].
    + intros js. cbn [revive_jobs]. rewrite Hw, run_bind, Hrun1, run_bind, run_call.
      cbn [exec fst snd]. fold s2. rewrite Hid, run_bind, Hrun2. done.
    + simpl. by rewrite Hr1.
    + simpl in *. lia.
    + simpl. rewrite Hd1. apply db_ok_put; [done|eapply job_ok_failed; [by apply (ok_jobs _ Hok)|done]|].
      destruct (failed_row_Ok (s_db s) id "worker died" (s_now s2) t j) as (j2 & Hf2 & Hk);
        [by apply (ok_jobs _ Hok)|by rewrite Hr|]. rewrite Hf in Hf2. simplify_eq.
      by eapply live_key_free_keep.
    + right. split; [exists (s_now s2), t; simpl in *; split_and!; done || lia|]. split; [done|].
      exists w. split; [done|]. intros Ha. assert (false = true) as [=]. apply Hb.
      eapply alive_back, Ha. simpl in *. lia.
    + simpl. by rewrite Hd1.
Qed.

Lemma revive_row_widen r t0 t1 t0' t1' j j' :
  t0' ≤ t0 → t1 ≤ t1' → revive_row r t0 t1 j j' → revive_row r t0' t1' j j'.
Proof.
  intros H0 H1 [ [-> Ha]|((next & t & ? & ? & Hf) & Hr & w & Hw & Hd)]; [left|right].
  - split; [done|]. intros w Hr Hw. eapply alive_back, Ha; done.
  - split; [exists next, t; split_and!; done || lia|]. split; [done|]. exists w. split; [done|].
    intros Ha. apply Hd. by eapply alive_back.
Qed.

(** Only rows that are there are changed, and no other table. *)
Definition same_keys (s s' : shared) : Prop :=
  s_db s' = with_jobs (pipeline_jobs (s_db s')) (s_db s) ∧
  ∀ id, pipeline_jobs (s_db s) !! id = None → pipeline_jobs (s_db s') !! id = None.

Lemma same_keys_refl s s' : s_db s' = s_db s → same_keys s s'.
Proof. intros H. unfold same_keys. rewrite H. split; [by destruct (s_db s)|done]. Qed.

Lemma same_keys_trans s1 s2 s3 : same_keys s1 s2 → same_keys s2 s3 → same_keys s1 s3.
Proof. intros [H1 N1] [H2 N2]. split; [rewrite H2; cbn; by rewrite H1|auto]. Qed.

Lemma same_keys_insert s s' id j j' : pipeline_jobs (s_db s) !! id = Some j →
  s_db s' = with_jobs (<[id := j']> (pipeline_jobs (s_db s))) (s_db s) → same_keys s s'.
Proof.
  intros Hj Hd. unfold same_keys. rewrite Hd. split; [done|]. intros id' Hn. cbn. rewrite lookup_insert_ne; [done|congruence].
Qed.

Lemma run_revive_jobs js i s :
  db_ok (s_db s) → NoDup (ID <$> js) →
  (∀ j, j ∈ js → pipeline_jobs (s_db s) !! ID j = Some j ∧ Status j = StatusRunning) →
  ∃ i' s', run orc (revive_jobs js) i s = Some (Ok tt, i', s') ∧
    s_redis s' = s_redis s ∧ s_now s ≤ s_now s' ∧ (db_ok (s_db s') ∧ same_keys s s') ∧
    ∀ id j, pipeline_jobs (s_db s) !! id = Some j → ∃ j',
      pipeline_jobs (s_db s') !! id = Some j' ∧
      if decide (id ∈ ID <$> js) then revive_row (s_redis s) (s_now s) (s_now s') j j' else j' = j.
Proof.
  revert i s. induction js as [|j js IH]; intros i s Hok Hnd Hjs.
  { eexists _, s. split; [done|]. split_and!; [done|lia|done|by apply same_keys_refl|]. intros id j Hj. by exists j. }
  apply NoDup_cons in Hnd as [Hni Hnd].
  destruct (Hjs j) as [Hj Hr]; [by apply list_elem_of_here|].
  destruct (ok_running _ _ _ (ok_jobs _ Hok _ _ Hj) Hr) as [[w Hw] _].
  destruct (run_revive_one (ID j) j s i w) as (i1 & s1 & j1 & Hrun1 & Hr1 & Ht1 & Hok1 & Hrow & Hd1); [done..|].
  destruct (IH i1 s1) as (i' & s' & Hrun & Hr' & Ht' & [Hok' Hkeys] & Hall); [done|done| |].
  { intros j2 Hin. destruct (Hjs j2) as [Hj2 ?]; [by apply list_elem_of_further|]. split; [|done].
    rewrite Hd1. simpl. rewrite lookup_insert_ne; [done|]. intros E. apply Hni.
    apply list_elem_of_fmap. by exists j2. }
  exists i', s'. rewrite Hrun1. split; [done|]. split_and!; [congruence|lia|done|..].
  { eapply same_keys_trans; [eapply same_keys_insert; [exact Hj|exact Hd1]|exact Hkeys]. }
  intros id j0 Hj0. destruct (decide (id = ID j)) as [->|Hne].
  - rewrite Hj in Hj0. injection Hj0 as <-. destruct (Hall (ID j) j1) as (j' & Hj' & Hrow'); [rewrite Hd1; simpl; by rewrite lookup_insert_eq|].
    exists j'. split; [done|]. rewrite decide_False in Hrow' by done. subst j'.
    rewrite decide_True by (apply list_elem_of_here). eapply revive_row_widen, Hrow; lia.
  - destruct (Hall id j0) as (j' & Hj' & Hrow'); [rewrite Hd1; simpl; by rewrite lookup_insert_ne|].
    exists j'. split; [done|]. destruct (decide (id ∈ ID <$> js)) as [Hin|Hin].
    + rewrite decide_True by (by apply list_elem_of_further). rewrite Hr1 in Hrow'.
      eapply revive_row_widen, Hrow'; lia.
    + rewrite decide_False; [done|]. simpl. by rewrite not_elem_of_cons.
Qed.

Lemma run_listing (pre : string) (P : Z → Job → bool) {B} (f : result (list Job) → prog B) i s :
  let t := s_now s + Z.of_N (o_dt (orc i)) in
  run orc (r ← (r ← call (Sql (λ now db, (Ok (sql_select (P now) db), db)));
                match r with Err e => mret (Err (EWrap pre e)) | Ok js => mret (Ok js) end); f r) i s =
    run orc (f (Ok (sql_select (P t) (s_db s)))) (S i) (mk_shared (s_db s) (s_redis s) (s_ext s) t).
Proof. cbv zeta. rewrite run_bind, run_bind, run_call, exec_Sql by apply Hrel. done. Qed.

Lemma run_reviveOrphans i s :
  db_ok (s_db s) →
  ∃ i' s', run orc reviveOrphans i s = Some (Ok tt, i', s') ∧
    s_redis s' = s_redis s ∧ s_now s ≤ s_now s' ∧ (db_ok (s_db s') ∧ same_keys s s') ∧
    ∀ id j, pipeline_jobs (s_db s) !! id = Some j → ∃ j',
      pipeline_jobs (s_db s') !! id = Some j' ∧ revive_row (s_redis s) (s_now s) (s_now s') j j'.
Proof.
  intros Hok. unfold reviveOrphans, ListRunningJobs.
  rewrite (run_listing "list running" (λ _, is_status StatusRunning)).
  set (s1 := mk_shared _ _ _ _). assert (Ht1 : s_now s ≤ s_now s1) by (simpl; lia).
  destruct (run_revive_jobs (sql_select (is_status StatusRunning) (s_db s)) (S i) s1)
    as (i' & s' & -> & Hr & Ht & Hok' & Hall); [done|by apply NoDup_select| |].
  { intros j Hj%elem_of_select; [|done]. by rewrite is_status_true in Hj. }
  exists i', s'. split_and!; [done|done|lia|apply Hok'|apply Hok'|]. intros id j Hj.
  destruct (Hall id j Hj) as (j' & Hj' & Hrow). exists j'. split; [done|].
  case_decide as Hin; [eapply revive_row_widen, Hrow; done|]. left. split; [done|].
  intros w Hrun _. destruct Hin. apply list_elem_of_fmap. exists j.
  split; [symmetry; by apply (ok_id (s_db s)), (ok_jobs _ Hok)|].
  apply elem_of_select; [done|]. rewrite is_status_true.
  by rewrite (ok_id _ _ _ (ok_jobs _ Hok _ _ Hj)).
Qed.

(** ** Pushing *)

Definition pushed (st : string) (js : list Job) : list string :=
  (λ j, uuid_String (ID j)) <$> filter (λ j, Stage j = st) js.

(** The listed ids are put at the new end of their stages' queues. *)
Definition push_step (js : list Job) (s s' : shared) : Prop :=
  s_db s' = s_db s ∧ s_now s ≤ s_now s' ∧
  (∀ st, rlist (s_redis s') (key st) = rev (pushed st js) ++ rlist (s_redis s) (key st)) ∧
  (∀ st w, rlist (s_redis s') (processingKey st w) = rlist (s_redis s) (processingKey st w)).

Lemma run_push_jobs js i s :
  ∃ i' s', run orc (push_jobs js) i s = Some (Ok tt, i', s') ∧ push_step js s s'.
Proof.
  revert i s. induction js as [|j js IH]; intros i s; cbn [push_jobs].
  { eexists _, s. split; [done|]. by split_and!; [|lia|..]. }
  rewrite run_bind. destruct (run_Push orc Hrel (Stage j) (uuid_String (ID j)) i s)
    as (s1 & -> & (Hd1 & Ht1 & Hl1 & _) & Hk1).
  destruct (IH (S i) s1) as (i' & s' & -> & Hd & Ht & Hk & Hp).
  exists i', s'. split; [done|]. split_and!; [congruence|lia| |].
  - intros st. rewrite Hk. unfold pushed. rewrite filter_cons. case_decide as Hst.
    + subst st. rewrite Hk1. simpl. by rewrite <- app_assoc.
    + rewrite Hl1; [done|]. rewrite not_elem_of_cons. split; [|apply not_elem_of_nil].
      intros ?%key_inj. congruence.
  - intros st w. rewrite Hp, Hl1; [done|]. rewrite not_elem_of_cons. split; [done|apply not_elem_of_nil].
Qed.

Lemma pushed_in js j : j ∈ js → uuid_String (ID j) ∈ rev (pushed (Stage j) js).
Proof.
  intros Hin. apply list_elem_of_In. rewrite <- in_rev. apply list_elem_of_In.
  apply list_elem_of_fmap. exists j. split; [done|]. by apply list_elem_of_filter.
Qed.

Lemma run_push_listed (pre : string) (P : Z → Job → bool) i s :
  db_ok (s_db s) →
  ∃ i' s' js, run orc (r ← (r ← call (Sql (λ now db, (Ok (sql_select (P now) db), db)));
      match r with Err e => mret (Err (EWrap pre e)) | Ok js => mret (Ok js) end);
    match r with Err e => mret (Err e) | Ok js => push_jobs js end) i s = Some (Ok tt, i', s') ∧
    push_step js s s' ∧ ∃ t, s_now s ≤ t ∧
    ∀ id j, pipeline_jobs (s_db s) !! id = Some j → P t j = true → j ∈ js ∧ ID j = id.
Proof.
  intros Hok. rewrite run_listing. set (t := _ + _). set (s1 := mk_shared _ _ _ _).
  destruct (run_push_jobs (sql_select (P t) (s_db s)) (S i) s1) as (i' & s' & -> & Hd & Ht & Hk & Hp).
  eexists i', s', _. split; [done|]. split.
  { split_and!; [exact Hd|simpl in *; lia|exact Hk|exact Hp]. }
  exists t. split; [lia|]. intros id j Hj HP.
  pose proof (ok_id _ _ _ (ok_jobs _ Hok _ _ Hj)) as Hid. split; [|done].
  apply elem_of_select; [done|]. by rewrite Hid.
Qed.

(** A queued row the sweep must push: its retry is due, or it was never
    tried and is older than the threshold. *)
Definition due (threshold t : Z) (j : Job) : bool := ready_retry t j || stale_queued threshold t j.

Lemma ready_retry_mono t t' j : t ≤ t' → ready_retry t j = true → ready_retry t' j = true.
Proof. unfold ready_retry. rewrite !andb_true_iff. intros ? [? ?]. split; [done|lia]. Qed.

Lemma stale_queued_mono th t t' j : t ≤ t' → stale_queued th t j = true → stale_queued th t' j = true.
Proof. unfold stale_queued. rewrite !andb_true_iff. intros ? [? ?]. split; [done|lia]. Qed.

Lemma run_sweep_pushes cfg i s :
  db_ok (s_db s) →
  ∃ i1 s1 i' s', run orc promoteDelayed i s = Some (Ok tt, i1, s1) ∧
    run orc (repushStale cfg) i1 s1 = Some (Ok tt, i', s') ∧
    s_db s' = s_db s ∧ s_now s ≤ s_now s' ∧
    (∀ st w, rlist (s_redis s') (processingKey st w) = rlist (s_redis s) (processingKey st w)) ∧
    ∀ st, ∃ front, rlist (s_redis s') (key st) = front ++ rlist (s_redis s) (key st) ∧
      ∀ id j, pipeline_jobs (s_db s) !! id = Some j → Stage j = st → due (StaleThreshold cfg) (s_now s) j = true →
        uuid_String id ∈ front.
Proof.
  intros Hok. destruct (run_push_listed "list ready retries" ready_retry i s Hok)
    as (i1 & s1 & js1 & Hrun1 & Hp1 & t1 & Ht1 & Hin1).
  pose proof Hp1 as (Hd1 & Hn1 & Hk1 & Hpr1).
  destruct (run_push_listed "list stale queued" (stale_queued (StaleThreshold cfg)) i1 s1)
    as (i2 & s2 & js2 & Hrun2 & Hp2 & t2 & Ht2 & Hin2); [by rewrite Hd1|].
  pose proof Hp2 as (Hd2 & Hn2 & Hk2 & Hpr2).
  exists i1, s1, i2, s2. split; [exact Hrun1|]. split; [exact Hrun2|].
  split_and!; [congruence|lia|intros st w; by rewrite Hpr2|].
  intros st. exists (rev (pushed st js2) ++ rev (pushed st js1)). split; [by rewrite Hk2, Hk1, app_assoc|].
  intros id j Hj <- [Hdue|Hdue]%orb_true_iff; apply elem_of_app.
  - right. destruct (Hin1 id j Hj) as [Hin <-]; [by eapply ready_retry_mono|]. by apply pushed_in.
  - left. destruct (Hin2 id j) as [Hin <-]; [by rewrite Hd1|eapply stale_queued_mono, Hdue; lia|]. by apply pushed_in.
Qed.

End reliable.

Lemma revive_row_outer s s1 t2 t4 j j' :
  reclaim_step s s1 → s_now s1 ≤ t2 → t2 ≤ t4 →
  revive_row (s_redis s1) (s_now s1) t2 j j' → revive_row (s_redis s) (s_now s) t4 j j'.
Proof.
  intros Hstep Ht2 Ht4 [ [-> Ha]|(Hrv & Hrun & w & Hw & Hd)]; pose proof (rs_now _ _ Hstep); [left|right].
  - split; [done|]. intros w Hrun Hw. eapply alive_back, (reclaim_step_alive _ _ _ _ Hstep), Ha; done.
  - split; [|split; [done|] ].
    + destruct Hrv as (next & t & ? & ? & Hfr). exists next, t. split_and!; done || lia.
    + exists w. split; [done|]. intros Ha. apply Hd.
      apply (reclaim_step_alive _ _ _ _ Hstep). by eapply alive_back.
Qed.

(** A revived job that has attempts left is due at once. *)
Lemma revived_due th t0 t1 j j' :
  revived t0 t1 j j' → Status j' = StatusQueued → due th t1 j' = true.
Proof.
  intros (next & t & Hn & _ & Hf) Hq. unfold failed_row in Hf. destruct (_ >? _); [done|].
  injection Hf as <-. simpl in Hq. unfold due, ready_retry, is_status. simpl. rewrite Hq. simpl.
  apply orb_true_iff. left. lia.
Qed.

(** A sweep in which nothing fails, with what it puts in front of the queues. *)
Record swept (cfg : Config) (s s' : shared) : Prop := {
  sp_ok : db_ok (s_db s');
  sp_keys : same_keys s s';
  sp_row id j : pipeline_jobs (s_db s) !! id = Some j →
    ∃ j', pipeline_jobs (s_db s') !! id = Some j' ∧ revive_row (s_redis s) (s_now s) (s_now s') j j';
  sp_queue st : ∃ front back, rlist (s_redis s') (key st) = front ++ rlist (s_redis s) (key st) ++ back ∧
    ∀ id j j', pipeline_jobs (s_db s) !! id = Some j → pipeline_jobs (s_db s') !! id = Some j' → Stage j' = st →
      due (StaleThreshold cfg) (s_now s) j' = true ∨ (j' ≠ j ∧ Status j' = StatusQueued) → uuid_String id ∈ front;
  sp_dead st w : stage_ok st → ¬ alive (s_redis s) (s_now s) w →
    rlist (s_redis s') (processingKey st w) = [] ∧
    ∀ x, x ∈ rlist (s_redis s) (processingKey st w) → x ∈ rlist (s_redis s') (key st)
}.

Lemma run_SweepOnce orc cfg i s :
  reliable orc → db_ok (s_db s) →
  ∃ fuel0, ∀ fuel, (fuel0 ≤ fuel)%nat → ∃ i' s', run orc (SweepOnce fuel cfg) i s = Some (Ok tt, i', s') ∧ swept cfg s s'.
Proof.
  intros Hrel Hok. destruct (run_reclaimProcessing orc Hrel i s) as (f0 & H0).
  exists f0. intros fuel Hf. destruct (H0 fuel Hf) as (i1 & s1 & Hrun1 & Hstep & Hproc).
  pose proof Hstep as [Hd1 Ht1 _ _ Hq1 Hp1].
  destruct (run_reviveOrphans orc Hrel i1 s1) as (i2 & s2 & Hrun2 & Hr2 & Ht2 & [Hok2 Hkeys] & Hrow);
    [by rewrite Hd1|].
  destruct (run_sweep_pushes orc Hrel cfg i2 s2 Hok2)
    as (i3 & s3 & i4 & s4 & Hrun3 & Hrun4 & Hd4 & Ht4 & Hp4 & Hq4).
  exists i4, s4. split.
  { unfold SweepOnce. rewrite run_bind, Hrun1, run_bind, Hrun2, run_bind, Hrun3, run_bind, Hrun4. done. }
  constructor.
  - by rewrite Hd4.
  - eapply same_keys_trans; [by eapply same_keys_refl|]. eapply same_keys_trans; [exact Hkeys|by apply same_keys_refl].
  - intros id j Hj. destruct (Hrow id j) as (j' & Hj' & Hrv); [by rewrite Hd1|].
    exists j'. split; [by rewrite Hd4|]. by eapply revive_row_outer.
  - intros st. destruct (Hq4 st) as (fr & E & Hfr), (Hq1 st) as (bk & E'). exists fr, bk. split; [by rewrite E, Hr2, E'|].
    intros id j j' Hj Hj' Hst Hdue. rewrite Hd4 in Hj'. apply (Hfr id j' Hj' Hst).
    destruct Hdue as [Hdue|[Hne Hq] ].
    + apply orb_true_iff in Hdue as [Hdue|Hdue]; apply orb_true_iff;
        [left; eapply ready_retry_mono, Hdue|right; eapply stale_queued_mono, Hdue]; lia.
    + destruct (Hrow id j) as (j2 & Hj2 & Hrv); [by rewrite Hd1|]. assert (j2 = j') as -> by congruence.
      destruct Hrv as [ [-> _]|(Hrv & _)]; [done|]. by eapply revived_due.
  - intros st w Hst Hdead. rewrite Hp4, Hr2, Hproc by done. split; [done|].
    intros x Hx. destruct (Hq4 st) as (fr & E & _). rewrite E, Hr2.
    apply elem_of_app. right. destruct (Hp1 st w Hst) as [E'|[_ Hx'] ]; [|auto].
    rewrite Hproc in E' by done. rewrite <- E' in Hx. by apply elem_of_nil in Hx.
Qed.

(** ** Properties *)

(** C11. When nothing fails, one sweep repairs everything: it returns; a job
    held by a worker whose heartbeat was gone from the start is failed with
    "worker died" (one attempt more), one held by a worker alive to the end
    is untouched, as is every job that is not running; every queued job whose
    retry is due, that was never tried and is older than the threshold, or
    that was revived with attempts left, is on its stage's queue; nothing
    leaves a queue and queued ids keep their order; and the processing lists
    of dead workers are empty, their ids back on the queue. *)
Theorem SweepOnce_recovers orc cfg i s :
  reliable orc → db_ok (s_db s) →
  ∃ fuel0, ∀ fuel, (fuel0 ≤ fuel)%nat → ∃ i' s',
    run orc (SweepOnce fuel cfg) i s = Some (Ok tt, i', s') ∧
    (∀ id j, pipeline_jobs (s_db s) !! id = Some j → ∃ j',
       pipeline_jobs (s_db s') !! id = Some j' ∧
       revive_row (s_redis s) (s_now s) (s_now s') j j' ∧
       (due (StaleThreshold cfg) (s_now s) j' = true ∨ (j' ≠ j ∧ Status j' = StatusQueued) →
        uuid_String id ∈ rlist (s_redis s') (key (Stage j')))) ∧
    (∀ st, ∃ front back, rlist (s_redis s') (key st) = front ++ rlist (s_redis s) (key st) ++ back) ∧
    (∀ st w, stage_ok st → ¬ alive (s_redis s) (s_now s) w →
       rlist (s_redis s') (processingKey st w) = [] ∧
       ∀ x, x ∈ rlist (s_redis s) (processingKey st w) → x ∈ rlist (s_redis s') (key st)).
Proof.
  intros Hrel Hok. destruct (run_SweepOnce orc cfg i s Hrel Hok) as (f0 & H0). exists f0. intros fuel Hf.
  destruct (H0 fuel Hf) as (i' & s' & Hrun & [_ _ Hrow Hqueue Hdead]). exists i', s'. split; [done|]. split; [|split; [|done] ].
  - intros id j Hj. destruct (Hrow id j Hj) as (j' & Hj' & Hrv). exists j'. do 2 (split; [done|]). intros Hdue.
    destruct (Hqueue (Stage j')) as (fr & bk & -> & Hfr). apply elem_of_app. left. by eapply Hfr.
  - intros st. destruct (Hqueue st) as (fr & bk & -> & _). eauto.
Qed.

(** C29. Every sweep pushes every old job again: a queued job that has not
    failed yet and was made longer than the threshold ago stays as it is, and
    a sweep in which nothing fails puts its id in front of its stage's queue,
    however often the queue holds it already.  It does so again at the next
    sweep: the listing asks when the job was made, not how long it has waited
    or whether it is on the queue. *)
Theorem sweep_pushes_again orc cfg i s id j :
  reliable orc → db_ok (s_db s) → pipeline_jobs (s_db s) !! id = Some j → stale_queued (StaleThreshold cfg) (s_now s) j = true →
  ∃ fuel0, ∀ fuel, (fuel0 ≤ fuel)%nat → ∃ i' s' front back,
    run orc (SweepOnce fuel cfg) i s = Some (Ok tt, i', s') ∧
    rlist (s_redis s') (key (Stage j)) = front ++ rlist (s_redis s) (key (Stage j)) ++ back ∧ uuid_String id ∈ front ∧
    pipeline_jobs (s_db s') !! id = Some j ∧ stale_queued (StaleThreshold cfg) (s_now s') j = true.
Proof.
  intros Hrel Hok Hj Hst. destruct (run_SweepOnce orc cfg i s Hrel Hok) as (f0 & H0). exists f0. intros fuel Hf.
  destruct (H0 fuel Hf) as (i' & s' & Hrun & [_ _ Hrow Hqueue _]). pose proof (run_now _ _ _ _ _ _ _ Hrun) as Hn.
  destruct (Hrow id j Hj) as (j' & Hj' & Hrv). assert (j' = j) as ->.
  { destruct Hrv as [ [-> _]|(_ & Hr & _)]; [done|]. exfalso. unfold stale_queued in Hst.
    rewrite !andb_true_iff, is_status_true in Hst. destruct Hst as [ [Hq _] _]. congruence. }
  destruct (Hqueue (Stage j)) as (fr & bk & E & Hfr). exists i', s', fr, bk. do 2 (split; [done|]).
  split; [|split; [done|by eapply stale_queued_mono, Hst]]. apply (Hfr id j j Hj Hj'); [done|]. left.
  unfold due. rewrite Hst. by rewrite orb_true_r.
Qed.


End sweeper.

(** ** Witnesses *)
Import SchemaModel RedisModel DriveModel EffectsModel.

(** Job "a" is held by a worker without a heartbeat that never acknowledged
    it. *)
Definition orphaned : shared :=
  mk_shared (with_jobs {[ "a" := claim_row "w9" 1 (queued_job "a") ]} no_rows)
    (mk_server {[ "processing:test:w9" := ["ua"] ]} ∅) no_ext 100.

Lemma single_ok j : job_ok (with_jobs {[ "a" := j ]} no_rows) "a" j → db_ok (with_jobs {[ "a" := j ]} no_rows).
Proof.
  intros Hj. assert (Hl : ∀ id j', pipeline_jobs (with_jobs {[ "a" := j ]} no_rows) !! id = Some j' → id = "a" ∧ j' = j).
  { intros id j'. change (({[ "a" := j ]} : gmap string Job) !! id = Some j' → id = "a" ∧ j' = j).
    rewrite lookup_singleton_Some. by intros [<- <-]. }
  constructor.
  - by intros id j' [-> ->]%Hl.
  - by intros id1 id2 j1 j2 [-> _]%Hl [-> _]%Hl.
Qed.

Lemma orphaned_ok : db_ok (s_db orphaned).
Proof. apply single_ok. constructor; done || (intros; vm_compute; done). Qed.

Lemma SweepOnce_recovers_witness :
  let orc := calm (λ _, Ok EmptyString) in let cfg := New (mk_Config 0 0) in let s := orphaned in
  ∃ fuel0, ∀ fuel, (fuel0 ≤ fuel)%nat → ∃ i' s',
    run orc (SweepOnce fuel cfg) 0 s = Some (Ok tt, i', s') ∧
    (∀ id j, pipeline_jobs (s_db s) !! id = Some j → ∃ j',
       pipeline_jobs (s_db s') !! id = Some j' ∧
       revive_row (s_redis s) (s_now s) (s_now s') j j' ∧
       (due (StaleThreshold cfg) (s_now s) j' = true ∨ (j' ≠ j ∧ Status j' = StatusQueued) →
        uuid_String id ∈ rlist (s_redis s') (key (Stage j')))) ∧
    (∀ st, ∃ front back, rlist (s_redis s') (key st) = front ++ rlist (s_redis s) (key st) ++ back) ∧
    (∀ st w, stage_ok st → ¬ alive (s_redis s) (s_now s) w →
       rlist (s_redis s') (processingKey st w) = [] ∧
       ∀ x, x ∈ rlist (s_redis s) (processingKey st w) → x ∈ rlist (s_redis s') (key st)).
Proof. apply SweepOnce_recovers; [apply calm_reliable|apply orphaned_ok]. Defined.

(** Job "a" was made 100 seconds ago, and its id waits on the queue. *)
Definition backlog : shared :=
  mk_shared (with_jobs {[ "a" := queued_job "a" ]} no_rows) (mk_server {[ "queue:test" := ["ua"] ]} ∅) no_ext 100000000000.

Lemma backlog_ok : db_ok (s_db backlog).
Proof. apply single_ok. constructor; done || (intros; vm_compute; done). Qed.

Lemma sweep_pushes_again_witness :
  let orc := calm (λ _, Ok EmptyString) in let cfg := New (mk_Config 0 0) in let j := queued_job "a" in
  ∃ fuel0, ∀ fuel, (fuel0 ≤ fuel)%nat → ∃ i' s' front back,
    run orc (SweepOnce fuel cfg) 0 backlog = Some (Ok tt, i', s') ∧
    rlist (s_redis s') (key (Stage j)) = front ++ rlist (s_redis backlog) (key (Stage j)) ++ back ∧ uuid_String "a" ∈ front ∧
    pipeline_jobs (s_db s') !! "a" = Some j ∧ stale_queued (StaleThreshold cfg) (s_now s') j = true.
Proof. apply sweep_pushes_again; [apply calm_reliable|apply backlog_ok|reflexivity|reflexivity]. Defined.
