(* ===== verification/Concurrency.v ===== *)
(** * Interleaved processes and rely-guarantee reasoning

    Several programs run at once on the shared state of Effects.v: one step of
    the system is one call of one process.  [rg] is a rely-guarantee judgement
    on the programs themselves, with an assertion before each call, and
    [rg_sound] its soundness: in every reachable configuration each process
    is at a point whose assertion holds. *)
From S2P Require Import Prelude Redis Schema Services Effects.
Local Open Scope Z_scope.

Section concurrency.
Context `{UL : UuidLib} `{RS : RedisServer} `{DS : DriveServer}.

(** Process names; a ghost part of the state; which call of a process the
    scheduler may let happen; what must hold when a call may happen; what a
    process's step may do to the state. *)
Context {pid : Type} `{EqDecision pid} {ghost : Type}.
Record gst := mk_gst { g_sh : shared; g_gh : ghost }.
Context (ghost_step : pid → ∀ X, cmd X → Z → ghost → ghost)
  (may : pid → ∀ X, cmd X → outcome → gst → Prop)
  (pre : pid → ∀ X, cmd X → gst → Prop)
  (guar : pid → gst → gst → Prop).

Definition g_db (g : gst) : DB := s_db (g_sh g).
Definition g_redis (g : gst) : rstate := s_redis (g_sh g).
Definition g_now (g : gst) : Z := s_now (g_sh g).

(** The state after the call [c] of process [p]. *)
Definition fire (p : pid) {X} (c : cmd X) (o : outcome) (g : gst) : gst :=
  let s' := (exec o c (g_sh g)).2 in mk_gst s' (ghost_step p X c (s_now s') (g_gh g)).

Definition procs := pid → prog unit.

Definition set_proc (p : pid) (pr : prog unit) (ps : procs) : procs :=
  λ q, if decide (q = p) then pr else ps q.

(** One step: some process performs the call it is at. *)
Inductive step : gst * procs → gst * procs → Prop :=
| step_call p X (c : cmd X) k o g ps :
    ps p = Vis c k → may p X c o g →
    step (g, ps) (fire p c o g, set_proc p (k (exec o c (g_sh g)).1) ps).

Definition stable (p : pid) (P : gst → Prop) : Prop :=
  ∀ q g g', q ≠ p → P g → guar q g g' → P g'.

(** From a state in [P], undisturbed except as the others guarantee, the
    program makes only steps within its guarantee, meets the precondition of
    each call it may make, and ends in [Q]. *)
Fixpoint rg {A} (p : pid) (pr : prog A) (P : gst → Prop) (Q : A → gst → Prop) : Prop :=
  match pr with
  | Ret a => ∀ g, P g → Q a g
  | @Vis _ _ _ _ X c k => ∀ g o, P g → may p X c o g →
      pre p X c g ∧ guar p g (fire p c o g) ∧
      ∃ P', P' (fire p c o g) ∧ stable p P' ∧ rg p (k (exec o c (g_sh g)).1) P' Q
  | NoFuel => True
  end.

Lemma rg_pre {A} p (pr : prog A) (P P' : gst → Prop) Q :
  (∀ g, P g → P' g) → rg p pr P' Q → rg p pr P Q.
Proof. destruct pr as [a|X c k|]; simpl; [by auto| |done]. intros HP H g o Hg. apply H; auto. Qed.

Lemma rg_post {A} p (pr : prog A) P (Q Q' : A → gst → Prop) :
  (∀ a g, Q a g → Q' a g) → rg p pr P Q → rg p pr P Q'.
Proof.
  intros HQ. revert P. induction pr as [a|X c k IH|]; simpl; intros P H; [by auto| |done].
  intros g o Hg Hm. destruct (H g o Hg Hm) as (Hpre & Hgu & P' & HP' & Hst & Hrg).
  split_and!; [done..|]. exists P'. split_and!; [done..|]. by apply IH.
Qed.

Lemma rg_false {A} p (pr : prog A) Q : rg p pr (λ _, False) Q.
Proof. destruct pr; simpl; [by intros g []|by intros g o []|done]. Qed.

Lemma rg_ret {A} p (a : A) P Q : (∀ g, P g → Q a g) → rg p (mret a) P Q.
Proof. done. Qed.

Lemma rg_bind {A B} p (pr : prog A) (f : A → prog B) P Q Q' :
  rg p pr P Q → (∀ a, rg p (f a) (Q a) Q') → rg p (pr ≫= f) P Q'.
Proof.
  unfold mbind, prog_bind. intros H Hf. revert P H.
  induction pr as [a|X c k IH|]; simpl; intros P H; [by eapply rg_pre|..|done].
  intros g o Hg Hm. destruct (H g o Hg Hm) as (Hpre & Hgu & P' & HP' & Hst & Hrg).
  split_and!; [done..|]. exists P'. split_and!; [done..|]. by apply IH.
Qed.

(** A call whose result leaves a stable assertion. *)
Lemma rg_call {X} p (c : cmd X) P (Q : X → gst → Prop) :
  (∀ x, stable p (Q x)) →
  (∀ g o, P g → may p X c o g →
     pre p X c g ∧ guar p g (fire p c o g) ∧ Q (exec o c (g_sh g)).1 (fire p c o g)) →
  rg p (call c) P Q.
Proof.
  intros Hst H g o Hg Hm. destruct (H g o Hg Hm) as (? & ? & ?). split_and!; [done..|].
  exists (Q (exec o c (g_sh g)).1). split_and!; [done..|]. by intros g' ?.
Qed.

Lemma rg_call_bind {X B} p (c : cmd X) (f : X → prog B) P (Q : X → gst → Prop) Q' :
  (∀ x, stable p (Q x)) →
  (∀ g o, P g → may p X c o g →
     pre p X c g ∧ guar p g (fire p c o g) ∧ Q (exec o c (g_sh g)).1 (fire p c o g)) →
  (∀ x, rg p (f x) (Q x) Q') → rg p (call c ≫= f) P Q'.
Proof. intros Hst H Hf. eapply rg_bind; [by apply rg_call|done]. Qed.

(** ** Soundness *)

Definition at_assertion (c : gst * procs) : Prop := ∀ p, ∃ P,
  P c.1 ∧ stable p P ∧ rg p (c.2 p) P (λ _ _, True).

Lemma at_assertion_step c c' : step c c' → at_assertion c → at_assertion c'.
Proof.
  destruct 1 as [p X c k o g ps Hp Hm]. intros Hat q; cbn [fst snd] in *.
  destruct (Hat p) as (P & HP & Hst & Hrg). cbn [fst snd] in *. rewrite Hp in Hrg.
  destruct (Hrg g o HP Hm) as (_ & Hgu & P' & HP' & Hst' & Hrg').
  unfold set_proc. destruct (decide (q = p)) as [->|Hne]; [by exists P'|].
  destruct (Hat q) as (Pq & HPq & Hstq & Hrgq). exists Pq. split_and!; [|done..].
  by eapply (Hstq p g).
Qed.

Lemma at_assertion_reachable c c' : rtc step c c' → at_assertion c → at_assertion c'.
Proof. induction 1 as [|c1 c2 c3 Hstep _ IH]; [done|]. intros H. apply IH. by eapply at_assertion_step. Qed.

(** Every call a process may make in a reachable configuration meets its
    precondition. *)
Lemma rg_sound g0 ps0 g ps p X (c : cmd X) k o :
  at_assertion (g0, ps0) → rtc step (g0, ps0) (g, ps) →
  ps p = Vis c k → may p X c o g → pre p X c g ∧ guar p g (fire p c o g).
Proof.
  intros H0 Hr Hp Hm. destruct (at_assertion_reachable _ _ Hr H0 p) as (P & HP & _ & Hrg).
  cbn [fst snd] in *. rewrite Hp in Hrg. destruct (Hrg g o HP Hm) as (? & ? & _). done.
Qed.

(** ** Schedules *)

(** Play a schedule: which process makes its next call, and that call's
    outcome; it fails if the process is not at a call it may make. *)
Fixpoint play `{∀ p X c o g, Decision (may p X c o g)} (l : list (pid * outcome)) (c : gst * procs)
    : option (gst * procs) :=
  match l with
  | [] => Some c
  | (p, o) :: l =>
      match c.2 p with
      | Vis cm k =>
          if decide (may p _ cm o c.1)
          then play l (fire p cm o c.1, set_proc p (k (exec o cm (g_sh c.1)).1) c.2)
          else None
      | _ => None
      end
  end.

Lemma play_rtc `{∀ p X c o g, Decision (may p X c o g)} l c c' :
  play l c = Some c' → rtc step c c'.
Proof.
  revert c. induction l as [|[p o] l IH]; intros [g ps]; cbn [play fst snd]; [intros [= <-]; done|].
  destruct (ps p) as [a|X cm k|] eqn:Hp; [done| |done]. case_decide as Hm; [|done].
  intros Hl. eapply rtc_l; [by apply (step_call p X cm k o g ps)|by apply IH].
Qed.

End concurrency.

(** The job a process is about to run its handler on. *)
Definition at_handler `{UL : UuidLib} `{RS : RedisServer} `{DS : DriveServer} (pr : prog unit) : option Job :=
  match pr with
  | Vis c _ => match c with Handle j => Some j | _ => None end
  | _ => None
  end.

Lemma at_handler_Some `{UL : UuidLib} `{RS : RedisServer} `{DS : DriveServer} pr j :
  at_handler pr = Some j → ∃ k, pr = Vis (Handle j) k.
Proof.
  destruct pr as [a|X c k|]; simpl; [done| |done].
  destruct c; try done. intros [= ->]. by exists k.
Qed.

Arguments gst {_ _ _} ghost.
Arguments mk_gst {_ _ _ ghost} g_sh g_gh.
Arguments g_sh {_ _ _ ghost} _.
Arguments g_gh {_ _ _ ghost} _.
