(* ===== verification/System.v ===== *)
(** * The running system: workers, heartbeats, a sweeper and clients at once

    The programs of Worker.v and Sweeper.v and the submitting clients,
    interleaved call by call (Concurrency.v).  The result is mutual exclusion
    of job execution under an explicit timing assumption, and a concrete run
    that violates it without the assumption. *)
From S2P Require Import Prelude Redis Schema Services Effects GoStrings Queue Store Worker Sweeper Concurrency.
Local Open Scope Z_scope.

(** The processes: a worker's main loop and its heartbeat goroutine, the one
    sweeper, and any number of clients that submit jobs. *)
Inductive pid := PWorker (w : string) | PHeart (w : string) | PSweep | PClient (n : nat).

#[global] Instance pid_eq_dec : EqDecision pid.
Proof. solve_decision. Defined.

(** Ghost state: the workers that have entered their loop, and the time of the
    sweeper's last turn of its loop. *)
Record ghost := mk_ghost { started : gset string; sweep_start : Z }.

Section system.
Context `{UL : UuidLib} `{PG : !PgServer} `{RS : RedisServer} `{DS : DriveServer}.

(** [margin] is the time a heartbeat still has to live whenever its worker
    makes a call, and the longest a sweep may take. *)
Context (margin : Z).

Definition track (p : pid) (X : Type) (c : cmd X) (now : Z) (gh : ghost) : ghost :=
  match p, c with
  | PWorker w, CtxDone => mk_ghost ({[ w ]} ∪ started gh) (sweep_start gh)
  | PSweep, CtxDone => mk_ghost (started gh) now
  | _, _ => gh
  end.

(** The timing assumption.  Until a worker enters its loop nothing is asked of
    it; from then on it only makes calls while its heartbeat lives for another
    [margin].  The sweeper finishes a sweep within [margin] of the turn it
    began in. *)
Definition timely (p : pid) (X : Type) (c : cmd X) (o : outcome) (g : gst ghost) : Prop :=
  let t := g_now g + Z.of_N (o_dt o) in
  match p with
  | PWorker w | PHeart w => w ∉ started (g_gh g) ∨ alive (g_redis g) (t + margin) w
  | PSweep => match c with CtxDone => True | _ => t ≤ sweep_start (g_gh g) + margin end
  | PClient _ => True
  end.

(** Job [id] is running under the name of worker [w]. *)
Definition held (id : uuid) (w : string) (db : DB) : Prop :=
  ∃ j, pipeline_jobs db !! id = Some j ∧ Status j = StatusRunning ∧ WorkerID j = Some w.

Definition same_row (id : uuid) (db db' : DB) : Prop := pipeline_jobs db' !! id = pipeline_jobs db !! id.

(** What must hold when a worker calls its handler. *)
Definition handler_pre (p : pid) (X : Type) (c : cmd X) (g : gst ghost) : Prop :=
  match p, c with
  | PWorker w, Handle j => held (ID j) w (g_db g)
  | _, _ => True
  end.

(** The global invariant. *)
Record sys_ok (g : gst ghost) : Prop := {
  sys_db : db_ok (g_db g);
  sys_held id w : held id w (g_db g) → w ∈ started (g_gh g);
  sys_start : sweep_start (g_gh g) ≤ g_now g
}.

(** ** The life of a job *)

(** A claim, and how a running job is settled. *)
Inductive transition (j : Job) : Job → Prop :=
| tr_claimed w t : Status j = StatusQueued → transition j (claim_row w t j)
| tr_done t : Status j = StatusRunning → transition j (done_row t j)
| tr_advanced stage t : Status j = StatusRunning → transition j (advance_row stage t j)
| tr_failed msg next t j' : Status j = StatusRunning → failed_row msg next t j = Ok j' → transition j j'.

(** No row is removed, each makes at most one transition, new rows wait. *)
Record rows_move (m m' : gmap uuid Job) : Prop := {
  mv_old id j : m !! id = Some j → ∃ j', m' !! id = Some j' ∧ (j' = j ∨ transition j j');
  mv_new id j' : m' !! id = Some j' → m !! id = None → Status j' = StatusQueued
}.

#[export] Instance rows_move_refl : Reflexive rows_move.
Proof. intros m. split; [by intros id j ?; exists j; split; [|left]|]. intros id j' H1 H2. congruence. Qed.

Lemma rows_move_insert m id j j' : m !! id = Some j → transition j j' → rows_move m (<[id := j']> m).
Proof.
  intros Hj Ht. split; intros id'; destruct (decide (id' = id)) as [->|Hne];
    rewrite ?lookup_insert_eq, ?lookup_insert_ne by done.
  - intros j0 ?. assert (j0 = j) as -> by congruence. exists j'. by split; [|right].
  - intros j0 ?. exists j0. by split; [|left].
  - intros ? _ ?. congruence.
  - intros j0 H1 H2. congruence.
Qed.

(** ** Guarantees *)

Record common (g g' : gst ghost) : Prop := {
  cm_now : g_now g ≤ g_now g';
  cm_ok : sys_ok g → sys_ok g';
  cm_started : started (g_gh g) ⊆ started (g_gh g');
  cm_rows : rows_move (pipeline_jobs (g_db g)) (pipeline_jobs (g_db g'))
}.

(** Nobody's liveness changes, other than by the passing of time. *)
Definition hb_same (g g' : gst ghost) : Prop :=
  ∀ t w, g_now g' ≤ t → alive (g_redis g') t w ↔ alive (g_redis g) t w.

(** A step of worker [w] or its heartbeat. *)
Record acts (w : string) (g g' : gst ghost) : Prop := {
  ac_alive : w ∉ started (g_gh g) ∨ alive (g_redis g) (g_now g' + margin) w;
  ac_start : sweep_start (g_gh g') = sweep_start (g_gh g);
  ac_others t w' : g_now g' ≤ t → w' ≠ w → alive (g_redis g') t w' ↔ alive (g_redis g) t w';
  ac_kept t : g_now g' ≤ t ≤ g_now g' + margin → alive (g_redis g) t w → alive (g_redis g') t w;
  ac_held id w' : w' ≠ w → held id w' (g_db g) → same_row id (g_db g) (g_db g')
}.

Definition guar (p : pid) (g g' : gst ghost) : Prop :=
  common g g' ∧
  match p with
  | PWorker w => acts w g g'
  | PHeart w => acts w g g' ∧ g_db g' = g_db g
  | PSweep => hb_same g g' ∧
      ∀ id w, held id w (g_db g) → same_row id (g_db g) (g_db g') ∨ ¬ alive (g_redis g') (g_now g') w
  | PClient _ => hb_same g g' ∧ g_gh g' = g_gh g ∧
      ∀ id w, held id w (g_db g) → same_row id (g_db g) (g_db g')
  end.

Lemma held_same id w db db' : same_row id db db' → held id w db → held id w db'.
Proof. intros Hs (j & Hj & H). exists j. split; [|done]. unfold same_row in Hs. congruence. Qed.

(** The step relation and the judgement of this system. *)
Abbreviation fires := (fire track).
Abbreviation stab := (stable guar).
Abbreviation prove := (rg track timely handler_pre guar).

Lemma fire_now p {X} (c : cmd X) o g : g_now (fires p c o g) = g_now g + Z.of_N (o_dt o).
Proof. unfold g_now, fire. cbn [g_sh]. by rewrite exec_now. Qed.

(** ** Steps that touch nobody's liveness and no table *)

Record frame (g g' : gst ghost) : Prop := {
  fr_db : g_db g' = g_db g;
  fr_gh : g_gh g' = g_gh g;
  fr_hb : hb_same g g';
  fr_now : g_now g ≤ g_now g'
}.

Lemma sys_ok_frame g g' : sys_ok g → frame g g' → sys_ok g'.
Proof.
  intros [Hdb Hh Hs] [Fdb Fgh Fhb Fnow]. constructor; [by rewrite Fdb| |].
  - intros id w. rewrite Fdb, Fgh. apply Hh.
  - rewrite Fgh. lia.
Qed.

Lemma frame_guar p X (c : cmd X) o g :
  timely p X c o g → frame g (fires p c o g) → guar p g (fires p c o g).
Proof.
  intros Hm Hf. pose proof Hf as [Hdb Hgh Hhb Hnow]. split.
  { constructor; [done|intros ?; by eapply sys_ok_frame|by rewrite Hgh|by rewrite Hdb]. }
  assert (Hacts : ∀ w, w ∉ started (g_gh g) ∨ alive (g_redis g) (g_now g + Z.of_N (o_dt o) + margin) w →
    acts w g (fires p c o g)).
  { intros w Hal. constructor; [| | | |].
    - by rewrite fire_now.
    - by rewrite Hgh.
    - intros t w' Ht _. by apply Hhb.
    - intros t [Ht _] Ha. by apply Hhb.
    - intros id w' _ H. by rewrite Hdb. }
  destruct p as [w|w| |n]; simpl in Hm.
  - by apply Hacts.
  - split; [by apply Hacts|done].
  - split; [done|]. intros id w H. left. by rewrite Hdb.
  - split_and!; [done..|]. intros id w H. by rewrite Hdb.
Qed.

(** An assertion such steps keep. *)
Definition quiet (P : gst ghost → Prop) : Prop := ∀ g g', P g → frame g g' → P g'.

(** A call that is such a step of [p] whatever its outcome. *)
Definition frame_cmd {X} (p : pid) (c : cmd X) : Prop := ∀ o g, frame g (fires p c o g).

Lemma prove_frame {X} p (c : cmd X) P :
  quiet P → stab p P → frame_cmd p c → (∀ g, P g → handler_pre p X c g) →
  prove p (call c) P (λ _, P).
Proof.
  intros Hq Hst Hf Hpre. apply rg_call; [done|]. intros g o Hg Hm.
  split_and!; [by apply Hpre|by apply frame_guar|by eapply Hq].
Qed.

(** ** Which calls are such steps *)

Lemma heartbeatKey_not_list k w : list_key k → heartbeatKey w ≠ k.
Proof. intros [Hk|Hk]; apply prefix_spec in Hk as [t ->]; discriminate. Qed.

(** A Redis function that leaves the liveness of workers alone. *)
Definition hb_frame {X} (f : Z → rstate → X * rstate) : Prop :=
  ∀ t r t' w, t ≤ t' → alive (f t r).2 t' w ↔ alive r t' w.

Lemma frame_Redis {X} p (f : Z → rstate → result X * rstate) : hb_frame f → frame_cmd p (Redis f).
Proof.
  intros Hf o g. constructor.
  - apply exec_Redis_db.
  - unfold fire, track. simpl. by destruct p.
  - intros t w Ht. rewrite fire_now in Ht. unfold fire, g_redis. simpl.
    destruct (o_fault o); simpl; [|done|]; destruct (f _ _) as [x r] eqn:E; simpl;
      specialize (Hf (g_now g + Z.of_N (o_dt o)) (g_redis g) t w Ht); unfold g_now, g_redis in *;
      by rewrite E in Hf.
  - rewrite fire_now. lia.
Qed.

Lemma frame_Sql_read {X} p (f : Z → DB → result X) : frame_cmd p (Sql (λ t db, (f t db, db))).
Proof.
  intros o g. constructor.
  - unfold g_db, fire. simpl. by destruct (o_fault o).
  - unfold fire, track. simpl. by destruct p.
  - intros t w _. unfold g_redis, fire. cbn [g_sh]. by rewrite exec_Sql_redis.
  - rewrite fire_now. lia.
Qed.

(** The questions to the surroundings, except the sweeper's and the worker's
    turn marks. *)
Lemma frame_plain {X} p (c : cmd X) :
  (∀ o s, (exec o c s).2 = elapse o s) → (∀ now gh, track p X c now gh = gh) → frame_cmd p c.
Proof.
  intros Hc Ht o g. constructor.
  - unfold g_db, fire. cbn [g_sh]. by rewrite Hc.
  - unfold fire. simpl. by rewrite Ht.
  - intros t w _. unfold g_redis, fire. cbn [g_sh]. by rewrite Hc.
  - rewrite fire_now. lia.
Qed.

Lemma hb_frame_LPush k v : list_key k → hb_frame (λ _ r, (Ok tt, LPush k v r)).
Proof.
  intros Hk t r t' w _. unfold alive. simpl. rewrite rlist_LPush, rstr_LPush by done.
  by rewrite decide_False by (by apply heartbeatKey_not_list).
Qed.

Lemma hb_frame_LRem k v : list_key k → hb_frame (λ _ r, (Ok tt, LRem k 1 v r)).
Proof.
  intros Hk t r t' w _. unfold alive. simpl. rewrite rlist_LRem, rstr_LRem by done.
  by rewrite decide_False by (by apply heartbeatKey_not_list).
Qed.

Lemma alive_LMove src dst a b r t w :
  list_key src → list_key dst → src ≠ dst →
  alive (LMove src dst a b r).2 t w ↔ alive r t w.
Proof.
  intros Hs Hd Hne. unfold alive. rewrite rstr_LMove by done.
  destruct (take_side a (rlist r src)) as [ [l x]|] eqn:E.
  - destruct (LMove_Some r src dst a b l x) as [_ Hl]; [done..|].
    by rewrite Hl, !decide_False by (by apply heartbeatKey_not_list).
  - by rewrite (LMove_empty r src dst) by done.
Qed.

Lemma frame_LMove p src dst a b :
  list_key src → list_key dst → src ≠ dst → frame_cmd p (cli_LMove src dst a b).
Proof.
  intros Hs Hd Hne. apply frame_Redis. intros t r t' w _. simpl.
  rewrite <- (alive_LMove src dst a b r t' w) by done. by destruct (LMove _ _ _ _ _) as [ [x|] r'].
Qed.

(** ** Assertions of a worker *)

(** The worker [w] is in its loop. *)
Definition in_loop (w : string) (g : gst ghost) : Prop := sys_ok g ∧ w ∈ started (g_gh g).

(** ... and holds job [id], unless its heartbeat has lapsed for good. *)
Definition holding (w : string) (id : uuid) (g : gst ghost) : Prop :=
  in_loop w g ∧ (held id w (g_db g) ∨ ¬ alive (g_redis g) (g_now g) w).

Lemma stable_sys_ok p : stab p sys_ok.
Proof. intros q g g' _ Hok [Hc _]. by apply Hc. Qed.

Lemma quiet_sys_ok : quiet sys_ok.
Proof. intros g g'. apply sys_ok_frame. Qed.

Lemma stable_in_loop p w : stab p (in_loop w).
Proof. intros q g g' _ [Hok Hw] [ [] _]. split; [auto|set_solver]. Qed.

Lemma quiet_in_loop w : quiet (in_loop w).
Proof. intros g g' [Hok Hw] Hf. split; [by eapply sys_ok_frame|by rewrite (fr_gh _ _ Hf)]. Qed.

Lemma alive_later r t t' w : t ≤ t' → ¬ alive r t w → ¬ alive r t' w.
Proof. intros Ht Hd Ha. apply Hd. by eapply alive_back. Qed.

(** [w] stays dead through a step of another worker, and cannot step itself. *)
Lemma dead_acts w w' g g' :
  0 ≤ margin → common g g' → acts w' g g' → w ∈ started (g_gh g) →
  ¬ alive (g_redis g) (g_now g) w → w' ≠ w ∧ ¬ alive (g_redis g') (g_now g') w.
Proof.
  intros Hm [Hnow _ _] [] Hw Hd. assert (w' ≠ w) as Hne.
  { intros ->. destruct ac_alive0 as [?|Ha]; [done|]. apply Hd. eapply alive_back, Ha. lia. }
  split; [done|]. rewrite ac_others0 by done. by eapply alive_later.
Qed.

Lemma stable_holding w id : 0 ≤ margin → stab (PWorker w) (holding w id).
Proof.
  intros Hm q g g' Hne [Hl Hh] Hg. pose proof (stable_in_loop _ w q g g' Hne Hl Hg) as Hl'.
  split; [done|]. destruct Hl as [_ Hw]. destruct Hg as [Hc Hg].
  destruct q as [w'|w'| |n].
  - assert (w' ≠ w) as Hne' by congruence. destruct Hh as [Hh|Hd]; [left|right].
    + eapply held_same; [by eapply (ac_held _ _ _ Hg)|done].
    + by eapply dead_acts.
  - destruct Hg as [Ha Hdb]. destruct Hh as [Hh|Hd]; [left; by rewrite Hdb|right].
    by eapply dead_acts.
  - destruct Hg as [Hhb Hg]. destruct Hh as [Hh|Hd]; [|right].
    + destruct (Hg id w Hh) as [Hs|?]; [left; by eapply held_same|by right].
    + rewrite (Hhb _ w) by done. eapply alive_later, Hd. apply Hc.
  - destruct Hg as (Hhb & _ & Hg). destruct Hh as [Hh|Hd]; [left; eapply held_same; eauto|right].
    rewrite (Hhb _ w) by done. eapply alive_later, Hd. apply Hc.
Qed.

Lemma quiet_holding w id : quiet (holding w id).
Proof.
  intros g g' [Hl Hh] Hf. split; [by eapply quiet_in_loop|]. pose proof Hf as [Hdb _ Hhb Hnow].
  destruct Hh as [Hh|Hd]; [left; by rewrite Hdb|right]. rewrite (Hhb _ w) by done. by eapply alive_later.
Qed.

(** A worker that may make a call holds the job it is holding. *)
Lemma holding_held w id X (c : cmd X) o g :
  0 ≤ margin → timely (PWorker w) X c o g → holding w id g → held id w (g_db g).
Proof.
  intros Hm Ht [ [_ Hw] [Hh|Hd] ]; [done|]. destruct Ht as [?|Ha]; [done|].
  destruct Hd. eapply alive_back, Ha. lia.
Qed.

(** ** Writing a heartbeat *)

Lemma guar_beat p w v ttl o g :
  0 ≤ margin < ttl → p = PWorker w ∨ p = PHeart w → sys_ok g →
  timely p _ (cli_Set (heartbeatKey w) v ttl) o g →
  let g' := fires p (cli_Set (heartbeatKey w) v ttl) o g in guar p g g' ∧ sys_ok g'.
Proof.
  intros Hm Hp Hok Ht g'. set (c := cli_Set (heartbeatKey w) v ttl) in *.
  assert (Hdb : g_db g' = g_db g) by apply exec_Redis_db.
  assert (Hgh : g_gh g' = g_gh g) by (by destruct Hp as [->| ->]).
  assert (Hnow : g_now g' = g_now g + Z.of_N (o_dt o)) by apply fire_now.
  assert (Hok' : sys_ok g').
  { destruct Hok as [H1 H2 H3]. constructor; [by rewrite Hdb|intros id w'|rewrite Hgh; lia].
    rewrite Hdb, Hgh. apply H2. }
  assert (Hr : g_redis g' = g_redis g ∨ g_redis g' = SetKey (g_now g') (heartbeatKey w) v ttl (g_redis g)).
  { rewrite Hnow. unfold g_redis, g', fire, c, cli_Set. cbn [g_sh exec].
    destruct (o_fault o); cbn [with_fault snd fst]; [right|left|right]; done. }
  assert (Hal : ∀ t w', g_now g' ≤ t → alive (SetKey (g_now g') (heartbeatKey w) v ttl (g_redis g)) t w' ↔
    if decide (w' = w) then rlist (g_redis g) (heartbeatKey w) ≠ [] ∨ t < g_now g' + ttl
    else alive (g_redis g) t w').
  { intros t w' Hle. unfold alive. pose proof (heartbeatKey_string w).
    rewrite rlist_SetKey, rstr_SetKey by (done || lia). case_decide as Hk.
    - apply heartbeatKey_inj in Hk as ->. rewrite (decide_True (P := w = w)) by done.
      case_decide; split; intros [?|H']; try (by left); try (by right; eauto).
    - rewrite decide_False; [done|]. by intros ->. }
  assert (Hacts : acts w g g').
  { constructor.
    - rewrite Hnow. by destruct Hp as [->| ->].
    - by rewrite Hgh.
    - intros t w' Hle Hne. destruct Hr as [-> | ->]; [done|]. rewrite Hal by done.
      by rewrite decide_False.
    - intros t Hle Ha. destruct Hr as [-> | ->]; [done|]. apply Hal; [lia|].
      rewrite decide_True by done. right. lia.
    - intros id w' _ H. by rewrite Hdb. }
  split; [|done]. split; [constructor; [lia|done|by rewrite Hgh|by rewrite Hdb]|]. by destruct Hp as [->| ->].
Qed.

Lemma prove_Heartbeat p w ttl :
  0 ≤ margin < ttl → p = PWorker w ∨ p = PHeart w →
  prove p (Heartbeat w ttl) sys_ok (λ _, sys_ok).
Proof.
  intros Hm Hp. unfold Heartbeat. eapply rg_bind.
  { apply prove_frame; [apply quiet_sys_ok|apply stable_sys_ok| |by destruct Hp as [->| ->] ].
    apply frame_plain; [done|]. by destruct Hp as [->| ->]. }
  intros now. eapply (rg_call_bind _ _ _ _ _ _ _ _ (λ _, sys_ok)).
  - intros _. apply stable_sys_ok.
  - intros g o Hg Ht. destruct (guar_beat p w (unix_text now) ttl o g Hm Hp Hg Ht).
    split_and!; [by destruct Hp as [->| ->]|done..].
  - intros [u|e]; by apply rg_ret.
Qed.

(** ** Writing a job's row *)

(** The row [id] may change if it was queued or held by [w], and if it is
    running afterwards, then under [w]. *)
Definition row_by (w : string) (id : uuid) (db db' : DB) : Prop :=
  db' = db ∨ ∃ j j', pipeline_jobs db !! id = Some j ∧
    db' = with_jobs (<[id := j']> (pipeline_jobs db)) db ∧
    (Status j = StatusRunning → WorkerID j = Some w) ∧
    (Status j' = StatusRunning → WorkerID j' = Some w) ∧ transition j j'.

Lemma row_by_rows w id db db' : row_by w id db db' → rows_move (pipeline_jobs db) (pipeline_jobs db').
Proof. intros [->|(j & j' & Hj & -> & _ & _ & Ht)]; [done|by eapply rows_move_insert]. Qed.

Lemma row_by_update w id where_ f db :
  (∀ j j', pipeline_jobs db !! id = Some j → where_ j = true → f j = Ok j' →
    (Status j = StatusRunning → WorkerID j = Some w) ∧
    (Status j' = StatusRunning → WorkerID j' = Some w) ∧ transition j j') →
  row_by w id db (sql_update id where_ f db).2.
Proof.
  intros H. destruct (sql_update_cases id where_ f db)
    as [(j & j' & Hj & Hw & Hf & _ & ->)|[_ ->] ]; [right|by left].
  destruct (H j j') as (? & ? & ?); [done..|]. by exists j, j'.
Qed.

Lemma row_by_held w id db db' id' w' :
  row_by w id db db' → w' ≠ w → held id' w' db → same_row id' db db'.
Proof.
  intros [->|(j & j' & Hj & -> & Hr & _)] Hne; [done|].
  intros (j0 & Hj0 & Hs0 & Hw0). unfold same_row. simpl.
  rewrite lookup_insert_ne; [done|]. intros ->. simplify_eq. rewrite Hr in Hw0 by done. congruence.
Qed.

Lemma row_by_other w id db db' id' w' :
  row_by w id db db' → id' ≠ id → held id' w' db → held id' w' db'.
Proof.
  intros [->|(j & j' & Hj & -> & _)] Hne; [done|]. intros (j0 & Hj0 & ?). exists j0.
  split; [|done]. simpl. by rewrite lookup_insert_ne.
Qed.

Lemma row_by_new w id db db' id' w' :
  row_by w id db db' → held id' w' db' → held id' w' db ∨ w' = w.
Proof.
  intros [->|(j & j' & Hj & -> & _ & Hr & _)]; [by left|].
  intros (j0 & Hj0 & Hs0 & Hw0). simpl in Hj0.
  apply lookup_insert_Some in Hj0 as [ [<- <-]|[Hne Hj0] ]; [right|left; by exists j0].
  rewrite Hr in Hw0 by done. congruence.
Qed.

(** The effect of an SQL call: the statement's, or none. *)
Lemma fire_Sql {X} p (f : Z → DB → result X * DB) o g :
  let g' := fires p (Sql f) o g in
  g_redis g' = g_redis g ∧ g_gh g' = g_gh g ∧
  ((g_db g' = (f (g_now g') (g_db g)).2 ∧
      (exec o (Sql f) (g_sh g)).1 = (f (g_now g') (g_db g)).1) ∨
   (∃ msg, (exec o (Sql f) (g_sh g)).1 = Err (EText msg) ∧
      (g_db g' = g_db g ∨ g_db g' = (f (g_now g') (g_db g)).2))).
Proof.
  cbv zeta. pose proof (exec_Sql_cases o f (g_sh g)) as H. pose proof (fire_now p (Sql f) o g) as Ht.
  unfold g_db, g_redis, g_now, fire in *. cbn [g_sh g_gh] in *.
  destruct (exec o (Sql f) (g_sh g)) as [x s']. destruct H as (_ & Hr & H). cbn [fst snd] in *.
  rewrite Ht. split_and!; [done|by destruct p|]. naive_solver.
Qed.

(** A worker's write of the row it may write is within its guarantee. *)
Lemma guar_write {X} w id (f : Z → DB → result X * DB) o g :
  in_loop w g → timely (PWorker w) _ (Sql f) o g →
  (∀ t, db_ok (f t (g_db g)).2) → (∀ t, row_by w id (g_db g) (f t (g_db g)).2) →
  let g' := fires (PWorker w) (Sql f) o g in guar (PWorker w) g g' ∧ in_loop w g'.
Proof.
  intros [Hok Hw] Ht Hdbok Hrow g'. destruct (fire_Sql (PWorker w) f o g) as (Hr & Hgh & Hc).
  fold g' in Hr, Hgh, Hc.
  assert (Hnow : g_now g' = g_now g + Z.of_N (o_dt o)) by apply fire_now.
  assert (Hd : row_by w id (g_db g) (g_db g') ∧ db_ok (g_db g')).
  { destruct Hc as [ [-> _]|(msg & _ & [-> | ->])]; [by split| |by split].
    split; [by left|apply Hok]. }
  destruct Hd as [Hd Hdb'].
  assert (Hok' : sys_ok g').
  { constructor; [done| |rewrite Hgh; pose proof (sys_start _ Hok); lia].
    intros id' w' Hh. rewrite Hgh. destruct (row_by_new _ _ _ _ _ _ Hd Hh) as [Hh'| ->]; [|done].
    by apply (sys_held _ Hok id'). }
  split; [|split; [done|by rewrite Hgh] ]. split; [constructor; [lia|done|by rewrite Hgh|by eapply row_by_rows]|].
  constructor.
  - rewrite Hnow. exact Ht.
  - by rewrite Hgh.
  - intros t w' _ _. by rewrite Hr.
  - intros t _. by rewrite Hr.
  - intros id' w' Hne. by eapply row_by_held.
Qed.

(** ** Pushing *)

Lemma prove_LPush p P (k v : string) :
  quiet P → stab p P → list_key k → prove p (call (cli_LPush k v)) P (λ _, P).
Proof.
  intros. apply prove_frame; [done..|by apply frame_Redis, hb_frame_LPush|].
  intros g _. by destruct p.
Qed.

Lemma prove_Push p P st id : quiet P → stab p P → prove p (Push st id) P (λ _, P).
Proof.
  intros. eapply rg_bind; [apply prove_LPush; [done..|apply key_list]|].
  intros [u|e]; by apply rg_ret.
Qed.

(** ** The worker *)

Section worker_process.
Context (Hm : 0 ≤ margin) (cfg : Worker.Config).
Abbreviation w := (c_WorkerID cfg).

Ltac quietly := first
  [ apply quiet_in_loop | apply quiet_holding | apply quiet_sys_ok
  | apply stable_in_loop | by apply stable_holding | apply stable_sys_ok ].

Lemma prove_Ack P st id :
  quiet P → stab (PWorker w) P → prove (PWorker w) (Ack st w id) P (λ _, P).
Proof.
  intros. eapply rg_bind.
  - apply prove_frame; [done..| |done]. apply frame_Redis, hb_frame_LRem, processingKey_list.
  - intros [u|e]; by apply rg_ret.
Qed.

Lemma prove_BlockingPop P st tmo :
  quiet P → stab (PWorker w) P → prove (PWorker w) (BlockingPop st w tmo) P (λ _, P).
Proof.
  intros. eapply rg_bind.
  - apply prove_frame; [done..| |done].
    apply frame_LMove; [apply key_list|apply processingKey_list|apply key_processingKey].
  - intros [x|e]; [by apply rg_ret|]. by destruct (errors_Is e redisNil); apply rg_ret.
Qed.

(** After a successful claim the worker holds the job. *)
Lemma prove_ClaimJob id :
  prove (PWorker w) (ClaimJob id w) (in_loop w)
    (λ r, match r with Ok _ => holding w id | Err _ => in_loop w end).
Proof.
  unfold ClaimJob. eapply (rg_call_bind _ _ _ _ _ _ _ _
    (λ r, match query_row r with Ok _ => holding w id | Err _ => in_loop w end)).
  - intros r. destruct (query_row r); quietly.
  - intros g o Hl Ht.
    assert (Hrow : ∀ t, row_by w id (g_db g) (sql_claim id w t (g_db g)).2).
    { intros t. apply row_by_update. intros j j' _ Hq%is_status_true [= <-].
      split; [congruence|split; [done|by constructor] ]. }
    destruct (guar_write w id (sql_claim id w) o g Hl Ht) as [Hg Hl']; [|done|].
    { intros t. apply (exec_stmt_ok (SClaim id w)), Hl. }
    split_and!; [done..|]. destruct (fire_Sql (PWorker w) (sql_claim id w) o g) as (_ & _ & Hc).
    destruct (query_row _) as [u|e] eqn:Hr; [|done]. split; [done|]. left.
    destruct Hc as [ [-> Hx]|(msg & Hx & _)]; rewrite Hx in Hr; [|done].
    set (t := g_now _) in *. clearbody t. unfold query_row in Hr.
    destruct (sql_claim id w t (g_db g)).1 as [n|e'] eqn:E; [|done].
    destruct (sql_update_range _ _ _ _ _ E) as [->| ->]; [done|].
    apply sql_claim_Ok in E as (j & Hj & Hq & ->). exists (claim_row w t j).
    simpl. by rewrite lookup_insert_eq.
  - intros r. destruct (query_row r) as [u|e]; [by apply rg_ret|].
    by destruct (errors_Is e pgxErrNoRows); apply rg_ret.
Qed.

(** Reading the held job gives that job. *)
Lemma prove_GetJob id :
  prove (PWorker w) (GetJob id) (holding w id)
    (λ r g, holding w id g ∧ match r with Ok j => ID j = id | Err _ => True end).
Proof.
  unfold GetJob. eapply (rg_call_bind _ _ _ _ _ _ _ _
    (λ r g, holding w id g ∧ match r with Ok j => ID j = id | Err _ => True end)).
  - intros r q g g' Hne [Hh Hid] Hg. split; [|done]. by eapply stable_holding.
  - intros g o Hh Ht. pose proof (frame_Sql_read (PWorker w) (λ _ db,
      match pipeline_jobs db !! id with
      | Some j => Ok j | None => Err (ESentinel pgxErrNoRows) end) o g) as Hf.
    split_and!; [done|by apply frame_guar|by eapply quiet_holding|].
    destruct Hh as [ [Hok _] _]. simpl. destruct (o_fault o); simpl; [|done..].
    unfold g_db in *. destruct (pipeline_jobs (s_db (g_sh g)) !! id) as [j|] eqn:Hj; [|done].
    by apply (ok_id _ _ _ (ok_jobs _ (sys_db _ Hok) _ _ Hj)).
  - intros [j|e]; [by apply rg_ret|].
    destruct (errors_Is e pgxErrNoRows); apply rg_ret; by intros g [? _].
Qed.

(** Writing the row of the held job, whatever to, so long as it is not left
    running under another's name. *)
Lemma prove_settle_call id (f : Z → DB → result Z * DB) where_ (h : Z → Job → result Job) :
  (∀ t db, f t db = sql_update id where_ (h t) db) →
  (∀ t db, db_ok db → db_ok (f t db).2) →
  (∀ t j j', h t j = Ok j' → Status j' ≠ StatusRunning ∧ (Status j = StatusRunning → transition j j')) →
  prove (PWorker w) (call (Sql f)) (holding w id) (λ _, in_loop w).
Proof.
  intros Hf Hok Hh. apply rg_call; [intros _; quietly|]. intros g o Hhold Ht.
  pose proof (holding_held _ _ _ _ _ _ Hm Ht Hhold) as (j & Hj & Hs & Hw).
  destruct Hhold as [Hl _].
  destruct (guar_write w id f o g Hl Ht) as [Hg Hl'].
  - intros t. apply Hok, Hl.
  - intros t. rewrite Hf. apply row_by_update. intros j0 j' Hj0 _ Hj'. simplify_eq.
    destruct (Hh t _ _ Hj') as [Hr Htr]. split; [done|]. split; [done|auto].
  - done.
Qed.

Lemma holding_in_loop id g : holding w id g → in_loop w g.
Proof. by intros [? _]. Qed.

Lemma prove_MarkFailed id msg next :
  prove (PWorker w) (MarkFailed id msg next) (holding w id) (λ _, in_loop w).
Proof.
  eapply rg_bind.
  { apply (prove_settle_call _ _ (λ _, true) (failed_row msg next)).
    - done.
    - intros t db. apply (exec_stmt_ok (SMarkFailed id msg next)).
    - intros t j j' Hf. split; [|intros ?; by eapply tr_failed]. unfold failed_row in Hf. destruct (_ >? _); [done|].
      injection Hf as <-. simpl. by destruct (_ >=? _). }
  intros r. by apply rg_ret.
Qed.

Lemma prove_AdvanceJob id stage :
  prove (PWorker w) (AdvanceJob id stage) (holding w id) (λ _, in_loop w).
Proof.
  eapply rg_bind.
  { apply (prove_settle_call _ _ (is_status StatusRunning) (λ t j, Ok (advance_row stage t j))).
    - done.
    - intros t db. apply (exec_stmt_ok (SAdvance id stage)).
    - intros t j j' [= <-]. split; [done|by constructor]. }
  intros r. by apply rg_ret.
Qed.

Lemma prove_MarkDone id :
  prove (PWorker w) (MarkDone id) (holding w id) (λ _, in_loop w).
Proof.
  eapply rg_bind.
  { apply (prove_settle_call _ _ (λ _, true) (λ t j, Ok (done_row t j))).
    - done.
    - intros t db. apply (exec_stmt_ok (SMarkDone id)).
    - intros t j j' [= <-]. split; [done|by constructor]. }
  intros r. by apply rg_ret.
Qed.

(** A question to the surroundings keeps the job. *)
Lemma prove_ask {X} id (c : cmd X) :
  (∀ o s, (exec o c s).2 = elapse o s) → (∀ now gh, track (PWorker w) X c now gh = gh) →
  (∀ g, holding w id g → handler_pre (PWorker w) X c g) →
  prove (PWorker w) (call c) (holding w id) (λ _, holding w id).
Proof.
  intros Hc Ht Hp. apply prove_frame; [quietly..| |done]. by apply frame_plain.
Qed.

(** The handler runs with the job held under the worker's name. *)
Lemma prove_Handle id job :
  ID job = id → prove (PWorker w) (call (Handle job)) (holding w id) (λ _, holding w id).
Proof.
  intros Hid. apply rg_call; [intros _; quietly|]. intros g o Hh Ht.
  assert (Hf : frame g (fires (PWorker w) (Handle job) o g)) by (by apply frame_plain).
  split_and!; [|by apply frame_guar|by eapply quiet_holding].
  simpl. rewrite Hid. by eapply holding_held.
Qed.

Lemma prove_process_job id job :
  ID job = id → prove (PWorker w) (process_job id job) (holding w id) (λ _, in_loop w).
Proof.
  intros Hid. unfold process_job. eapply rg_bind; [by apply prove_Handle|].
  intros [stage|he]; [case_decide|].
  - eapply rg_bind; [apply prove_MarkDone|]. intros [u|e]; by apply rg_ret.
  - eapply rg_bind; [apply prove_AdvanceJob|]. intros [u|e]; [|by apply rg_ret].
    eapply rg_bind; [apply prove_Push; quietly|]. intros [u'|e]; by apply rg_ret.
  - eapply rg_bind; [by apply prove_ask|]. intros now.
    eapply rg_bind; [by apply prove_ask|]. intros x.
    eapply rg_bind; [apply prove_MarkFailed|]. intros [u|e]; by apply rg_ret.
Qed.

Lemma prove_process_popped raw :
  prove (PWorker w) (process_popped cfg raw) (in_loop w) (λ _, in_loop w).
Proof.
  unfold process_popped. destruct (uuid_Parse raw) as [id|e]; [|by apply rg_ret].
  eapply rg_bind; [apply prove_ClaimJob|]. intros [u|e].
  - eapply rg_bind; [apply prove_GetJob|]. intros [job|e].
    + destruct (decide (ID job = id)) as [Hid|Hid].
      * eapply rg_pre; [|by apply prove_process_job]. by intros g [? _].
      * apply (rg_pre _ _ _ _ _ _ _ (λ _, False)); [by intros g [_ ?]|apply rg_false].
    + apply rg_ret. intros g [? _]. by eapply holding_in_loop.
  - destruct (errors_Is e ErrJobNotClaimable); by apply rg_ret.
Qed.

Lemma prove_ProcessOne : prove (PWorker w) (ProcessOne cfg) (in_loop w) (λ _, in_loop w).
Proof.
  unfold ProcessOne. eapply rg_bind; [apply prove_BlockingPop; quietly|]. intros [raw|e].
  - eapply rg_bind; [apply prove_process_popped|]. intros res.
    eapply rg_bind; [apply prove_Ack; quietly|]. intros ?. by apply rg_ret.
  - destruct (errors_Is e ErrEmpty); by apply rg_ret.
Qed.

(** Asking whether to stop marks the worker as being in its loop. *)
Lemma prove_turn : prove (PWorker w) (call CtxDone) sys_ok (λ _, in_loop w).
Proof.
  apply rg_call; [intros _; quietly|]. intros g o Hok Ht. set (g' := fires _ _ _ _).
  assert (Hnow : g_now g' = g_now g + Z.of_N (o_dt o)) by apply fire_now.
  assert (Hst : started (g_gh g') = {[ w ]} ∪ started (g_gh g)) by done.
  assert (Hok' : sys_ok g').
  { destruct Hok as [H1 H2 H3]. constructor; [done| |simpl in *; lia].
    intros id w' Hh. rewrite Hst. apply elem_of_union. right. by eapply H2. }
  split_and!; [done| |by split; [|rewrite Hst; set_solver] ].
  split; [constructor; [lia|done|rewrite Hst; set_solver|done]|].
  constructor; [by rewrite Hnow|done..].
Qed.

Lemma prove_run_loop fuel :
  prove (PWorker w) (run_loop fuel cfg) sys_ok (λ _ _, True).
Proof.
  induction fuel as [|fuel IH]; [done|]. cbn [run_loop].
  assert (Hnext : prove (PWorker w) (run_loop fuel cfg) (in_loop w) (λ _ _, True))
    by (eapply rg_pre, IH; by intros g [? _]).
  eapply rg_bind; [apply prove_turn|]. intros [|]; [by apply rg_ret|].
  eapply rg_bind; [apply prove_ProcessOne|]. intros [b [u|e] ]; [done|].
  eapply rg_bind; [eapply rg_pre, prove_turn; by intros g [? _]|].
  intros [|]; [by apply rg_ret|]. destruct (errors_Is e errPostClaim); [by apply rg_ret|done].
Qed.

Lemma prove_Run fuel :
  margin < HeartbeatTTL cfg → prove (PWorker w) (Worker.Run fuel cfg) sys_ok (λ _ _, True).
Proof.
  intros Httl. eapply rg_bind; [apply prove_Heartbeat; auto|]. intros ?. apply prove_run_loop.
Qed.

Lemma prove_heartbeatLoop fuel :
  margin < HeartbeatTTL cfg → prove (PHeart w) (heartbeatLoop fuel cfg) sys_ok (λ _ _, True).
Proof.
  intros Httl. assert (Hb : prove (PHeart w) (Heartbeat w (HeartbeatTTL cfg)) sys_ok (λ _, sys_ok))
    by (apply prove_Heartbeat; auto).
  eapply rg_bind; [done|]. intros ?. cbn beta. induction fuel as [|fuel IH]; [done|]. cbn [heartbeat_ticks].
  eapply rg_bind.
  { apply prove_frame; [apply quiet_sys_ok|apply stable_sys_ok| |done]. by apply frame_plain. }
  intros [|]; [by apply rg_ret|]. eapply rg_bind; [done|]. by intros ?.
Qed.

End worker_process.

(** ** The sweeper *)

Section sweeper_process.
Context (Hm : 0 ≤ margin).

(** What the sweeper knows of a listed job while its sweep is in time: it is
    still held as listed, or its worker is alive to the end of the sweep. *)
Definition known (j : Job) (g : gst ghost) : Prop := ∀ w, WorkerID j = Some w →
  g_now g ≤ sweep_start (g_gh g) + margin →
  held (ID j) w (g_db g) ∨ alive (g_redis g) (sweep_start (g_gh g) + margin) w.

Definition listed (js : list Job) (g : gst ghost) : Prop := sys_ok g ∧ ∀ j, j ∈ js → known j g.

Definition doomed (id : uuid) (w : string) (g : gst ghost) : Prop :=
  held id w (g_db g) ∧ ¬ alive (g_redis g) (g_now g) w.

Lemma known_acts w' j g g' : sys_ok g → common g g' → acts w' g g' → known j g → known j g'.
Proof.
  intros Hok [Hnow _ _] [Hal Hst Hoth Hkept Hheld] Hk w Hw. rewrite Hst. intros Hle.
  pose proof (sys_start _ Hok) as Hss. destruct (decide (w' = w)) as [->|Hne].
  - right. apply Hkept; [lia|]. destruct Hal as [Hns|Ha]; [|eapply alive_back, Ha; lia].
    destruct (Hk w Hw) as [Hh|Ha]; [lia| |done]. by apply (sys_held _ Hok) in Hh.
  - destruct (Hk w Hw) as [Hh|Ha]; [lia|left; eapply held_same; eauto|right]. by apply Hoth.
Qed.

Lemma stable_listed js : stab PSweep (listed js).
Proof.
  intros q g g' Hne [Hok Hk] Hg. split; [by apply Hg|]. intros j Hj. specialize (Hk j Hj).
  destruct Hg as [Hc Hg]. destruct q as [w'|w'| |n]; [|destruct Hg as [Hg _]|done|].
  1,2: by eapply known_acts.
  destruct Hg as (Hhb & Hgh & Hheld). intros w Hw. rewrite Hgh. intros Hle.
  pose proof (cm_now _ _ Hc). destruct (Hk w Hw) as [Hh|Ha]; [lia|left; eapply held_same; eauto|right].
  by apply Hhb.
Qed.

Lemma stable_doomed id w : stab PSweep (λ g, sys_ok g ∧ doomed id w g).
Proof.
  intros q g g' Hne [Hok [Hh Hd] ] Hg. split; [by apply Hg|]. destruct Hg as [Hc Hg].
  pose proof (sys_held _ Hok _ _ Hh) as Hw. destruct q as [w'|w'| |n]; [| |done|].
  - destruct (dead_acts w w' g g') as [Hne' Hd']; [done..|]. split; [|done].
    eapply held_same; [by eapply (ac_held _ _ _ Hg)|done].
  - destruct Hg as [Hg Hdb]. destruct (dead_acts w w' g g') as [Hne' Hd']; [done..|].
    split; [by rewrite Hdb|done].
  - destruct Hg as (Hhb & _ & Hheld). split; [eapply held_same; eauto|]. rewrite (Hhb _ w) by done.
    eapply alive_later, Hd. apply Hc.
Qed.

Lemma quiet_known j g g' : known j g → frame g g' → known j g'.
Proof.
  intros Hk [Hdb Hgh Hhb Hnow] w Hw. rewrite Hgh, Hdb. intros Hle.
  destruct (Hk w Hw) as [Hh|Ha]; [lia|by left|right]. by apply Hhb.
Qed.

Lemma quiet_listed js : quiet (listed js).
Proof.
  intros g g' [Hok Hk] Hf. split; [by eapply sys_ok_frame|]. intros j Hj.
  by eapply quiet_known; [apply Hk|].
Qed.

Lemma listed_tail j js g : listed (j :: js) g → listed js g.
Proof. intros [Hok Hk]. split; [done|]. intros j' Hj. apply Hk. by apply list_elem_of_further. Qed.

(** The sweeper about to fail the job of a dead worker. *)
Definition aiming (js : list Job) (id : uuid) (w : string) (g : gst ghost) : Prop :=
  listed js g ∧ doomed id w g.

Lemma stable_aiming js id w : stab PSweep (aiming js id w).
Proof.
  intros q g g' Hne [Hl Hd] Hg. split; [by eapply stable_listed|].
  by eapply (stable_doomed id w q g g' Hne (conj (proj1 Hl) Hd)).
Qed.

Lemma quiet_aiming js id w : quiet (aiming js id w).
Proof.
  intros g g' [Hl [Hh Hd] ] Hf. split; [by eapply quiet_listed|].
  pose proof Hf as [Hdb _ Hhb Hnow]. split; [by rewrite Hdb|].
  rewrite (Hhb _ w) by done. by eapply alive_later.
Qed.

Lemma frame_Exists p k : frame_cmd p (cli_Exists k).
Proof. apply frame_Redis. by intros t r t' w _. Qed.

Lemma frame_Scan p c pat : frame_cmd p (cli_Scan c pat).
Proof. apply frame_Redis. by intros t r t' w _. Qed.

(** A listed job whose worker's heartbeat is found missing is doomed. *)
Lemma prove_IsWorkerAlive j js w :
  WorkerID j = Some w →
  prove PSweep (IsWorkerAlive w) (listed (j :: js))
    (λ r, match r with Ok false => aiming js (ID j) w | _ => listed js end).
Proof.
  intros Hw. unfold IsWorkerAlive. eapply (rg_call_bind _ _ _ _ _ _ _ _
    (λ r, match r with Ok n => if bool_decide (0 < n) then listed js else aiming js (ID j) w
          | Err _ => listed js end)).
  - intros [n|e]; [case_bool_decide|]; auto using stable_listed, stable_aiming.
  - intros g o Hl Ht. pose proof (frame_Exists PSweep (heartbeatKey w) o g) as Hf.
    pose proof (quiet_listed _ _ _ (listed_tail _ _ _ Hl) Hf) as Hl'.
    split_and!; [done|by apply frame_guar|].
    pose proof (fire_now PSweep (cli_Exists (heartbeatKey w)) o g) as Hnow.
    set (g' := fires PSweep (cli_Exists (heartbeatKey w)) o g) in *. clearbody g'.
    unfold cli_Exists. cbn [exec fst]. destruct (o_fault o); cbn [with_fault fst]; [|done..].
    change (s_now _) with (g_now g + Z.of_N (o_dt o)). change (s_redis _) with (g_redis g).
    case_decide as Hd; [done|]. split; [done|]. simpl in Ht.
    assert (Hdead : ¬ alive (g_redis g) (g_now g + Z.of_N (o_dt o)) w) by done.
    destruct Hl as [Hok Hk]. destruct (Hk j (list_elem_of_here _ _) w Hw) as [Hh|Ha]; [lia| |].
    + split; [by rewrite (fr_db _ _ Hf)|]. rewrite (fr_hb _ _ Hf _ w) by done. by rewrite Hnow.
    + destruct Hdead. by eapply alive_back.
  - intros [n|e]; [|by apply rg_ret]. apply rg_ret. intros g. by case_bool_decide.
Qed.

Lemma held_inj id w w' db : held id w db → held id w' db → w' = w.
Proof. intros (j & Hj & _ & Hw) (j' & Hj' & _ & Hw'). congruence. Qed.

(** Failing the job of a dead worker stays within the guarantee. *)
Lemma prove_sweep_fail js id w msg next :
  id ∉ ID <$> js → prove PSweep (MarkFailed id msg next) (aiming js id w) (λ _, listed js).
Proof.
  intros Hni. apply (rg_call_bind _ _ _ _ _ _ _ _ (λ _, listed js));
    [intros _; apply stable_listed| |intros r; by apply rg_ret]. intros g o [Hl [Hh Hd] ] Ht.
  set (f := sql_mark_failed id msg next). destruct (fire_Sql PSweep f o g) as (Hr & Hgh & Hc).
  set (g' := fires PSweep (Sql f) o g) in *.
  assert (Hnow : g_now g' = g_now g + Z.of_N (o_dt o)) by apply fire_now.
  pose proof Hh as (j & Hj & Hs & Hw).
  assert (Hrow : ∀ t, row_by w id (g_db g) (f t (g_db g)).2).
  { intros t. apply row_by_update. intros j0 j' Hj0 _ Hf. simplify_eq. split; [done|]. split; [|by eapply tr_failed].
    unfold failed_row in Hf. destruct (_ >? _); [done|]. injection Hf as <-. simpl.
    by destruct (_ >=? _). }
  destruct Hl as [Hok Hk].
  assert (Hd' : row_by w id (g_db g) (g_db g') ∧ db_ok (g_db g')).
  { assert (Hdbok : ∀ t, db_ok (f t (g_db g)).2)
      by (intros t; apply (exec_stmt_ok (SMarkFailed id msg next)), Hok).
    destruct Hc as [ [-> _]|(m & _ & [-> | ->])]; [by split| |by split].
    split; [by left|apply Hok]. }
  destruct Hd' as [Hdb Hdbok].
  assert (Hsys : sys_ok g').
  { constructor; [done| |rewrite Hgh; pose proof (sys_start _ Hok); lia].
    intros id' w' Hh'. rewrite Hgh. destruct (row_by_new _ _ _ _ _ _ Hdb Hh') as [Hh2| ->];
      [by apply (sys_held _ Hok id')|by apply (sys_held _ Hok id)]. }
  split_and!; [done| |].
  - split; [constructor; [lia|done|by rewrite Hgh|by eapply row_by_rows]|]. split; [intros t w' _; by rewrite Hr|].
    intros id' w' Hh'. destruct (decide (w' = w)) as [->|Hne]; [right|left; by eapply row_by_held].
    rewrite Hr. eapply alive_later, Hd. lia.
  - split; [done|]. intros j' Hj' w' Hw'. rewrite Hgh, Hr, Hnow. intros Hle.
    destruct (Hk j' Hj' w' Hw') as [Hh'|Ha]; [lia| |by right].
    left. eapply row_by_other; [done| |done]. intros <-. apply Hni. apply list_elem_of_fmap. by exists j'.
Qed.

Lemma prove_revive_jobs js :
  NoDup (ID <$> js) → prove PSweep (revive_jobs js) (listed js) (λ _, sys_ok).
Proof.
  induction js as [|j js IH]; intros Hnd; cbn [revive_jobs]; [apply rg_ret; by intros g [? _]|].
  apply NoDup_cons in Hnd as [Hni Hnd]. specialize (IH Hnd).
  destruct (WorkerID j) as [w|] eqn:Hw; [|by eapply rg_pre, IH; intros g; apply listed_tail].
  eapply rg_bind; [by apply prove_IsWorkerAlive|]. intros [ [|]|e]; [done| |done].
  eapply rg_bind.
  { apply prove_frame; [apply quiet_aiming|apply stable_aiming| |done]. by apply frame_plain. }
  intros now. eapply rg_bind; [by apply prove_sweep_fail|]. by intros ?.
Qed.

Lemma prove_reviveOrphans : prove PSweep reviveOrphans sys_ok (λ _, sys_ok).
Proof.
  unfold reviveOrphans, ListRunningJobs. eapply rg_bind.
  - apply (rg_call_bind _ _ _ _ _ _ _ _ (λ r g,
      match r with Ok js => listed js g ∧ NoDup (ID <$> js) | Err _ => sys_ok g end)).
    + intros [js|e]; [|apply stable_sys_ok]. intros q g g' Hne [Hl Hnd] Hg.
      split; [by eapply stable_listed|done].
    + intros g o Hok Ht.
      pose proof (frame_Sql_read PSweep (λ _ db, Ok (sql_select (is_status StatusRunning) db)) o g) as Hf.
      split_and!; [done|by apply frame_guar|]. pose proof (sys_ok_frame _ _ Hok Hf) as Hok'.
      set (g' := fires _ _ _ _) in *. clearbody g'. cbn [exec fst].
      destruct (o_fault o); cbn [with_fault fst]; [|done..].
      change (s_db _) with (g_db g). pose proof (sys_db _ Hok) as Hdb.
      split; [|by apply NoDup_select]. split; [done|]. intros j Hj w Hw _. left.
      apply elem_of_select in Hj as [Hj Hr%is_status_true]; [|done].
      exists j. by rewrite (fr_db _ _ Hf).
    + intros [js|e]; [apply (rg_ret _ _ _ _ _ _ _
        (λ r g, match r with Ok js => listed js g ∧ NoDup (ID <$> js) | Err _ => sys_ok g end))|
        apply rg_ret]; done.
  - intros [js|e]; [|by apply rg_ret].
    destruct (decide (NoDup (ID <$> js))) as [Hnd|Hnd].
    + eapply rg_pre, prove_revive_jobs; [by intros g [? _]|done].
    + apply (rg_pre _ _ _ _ _ _ _ (λ _, False)); [by intros g [_ ?]|apply rg_false].
Qed.

(** The other passes only read tables and move ids between Redis lists. *)
Lemma prove_quiet {X} (c : cmd X) :
  frame_cmd PSweep c → prove PSweep (call c) sys_ok (λ _, sys_ok).
Proof. intros Hf. apply prove_frame; [apply quiet_sys_ok|apply stable_sys_ok|done|done]. Qed.

Lemma prove_push_jobs js : prove PSweep (push_jobs js) sys_ok (λ _, sys_ok).
Proof.
  induction js as [|j js IH]; [by apply rg_ret|]. cbn [push_jobs].
  eapply rg_bind; [apply prove_Push; [apply quiet_sys_ok|apply stable_sys_ok]|]. by intros ?.
Qed.

Lemma prove_promoteDelayed : prove PSweep promoteDelayed sys_ok (λ _, sys_ok).
Proof.
  eapply rg_bind.
  - eapply rg_bind; [apply prove_quiet, frame_Sql_read|]. intros [js|e];
      apply (rg_ret _ _ _ _ _ _ _ (λ _, sys_ok)); done.
  - intros [js|e]; [apply prove_push_jobs|by apply rg_ret].
Qed.

Lemma prove_repushStale cfg : prove PSweep (repushStale cfg) sys_ok (λ _, sys_ok).
Proof.
  eapply rg_bind.
  - eapply rg_bind; [apply prove_quiet, frame_Sql_read|]. intros [js|e];
      apply (rg_ret _ _ _ _ _ _ _ (λ _, sys_ok)); done.
  - intros [js|e]; [apply prove_push_jobs|by apply rg_ret].
Qed.

Lemma prove_list_processing fuel out c :
  prove PSweep (list_processing_loop fuel out c) sys_ok (λ _, sys_ok).
Proof.
  revert out c. induction fuel as [|fuel IH]; intros out c; [done|]. cbn [list_processing_loop].
  eapply rg_bind; [apply prove_quiet, frame_Scan|]. intros [ [ks next]|e]; [|by apply rg_ret].
  case_decide; [by apply rg_ret|apply IH].
Qed.

Lemma prove_reclaim_loop fuel st w n :
  prove PSweep (reclaim_loop fuel st w n) sys_ok (λ _, sys_ok).
Proof.
  revert n. induction fuel as [|fuel IH]; intros n; [done|]. cbn [reclaim_loop].
  eapply rg_bind.
  { apply prove_quiet, frame_LMove; [apply processingKey_list|apply key_list|].
    apply not_eq_sym, key_processingKey. }
  intros [x|e]; [apply IH|]. destruct (errors_Is e redisNil); by apply rg_ret.
Qed.

Lemma prove_reclaim_refs fuel refs : prove PSweep (reclaim_refs fuel refs) sys_ok (λ _, sys_ok).
Proof.
  induction refs as [|ref refs IH]; [by apply rg_ret|]. cbn [reclaim_refs].
  eapply rg_bind.
  { eapply rg_bind; [apply prove_quiet, frame_Exists|].
    intros [n|e]; apply (rg_ret _ _ _ _ _ _ _ (λ _, sys_ok)); done. }
  intros [ [|]|e]; [done| |done].
  eapply rg_bind; [apply prove_reclaim_loop|]. by intros ?.
Qed.

Lemma prove_SweepOnce fuel cfg : prove PSweep (SweepOnce fuel cfg) sys_ok (λ _, sys_ok).
Proof.
  eapply rg_bind.
  { eapply rg_bind; [apply prove_list_processing|]. intros [refs|e]; [apply prove_reclaim_refs|].
    apply (rg_ret _ _ _ _ _ _ _ (λ _, sys_ok)); done. }
  intros [u|e]; [|by apply rg_ret].
  eapply rg_bind; [apply prove_reviveOrphans|]. intros [u1|e]; [|by apply rg_ret].
  eapply rg_bind; [apply prove_promoteDelayed|]. intros [u2|e]; [|by apply rg_ret].
  eapply rg_bind; [apply prove_repushStale|]. intros [u3|e]; by apply rg_ret.
Qed.

(** The turn of the sweeper's loop starts the clock of its sweep. *)
Lemma prove_sweep_turn : prove PSweep (call CtxDone) sys_ok (λ _, sys_ok).
Proof.
  apply rg_call; [intros _; apply stable_sys_ok|]. intros g o Hok _. set (g' := fires _ _ _ _).
  assert (Hnow : g_now g' = g_now g + Z.of_N (o_dt o)) by apply fire_now.
  assert (Hok' : sys_ok g').
  { destruct Hok as [H1 H2 H3]. constructor; [done|exact H2|]. rewrite Hnow.
    change (sweep_start (g_gh g')) with (g_now g'). lia. }
  split_and!; [done| |done]. split; [constructor; [lia|done..]|]. split; [done|].
  intros id w Hh. by left.
Qed.

Lemma prove_sweeper turns fuel cfg :
  prove PSweep (Sweeper.Run turns fuel cfg) sys_ok (λ _, sys_ok).
Proof.
  induction turns as [|turns IH]; [done|]. cbn [Sweeper.Run].
  eapply rg_bind; [apply prove_sweep_turn|]. intros [|]; [by apply rg_ret|].
  eapply rg_bind; [apply prove_SweepOnce|]. by intros ?.
Qed.

End sweeper_process.

(** ** Clients *)

(** What a write of a client may do to the tables: every running row is as it
    was, and no row is running that was not. *)
Record gentle (db db' : DB) : Prop := {
  gt_kept id w : held id w db → same_row id db db';
  gt_back id w : held id w db' → held id w db;
  gt_rows : rows_move (pipeline_jobs db) (pipeline_jobs db');
  gt_ok : db_ok db → db_ok db'
}.

(** The calls of the programs that submit jobs, manage accounts or look at the
    queues. *)
Definition client_call (X : Type) (c : cmd X) : Prop :=
  match c with
  | Redis f => hb_frame f
  | Sql f => ∀ t db, gentle db (f t db).2
  | Ext _ => False
  | _ => True
  end.

#[export] Instance gentle_refl : Reflexive gentle.
Proof. by intros db. Qed.

(** Writes to the other tables. *)
Lemma gentle_others db db' :
  pipeline_jobs db' = pipeline_jobs db → (db_ok db → db_ok db') → gentle db db'.
Proof.
  intros Hj Hok. constructor; [|by intros id w (j & Hj' & ?); exists j; rewrite <- Hj|by rewrite Hj|done].
  intros id w _. unfold same_row. by rewrite Hj.
Qed.

(** Inserting a row never touches another, and the new one is not running. *)
Lemma gentle_enqueue id nj payload t db : gentle db (sql_enqueue id nj payload t db).2.
Proof.
  pose proof (exec_stmt_ok (SEnqueue id nj payload) t db) as Hok. cbn [exec_stmt] in Hok. revert Hok.
  unfold sql_enqueue. case_decide as Hex; [done|].
  destruct (put_job _ _ _) as [db'|e] eqn:Hp; [|done].
  destruct (user_ref_ok _ _); [|done]. apply put_job_Ok in Hp as [_ ->]. intros Hok. apply eq_None_not_Some in Hex.
  constructor; [| | |done]; [intros id' w (j & Hj & Hs & Hw); unfold same_row; simpl in *..|].
  - rewrite lookup_insert_ne; [done|]. intros ->. congruence.
  - exists j. apply lookup_insert_Some in Hj as [ [<- <-]|[_ Hj] ]; done.
  - cbn. split; intros id' j Hj.
    + exists j. rewrite lookup_insert_ne by congruence. by split; [|left].
    + apply lookup_insert_Some in Hj as [ [_ <-]|[_ Hj] ]; [done|congruence].
Qed.

Lemma guar_client_Sql {X} n (f : Z → DB → result X * DB) o g :
  (∀ t db, gentle db (f t db).2) → sys_ok g →
  let g' := fires (PClient n) (Sql f) o g in guar (PClient n) g g' ∧ sys_ok g'.
Proof.
  intros Hf Hok. cbv zeta. destruct (fire_Sql (PClient n) f o g) as (Hr & Hgh & Hc).
  pose proof (fire_now (PClient n) (Sql f) o g) as Hnow. set (g' := fires _ (Sql f) o g) in *.
  assert (Hd : gentle (g_db g) (g_db g')) by (destruct Hc as [ [-> _]|(m & _ & [-> | ->])]; done).
  destruct Hd as [H1 H2 H4 H3].
  assert (Hok' : sys_ok g').
  { constructor; [by apply H3, Hok| |rewrite Hgh; pose proof (sys_start _ Hok); lia].
    intros id' w Hh. rewrite Hgh. apply (sys_held _ Hok id'). auto. }
  split; [|done]. split; [constructor; [lia|done|by rewrite Hgh|done]|].
  split_and!; [intros t w _; by rewrite Hr|done|exact H1].
Qed.

Lemma prove_client {A} n (pr : prog A) :
  calls_only client_call pr → prove (PClient n) pr sys_ok (λ _, sys_ok).
Proof.
  induction pr as [a|X c k IH|]; [by intros _ g| |done]. intros [Hc Hk] g o Hok Ht.
  assert (H : guar (PClient n) g (fires (PClient n) c o g) ∧ sys_ok (fires (PClient n) c o g)).
  { assert (Hfr : frame_cmd (PClient n) c → guar (PClient n) g (fires (PClient n) c o g) ∧ sys_ok (fires (PClient n) c o g)).
    { intros Hf. split; [by apply frame_guar|by eapply sys_ok_frame]. }
    destruct c; try done; try (by apply Hfr, frame_plain).
    - apply Hfr, frame_Redis, Hc.
    - by apply guar_client_Sql.
    - apply Hfr, frame_plain; [|done]. intros o' s. cbn. by destruct (o_fault o'). }
  destruct H as [Hg Hok']. split; [done|]. split; [done|]. exists sys_ok. split; [done|]. split; [apply stable_sys_ok|].
  apply IH, Hk.
Qed.

(** ** The whole system *)

Definition forget {A} (p : prog A) : prog unit := _ ← p; mret tt.

(** Every process at its start; a worker name without a process is one that
    never makes a step. *)
Definition system (turns fuel : nat) (cfgs : string → Worker.Config) (scfg : Config)
    (clients : nat → prog unit) : procs := λ p,
  match p with
  | PWorker w => forget (Worker.Run fuel (cfgs w))
  | PHeart w => heartbeatLoop fuel (cfgs w)
  | PSweep => forget (Sweeper.Run turns fuel scfg)
  | PClient n => clients n
  end.

Definition timed_step := step track timely.

Lemma system_at_assertion turns fuel cfgs scfg clients g :
  0 ≤ margin → (∀ w, c_WorkerID (cfgs w) = w ∧ margin < HeartbeatTTL (cfgs w)) → (∀ n, calls_only client_call (clients n)) → sys_ok g →
  at_assertion track timely handler_pre guar (g, system turns fuel cfgs scfg clients).
Proof.
  intros Hm Hcfg Hcl Hok p. exists sys_ok. split; [done|]. split; [apply stable_sys_ok|].
  destruct p as [w|w| |n]; cbn [system snd].
  - destruct (Hcfg w) as [Hw Ht]. eapply rg_bind; [|by intros ?].
    rewrite <- Hw at 1. by apply prove_Run.
  - destruct (Hcfg w) as [Hw Ht]. rewrite <- Hw at 1. by apply prove_heartbeatLoop.
  - apply (rg_bind _ _ _ _ _ _ _ _ (λ _, sys_ok)); [by apply prove_sweeper|done].
  - eapply rg_post, prove_client, Hcl. done.
Qed.



(** What happens to the rows between two reachable configurations. *)
Definition moved_on (m m' : gmap uuid Job) : Prop :=
  ∀ id j, m !! id = Some j → ∃ j', m' !! id = Some j' ∧ rtc transition j j'.

Lemma moved_trans m1 m2 m3 : moved_on m1 m2 → rows_move m2 m3 → moved_on m1 m3.
Proof.
  intros H12 [H23 _] id j Hj. destruct (H12 id j Hj) as (j2 & Hj2 & Ht). destruct (H23 id j2 Hj2) as (j3 & Hj3 & [->|Ht3]); [by exists j2|].
  exists j3. split; [done|]. by eapply rtc_r.
Qed.

Lemma guar_moved c c' :
  at_assertion track timely handler_pre guar c → rtc timed_step c c' → moved_on (pipeline_jobs (g_db c.1)) (pipeline_jobs (g_db c'.1)).
Proof.
  intros Hat. revert c'. apply rtc_ind_r; [by intros id j ?; exists j|]. intros c1 c2 H1 H12 IH.
  eapply moved_trans; [exact IH|]. pose proof (at_assertion_reachable _ _ _ _ _ _ H1 Hat) as Hat1.
  destruct H12 as [p X cm k o g ps Hp Ht]. by apply (rg_sound _ _ _ _ _ _ _ _ _ _ _ _ _ Hat1 (rtc_refl _ _) Hp Ht).
Qed.

Lemma transition_final j j' : terminal (Status j) = true → rtc transition j j' → j' = j.
Proof.
  intros Ht H. destruct H as [|j1 j2 j3 H _]; [done|]. destruct H as [w t Hs|t Hs|st t Hs|msg next t j' Hs _]; by rewrite Hs in Ht.
Qed.

(** ** Properties *)

(** C8. Mutual exclusion, under the timing assumption [timely]: a worker only
    makes calls while its heartbeat lives for another [margin], and a sweep
    takes no longer than [margin].  Then, however the calls of any number of
    workers, their heartbeats, one sweeper and any clients interleave, and
    whichever of them fail, a worker that is about to run its handler on a job
    holds that job's row, and no two workers are ever about to run a handler on
    the same job.  ([slow_sweep_breaks_mutex] shows that the assumption on the
    sweep is needed.) *)
Theorem mutual_exclusion turns fuel cfgs scfg clients g0 g ps w1 w2 j1 j2 k1 k2 o1 o2 :
  0 ≤ margin → (∀ w, c_WorkerID (cfgs w) = w ∧ margin < HeartbeatTTL (cfgs w)) → (∀ n, calls_only client_call (clients n)) → sys_ok g0 →
  rtc timed_step (g0, system turns fuel cfgs scfg clients) (g, ps) →
  ps (PWorker w1) = Vis (Handle j1) k1 → timely (PWorker w1) _ (Handle j1) o1 g →
  ps (PWorker w2) = Vis (Handle j2) k2 → timely (PWorker w2) _ (Handle j2) o2 g →
  held (ID j1) w1 (g_db g) ∧ (ID j1 = ID j2 → w1 = w2).
Proof.
  intros Hm Hcfg Hcl Hok Hr Hp1 Ht1 Hp2 Ht2.
  pose proof (system_at_assertion turns fuel cfgs scfg clients g0 Hm Hcfg Hcl Hok) as Hat.
  destruct (rg_sound _ _ _ _ _ _ _ _ _ _ _ _ _ Hat Hr Hp1 Ht1) as [H1 _].
  destruct (rg_sound _ _ _ _ _ _ _ _ _ _ _ _ _ Hat Hr Hp2 Ht2) as [H2 _].
  split; [done|]. intros Heq. cbn [handler_pre] in *. rewrite <- Heq in H2.
  by eapply held_inj.
Qed.


(** C9. The life of a job, of every job at once, under the same timing
    assumption: between any two configurations that are reached one after the
    other, no row disappears, and each row went through claims of a queued job
    and settlements of a running one only; so a job that is done or dead stays
    exactly as it is, for good.  ([late_sweep_revives] shows that it can be
    queued again when a sweep is late.) *)
Theorem jobs_progress turns fuel cfgs scfg clients g0 c1 c2 id j :
  0 ≤ margin → (∀ w, c_WorkerID (cfgs w) = w ∧ margin < HeartbeatTTL (cfgs w)) → (∀ n, calls_only client_call (clients n)) → sys_ok g0 →
  rtc timed_step (g0, system turns fuel cfgs scfg clients) c1 → rtc timed_step c1 c2 →
  pipeline_jobs (g_db c1.1) !! id = Some j →
  ∃ j', pipeline_jobs (g_db c2.1) !! id = Some j' ∧ rtc transition j j' ∧ (terminal (Status j) = true → j' = j).
Proof.
  intros Hm Hcfg Hcl Hok H1 H2 Hj. pose proof (system_at_assertion turns fuel cfgs scfg clients g0 Hm Hcfg Hcl Hok) as Hat.
  destruct (guar_moved c1 c2 (at_assertion_reachable _ _ _ _ _ _ H1 Hat) H2 id j Hj) as (j' & Hj' & Ht).
  exists j'. split; [done|]. split; [done|]. intros Hterm. by apply transition_final.
Qed.

End system.

(** ** Concrete runs *)
Module SystemModel.
Import SchemaModel RedisModel DriveModel EffectsModel.

(** A calm call that takes [dt]. *)
Definition calm_dt (dt : N) (h : result string) : outcome := {|
  o_fault := NoFault; o_dt := dt; o_uuid := "x"; o_rand := 0; o_ctx := false;
  o_handler := λ _, h; o_api := λ _ _, Err (EText "not connected") |}.

Definition tick : outcome := calm_dt 1 (Ok "next").

(** Worker "w1" serves the test stage, all others the next one; heartbeats
    live for 15 seconds. *)
Definition cfg_of (w : string) : Worker.Config :=
  Worker.mk_Config (if decide (w = "w1") then "test" else "next") w 1000
    (15 * 1000000000) (5 * 1000000000).

Definition start : gst ghost :=
  mk_gst (mk_shared one_job (mk_server {[ "queue:test" := ["ua"] ]} ∅) no_ext 0) (mk_ghost ∅ 0).

Definition procs0 : procs :=
  system 2 5 cfg_of (New (Sweeper.mk_Config 0 0)) (λ _, mret tt).

(** The margin of the runs: three seconds. *)
Definition margin0 : Z := 3 * 1000000000.

#[export] Instance timely_dec m p X c o g : Decision (timely m p X c o g).
Proof. destruct p as [w|w| |n]; [..|destruct c|]; unfold timely; cbv zeta; apply _. Defined.

(** Timely in all but the duration of a sweep. *)
Definition workers_timely (p : pid) (X : Type) (c : cmd X) (o : outcome) (g : gst ghost) : Prop :=
  match p with PSweep => True | _ => timely margin0 p X c o g end.

#[export] Instance workers_timely_dec p X c o g : Decision (workers_timely p X c o g).
Proof. destruct p; apply _. Defined.

Definition times (n : nat) (p : pid) : list (pid * outcome) := replicate n (p, tick).

(** Start a worker and take it to its handler: Now, SET, the turn mark,
    BLMOVE, the claim, the SELECT. *)
Definition to_handler (w : string) : list (pid * outcome) := times 6 (PWorker w).

(** w1 takes the job; a sweep finds w1 alive and lists the job; w1 finishes
    its stage and dies; w2 claims the job's next stage; the sweep, 16 seconds
    old, now finds w1's heartbeat gone, fails the job it had listed and pushes
    it; w3 claims it. *)
Definition slow_sweep : list (pid * outcome) :=
  to_handler "w1" ++ times 4 PSweep ++ times 4 (PWorker "w1") ++
  (PWorker "w2", calm_dt 16000000000 (Ok "next")) :: times 5 (PWorker "w2") ++
  times 5 PSweep ++ to_handler "w3".

Definition after (c : option (gst ghost * procs)) : gst ghost * procs := default (start, procs0) c.

Lemma play_after (may : pid → ∀ X, cmd X → outcome → gst ghost → Prop)
    `{∀ p X c o g, Decision (may p X c o g)} l :
  match play track may l (start, procs0) with Some _ => true | None => false end = true →
  rtc (step track may) (start, procs0) (after (play track may l (start, procs0))).
Proof. destruct (play _ _ _ _) as [c|] eqn:Hc; [|done]. intros _. by apply play_rtc in Hc. Qed.

Lemma start_ok : sys_ok start.
Proof.
  constructor; [apply one_job_ok| |done].
  intros id w (j & [_ ->]%one_job_lookup & Hs & _). done.
Qed.

(** C31. The assumption that a sweep is quick is needed: in a run in which
    every worker's heartbeat is live for three more seconds at each of its
    calls, nothing fails, and only one sweep lasts longer than a heartbeat's
    15 seconds, two workers come to run their handlers on one job at once. *)
Theorem slow_sweep_breaks_mutex :
  ∃ g ps j1 j2 k1 k2,
    sys_ok start ∧ rtc (step track workers_timely) (start, procs0) (g, ps) ∧
    ps (PWorker "w2") = Vis (Handle j1) k1 ∧ ps (PWorker "w3") = Vis (Handle j2) k2 ∧
    ID j1 = ID j2 ∧
    alive (g_redis g) (g_now g + margin0) "w2" ∧ alive (g_redis g) (g_now g + margin0) "w3".
Proof.
  set (c := after (play track workers_timely slow_sweep (start, procs0))).
  destruct (at_handler (c.2 (PWorker "w2"))) as [j1|] eqn:H1; [|by vm_compute in H1].
  destruct (at_handler (c.2 (PWorker "w3"))) as [j2|] eqn:H2; [|by vm_compute in H2].
  assert (Hid : ID <$> at_handler (c.2 (PWorker "w2")) = ID <$> at_handler (c.2 (PWorker "w3")))
    by (vm_compute; reflexivity).
  rewrite H1, H2 in Hid. injection Hid as Hid.
  apply at_handler_Some in H1 as [k1 H1]. apply at_handler_Some in H2 as [k2 H2].
  exists c.1, c.2, j1, j2, k1, k2.
  split; [apply start_ok|]. split.
  { rewrite <- surjective_pairing. apply play_after. vm_compute. reflexivity. }
  split; [exact H1|]. split; [exact H2|]. split; [exact Hid|]. split.
  - apply (bool_decide_unpack _). vm_compute. exact I.
  - apply (bool_decide_unpack _). vm_compute. exact I.
Qed.

(** A timely run: w1 takes the job to its handler while a sweep passes. *)
Definition quick : list (pid * outcome) := to_handler "w1" ++ times 4 PSweep.

#[local] Abbreviation quick_end := (after (play track (timely margin0) quick (start, procs0))).

Lemma quick_reach : rtc (timed_step margin0) (start, procs0) quick_end.
Proof. apply play_after. vm_compute. reflexivity. Qed.

Lemma cfg_of_ok w : c_WorkerID (cfg_of w) = w ∧ margin0 < HeartbeatTTL (cfg_of w).
Proof. done. Qed.

Lemma mutual_exclusion_witness :
  ∃ j k, quick_end.2 (PWorker "w1") = Vis (Handle j) k ∧
    held (ID j) "w1" (g_db quick_end.1) ∧ (ID j = ID j → "w1" = "w1").
Proof.
  destruct (at_handler (quick_end.2 (PWorker "w1"))) as [j|] eqn:H; [|by vm_compute in H].
  apply at_handler_Some in H as [k H]. exists j, k. split; [exact H|].
  assert (Ht : timely margin0 (PWorker "w1") _ (Handle j) tick quick_end.1)
    by (apply (bool_decide_unpack _); vm_compute; exact I).
  refine (mutual_exclusion margin0 2 5 cfg_of (New (Sweeper.mk_Config 0 0)) (λ _, mret tt) start
    quick_end.1 quick_end.2 "w1" "w1" j j k k tick tick _ cfg_of_ok (λ _, I) start_ok _ H Ht H Ht); [done|].
  rewrite <- surjective_pairing. apply quick_reach.
Defined.


Lemma jobs_progress_witness :
  ∃ j j', pipeline_jobs (g_db start) !! "a" = Some j ∧ pipeline_jobs (g_db quick_end.1) !! "a" = Some j' ∧
    rtc transition j j' ∧ (terminal (Status j) = true → j' = j).
Proof.
  destruct (pipeline_jobs (g_db start) !! "a") as [j|] eqn:Hj; [|by vm_compute in Hj].
  exists j. edestruct (jobs_progress margin0 2 5 cfg_of (New (Sweeper.mk_Config 0 0)) (λ _, mret tt) start
    (start, procs0) quick_end "a" j) as (j' & H); [done|apply cfg_of_ok|done|apply start_ok|constructor|apply quick_reach|exact Hj|].
  exists j'. split; [reflexivity|exact H].
Defined.

(** w1 takes the job; a sweep lists it as running; w1 finishes and is done; the
    sweep's next call takes 16 seconds, in which w1's heartbeat lapses. *)
Definition late_sweep : list (pid * outcome) :=
  to_handler "w1" ++ times 4 PSweep ++ (PWorker "w1", calm_dt 1 (Ok EmptyString)) :: times 1 (PWorker "w1").
Definition late_failure : list (pid * outcome) := (PSweep, calm_dt 16000000000 (Ok "next")) :: times 2 PSweep.

Definition status_of (g : gst ghost) : option JobStatus := Status <$> pipeline_jobs (g_db g) !! "a".

#[local] Abbreviation done_point := (after (play track workers_timely late_sweep (start, procs0))).
#[local] Abbreviation revived_point := (after (play track workers_timely late_failure done_point)).

Lemma done_reached : rtc (step track workers_timely) (start, procs0) done_point.
Proof. apply play_after. vm_compute. reflexivity. Qed.

Lemma revived_reached : rtc (step track workers_timely) done_point revived_point.
Proof.
  assert (H : match play track workers_timely late_failure done_point with Some _ => true | None => false end = true)
    by (vm_compute; reflexivity).
  destruct (play track workers_timely late_failure done_point) as [c|] eqn:Hc; [|done]. by apply play_rtc in Hc.
Qed.

(** C32. The same assumption is needed for finished jobs to stay finished:
    nothing fails and w1's heartbeat is live at each of its calls, w1 marks its
    job done, and a sweep that listed the job before requeues it. *)
Theorem late_sweep_revives :
  ∃ c1 c2, rtc (step track workers_timely) (start, procs0) c1 ∧ rtc (step track workers_timely) c1 c2 ∧
    status_of c1.1 = Some StatusDone ∧ status_of c2.1 = Some StatusQueued.
Proof.
  exists done_point, revived_point. split; [exact done_reached|]. split; [exact revived_reached|].
  split; vm_compute; reflexivity.
Qed.

End SystemModel.
