(* ===== verification/OAuth.v ===== *)
(** * OAuth tokens: internal/oauth and cmd/oauth-setup

    Encryption of tokens at rest (crypto.go), loading and saving them, and the
    token source that saves refreshed tokens (token.go). *)
From Stdlib Require Import String.
From S2P Require Import Prelude Redis Schema GoStrings Services Effects Store.
Local Open Scope Z_scope.

Section oauth.
Context `{UL : UuidLib} `{PG : !PgServer} `{RS : RedisServer} `{DS : DriveServer} `{AE : AeadLib}.

Definition KeySize : nat := 32.

(** ** crypto.go; [rnd] is what reading the random nonce returned *)

Definition Encrypt (plaintext key : list Byte.byte) (rnd : result (list Byte.byte))
    : result (list Byte.byte) :=
  if negb (length key =? KeySize)%nat then Err (ESentinel ErrInvalidKey)
  else match rnd with
  | Err e => Err (EWrap "nonce" e)
  | Ok nonce => Ok (nonce ++ Seal key nonce plaintext)
  end.

Definition Decrypt (ciphertext key : list Byte.byte) : result (list Byte.byte) :=
  if negb (length key =? KeySize)%nat then Err (ESentinel ErrInvalidKey)
  else if (length ciphertext <? NonceSize)%nat then Err (EText "oauth: ciphertext too short")
  else
    let nonce := take NonceSize ciphertext in
    let ct := drop NonceSize ciphertext in
    match Open key nonce ct with
    | None => Err (EWrap "open" (EText "cipher: message authentication failed"))
    | Some pt => Ok pt
    end.

(** ** token.go *)

Definition EncryptToken (tok : Token) (key : list Byte.byte) (rnd1 rnd2 : result (list Byte.byte))
    : result (list Byte.byte * list Byte.byte) :=
  match Encrypt (list_byte_of_string (AccessToken tok)) key rnd1 with
  | Err e => Err e
  | Ok access =>
      match Encrypt (list_byte_of_string (RefreshToken tok)) key rnd2 with
      | Err e => Err e
      | Ok refresh => Ok (access, refresh)
      end
  end.

Definition DecryptToken (access refresh : list Byte.byte) (expiry : Z) (key : list Byte.byte)
    : result Token :=
  match Decrypt access key with
  | Err e => Err (EWrap "decrypt access" e)
  | Ok a =>
      match Decrypt refresh key with
      | Err e => Err (EWrap "decrypt refresh" e)
      | Ok r => Ok {| AccessToken := string_of_list_byte a; RefreshToken := string_of_list_byte r;
                      TokenType := "Bearer"; Expiry := expiry |}
      end
  end.

Definition LoadToken (userID : uuid) (key : list Byte.byte) (provider : string)
    : prog (result Token) :=
  rec ← GetOAuthToken userID provider;
  match rec with
  | Err e => mret (Err (EWrap "load token" e))
  | Ok rec => mret (DecryptToken (AccessCT rec) (RefreshCT rec) (ExpiresAt rec) key)
  end.

(** NonceSize random bytes, the bytes of a random number. *)
Definition nonce_of (x : N) : list Byte.byte :=
  (λ i, byte_of_ascii (ascii_of_N (N.shiftr x (8 * N.of_nat i)))) <$> seq 0 NonceSize.

(** io.ReadFull(rand.Reader, nonce) *)
Definition read_nonce : prog (result (list Byte.byte)) :=
  x ← call Rand; mret (Ok (nonce_of x)).

Definition SaveToken (userID : uuid) (key : list Byte.byte) (provider : string) (tok : Token)
    : prog (result unit) :=
  rnd1 ← read_nonce;
  rnd2 ← read_nonce;
  match EncryptToken tok key rnd1 rnd2 with
  | Err e => mret (Err (EWrap "save token" e))
  | Ok (accessCT, refreshCT) =>
      SaveOAuthToken {| ot_UserID := userID; Provider := provider; AccessCT := accessCT;
        RefreshCT := refreshCT; ExpiresAt := Expiry tok; ot_UpdatedAt := 0 |}
  end.

(** ** savingSource: [last] is its mutable field, threaded through *)

Definition differs (tok : Token) (last : option Token) : bool :=
  match last with
  | None => true
  | Some t => negb (bool_decide (AccessToken tok = AccessToken t))
  end.

Definition savingSource_Token (base : prog (result Token)) (save : Token → prog (result unit))
    (last : option Token) : prog (result Token * option Token) :=
  tok ← base;
  match tok with
  | Err e => mret (Err e, last)
  | Ok tok =>
      if differs tok last then
        r ← save tok;
        match r with
        | Err e => mret (Err (EWrap "save" e), last)
        | Ok _ => mret (Ok tok, Some tok)
        end
      else mret (Ok tok, last)
  end.

(** ** cmd/oauth-setup: from the callback's token to the end *)

Definition setup_account (email : string) (key : list Byte.byte) (tok : Token)
    : prog (result unit) :=
  user ← GetUserByEmail email;
  user ← match user with
    | Err e =>
        if errors_Is e ErrUserNotFound then
          u ← CreateUser email;
          match u with Err e => mret (Err (EWrap "create user" e)) | Ok u => mret (Ok u) end
        else mret (Err (EWrap "lookup user" e))
    | Ok u => mret (Ok u)
    end;
  match user with
  | Err e => mret (Err e)
  | Ok u =>
      r ← SaveToken (u_ID u) key "google" tok;
      match r with Err e => mret (Err (EWrap "save token" e)) | Ok _ => mret (Ok tt) end
  end.

(** The answer of the callback handler to a request's [state] and [code]. *)
Definition callback (state q_state q_code : string) : result string :=
  if negb (bool_decide (q_state = state)) then Err (EText "state mismatch")
  else if bool_decide (q_code = EmptyString) then Err (EText "no code in callback")
  else Ok q_code.

(** ** Lemmas *)

Lemma length_nonce x : length (nonce_of x) = NonceSize.
Proof. unfold nonce_of. by rewrite length_fmap, length_seq. Qed.

Lemma Encrypt_Ok pt key nonce c :
  Encrypt pt key (Ok nonce) = Ok c ↔ length key = KeySize ∧ c = nonce ++ Seal key nonce pt.
Proof.
  unfold Encrypt. destruct (Nat.eqb_spec (length key) KeySize) as [Hk|Hk]; simpl; naive_solver.
Qed.

Lemma Decrypt_Ok c key pt :
  Decrypt c key = Ok pt ↔ length key = KeySize ∧ (NonceSize ≤ length c)%nat ∧
    Open key (take NonceSize c) (drop NonceSize c) = Some pt.
Proof.
  unfold Decrypt. destruct (Nat.eqb_spec (length key) KeySize) as [Hk|Hk]; simpl; [|naive_solver].
  destruct (Nat.ltb_spec (length c) NonceSize); [naive_solver lia|].
  destruct (Open _ _ _) as [pt'|]; naive_solver.
Qed.

Lemma Decrypt_sealed key nonce pt :
  length key = KeySize → length nonce = NonceSize → Decrypt (nonce ++ Seal key nonce pt) key = Ok pt.
Proof.
  intros Hk Hn. apply Decrypt_Ok. split; [done|]. rewrite length_app, Hn. split; [lia|].
  rewrite <- Hn, take_app_length, drop_app_length. by apply Open_Seal.
Qed.

(** The row SaveToken writes decrypts to the token. *)
Definition stored (userID : uuid) (provider : string) (key : list Byte.byte) (tok : Token) (db : DB)
    : Prop :=
  ∃ rec, oauth_tokens db !! (userID, provider) = Some rec ∧
    DecryptToken (AccessCT rec) (RefreshCT rec) (ExpiresAt rec) key =
    Ok (mk_Token (AccessToken tok) (RefreshToken tok) "Bearer" (Expiry tok)).

Definition same_but_tokens (db db' : DB) : Prop :=
  pipeline_jobs db' = pipeline_jobs db ∧ users db' = users db ∧
  gmail_sync_state db' = gmail_sync_state db.

Section reliable.
Context (orc : nat → outcome) (Hrel : reliable orc).

Lemma run_SaveToken u key p tok i s :
  length key = KeySize → is_Some (users (s_db s) !! u) →
  ∃ i' s', run orc (SaveToken u key p tok) i s = Some (Ok tt, i', s') ∧
    stored u p key tok (s_db s') ∧ same_but_tokens (s_db s) (s_db s') ∧ s_redis s' = s_redis s.
Proof.
  intros Hk Hu. unfold SaveToken, read_nonce.
  rewrite run_bind, run_bind, run_call. cbn [exec fst snd]. rewrite run_ret, run_bind, run_bind, run_call.
  cbn [exec fst snd]. rewrite run_ret.
  set (n1 := nonce_of _). set (n2 := nonce_of _). unfold EncryptToken.
  rewrite !(proj2 (Encrypt_Ok _ _ _ _) (conj Hk eq_refl)).
  unfold SaveOAuthToken. rewrite run_bind, run_call, exec_Sql by apply Hrel.
  unfold sql_save_token. cbn [ot_UserID user_ref_ok elapse set_now s_db].
  rewrite bool_decide_eq_true_2 by done. cbn [fst snd]. eexists _, _. split; [done|]. simpl.
  split; [|by split_and!]. eexists. simpl. rewrite lookup_insert_eq. split; [done|]. simpl.
  unfold DecryptToken. rewrite !Decrypt_sealed by (done || apply length_nonce).
  by rewrite !string_of_list_byte_of_string.
Qed.

Lemma run_LoadToken u key p tok i s :
  stored u p key tok (s_db s) →
  ∃ i' s', run orc (LoadToken u key p) i s =
      Some (Ok (mk_Token (AccessToken tok) (RefreshToken tok) "Bearer" (Expiry tok)), i', s') ∧
    s_db s' = s_db s ∧ s_redis s' = s_redis s.
Proof.
  intros (rec & Hrec & Hd). unfold LoadToken, GetOAuthToken.
  rewrite run_bind, run_bind, run_call, exec_Sql by apply Hrel. cbn [fst snd]. rewrite Hrec.
  cbn [fst snd]. rewrite run_ret, Hd. by eexists _, _.
Qed.

Lemma run_GetUserByEmail email i s :
  ∃ i' s' r, run orc (GetUserByEmail email) i s = Some (r, i', s') ∧ s_db s' = s_db s ∧
    s_redis s' = s_redis s ∧ i' = S i ∧
    match r with
    | Ok u => ∃ id, users (s_db s) !! id = Some u ∧ Email u = email
    | Err e => e = ESentinel ErrUserNotFound ∧ email_free email (s_db s)
    end.
Proof.
  unfold GetUserByEmail. rewrite run_bind, run_call, exec_Sql by apply Hrel. cbn [fst snd].
  destruct (filter _ _) as [|u us] eqn:Hf; cbn [fst snd]; eexists _, _, _; (split; [done|]).
  - split_and!; [done..|]. intros id u Hu He.
    assert (u ∈ filter (λ u, Email u = email) (seq_scan (users (s_db s)))) as Hin.
    { apply list_elem_of_filter. split; [done|]. rewrite seq_scan_perm, list_elem_of_fmap.
      exists (id, u). by rewrite elem_of_map_to_list. }
    rewrite Hf in Hin. by apply elem_of_nil in Hin.
  - split_and!; [done..|]. assert (u ∈ filter (λ u, Email u = email) (seq_scan (users (s_db s)))) as Hin
      by (rewrite Hf; apply list_elem_of_here).
    apply list_elem_of_filter in Hin as [He Hin]. rewrite seq_scan_perm, list_elem_of_fmap in Hin.
    destruct Hin as ([id u'] & -> & Hm). apply elem_of_map_to_list in Hm. by exists id.
Qed.

End reliable.

(** ** Properties *)

(** Encryption round trips and is authenticated: a ciphertext decrypts to
    a plaintext exactly if it is an encryption of that plaintext under that
    key with some nonce; keys of other lengths are refused by both. *)
Theorem Decrypt_iff_Encrypt key c pt :
  Decrypt c key = Ok pt ↔
  ∃ nonce, length nonce = NonceSize ∧ Encrypt pt key (Ok nonce) = Ok c.
Proof.
  rewrite Decrypt_Ok. split.
  - intros (Hk & Hl & Ho). exists (take NonceSize c). rewrite length_take. split; [lia|].
    apply Encrypt_Ok. split; [done|]. rewrite <- (take_drop NonceSize c) at 1. f_equal.
    apply Open_only in Ho; [done..|]. rewrite length_take. lia.
  - intros (nonce & Hn & [Hk ->]%Encrypt_Ok). by apply Decrypt_Ok, Decrypt_sealed.
Qed.

(** A token saved for a known user is loaded back with its access token,
    refresh token and expiry, whatever random nonces were drawn. *)
Theorem save_load_token orc u key p tok i s :
  reliable orc → length key = KeySize → is_Some (users (s_db s) !! u) →
  ∃ i' s', run orc (_ ← SaveToken u key p tok; LoadToken u key p) i s =
      Some (Ok (mk_Token (AccessToken tok) (RefreshToken tok) "Bearer" (Expiry tok)), i', s') ∧
    same_but_tokens (s_db s) (s_db s').
Proof.
  intros Hrel Hk Hu. rewrite run_bind.
  destruct (run_SaveToken orc Hrel u key p tok i s Hk Hu) as (i1 & s1 & -> & Hst & Hsame & _).
  destruct (run_LoadToken orc Hrel u key p tok i1 s1 Hst) as (i' & s' & -> & Hd & _).
  exists i', s'. split; [done|]. by rewrite Hd.
Qed.

(** The saving token source keeps the stored token current: if the token
    last seen is the stored one, then after a call that hands out a token,
    that token is stored and is the one last seen; nothing is handed out that
    was not saved first. *)
Theorem saving_source_in_sync orc u key p t0 base i s :
  reliable orc → length key = KeySize → is_Some (users (s_db s) !! u) →
  (∀ i s, ∃ r i' s', run orc base i s = Some (r, i', s') ∧ s_db s' = s_db s) →
  stored u p key t0 (s_db s) →
  ∃ r last' i' s',
    run orc (savingSource_Token base (SaveToken u key p) (Some t0)) i s = Some ((r, last'), i', s') ∧
    match r with
    | Ok tok => ∃ t1, last' = Some t1 ∧ AccessToken t1 = AccessToken tok ∧ stored u p key t1 (s_db s')
    | Err _ => last' = Some t0 ∧ s_db s' = s_db s
    end.
Proof.
  intros Hrel Hk Hu Hbase Hst. unfold savingSource_Token. rewrite run_bind.
  destruct (Hbase i s) as (r & i1 & s1 & -> & Hd1).
  destruct r as [tok|e]; [|by eexists _, _, _, _]. cbv beta iota.
  destruct (differs tok (Some t0)) eqn:Hd.
  - destruct (run_SaveToken orc Hrel u key p tok i1 s1) as (i2 & s2 & Hrun & Hst1 & _);
      [done|by rewrite Hd1|]. rewrite run_bind, Hrun. eexists _, _, _, _. split; [done|]. by exists tok.
  - apply negb_false_iff, bool_decide_eq_true in Hd. eexists _, _, _, _. split; [done|].
    exists t0. by rewrite Hd1.
Qed.

(** Setting up an account leaves a user with that address (the existing
    one if there was one) whose token loads back; jobs and cursors are
    untouched. *)
Theorem setup_account_ok orc email key tok i s :
  reliable orc → length key = KeySize → users (s_db s) !! o_uuid (orc (S i)) = None →
  (∀ id u, users (s_db s) !! id = Some u → u_ID u = id) →
  ∃ i' s' u, run orc (setup_account email key tok) i s = Some (Ok tt, i', s') ∧
    users (s_db s') !! u_ID u = Some u ∧ Email u = email ∧
    stored (u_ID u) "google" key tok (s_db s') ∧
    (∀ id u0, users (s_db s) !! id = Some u0 → users (s_db s') !! id = Some u0) ∧
    pipeline_jobs (s_db s') = pipeline_jobs (s_db s).
Proof.
  intros Hrel Hk Hfresh Hids. unfold setup_account. rewrite run_bind.
  destruct (run_GetUserByEmail orc Hrel email i s) as (i1 & s1 & r & -> & Hd1 & _ & -> & Hr).
  destruct r as [u|e].
  - destruct Hr as (id & Hu & He). pose proof (Hids id u Hu) as Hid. subst id.
    rewrite run_bind, run_ret, run_bind.
    destruct (run_SaveToken orc Hrel (u_ID u) key "google" tok (S i) s1) as (i2 & s2 & -> & Hst & (Hj & Hus & _) & _);
      [done|rewrite Hd1; eauto|].
    exists i2, s2, u. rewrite Hus, Hj, Hd1. by split_and!.
  - destruct Hr as [-> Hfree]. rewrite run_bind. cbn [errors_Is].
    rewrite bool_decide_eq_true_2 by done. unfold CreateUser.
    rewrite run_bind, run_bind, run_call. cbn [exec fst snd].
    rewrite run_bind, run_call, exec_Sql by apply Hrel. unfold sql_create_user.
    cbn [elapse set_now s_db fst snd]. rewrite Hd1.
    rewrite decide_False by (rewrite Hfresh; by intros [? ?]). rewrite decide_True by done.
    cbn [fst snd]. rewrite run_ret. cbv beta iota. rewrite run_ret. cbv beta iota. rewrite run_bind. set (u := mk_User _ _ _). set (s2 := mk_shared _ _ _ _).
    destruct (run_SaveToken orc Hrel (u_ID u) key "google" tok (S (S (S i))) s2)
      as (i3 & s3 & -> & Hst & (Hj & Hus & _) & _); [done|simpl; rewrite lookup_insert_eq; eauto|].
    exists i3, s3, u. rewrite Hus, Hj. simpl. split_and!; [done|by rewrite lookup_insert_eq|done|done| |done].
    intros id u0 Hu0. rewrite lookup_insert_ne; [done|]. intros <-. congruence.
Qed.

End oauth.

(** ** Witnesses *)
Import SchemaModel RedisModel DriveModel AeadModel EffectsModel.

Definition test_key : list Byte.byte := replicate 32 Byte.x2a.
Definition test_token : Token := mk_Token "access" "refresh" "Bearer" 77.

Definition alice : User := @mk_User uuid_model "u" "a@b.c" 0.

Definition one_user : shared :=
  mk_shared (with_users {[ "u" := alice ]} no_rows) RedisModel.empty no_ext 0.

Lemma one_user_known : is_Some (users (s_db one_user) !! "u").
Proof. by exists alice. Qed.

Lemma save_load_token_witness :
  let orc := calm (λ _, Ok EmptyString) in
  ∃ i' s', run orc (_ ← SaveToken "u" test_key "google" test_token; LoadToken "u" test_key "google")
      0 one_user = Some (Ok (mk_Token "access" "refresh" "Bearer" 77), i', s') ∧
    same_but_tokens (s_db one_user) (s_db s').
Proof.
  cbv zeta. apply (save_load_token (calm (λ _, Ok EmptyString)) "u" test_key "google" test_token 0 one_user).
  - apply calm_reliable.
  - reflexivity.
  - apply one_user_known.
Defined.

Lemma one_user_key : length test_key = KeySize.
Proof. reflexivity. Qed.

(** The token endpoint answers with a refreshed token. *)
Lemma saving_source_in_sync_witness :
  let orc := calm (λ _, Ok EmptyString) in
  let fresh := mk_Token "access2" "refresh" "Bearer" 99 in
  ∃ s, stored "u" "google" test_key test_token (s_db s) ∧ ∃ r last' i' s',
    run orc (savingSource_Token (mret (Ok fresh)) (SaveToken "u" test_key "google") (Some test_token)) 0 s
      = Some ((r, last'), i', s') ∧
    match r with
    | Ok tok => ∃ t1, last' = Some t1 ∧ AccessToken t1 = AccessToken tok ∧
        stored "u" "google" test_key t1 (s_db s')
    | Err _ => last' = Some test_token ∧ s_db s' = s_db s
    end.
Proof.
  cbv zeta. destruct (run_SaveToken (calm (λ _, Ok EmptyString)) (calm_reliable _) "u" test_key "google"
    test_token 0 one_user one_user_key one_user_known) as (i1 & s1 & _ & Hst & (_ & Hus & _) & _).
  exists s1. split; [exact Hst|]. apply saving_source_in_sync.
  - apply calm_reliable.
  - apply one_user_key.
  - rewrite Hus. apply one_user_known.
  - intros i s. exists (Ok (mk_Token "access2" "refresh" "Bearer" 99)), i, s. split; reflexivity.
  - exact Hst.
Defined.

Lemma setup_account_ok_witness :
  let orc := calm (λ _, Ok EmptyString) in
  ∃ i' s' u, run orc (setup_account "new@b.c" test_key test_token) 0 one_user = Some (Ok tt, i', s') ∧
    users (s_db s') !! u_ID u = Some u ∧ Email u = "new@b.c" ∧
    stored (u_ID u) "google" test_key test_token (s_db s') ∧
    (∀ id u0, users (s_db one_user) !! id = Some u0 → users (s_db s') !! id = Some u0) ∧
    pipeline_jobs (s_db s') = pipeline_jobs (s_db one_user).
Proof.
  cbv zeta. apply setup_account_ok.
  - apply calm_reliable.
  - apply one_user_key.
  - reflexivity.
  - intros id u. change (users (s_db one_user)) with ({[ "u" := alice ]} : gmap string User).
    rewrite lookup_singleton_Some. by intros [<- <-].
Defined.

(** The account with a stored token and the cursor 5. *)
Definition alice_row : OAuthToken :=
  let seal s := replicate 12 Byte.x01 ++ Seal test_key (replicate 12 Byte.x01) (list_byte_of_string s) in
  @mk_OAuthToken uuid_model "u" "google" (seal (AccessToken test_token)) (seal (RefreshToken test_token)) 77 0.

Definition signed_up : shared :=
  mk_shared (with_sync {[ "u" := ("5", 0) ]}
    (with_tokens {[ ("u", "google") := alice_row ]} (s_db one_user))) RedisModel.empty no_ext 0.

Lemma signed_up_stored : stored "u" "google" test_key test_token (s_db signed_up).
Proof. exists alice_row. split; [reflexivity|]. vm_compute. reflexivity. Qed.
