(* ===== verification/Gmail.v ===== *)
(** * The Gmail client: internal/gmail/client.go

    A client is the account, the token key and the token its saving source
    last saw.  Each REST call first asks the token source, which may save a
    refreshed token. *)
From S2P Require Import Prelude Redis Schema GoStrings Services Effects Store OAuth Base64.
Local Open Scope Z_scope.

Section gmail.
Context `{UL : UuidLib} `{PG : !PgServer} `{RS : RedisServer} `{DS : DriveServer} `{AE : AeadLib}.

Record Client := mk_Client {
  userID : uuid;
  cl_key : list Byte.byte;
  cl_last : option Token
}.

(** oauth.LoadToken, the token source, and the service on top of it: what
    the Gmail and the Drive client's constructors share; [svc] names the
    service in the error text. *)
Definition connect (svc : string) (u : uuid) (key : list Byte.byte) : prog (result Client) :=
  tok ← LoadToken u key "google";
  match tok with
  | Err e => mret (Err e)
  | Ok tok =>
      r ← call (Api NewService);
      match r with
      | Err e => mret (Err (EWrap svc e))
      | Ok _ => mret (Ok (mk_Client u key (Some tok)))
      end
  end.

Definition New (u : uuid) (key : list Byte.byte) : prog (result Client) := connect "gmail svc" u key.

(** The authenticated transport: a token for every request. *)
Definition source (c : Client) : prog (result Token * Client) :=
  '(tok, last) ← savingSource_Token (call (Api (TokenSource (userID c))))
                   (SaveToken (userID c) (cl_key c) "google") (cl_last c);
  mret (tok, mk_Client (userID c) (cl_key c) last).

Definition Do {X} (c : Client) (rq : api_req X) : prog (result X * Client) :=
  '(tok, c) ← source c;
  match tok with
  | Err e => mret (Err e, c)
  | Ok _ => x ← call (Api rq); mret (x, c)
  end.

(** ** Listing *)

Fixpoint hasLabel (labels : list string) (want : string) : bool :=
  match labels with
  | [] => false
  | l :: labels => if bool_decide (l = want) then true else hasLabel labels want
  end.

(** The closure [add]; the state is [seen] and [newIDs]. *)
Definition add (st : gset string * list string) (msg : option Message) : gset string * list string :=
  match msg with
  | None => st
  | Some m =>
      if bool_decide (msg_Id m = EmptyString) then st
      else if negb (hasLabel (msg_LabelIds m) "CATEGORY_PERSONAL") then st
      else if bool_decide (msg_Id m ∈ st.1) then st
      else ({[ msg_Id m ]} ∪ st.1, st.2 ++ [msg_Id m])
  end.

Definition add_labeled (st : gset string * list string) (la : list string * option Message)
    : gset string * list string :=
  if negb (hasLabel la.1 "INBOX") then st else add st la.2.

Definition add_entry (st : gset string * list string) (h : HistoryEntry)
    : gset string * list string :=
  foldl add_labeled (foldl add st (MessagesAdded h)) (LabelsAdded h).

Definition new_ids (resp : HistoryResp) : list string :=
  (foldl add_entry (∅, []) (History resp)).2.

Definition new_cursor (lastHistoryID : string) (resp : HistoryResp) : string :=
  if (HistoryId resp =? 0)%N then lastHistoryID else FormatUint (HistoryId resp).

Definition LatestMessageIDs (c : Client) (lastHistoryID : string)
    : prog (result (list string * string) * Client) :=
  match ParseUint lastHistoryID with
  | None => mret (Err (EWrap ("parse history id " +:+ lastHistoryID) (EText "strconv.ParseUint")), c)
  | Some startID =>
      '(resp, c) ← Do c (HistoryList (userID c) startID ["messageAdded"; "labelAdded"] "INBOX");
      match resp with
      | Err e => mret (Err (EWrap "history list" e), c)
      | Ok resp => mret (Ok (new_ids resp, new_cursor lastHistoryID resp), c)
      end
  end.

(** time.Time.Unix of a time in nanoseconds *)
Definition unix (t : Z) : Z := t / 1000000000.

(** The ids of one page. *)
Definition page_ids (ms : list (option string)) : list string :=
  omap (λ m, m ← m; if bool_decide (m = EmptyString) then None else Some m) ms.

Fixpoint list_recent_loop (fuel : nat) (c : Client) (query : string) (ids : list string)
    (pageToken : string) : prog (result (list string) * Client) :=
  match fuel with
  | O => NoFuel
  | S fuel =>
      '(resp, c) ← Do c (MessagesList (userID c) ["INBOX"; "CATEGORY_PERSONAL"] query pageToken);
      match resp with
      | Err e => mret (Err (EWrap "messages list" e), c)
      | Ok resp =>
          let ids := ids ++ page_ids (Messages resp) in
          if bool_decide (NextPageToken resp = EmptyString) then mret (Ok ids, c)
          else list_recent_loop fuel c query ids (NextPageToken resp)
      end
  end.

Definition ListRecent (fuel : nat) (c : Client) (since : Z) : prog (result (list string) * Client) :=
  list_recent_loop fuel c ("after:" +:+ pretty (unix since)) [] EmptyString.

(** A zero time is [None]. *)
Definition range_query (since before : option Z) : string :=
  String.concat " "
    (match since with Some t => ["after:" +:+ pretty (unix t)] | None => [] end ++
     match before with Some t => ["before:" +:+ pretty (unix t)] | None => [] end).

(** The callback [page] threads its caller's state [A]; the state is returned
    beside the error. *)
Fixpoint all_pages_loop {A} (fuel : nat) (c : Client) (query pageToken : string)
    (page : A → list string → prog (A * result unit)) (a : A) : prog (A * result unit) :=
  match fuel with
  | O => NoFuel
  | S fuel =>
      '(resp, c) ← Do c (MessagesList (userID c) ["CATEGORY_PERSONAL"] query pageToken);
      match resp with
      | Err e => mret (a, Err (EWrap "messages list" e))
      | Ok resp =>
          '(a, r) ← page a (page_ids (Messages resp));
          match r with
          | Err e => mret (a, Err e)
          | Ok _ =>
              if bool_decide (NextPageToken resp = EmptyString) then mret (a, Ok tt)
              else all_pages_loop fuel c query (NextPageToken resp) page a
          end
      end
  end.

Definition ListAllPages {A} (fuel : nat) (c : Client) (since before : option Z)
    (page : A → list string → prog (A * result unit)) (a : A) : prog (A * result unit) :=
  all_pages_loop fuel c (range_query since before) EmptyString page a.

Definition FetchMessage (c : Client) (messageID : string) : prog (result string * Client) :=
  '(raw, c) ← Do c (MessagesGet (userID c) messageID "raw");
  match raw with
  | Err e => mret (Err (EWrap ("get message " +:+ messageID) e), c)
  | Ok raw =>
      match DecodeString URLEncoding false raw with
      | Some b => mret (Ok b, c)
      | None =>
          match DecodeString URLEncoding true raw with
          | Some b => mret (Ok b, c)
          | None => mret (Err (EWrap "decode raw" (EText "illegal base64 data")), c)
          end
      end
  end.

(** Listing a profile's history id: scheduler.fetchInitialHistoryID *)
Definition fetchInitialHistoryID (u : uuid) (key : list Byte.byte) : prog (result string) :=
  c ← connect "gmail svc" u key;
  match c with
  | Err e => mret (Err e)
  | Ok c =>
      '(prof, _) ← Do c (GetProfile u);
      match prof with
      | Err e => mret (Err (EWrap "get profile" e))
      | Ok hid => mret (Ok (FormatUint hid))
      end
  end.

(** ** Lemmas *)

(** The two ways FetchMessage decodes the text of a message. *)
Definition decoded (text : string) : option string :=
  match DecodeString URLEncoding false text with
  | Some raw => Some raw
  | None => DecodeString URLEncoding true text
  end.

(** The token source asks and saves; it touches neither Redis nor disks, and
    it returns. *)
Lemma SaveToken_quiet u key p tok : calls_only quiet (SaveToken u key p tok).
Proof. unfold SaveToken, read_nonce, SaveOAuthToken. walk_prog. Qed.

Lemma SaveToken_total u key p tok : total (SaveToken u key p tok).
Proof. unfold SaveToken, read_nonce, SaveOAuthToken. walk_prog. Qed.

Lemma source_quiet c : calls_only quiet (source c).
Proof. unfold source, savingSource_Token. walk_prog; apply SaveToken_quiet. Qed.

Lemma source_not_ext c : calls_only not_ext (source c).
Proof. eapply calls_only_impl; [apply quiet_not_ext|apply source_quiet]. Qed.

Lemma source_total c : total (source c).
Proof. unfold source, savingSource_Token. walk_prog; apply SaveToken_total. Qed.

Lemma connect_quiet svc u key : calls_only quiet (connect svc u key).
Proof. unfold connect, LoadToken, GetOAuthToken. walk_prog. Qed.

Lemma connect_total svc u key : total (connect svc u key).
Proof. unfold connect, LoadToken, GetOAuthToken. walk_prog. Qed.

Lemma FetchMessage_quiet c id : calls_only quiet (FetchMessage c id).
Proof. unfold FetchMessage, Do. walk_prog; apply source_quiet. Qed.

Lemma FetchMessage_total c id : total (FetchMessage c id).
Proof. unfold FetchMessage, Do. walk_prog; apply source_total. Qed.

(** A history event that makes a message new: added with the personal
    category, or labelled INBOX while in it. *)
Definition wanted (m : Message) (id : string) : Prop :=
  msg_Id m = id ∧ id ≠ EmptyString ∧ "CATEGORY_PERSONAL" ∈ msg_LabelIds m.

Definition reported (resp : HistoryResp) (id : string) : Prop :=
  ∃ h, h ∈ History resp ∧
    ((∃ m, Some m ∈ MessagesAdded h ∧ wanted m id) ∨
     (∃ ls m, (ls, Some m) ∈ LabelsAdded h ∧ "INBOX" ∈ ls ∧ wanted m id)).

Lemma hasLabel_spec labels want : hasLabel labels want = true ↔ want ∈ labels.
Proof.
  induction labels as [|l labels IH]; simpl; [by rewrite elem_of_nil|].
  rewrite elem_of_cons. case_bool_decide; naive_solver.
Qed.

(** The state of the scan: [seen] is the set of the ids kept so far. *)
Definition scan_ok (st : gset string * list string) : Prop :=
  NoDup st.2 ∧ ∀ id, id ∈ st.1 ↔ id ∈ st.2.

Lemma add_spec st msg :
  scan_ok st → scan_ok (add st msg) ∧
  ∀ id, id ∈ (add st msg).2 ↔ id ∈ st.2 ∨ ∃ m, msg = Some m ∧ wanted m id.
Proof.
  intros [Hnd Hs]. unfold add. destruct msg as [m|]; [|split; [done|naive_solver] ].
  unfold wanted. case_bool_decide as He; [split; [done|naive_solver]|].
  destruct (hasLabel (msg_LabelIds m) "CATEGORY_PERSONAL") eqn:Hl; simpl.
  2: { split; [done|]. intros id. split; [by left|]. intros [?|(m' & [= <-] & _ & _ & Hp)]; [done|].
       apply hasLabel_spec in Hp. congruence. }
  apply hasLabel_spec in Hl. case_bool_decide as Hin.
  - split; [done|]. intros id. split; [by left|]. intros [?|(m' & [= <-] & <- & _)]; [done|]. by apply Hs.
  - split; [split; simpl|].
    + apply NoDup_app. split; [done|]. split; [|apply NoDup_singleton].
      intros x Hx ->%list_elem_of_singleton. by apply Hin, Hs.
    + intros id. rewrite elem_of_union, elem_of_app, elem_of_singleton, list_elem_of_singleton, Hs. tauto.
    + intros id. simpl. rewrite elem_of_app, list_elem_of_singleton. naive_solver.
Qed.

Lemma scan_fold {B} (f : gset string * list string → B → gset string * list string)
    (P : B → string → Prop) :
  (∀ st b, scan_ok st → scan_ok (f st b) ∧ ∀ id, id ∈ (f st b).2 ↔ id ∈ st.2 ∨ P b id) →
  ∀ l st, scan_ok st → scan_ok (foldl f st l) ∧
    ∀ id, id ∈ (foldl f st l).2 ↔ id ∈ st.2 ∨ ∃ b, b ∈ l ∧ P b id.
Proof.
  intros Hf. induction l as [|b l IH]; intros st Hst; simpl.
  { split; [done|]. intros id. split; [by left|]. intros [?|(b & []%elem_of_nil & _)]. done. }
  destruct (Hf st b Hst) as [Hst1 H1]. destruct (IH _ Hst1) as [Hst2 H2]. split; [done|].
  intros id. rewrite H2, H1. setoid_rewrite elem_of_cons. naive_solver.
Qed.

Lemma add_entry_spec st h :
  scan_ok st → scan_ok (add_entry st h) ∧
  ∀ id, id ∈ (add_entry st h).2 ↔ id ∈ st.2 ∨
    ((∃ m, Some m ∈ MessagesAdded h ∧ wanted m id) ∨
     (∃ ls m, (ls, Some m) ∈ LabelsAdded h ∧ "INBOX" ∈ ls ∧ wanted m id)).
Proof.
  intros Hst. unfold add_entry.
  destruct (scan_fold add _ add_spec (MessagesAdded h) st Hst) as [Hst1 H1].
  destruct (scan_fold add_labeled (λ la id, "INBOX" ∈ la.1 ∧ ∃ m, la.2 = Some m ∧ wanted m id))
    with (l := LabelsAdded h) (st := foldl add st (MessagesAdded h)) as [Hst2 H2]; [|done|].
  { intros st' [ls msg] Hst'. unfold add_labeled. simpl.
    destruct (hasLabel ls "INBOX") eqn:Hl; simpl.
    - apply hasLabel_spec in Hl. destruct (add_spec st' msg Hst') as [? Ha]. split; [done|].
      intros id. rewrite Ha. naive_solver.
    - split; [done|]. intros id. split; [by left|]. intros [?|[Hi _] ]; [done|].
      apply hasLabel_spec in Hi. congruence. }
  split; [done|]. intros id. rewrite H2, H1. split.
  - intros [ [?|(msg & Hin & m & -> & Hw)]|([ls msg] & Hin & Hi & m & Heq & Hw)]; [by left| |];
      right; [left; by exists m|right; simpl in *; subst; by exists ls, m].
  - intros [?|[(m & Hin & Hw)|(ls & m & Hin & Hi & Hw)] ]; [by left; left| |].
    + left; right. exists (Some m). split; [done|]. by exists m.
    + right. exists (ls, Some m). split; [done|]. split; [done|]. by exists m.
Qed.

Lemma new_ids_reported resp :
  NoDup (new_ids resp) ∧ ∀ id, id ∈ new_ids resp ↔ reported resp id.
Proof.
  unfold new_ids. destruct (scan_fold add_entry _ add_entry_spec (History resp) (∅, [])) as [ [Hnd _] H].
  { split; [by apply NoDup_nil|]. set_solver. }
  split; [done|]. intros id. rewrite H. simpl. rewrite elem_of_nil. unfold reported. naive_solver.
Qed.

(** ** Requests when nothing fails *)

Section reliable.
Context (orc : nat → outcome) (Hrel : reliable orc).

(** The token endpoint always answers for the user. *)
Definition tokens_for (u : uuid) : Prop :=
  ∀ k, ∃ tok, o_api (orc k) Token (TokenSource u) = Ok tok.

(** A usable client of a known user. *)
Definition client_ok (c : Client) (db : DB) : Prop :=
  length (cl_key c) = KeySize ∧ is_Some (users db !! userID c).

(** A request changes at most the stored tokens. *)
Definition request_step (c c' : Client) (s s' : shared) : Prop :=
  userID c' = userID c ∧ cl_key c' = cl_key c ∧ same_but_tokens (s_db s) (s_db s') ∧
  s_redis s' = s_redis s ∧ s_ext s' = s_ext s.

Lemma request_step_ok c c' s s' :
  request_step c c' s s' → client_ok c (s_db s) → client_ok c' (s_db s').
Proof. intros (Hu & Hk & (_ & Hus & _) & _) [H1 H2]. split; [by rewrite Hk|]. by rewrite Hu, Hus. Qed.

Lemma request_step_trans c1 c2 c3 s1 s2 s3 :
  request_step c1 c2 s1 s2 → request_step c2 c3 s2 s3 → request_step c1 c3 s1 s3.
Proof.
  intros (? & ? & (? & ? & ?) & ? & ?) (? & ? & (? & ? & ?) & ? & ?).
  split_and!; try congruence. split_and!; congruence.
Qed.

Lemma run_SaveToken_ext u key p tok i s r i' s' :
  run orc (SaveToken u key p tok) i s = Some (r, i', s') → s_ext s' = s_ext s.
Proof.
  unfold SaveToken, read_nonce. rewrite run_bind, run_bind, run_call. cbn [exec fst snd].
  rewrite run_ret, run_bind, run_bind, run_call. cbn [exec fst snd]. rewrite run_ret.
  destruct (EncryptToken _ _ _ _) as [ [a b]|e]; [|by intros [= <- <- <-]].
  unfold SaveOAuthToken. rewrite run_bind, run_call, exec_Sql by apply Hrel. cbv zeta.
  match goal with |- context [sql_save_token ?t ?n ?d] =>
    destruct (sql_save_token t n d) as [ [u'|e] db] end; cbn [fst snd]; by intros [= <- <- <-].
Qed.

Lemma run_source c i s :
  client_ok c (s_db s) → tokens_for (userID c) →
  ∃ tok c' i' s', run orc (source c) i s = Some ((Ok tok, c'), i', s') ∧ request_step c c' s s'.
Proof.
  intros [Hk Hu] Htok. unfold source, savingSource_Token. rewrite run_bind, run_bind, run_call.
  cbn [exec fst snd]. rewrite (Hrel i). cbn [with_fault fst snd]. destruct (Htok i) as [tok ->].
  cbv beta iota. destruct (differs tok (cl_last c)).
  - set (s1 := elapse _ s).
    destruct (run_SaveToken orc Hrel (userID c) (cl_key c) "google" tok (S i) s1 Hk Hu)
      as (i1 & s2 & Hrun & _ & Hs & Hr).
    rewrite run_bind, Hrun. cbv beta iota. rewrite run_ret. eexists _, _, _, _. split; [done|].
    split_and!; [done..|]. apply (run_SaveToken_ext _ _ _ _ _ _ _ _ _ Hrun).
  - rewrite run_ret. eexists _, _, _, _. split; [done|]. by split_and!.
Qed.

Lemma run_Do {X} c (rq : api_req X) i s :
  client_ok c (s_db s) → tokens_for (userID c) →
  ∃ k c' i' s', run orc (Do c rq) i s = Some ((o_api (orc k) X rq, c'), i', s') ∧
    request_step c c' s s'.
Proof.
  intros Hc Htok. unfold Do. rewrite run_bind.
  destruct (run_source c i s Hc Htok) as (tok & c' & i1 & s1 & -> & Hs). cbv beta iota.
  rewrite run_bind, run_call. cbn [exec fst snd]. rewrite (Hrel i1). cbn [with_fault fst snd].
  rewrite run_ret. exists i1, c', (S i1), (elapse (orc i1) s1). by split.
Qed.

(** ** Paging *)

(** The pages a listing consists of, from the one with token [t] on. *)
Inductive chain (pages : string → MessagesResp) : string → list (list (option string)) → Prop :=
| chain_last t : NextPageToken (pages t) = EmptyString → chain pages t [Messages (pages t)]
| chain_more t ps : NextPageToken (pages t) ≠ EmptyString →
    chain pages (NextPageToken (pages t)) ps → chain pages t (Messages (pages t) :: ps).

(** The server answers the listing with [pages]. *)
Definition served (u : uuid) (labels : list string) (q : string) (pages : string → MessagesResp)
    : Prop :=
  ∀ k t, o_api (orc k) MessagesResp (MessagesList u labels q t) = Ok (pages t).

Lemma run_list_recent pages q ps fuel c ids t i s :
  client_ok c (s_db s) → tokens_for (userID c) →
  served (userID c) ["INBOX"; "CATEGORY_PERSONAL"] q pages → chain pages t ps →
  (length ps ≤ fuel)%nat →
  ∃ c' i' s', run orc (list_recent_loop fuel c q ids t) i s =
      Some ((Ok (ids ++ concat (page_ids <$> ps)), c'), i', s') ∧ request_step c c' s s'.
Proof.
  intros Hc Htok Hsv Hch. revert fuel c ids i s Hc Htok Hsv.
  induction Hch as [t Ht|t ps Ht _ IH]; intros [|fuel] c ids i s Hc Htok Hsv Hf; simpl in Hf; try lia;
    cbn [list_recent_loop]; rewrite run_bind;
    destruct (run_Do c (MessagesList (userID c) ["INBOX"; "CATEGORY_PERSONAL"] q t) i s Hc Htok)
      as (k & c1 & i1 & s1 & -> & Hs); cbv beta iota; rewrite Hsv; cbv beta iota.
  - rewrite bool_decide_eq_true_2 by done. rewrite run_ret. exists c1, i1, s1. split; [|done].
    simpl. by rewrite app_nil_r.
  - rewrite bool_decide_eq_false_2 by done. pose proof Hs as (Hu & _).
    destruct (IH fuel c1 (ids ++ page_ids (Messages (pages t))) i1 s1) as (c' & i' & s' & Hrun & Hs');
      [by eapply request_step_ok|by rewrite Hu|by rewrite Hu|lia|].
    exists c', i', s'. split; [|by eapply request_step_trans].
    rewrite Hrun. simpl. by rewrite app_assoc.
Qed.

End reliable.

(** ** Properties *)

(** The forward sync keeps exactly the messages the history page reports
    as arrived in the inbox's personal category, each once, and never the
    empty id. *)
Theorem new_ids_spec resp :
  NoDup (new_ids resp) ∧ ∀ id, id ∈ new_ids resp ↔ reported resp id.
Proof. apply new_ids_reported. Qed.

(** The safety-net listing reads every page: whatever the number of pages
    the server splits the answer into, the result is the ids of all of them in
    order, and reading ends with the last page. *)
Theorem ListRecent_all_pages orc fuel c since pages ps i s :
  reliable orc → client_ok c (s_db s) → tokens_for orc (userID c) →
  served orc (userID c) ["INBOX"; "CATEGORY_PERSONAL"] ("after:" +:+ pretty (unix since)) pages →
  chain pages EmptyString ps → (length ps ≤ fuel)%nat →
  ∃ c' i' s', run orc (ListRecent fuel c since) i s =
      Some ((Ok (concat (page_ids <$> ps)), c'), i', s') ∧
    pipeline_jobs (s_db s') = pipeline_jobs (s_db s) ∧ s_redis s' = s_redis s.
Proof.
  intros Hrel Hc Htok Hsv Hch Hf.
  destruct (run_list_recent orc Hrel pages _ ps fuel c [] EmptyString i s Hc Htok Hsv Hch Hf)
    as (c' & i' & s' & Hrun & (_ & _ & (Hj & _) & Hr & _)).
  exists c', i', s'. by split_and!.
Qed.

(** A raw message comes back byte for byte whether the server padded its
    base64 or not. *)
Theorem FetchMessage_bytes orc c id padded b c' i s i' s' :
  run orc (Do c (MessagesGet (userID c) id "raw")) i s =
    Some ((Ok (EncodeToString URLEncoding padded b), c'), i', s') →
  run orc (FetchMessage c id) i s = Some ((Ok b, c'), i', s').
Proof.
  intros H. unfold FetchMessage. rewrite run_bind, H. cbv beta iota.
  unfold DecodeString. rewrite strip_encoded. destruct padded.
  - destruct (decode_unpadded URLEncoding b) as [-> | ->]; [|done]. by rewrite decode_encoded.
  - by rewrite decode_encoded.
Qed.

End gmail.

(** ** Witnesses *)
Import SchemaModel RedisModel DriveModel AeadModel EffectsModel.

Definition personal (id : string) : option Message := Some (mk_Message id ["INBOX"; "CATEGORY_PERSONAL"]).

(** One new message, one that became INBOX, one promotion. *)
Definition test_history : HistoryResp := mk_HistoryResp
  [mk_HistoryEntry [personal "m1"; None; Some (mk_Message "m9" ["INBOX"])] [];
   mk_HistoryEntry [personal "m1"] [(["INBOX"], personal "m2")]] 9 EmptyString.

(** Two pages. *)
Definition test_pages (token : string) : MessagesResp :=
  if bool_decide (token = EmptyString) then mk_MessagesResp [Some "m1"; None] "next"
  else mk_MessagesResp [Some EmptyString; Some "m2"] EmptyString.

(** Remote services that answer. *)
Definition test_api (X : Type) (rq : api_req X) : result X :=
  match rq in @api_req _ X return result X with
  | NewService => Ok tt
  | TokenSource _ => Ok test_token
  | HistoryList _ _ _ _ => Ok test_history
  | MessagesList _ _ _ t => Ok (test_pages t)
  | MessagesGet _ _ _ => Ok (EncodeToString URLEncoding false "From: x")
  | GetProfile _ => Ok 7%N
  | RenderPost _ => Ok (200, "PDF", None)
  end.

Definition alice_client : Client := @mk_Client uuid_model "u" test_key (Some test_token).

Lemma alice_client_ok : client_ok alice_client (s_db signed_up).
Proof. split; [reflexivity|]. by exists alice. Qed.

Lemma test_chain : chain test_pages EmptyString [ [Some "m1"; None]; [Some EmptyString; Some "m2"] ].
Proof. apply (chain_more test_pages EmptyString); [done|]. by apply (chain_last test_pages "next"). Qed.

Lemma ListRecent_all_pages_witness :
  ∃ c' i' s', run (calm_api test_api) (ListRecent 2 alice_client 0) 0 signed_up =
      Some ((Ok ["m1"; "m2"], c'), i', s') ∧
    pipeline_jobs (s_db s') = pipeline_jobs (s_db signed_up) ∧ s_redis s' = s_redis signed_up.
Proof.
  apply (ListRecent_all_pages (calm_api test_api) 2 alice_client 0 test_pages
    [ [Some "m1"; None]; [Some EmptyString; Some "m2"] ]).
  - intros i. reflexivity.
  - apply alice_client_ok.
  - intros k. exists test_token. reflexivity.
  - intros k t. reflexivity.
  - apply test_chain.
  - simpl. lia.
Defined.

Lemma FetchMessage_bytes_witness :
  ∃ c' i' s', run (calm_api test_api) (FetchMessage alice_client "m1") 0 signed_up =
    Some ((Ok "From: x", c'), i', s').
Proof.
  destruct (run_Do (calm_api test_api) (λ _, eq_refl) alice_client (MessagesGet (userID alice_client) "m1" "raw") 0
    signed_up alice_client_ok (λ _, ex_intro _ test_token eq_refl)) as (k & c' & i' & s' & Hrun & _).
  exists c', i', s'.
  apply (FetchMessage_bytes (calm_api test_api) alice_client "m1" false "From: x").
  exact Hrun.
Defined.
