(* ===== verification/Scheduler.v ===== *)
(** * Finding new mail: internal/scheduler and internal/backfill

    The forward sync ([pollUser]), its safety net ([runUser]) and the
    operator's archive import ([RunFull]) all turn message ids into jobs of
    the fetch stage; the enqueueing code of each is modelled as written and
    the three share the effect [enq]. *)
From S2P Require Import Prelude Redis Schema GoStrings Services Effects Queue Store OAuth Base64 Gmail.
Local Open Scope Z_scope.

Section scheduler.
Context `{UL : UuidLib} `{PG : !PgServer} `{RS : RedisServer} `{DS : DriveServer} `{AE : AeadLib}.

(** ** scheduler.go *)

Definition fetch_job (u : uuid) (gid : string) : NewJob :=
  {| nj_Stage := "fetch"; nj_Payload := Some "{}"; nj_UserID := Some u;
     nj_GmailMessageID := Some gid; nj_IsSynthetic := false |}.

(** The body of pollUser's loop over the new ids; failures are logged. *)
Fixpoint poll_enqueue (u : uuid) (ids : list string) : prog unit :=
  match ids with
  | [] => mret tt
  | gid :: ids =>
      job ← EnqueueJob (fetch_job u gid);
      match job with
      | Err _ => poll_enqueue u ids
      | Ok job =>
          _ ← Push "fetch" (uuid_String (ID job));
          poll_enqueue u ids
      end
  end.

Definition pollUser (key : list Byte.byte) (u : User) : prog (result unit) :=
  cursor ← GetGmailSyncState (u_ID u);
  match cursor with
  | Err e => mret (Err e)
  | Ok cursor =>
      if bool_decide (cursor = EmptyString) then
        hid ← fetchInitialHistoryID (u_ID u) key;
        match hid with
        | Err e => mret (Err (EWrap "init history id" e))
        | Ok hid =>
            r ← SetGmailSyncState (u_ID u) hid;
            match r with
            | Err e => mret (Err (EWrap "save init cursor" e))
            | Ok _ => mret (Ok tt)
            end
        end
      else
        client ← Gmail.New (u_ID u) key;
        match client with
        | Err e => mret (Err (EWrap "gmail client" e))
        | Ok client =>
            '(ids, _) ← LatestMessageIDs client cursor;
            match ids with
            | Err e => mret (Err (EWrap "list messages" e))
            | Ok (ids, newCursor) =>
                _ ← poll_enqueue (u_ID u) ids;
                r ← SetGmailSyncState (u_ID u) newCursor;
                match r with
                | Err e => mret (Err (EWrap "save cursor" e))
                | Ok _ => mret (Ok tt)
                end
            end
        end
  end.

(** The loops over the users log a failing user and go on. *)
Fixpoint each_user (f : User → prog (result unit)) (us : list User) : prog unit :=
  match us with
  | [] => mret tt
  | u :: us => _ ← f u; each_user f us
  end.

Definition for_users (f : User → prog (result unit)) : prog (result unit) :=
  us ← ListUsers;
  match us with
  | Err e => mret (Err (EWrap "list users" e))
  | Ok us => _ ← each_user f us; mret (Ok tt)
  end.

Definition PollOnce (key : list Byte.byte) : prog (result unit) := for_users (pollUser key).

(** Run: once at the start, then once per tick until cancelled. *)
Fixpoint ticks (fuel : nat) (once : prog (result unit)) : prog (result unit) :=
  match fuel with
  | O => NoFuel
  | S fuel =>
      stop ← call CtxDone;
      if stop : bool then mret (Ok tt) else
      _ ← once; ticks fuel once
  end.

Definition Run (fuel : nat) (key : list Byte.byte) : prog (result unit) :=
  _ ← PollOnce key; ticks fuel (PollOnce key).

(** ** backfill.go *)

Record BackfillConfig := mk_BackfillConfig { bf_key : list Byte.byte; bf_Interval : Z; Window : Z }.

Definition NewBackfill (cfg : BackfillConfig) : BackfillConfig := {|
  bf_key := bf_key cfg; bf_Interval := bf_Interval cfg;
  Window := if Window cfg =? 0 then 24 * 3600 * 1000000000 else Window cfg |}.

(** The loop of runUser; the counters are (enqueued, skipped). *)
Fixpoint backfill_enqueue (u : uuid) (ids : list string) (n : Z * Z) : prog (Z * Z) :=
  match ids with
  | [] => mret n
  | gid :: ids =>
      has ← HasJobForMessage u gid;
      match has with
      | Err _ => backfill_enqueue u ids n
      | Ok true => backfill_enqueue u ids (n.1, n.2 + 1)
      | Ok false =>
          job ← EnqueueJob (fetch_job u gid);
          match job with
          | Err _ => backfill_enqueue u ids n
          | Ok job =>
              r ← Push "fetch" (uuid_String (ID job));
              match r with
              | Err _ => backfill_enqueue u ids n
              | Ok _ => backfill_enqueue u ids (n.1 + 1, n.2)
              end
          end
      end
  end.

Definition runUser (fuel : nat) (cfg : BackfillConfig) (u : User) : prog (result unit) :=
  client ← Gmail.New (u_ID u) (bf_key cfg);
  match client with
  | Err e => mret (Err (EWrap "gmail client" e))
  | Ok client =>
      now ← call Now;
      '(ids, _) ← ListRecent fuel client (now - Window cfg);
      match ids with
      | Err e => mret (Err (EWrap "list recent" e))
      | Ok ids => _ ← backfill_enqueue (u_ID u) ids (0, 0); mret (Ok tt)
      end
  end.

Definition RunOnce (fuel : nat) (cfg : BackfillConfig) : prog (result unit) :=
  for_users (runUser fuel cfg).

Definition RunBackfill (turns fuel : nat) (cfg : BackfillConfig) : prog (result unit) :=
  if bf_Interval cfg <=? 0 then mret (Ok tt)
  else _ ← RunOnce fuel cfg; ticks turns (RunOnce fuel cfg).

(** ** full.go *)

Record FullConfig := mk_FullConfig {
  fc_key : list Byte.byte;
  fc_Email : string;
  Since : option Z;
  Before : option Z;
  MaxQueueDepth : Z;
  PollInterval : Z
}.

(** One turn per PollInterval while the queue is too deep. *)
Fixpoint waitForQueueDepth (fuel : nat) (maxDepth : Z) : prog (result unit) :=
  match fuel with
  | O => NoFuel
  | S fuel =>
      depth ← Depth "fetch";
      match depth with
      | Err e => mret (Err (EWrap "queue depth" e))
      | Ok depth =>
          if depth <=? maxDepth then mret (Ok tt)
          else
            stop ← call CtxDone;
            if stop : bool then mret (Err (ESentinel contextCanceled))
            else waitForQueueDepth fuel maxDepth
      end
  end.

Definition enqueueOne (u : uuid) (gid : string) : prog (result bool) :=
  has ← HasJobForMessage u gid;
  match has with
  | Err e => mret (Err (EWrap ("has job for message " +:+ gid) e))
  | Ok true => mret (Ok false)
  | Ok false =>
      job ← EnqueueJob (fetch_job u gid);
      match job with
      | Err e =>
          if errors_Is e ErrDuplicateJob then mret (Ok false)
          else mret (Err (EWrap ("enqueue " +:+ gid) e))
      | Ok job =>
          r ← Push "fetch" (uuid_String (ID job));
          match r with
          | Err e => mret (Err (EWrap ("push " +:+ gid) e))
          | Ok _ => mret (Ok true)
          end
      end
  end.

(** The page callback's loop; the counters are (enqueued, skipped). *)
Fixpoint enqueue_page (u : uuid) (ids : list string) (n : Z * Z) : prog ((Z * Z) * result unit) :=
  match ids with
  | [] => mret (n, Ok tt)
  | gid :: ids =>
      enq ← enqueueOne u gid;
      match enq with
      | Err e => mret (n, Err e)
      | Ok true => enqueue_page u ids (n.1 + 1, n.2)
      | Ok false => enqueue_page u ids (n.1, n.2 + 1)
      end
  end.

Definition full_page (fuel : nat) (maxDepth : Z) (u : uuid) (n : Z * Z) (ids : list string)
    : prog ((Z * Z) * result unit) :=
  w ← waitForQueueDepth fuel maxDepth;
  match w with
  | Err e => mret (n, Err e)
  | Ok _ => enqueue_page u ids n
  end.

(** The counters are returned beside the error. *)
Definition RunFull (fuel : nat) (cfg : FullConfig) : prog ((Z * Z) * result unit) :=
  let maxDepth := if MaxQueueDepth cfg <=? 0 then 500 else MaxQueueDepth cfg in
  u ← GetUserByEmail (fc_Email cfg);
  match u with
  | Err e => mret ((0, 0), Err (EWrap "get user" e))
  | Ok u =>
      client ← Gmail.New (u_ID u) (fc_key cfg);
      match client with
      | Err e => mret ((0, 0), Err (EWrap "gmail client" e))
      | Ok client =>
          ListAllPages fuel client (Since cfg) (Before cfg) (full_page fuel maxDepth (u_ID u)) (0, 0)
      end
  end.

(** ** The effect of enqueueing *)

(** A message of a user has a job of some status, or a job that is live. *)
Definition tracked (u : uuid) (gid : string) (db : DB) : Prop :=
  ∃ id j, pipeline_jobs db !! id = Some j ∧ has_message u gid j = true.
Definition live (u : uuid) (gid : string) (db : DB) : Prop :=
  ∃ id j, pipeline_jobs db !! id = Some j ∧ live_key j = Some (u, gid).

Lemma same_but_tokens_ok db db' : same_but_tokens db db' → db_ok db → db_ok db'.
Proof. intros (Hj & Hu & _). apply db_ok_frame; by rewrite ?Hj, ?Hu. Qed.

(** A queued job of the fetch stage for a message of [u]. *)
Definition new_fetch (u : uuid) (gid : string) (j : Job) : Prop :=
  Stage j = "fetch" ∧ Status j = StatusQueued ∧ UserID j = Some u ∧
  GmailMessageID j = Some gid ∧ IsSynthetic j = false.

Definition fetch_depth (s : shared) : Z := Z.of_nat (length (rlist (s_redis s) (Queue.key "fetch"))).

Definition rows (s : shared) : Z := Z.of_nat (size (pipeline_jobs (s_db s))).

(** Existing rows stay; the new ones are fetch jobs for messages that [P]
    holds of, their ids are on the queue; the rest of the queue keeps its
    order. *)
Record enq (u : uuid) (P : string → Prop) (s s' : shared) : Prop := {
  enq_old id j : pipeline_jobs (s_db s) !! id = Some j → pipeline_jobs (s_db s') !! id = Some j;
  enq_new id j : pipeline_jobs (s_db s') !! id = Some j → pipeline_jobs (s_db s) !! id = Some j ∨
    ∃ gid, P gid ∧ new_fetch u gid j ∧ uuid_String id ∈ rlist (s_redis s') (key "fetch");
  enq_rest : users (s_db s') = users (s_db s) ∧
    gmail_sync_state (s_db s') = gmail_sync_state (s_db s);
  enq_ok : db_ok (s_db s) → db_ok (s_db s');
  enq_queue : ∃ front, rlist (s_redis s') (key "fetch") = front ++ rlist (s_redis s) (key "fetch");
  enq_others k : k ≠ key "fetch" → rlist (s_redis s') k = rlist (s_redis s) k
}.

Lemma enq_same u P s s' :
  s_db s' = s_db s → (∀ k, rlist (s_redis s') k = rlist (s_redis s) k) → enq u P s s'.
Proof. intros Hd Hr. constructor; rewrite ?Hd; auto. by exists []. Qed.

Lemma enq_refl u P s s' : s_db s' = s_db s → s_redis s' = s_redis s → enq u P s s'.
Proof. intros Hd Hr. apply enq_same; [done|]. by rewrite Hr. Qed.

(** A request to Google: tokens may be refreshed. *)
Lemma enq_request u P c c' s s' : request_step c c' s s' → enq u P s s'.
Proof.
  intros (_ & _ & Hs & Hr & _). pose proof Hs as (Hj & Hu & Hg). constructor; rewrite ?Hj, ?Hr; auto.
  - by apply same_but_tokens_ok.
  - by exists [].
Qed.

Lemma enq_trans u P s1 s2 s3 : enq u P s1 s2 → enq u P s2 s3 → enq u P s1 s3.
Proof.
  intros [O1 N1 R1 K1 (f1 & Q1) L1] [O2 N2 R2 K2 (f2 & Q2) L2].
  constructor; [auto| |destruct R1 as (? & ?), R2 as (? & ?); split; congruence|auto| |].
  - intros id j Hj. destruct (N2 id j Hj) as [Hj2|(gid & Hg & Hn & Hin)]; [|right; by exists gid].
    destruct (N1 id j Hj2) as [Hj1|(gid & Hg & Hn & Hin)]; [by left|right].
    exists gid. split_and!; [done..|]. rewrite Q2. apply elem_of_app. by right.
  - exists (f2 ++ f1). by rewrite Q2, Q1, app_assoc.
  - intros k Hk. by rewrite L2, L1.
Qed.

Lemma enq_weaken u (P Q : string → Prop) s s' : (∀ g, P g → Q g) → enq u P s s' → enq u Q s s'.
Proof.
  intros HPQ []. constructor; auto. intros id j Hj.
  destruct (enq_new0 id j Hj) as [?|(gid & ? & ?)]; [by left|right; exists gid; auto].
Qed.

Lemma enq_live u P s s' gid : enq u P s s' → live u gid (s_db s) → live u gid (s_db s').
Proof. intros [] (id & j & Hj & Hk). exists id, j. auto. Qed.

Lemma enq_tracked u P s s' gid : enq u P s s' → tracked u gid (s_db s) → tracked u gid (s_db s').
Proof. intros [] (id & j & Hj & Hk). exists id, j. auto. Qed.

Lemma live_key_Some j u gid :
  live_key j = Some (u, gid) → UserID j = Some u ∧ GmailMessageID j = Some gid.
Proof.
  unfold live_key. destruct (_ || _); [done|].
  destruct (UserID j) as [u'|], (GmailMessageID j) as [g'|]; simpl; try done. by intros [= -> ->].
Qed.

Lemma live_tracked u gid db : live u gid db → tracked u gid db.
Proof.
  intros (id & j & Hj & [Hu Hg]%live_key_Some). exists id, j. split; [done|].
  unfold has_message. by rewrite Hu, Hg, !bool_decide_eq_true_2.
Qed.

Lemma new_fetch_live u gid j : new_fetch u gid j → live_key j = Some (u, gid).
Proof. intros (_ & Hs & Hu & Hg & Hy). unfold live_key. by rewrite Hs, Hy, Hu, Hg. Qed.

Section reliable.
Context (orc : nat → outcome) (Hrel : reliable orc).

(** From call [i] on, uuid.New gives identifiers that are new. *)
Definition fresh_from (i : nat) (db : DB) : Prop :=
  (∀ k, (i ≤ k)%nat → pipeline_jobs db !! o_uuid (orc k) = None) ∧
  (∀ k k', (i ≤ k)%nat → (i ≤ k')%nat → o_uuid (orc k) = o_uuid (orc k') → k = k').

Lemma fresh_later i i' db db' :
  (i ≤ i')%nat → pipeline_jobs db' = pipeline_jobs db → fresh_from i db → fresh_from i' db'.
Proof. intros Hi Hd [H1 H2]. split; [intros k Hk; rewrite Hd; apply H1; lia|intros k k' ? ?; apply H2; lia]. Qed.

Local Ltac stays_fresh := eapply fresh_later; [| |eassumption]; [lia|first [done|congruence]].

Lemma fresh_insert i i' j db :
  (i < i')%nat → fresh_from i db →
  fresh_from i' (with_jobs (<[o_uuid (orc i) := j]> (pipeline_jobs db)) db).
Proof.
  intros Hi [H1 H2]. split; [|intros k k' ? ?; apply H2; lia]. intros k Hk. simpl.
  rewrite lookup_insert_ne; [apply H1; lia|]. intros Heq. assert (i = k); [|lia]. apply H2; [lia..|done].
Qed.

Lemma run_EnqueueJob u gid i s :
  db_ok (s_db s) → is_Some (users (s_db s) !! u) → fresh_from i (s_db s) →
  ∃ r s', run orc (EnqueueJob (fetch_job u gid)) i s = Some (r, S (S i), s') ∧
    s_redis s' = s_redis s ∧ fresh_from (S (S i)) (s_db s') ∧
    match r with
    | Ok j => ID j = o_uuid (orc i) ∧ new_fetch u gid j ∧
        s_db s' = with_jobs (<[ID j := j]> (pipeline_jobs (s_db s))) (s_db s) ∧ db_ok (s_db s')
    | Err e => errors_Is e ErrDuplicateJob = true ∧ s_db s' = s_db s ∧ live u gid (s_db s)
    end.
Proof.
  intros Hok Hu Hfr. unfold EnqueueJob. rewrite run_bind, run_call. cbn [exec fst snd].
  rewrite run_bind, run_call, exec_Sql by apply Hrel. cbv zeta. cbn [nj_Payload fetch_job default].
  set (t := s_now _ + _). set (id := o_uuid (orc i)).
  assert (Hid : pipeline_jobs (s_db s) !! id = None) by (apply Hfr; lia).
  pose proof (db_ok_enqueue id (fetch_job u gid) "{}" t _ Hok) as Hok'. revert Hok'.
  change (s_db (elapse (orc i) s)) with (s_db s). change (s_redis (elapse (orc i) s)) with (s_redis s).
  unfold sql_enqueue. cbn [nj_Stage nj_UserID nj_GmailMessageID nj_IsSynthetic fetch_job].
  rewrite !(decide_False (P := is_Some (pipeline_jobs (s_db s) !! id))) by (rewrite Hid; by intros [? ?]).
  set (j := mk_Job _ _ _ _ _ _ _ _ _ _ _ _ _ _ _ _).
  unfold put_job. destruct (decide (live_key_free id j (pipeline_jobs (s_db s)))) as [Hf|Hf].
  - cbn [user_ref_ok]. rewrite bool_decide_eq_true_2 by done. cbn [fst snd]. intros Hok'.
    eexists _, _. split; [done|]. split; [done|]. split; [by apply fresh_insert; [lia|]|].
    by split_and!.
  - intros _. cbn [fst snd]. eexists _, _. split; [done|]. split; [done|].
    split; [stays_fresh|]. split; [done|]. split; [done|].
    apply map_not_Forall in Hf as (id' & j' & Hj' & Hn); [|apply _].
    exists id', j'. split; [done|]. destruct (decide (live_key j' = live_key j)) as [Heq|Hne]; [|tauto].
    by rewrite Heq.
Qed.

(** Insert a new row and push its id. *)
Lemma enq_one u gid j i s s1 :
  new_fetch u gid j → pipeline_jobs (s_db s) !! ID j = None →
  s_db s1 = with_jobs (<[ID j := j]> (pipeline_jobs (s_db s))) (s_db s) →
  db_ok (s_db s1) → s_redis s1 = s_redis s →
  ∃ s', run orc (Push "fetch" (uuid_String (ID j))) i s1 = Some (Ok tt, S i, s') ∧
    s_db s' = s_db s1 ∧ enq u (λ g, g = gid) s s' ∧ fetch_depth s' = fetch_depth s + 1.
Proof.
  intros Hn Hid Hd Hok Hr.
  destruct (run_Push orc Hrel "fetch" (uuid_String (ID j)) i s1) as (s' & Hrun & (Hd' & _ & Hl & _) & Hk).
  exists s'. split; [done|]. split; [done|].
  split; [|unfold fetch_depth; rewrite Hk, Hr; simpl length; lia]. constructor.
  - intros id j0 Hj0. rewrite Hd', Hd. simpl. rewrite lookup_insert_ne; [done|]. intros <-. congruence.
  - intros id j0. rewrite Hd', Hd. simpl. intros [ [<- <-]|[_ Hj0] ]%lookup_insert_Some; [right|by left].
    exists gid. split_and!; [done..|]. rewrite Hk. apply list_elem_of_here.
  - by rewrite Hd', Hd.
  - intros _. by rewrite Hd'.
  - exists [uuid_String (ID j)]. by rewrite Hk, Hr.
  - intros k Hkk. rewrite Hl, Hr; [done|]. by rewrite list_elem_of_singleton.
Qed.

Lemma run_poll_enqueue u ids i s :
  db_ok (s_db s) → is_Some (users (s_db s) !! u) → fresh_from i (s_db s) →
  ∃ i' s', run orc (poll_enqueue u ids) i s = Some (tt, i', s') ∧
    enq u (λ g, g ∈ ids) s s' ∧ db_ok (s_db s') ∧ ∀ gid, gid ∈ ids → live u gid (s_db s').
Proof.
  revert i s. induction ids as [|gid ids IH]; intros i s Hok Hu Hfr; cbn [poll_enqueue].
  { eexists _, s. split; [done|]. split; [by apply enq_refl|]. split; [done|]. by intros gid ?%elem_of_nil. }
  rewrite run_bind. destruct (run_EnqueueJob u gid i s Hok Hu Hfr) as (r & s1 & -> & Hr1 & Hfr1 & Hres).
  destruct r as [j|e].
  - destruct Hres as (Hid & Hn & Hd & Hok1). rewrite run_bind.
    destruct (enq_one u gid j (S (S i)) s s1) as (s2 & -> & Hd2 & He & _);
      [done|rewrite Hid; by apply Hfr|done..|].
    destruct (IH (S (S (S i))) s2) as (i' & s' & -> & He' & Hok' & Hl);
      [by rewrite Hd2|by rewrite (proj1 (enq_rest _ _ _ _ He))|stays_fresh|].
    exists i', s'. split; [done|].
    assert (He2 : enq u (λ g, g ∈ gid :: ids) s s').
    { eapply enq_trans; (eapply enq_weaken; [|done]); intros g; simpl;
        [intros ->; apply list_elem_of_here|by apply list_elem_of_further]. }
    split; [done|]. split; [done|]. intros g [->|Hg]%elem_of_cons; [|auto].
    eapply enq_live; [exact He'|]. exists (ID j), j. rewrite Hd2, Hd. simpl.
    rewrite lookup_insert_eq. split; [done|]. by apply new_fetch_live.
  - destruct Hres as (_ & Hd & Hlive).
    destruct (IH (S (S i)) s1) as (i' & s' & -> & He' & Hok' & Hl); [by rewrite Hd..|done|].
    exists i', s'. split; [done|]. assert (He1 : enq u (λ g, g ∈ gid :: ids) s s1) by (by apply enq_refl).
    assert (He2 : enq u (λ g, g ∈ gid :: ids) s1 s')
      by (eapply enq_weaken, He'; intros g ?; by apply list_elem_of_further).
    split; [by eapply enq_trans|]. split; [done|].
    intros g [->|Hg]%elem_of_cons; [|auto]. eapply enq_live; [exact He2|]. by rewrite Hd.
Qed.

(** ** Reaching Google *)

(** The token endpoint and the service constructor answer. *)
Definition google_up (u : uuid) : Prop :=
  tokens_for orc u ∧ ∀ k, o_api (orc k) unit NewService = Ok tt.

Lemma run_connect svc u key tok i s :
  google_up u → stored u "google" key tok (s_db s) →
  ∃ c i' s', run orc (connect svc u key) i s = Some (Ok c, i', s') ∧
    userID c = u ∧ cl_key c = key ∧ s_db s' = s_db s ∧ s_redis s' = s_redis s ∧ (i ≤ i')%nat.
Proof.
  intros [_ Hsvc] Hst. unfold connect. rewrite run_bind.
  destruct (run_LoadToken orc Hrel u key "google" tok i s Hst) as (i1 & s1 & Hrun & Hd & Hr).
  pose proof (run_mono _ _ _ _ _ _ _ Hrun) as Hi.
  rewrite Hrun. cbv beta iota. rewrite run_bind, run_call. cbn [exec fst snd].
  rewrite (Hrel i1). cbn [with_fault fst snd]. rewrite Hsvc. cbv beta iota. rewrite run_ret.
  eexists _, _, _. split; [done|]. by split_and!; [..|lia].
Qed.

Lemma run_GetGmailSyncState u i s :
  ∃ s', run orc (GetGmailSyncState u) i s = Some (Ok (match gmail_sync_state (s_db s) !! u with
      | Some (h, _) => h | None => EmptyString end), S i, s') ∧
    s_db s' = s_db s ∧ s_redis s' = s_redis s.
Proof.
  unfold GetGmailSyncState. rewrite run_bind, run_call, exec_Sql by apply Hrel. cbv zeta.
  cbn [fst snd]. destruct (gmail_sync_state (s_db s) !! u) as [ [h t]|]; cbn [fst snd];
    by eexists.
Qed.

Lemma run_SetGmailSyncState u h i s :
  is_Some (users (s_db s) !! u) →
  ∃ s' t, run orc (SetGmailSyncState u h) i s = Some (Ok tt, S i, s') ∧
    s_db s' = with_sync (<[u := (h, t)]> (gmail_sync_state (s_db s))) (s_db s) ∧
    s_redis s' = s_redis s.
Proof.
  intros Hu. unfold SetGmailSyncState. rewrite run_bind, run_call, exec_Sql by apply Hrel. cbv zeta.
  unfold sql_set_sync. cbn [user_ref_ok].
  rewrite !(bool_decide_eq_true_2 (is_Some (users (s_db s) !! u))) by done. cbn [fst snd].
  by eexists _, _.
Qed.

(** The page of new mail of a poll. *)
Definition history_answer (u : uuid) (cursor : string) (resp : HistoryResp) : Prop :=
  ∃ start, ParseUint cursor = Some start ∧ ∀ k, o_api (orc k) HistoryResp
    (HistoryList u start ["messageAdded"; "labelAdded"] "INBOX") = Ok resp.

Lemma run_LatestMessageIDs c cursor resp i s :
  client_ok c (s_db s) → tokens_for orc (userID c) → history_answer (userID c) cursor resp →
  ∃ c' i' s', run orc (LatestMessageIDs c cursor) i s =
      Some ((Ok (new_ids resp, new_cursor cursor resp), c'), i', s') ∧
    request_step c c' s s' ∧ (i ≤ i')%nat.
Proof.
  intros Hc Htok (start & Hp & Hans). unfold LatestMessageIDs. rewrite Hp, run_bind.
  destruct (run_Do orc Hrel c (HistoryList (userID c) start ["messageAdded"; "labelAdded"] "INBOX") i s)
    as (k & c' & i' & s' & Hrun & Hs); [done..|]. pose proof (run_mono _ _ _ _ _ _ _ Hrun).
  rewrite Hrun. cbv beta iota. rewrite Hans. cbv beta iota. rewrite run_ret. by exists c', i', s'.
Qed.

Lemma run_HasJobForMessage u gid i s :
  ∃ b s', run orc (HasJobForMessage u gid) i s = Some (Ok b, S i, s') ∧
    s_db s' = s_db s ∧ s_redis s' = s_redis s ∧ (b = true ↔ tracked u gid (s_db s)).
Proof.
  unfold HasJobForMessage. rewrite run_bind, run_call, exec_Sql by apply Hrel. cbv zeta. cbn [fst snd].
  assert (Hin : ∀ j, j ∈ sql_select (has_message u gid) (s_db s) ↔
    has_message u gid j = true ∧ ∃ id, pipeline_jobs (s_db s) !! id = Some j).
  { intros j. unfold sql_select. rewrite list_elem_of_filter, seq_scan_perm, list_elem_of_fmap.
    split; [intros (? & [id j'] & -> & Hm); apply elem_of_map_to_list in Hm; eauto|].
    intros (? & id & Hj). split; [done|]. exists (id, j). by rewrite elem_of_map_to_list. }
  destruct (sql_select _ _) as [|j js]; cbn [fst snd]; eexists _, _; (split; [done|]);
    (split; [done|]); (split; [done|]); split; try done.
  - intros (id & j & Hj & Hm). assert (j ∈ (@nil Job)) as []%elem_of_nil. apply Hin. eauto.
  - intros _. destruct (proj1 (Hin j)) as (Hm & id & Hj); [apply list_elem_of_here|]. by exists id, j.
Qed.

(** One message of the archive import. *)
Lemma run_enqueueOne u gid i s :
  db_ok (s_db s) → is_Some (users (s_db s) !! u) → fresh_from i (s_db s) →
  ∃ b i' s', run orc (enqueueOne u gid) i s = Some (Ok b, i', s') ∧ (i ≤ i')%nat ∧
    db_ok (s_db s') ∧ fresh_from i' (s_db s') ∧ tracked u gid (s_db s') ∧
    enq u (λ g, g = gid ∧ ¬ tracked u gid (s_db s)) s s' ∧
    fetch_depth s' = fetch_depth s + (if b then 1 else 0) ∧
    rows s' = rows s + (if b then 1 else 0).
Proof.
  intros Hok Hu Hfr. unfold enqueueOne. rewrite run_bind.
  destruct (run_HasJobForMessage u gid i s) as (b & s0 & -> & Hd0 & Hr0 & Hb). cbv beta iota.
  destruct b.
  - rewrite run_ret. eexists _, _, _. split; [done|]. split; [lia|]. rewrite Hd0.
    split; [done|]. split; [stays_fresh|]. split; [by apply Hb|].
    split; [by apply enq_refl|]. unfold fetch_depth, rows. rewrite Hr0, Hd0. lia.
  - assert (Hnt : ¬ tracked u gid (s_db s)) by (intros Ht; by apply Hb in Ht).
    rewrite run_bind. rewrite <- Hd0 in Hok, Hu.
    destruct (run_EnqueueJob u gid (S i) s0) as (r & s1 & -> & Hr1 & Hfr1 & Hres);
      [done..|stays_fresh|]. cbv beta iota.
    destruct r as [j|e].
    + destruct Hres as (Hid & Hn & Hd & Hok1). rewrite run_bind.
      destruct (enq_one u gid j (S (S (S i))) s0 s1) as (s2 & -> & Hd2 & He & Hdep);
        [done|rewrite Hid, Hd0; apply Hfr; lia|done..|]. cbv beta iota. rewrite run_ret.
      eexists _, _, _. split; [done|]. split; [lia|]. rewrite Hd2. split; [done|].
      split; [stays_fresh|]. split_and!.
      * apply live_tracked. exists (ID j), j. rewrite Hd. simpl. rewrite lookup_insert_eq.
        split; [done|]. by apply new_fetch_live.
      * eapply enq_trans; [by apply (enq_refl _ _ s s0)|]. eapply enq_weaken, He. by intros g ->.
      * unfold fetch_depth in *. by rewrite Hdep, Hr0.
      * unfold rows. rewrite Hd2, Hd. simpl. rewrite map_size_insert_None, Hd0; [lia|]. rewrite Hid, Hd0. apply Hfr. lia.
    + destruct Hres as (Hdup & Hd & Hlive). rewrite Hdup, run_ret.
      eexists _, _, _. split; [done|]. split; [lia|]. rewrite Hd. split; [done|].
      split; [by rewrite <- Hd|]. split; [by apply live_tracked|].
      split; [apply enq_refl; congruence|]. unfold fetch_depth, rows. rewrite Hr1, Hr0, Hd, Hd0. lia.
Qed.

Lemma run_enqueueOne_tracked u gid i s :
  tracked u gid (s_db s) →
  ∃ s', run orc (enqueueOne u gid) i s = Some (Ok false, S i, s') ∧
    s_db s' = s_db s ∧ s_redis s' = s_redis s.
Proof.
  intros Ht. unfold enqueueOne. rewrite run_bind.
  destruct (run_HasJobForMessage u gid i s) as (b & s0 & -> & Hd0 & Hr0 & Hb). cbv beta iota.
  apply Hb in Ht as ->. rewrite run_ret. by exists s0.
Qed.

Lemma run_enqueue_page u ids n i s :
  db_ok (s_db s) → is_Some (users (s_db s) !! u) → fresh_from i (s_db s) →
  ∃ a b i' s', run orc (enqueue_page u ids n) i s = Some (((n.1 + a, n.2 + b), Ok tt), i', s') ∧
    0 ≤ a ∧ 0 ≤ b ∧ a + b = Z.of_nat (length ids) ∧ fetch_depth s' = fetch_depth s + a ∧
    db_ok (s_db s') ∧ fresh_from i' (s_db s') ∧
    (∀ gid, gid ∈ ids → tracked u gid (s_db s')) ∧
    enq u (λ g, g ∈ ids ∧ ¬ tracked u g (s_db s)) s s' ∧ rows s' = rows s + a.
Proof.
  revert n i s. induction ids as [|gid ids IH]; intros n i s Hok Hu Hfr; cbn [enqueue_page].
  { exists 0, 0, i, s. rewrite run_ret, !Z.add_0_r. destruct n. split; [done|]. split_and!; [done..|lia|done|done| | |].
    - by intros gid ?%elem_of_nil.
    - by apply enq_refl.
    - lia. }
  rewrite run_bind. destruct (run_enqueueOne u gid i s Hok Hu Hfr)
    as (b0 & i1 & s1 & -> & Hi & Hok1 & Hfr1 & Ht1 & He1 & Hdep & Hn1). cbv beta iota.
  assert (Hu1 : is_Some (users (s_db s1) !! u)) by (by rewrite (proj1 (enq_rest _ _ _ _ He1))).
  set (n1 := if b0 then (n.1 + 1, n.2) else (n.1, n.2 + 1)).
  destruct (IH n1 i1 s1 Hok1 Hu1 Hfr1) as (a & b & i' & s' & Hrun & Ha & Hb & Hab & Hdep' & Hok' & Hfr' & Ht & He & Hn').
  exists (a + (if b0 then 1 else 0)), (b + (if b0 then 0 else 1)), i', s'.
  split; [|split_and!].
  - replace (n.1 + (a + (if b0 then 1 else 0))) with (n1.1 + a) by (unfold n1; destruct b0; simpl; lia).
    replace (n.2 + (b + (if b0 then 0 else 1))) with (n1.2 + b) by (unfold n1; destruct b0; simpl; lia).
    rewrite <- Hrun. by destruct b0.
  - destruct b0; lia.
  - destruct b0; lia.
  - simpl. destruct b0; lia.
  - rewrite Hdep', Hdep. destruct b0; lia.
  - done.
  - done.
  - intros g [->|Hg]%elem_of_cons; [by eapply enq_tracked|auto].
  - eapply enq_trans; eapply enq_weaken; [|exact He1| |exact He].
    + intros g [-> Hnt]. split; [apply list_elem_of_here|done].
    + intros g [Hg Hnt]. split; [by apply list_elem_of_further|].
      intros Ht0. apply Hnt. by eapply enq_tracked.
  - rewrite Hn', Hn1. destruct b0; lia.
Qed.

Lemma run_enqueue_page_tracked u ids n i s :
  (∀ gid, gid ∈ ids → tracked u gid (s_db s)) →
  ∃ i' s', run orc (enqueue_page u ids n) i s =
      Some (((n.1, n.2 + Z.of_nat (length ids)), Ok tt), i', s') ∧
    s_db s' = s_db s ∧ s_redis s' = s_redis s.
Proof.
  revert n i s. induction ids as [|gid ids IH]; intros n i s Ht; cbn [enqueue_page].
  { exists i, s. rewrite run_ret, Z.add_0_r. by destruct n. }
  rewrite run_bind. destruct (run_enqueueOne_tracked u gid i s) as (s1 & -> & Hd1 & Hr1);
    [apply Ht, list_elem_of_here|]. cbv beta iota.
  destruct (IH (n.1, n.2 + 1) (S i) s1) as (i' & s' & Hrun & Hd & Hr).
  { intros g Hg. rewrite Hd1. apply Ht. by apply list_elem_of_further. }
  exists i', s'. rewrite Hrun. simpl length. split_and!; [|congruence|congruence].
  cbn [fst snd]. by rewrite Nat2Z.inj_succ, <- Z.add_1_l, Z.add_assoc.
Qed.

(** ** A poll of one account *)

(** What a poll needs: a known user with a token and a cursor, and a Google
    that answers. *)
Record poll_ready (key : list Byte.byte) (u : uuid) (cursor : string) (resp : HistoryResp)
    (i : nat) (s : shared) : Prop := {
  pr_google : google_up u;
  pr_key : length key = KeySize;
  pr_user : is_Some (users (s_db s) !! u);
  pr_token : ∃ tok, stored u "google" key tok (s_db s);
  pr_cursor : ∃ t, gmail_sync_state (s_db s) !! u = Some (cursor, t);
  pr_set : cursor ≠ EmptyString;
  pr_history : history_answer u cursor resp;
  pr_db : db_ok (s_db s);
  pr_fresh : fresh_from i (s_db s)
}.

(** Calls that move no cursor. *)
Definition no_cursor_write (X : Type) (c : cmd X) : Prop :=
  match c with Sql f => ∀ t db, gmail_sync_state (f t db).2 = gmail_sync_state db | _ => True end.

Lemma exec_no_cursor_write X (c : cmd X) o s m :
  no_cursor_write X c → gmail_sync_state (s_db s) = m → gmail_sync_state (s_db (exec o c s).2) = m.
Proof.
  intros Hc <-. destruct c as [Y f|Y f| | | | |j|Y f|Y rq]; simpl; try done; destruct (o_fault o); simpl; try done; try (by destruct (f _ _));
    specialize (Hc (s_now s + Z.of_N (o_dt o)) (s_db s)); by destruct (f _ _).
Qed.

Lemma source_no_cursor_write c : calls_only no_cursor_write (source c).
Proof.
  unfold source, savingSource_Token, SaveToken, read_nonce, SaveOAuthToken. walk_prog.
  split; [|done]. intros t db. unfold sql_save_token. by destruct (user_ref_ok _ _).
Qed.

Lemma connect_no_cursor_write svc u key : calls_only no_cursor_write (connect svc u key).
Proof. unfold connect, LoadToken, GetOAuthToken. walk_prog. Qed.

Lemma poll_enqueue_no_cursor_write u ids : calls_only no_cursor_write (poll_enqueue u ids).
Proof.
  induction ids as [|gid ids IH]; cbn [poll_enqueue]; [done|]. unfold EnqueueJob, Push. walk_prog.
  split; [|done]. intros t db. unfold sql_enqueue. repeat (case_decide || case_match); try done.
  revert H0. unfold put_job. case_decide; [|done]. by intros [= <-].
Qed.

(** The cursor as it was, in every state. *)
Abbreviation cursor_kept s := (Forall (λ sn, gmail_sync_state (s_db sn) = gmail_sync_state (s_db s))).

Lemma states_no_cursor_write {A} (p : prog A) i s s0 :
  calls_only no_cursor_write p → gmail_sync_state (s_db s) = gmail_sync_state (s_db s0) → cursor_kept s0 (states orc p i s).
Proof.
  intros Hp. apply (states_calls_only no_cursor_write (λ sn, gmail_sync_state (s_db sn) = gmail_sync_state (s_db s0))); [|done].
  intros X c o s1. apply exec_no_cursor_write.
Qed.

(** Up to the new ids, a poll only touches the stored tokens. *)
Lemma run_poll_prefix key u cursor resp i s :
  poll_ready key (u_ID u) cursor resp i s →
  let rest := (_ ← poll_enqueue (u_ID u) (new_ids resp);
               r ← SetGmailSyncState (u_ID u) (new_cursor cursor resp);
               match r with
               | Err e => mret (Err (EWrap "save cursor" e))
               | Ok _ => mret (Ok tt)
               end) in
  ∃ i' s' l, (i ≤ i')%nat ∧ same_but_tokens (s_db s) (s_db s') ∧ s_redis s' = s_redis s ∧
    run orc (pollUser key u) i s = run orc rest i' s' ∧
    states orc (pollUser key u) i s = l ++ states orc rest i' s' ∧ cursor_kept s l.
Proof.
  intros [Hg Hk Hu (tok & Htok) (t & Hcur) Hne Hans _ _]. cbv zeta. unfold pollUser. rewrite run_bind.
  destruct (run_GetGmailSyncState (u_ID u) i s) as (s1 & Hrun1 & Hd1 & Hr1). erewrite states_bind by exact Hrun1. rewrite Hrun1, Hcur. cbv beta iota.
  rewrite bool_decide_eq_false_2 by done. rewrite run_bind.
  destruct (run_connect "gmail svc" (u_ID u) key tok (S i) s1) as (c & i2 & s2 & Hrun & Hcu & Hck & Hd2 & Hr2 & Hi2);
    [done|by rewrite Hd1|]. unfold Gmail.New. erewrite states_bind by exact Hrun. rewrite Hrun. cbv beta iota. rewrite run_bind.
  destruct (run_LatestMessageIDs c cursor resp i2 s2) as (c' & i3 & s3 & Hrun3 & Hst & Hi3).
  { split; [by rewrite Hck|]. by rewrite Hcu, Hd2, Hd1. }
  { rewrite Hcu. apply Hg. }
  { by rewrite Hcu. }
  erewrite states_bind by exact Hrun3. rewrite Hrun3.
  cbv beta iota. eexists i3, s3, _. destruct Hst as (_ & _ & Hs & Hr & _).
  split; [lia|]. split; [by rewrite <- Hd1, <- Hd2|]. split; [congruence|]. split; [done|]. rewrite !app_assoc. split; [done|].
  rewrite !Forall_app. split_and!; apply states_no_cursor_write; try (by rewrite ?Hd2, ?Hd1).
  - unfold GetGmailSyncState. walk_prog.
  - apply connect_no_cursor_write.
  - unfold LatestMessageIDs, Do. destruct (ParseUint cursor); [|done]. apply calls_only_bind; [|by intros [ [?|?] ?] ].
    apply calls_only_bind; [apply source_no_cursor_write|]. by intros [ [?|?] ?].
Qed.

(** ** Reading every page of a listing into a callback *)

Lemma source_no_wait c : calls_only no_wait (source c).
Proof. unfold source, savingSource_Token, SaveToken, read_nonce, SaveOAuthToken. walk_prog. Qed.

Lemma Do_no_wait {X} c (rq : api_req X) : calls_only no_wait (Do c rq).
Proof. unfold Do. apply calls_only_bind; [apply source_no_wait|]. by intros [ [?|?] ?]. Qed.

Section all_pages.
Context (others : nat → shared → shared).
Context {A : Type} (page : A → list string → prog (A * result unit)).
Context (u : uuid) (all : list string) (I : A → list string → nat → shared → Prop).
Hypothesis I_user : ∀ a acc i s, I a acc i s → is_Some (users (s_db s) !! u).
Hypothesis I_request : ∀ a acc i s c c' i' s',
  I a acc i s → request_step c c' s s' → (i ≤ i')%nat → I a acc i' s'.
Hypothesis I_page : ∀ a acc ids i s, I a acc i s → acc ++ ids `prefix_of` all →
  ∃ a' i' s', run_with others orc (page a ids) i s = Some ((a', Ok tt), i', s') ∧ I a' (acc ++ ids) i' s'.

Lemma run_all_pages pages q ps fuel c a acc t i s :
  userID c = u → length (cl_key c) = KeySize → tokens_for orc u →
  served orc u ["CATEGORY_PERSONAL"] q pages → chain pages t ps → (length ps ≤ fuel)%nat →
  I a acc i s → acc ++ concat (page_ids <$> ps) = all →
  ∃ a' i' s', run_with others orc (all_pages_loop fuel c q t page a) i s = Some ((a', Ok tt), i', s') ∧
    I a' all i' s'.
Proof.
  intros Hcu Hck Htok Hsv Hch. revert fuel c a acc i s Hcu Hck.
  induction Hch as [t Ht|t ps Ht _ IH]; intros [|fuel] c a acc i s Hcu Hck Hf HI Hall; simpl in Hf, Hall;
    try lia; cbn [all_pages_loop]; rewrite run_with_bind, Hcu, run_with_plain by apply Do_no_wait.
  all: destruct (run_Do orc Hrel c (MessagesList u ["CATEGORY_PERSONAL"] q t) i s) as (k & c1 & i1 & s1 & Hrun & Hs);
    [split; [done|]; rewrite Hcu; by eapply I_user|by rewrite Hcu|].
  all: pose proof (run_mono _ _ _ _ _ _ _ Hrun) as Hi; rewrite Hrun; cbv beta iota; rewrite Hsv;
    cbv beta iota; rewrite run_with_bind.
  all: destruct (I_page a acc (page_ids (Messages (pages t))) i1 s1) as (a2 & i2 & s2 & -> & HI2);
    [by eapply I_request|rewrite <- Hall, app_assoc; by apply prefix_app_r|]; cbv beta iota.
  - rewrite bool_decide_eq_true_2 by done. eexists _, _, _. split; [done|].
    by rewrite <- Hall, app_nil_r.
  - rewrite bool_decide_eq_false_2 by done. pose proof Hs as (Hu1 & Hk1 & _).
    destruct (IH fuel c1 a2 (acc ++ page_ids (Messages (pages t))) i2 s2) as (a' & i' & s' & Hrun' & HI');
      [congruence|congruence|lia|done|by rewrite <- app_assoc|].
    by exists a', i', s'.
Qed.

End all_pages.

(** ** The archive import *)

Definition max_depth (cfg : FullConfig) : Z :=
  if MaxQueueDepth cfg <=? 0 then 500 else MaxQueueDepth cfg.

Lemma run_wait fuel d i s :
  (0 < fuel)%nat → fetch_depth s ≤ d →
  ∃ s', run orc (waitForQueueDepth fuel d) i s = Some (Ok tt, S i, s') ∧
    s_db s' = s_db s ∧ ∀ k, rlist (s_redis s') k = rlist (s_redis s) k.
Proof.
  intros Hf Hd. destruct fuel as [|fuel]; [lia|]. cbn [waitForQueueDepth]. rewrite run_bind.
  destruct (run_Depth orc Hrel "fetch" i s) as (s' & -> & Hdb & _ & Hl & _). cbv beta iota.
  unfold fetch_depth in Hd. rewrite (proj2 (Z.leb_le _ _) Hd), run_ret. exists s'. split; [done|]. split; [done|].
  intros k. apply Hl, not_elem_of_nil.
Qed.

(** What the import needs: the account is set up, and Google lists the pages
    [ps] of the requested range. *)
Record import_ready (cfg : FullConfig) (u : User) (pages : string → MessagesResp)
    (ps : list (list (option string))) (i : nat) (s : shared) : Prop := {
  ir_user : ∃ id, users (s_db s) !! id = Some u ∧ Email u = fc_Email cfg;
  ir_unique id1 id2 u1 u2 : users (s_db s) !! id1 = Some u1 → users (s_db s) !! id2 = Some u2 →
    Email u1 = Email u2 → u1 = u2;
  ir_row : users (s_db s) !! u_ID u = Some u;
  ir_google : google_up (u_ID u);
  ir_key : length (fc_key cfg) = KeySize;
  ir_token : ∃ tok, stored (u_ID u) "google" (fc_key cfg) tok (s_db s);
  ir_served : served orc (u_ID u) ["CATEGORY_PERSONAL"] (range_query (Since cfg) (Before cfg)) pages;
  ir_pages : chain pages EmptyString ps;
  ir_db : db_ok (s_db s);
  ir_fresh : fresh_from i (s_db s)
}.

Definition listed (ps : list (list (option string))) : list string := concat (page_ids <$> ps).

(** Up to the listing, the import changes nothing. *)
Lemma run_import_prefix fuel cfg u pages ps i s :
  import_ready cfg u pages ps i s →
  ∃ c i' s', (i ≤ i')%nat ∧ userID c = u_ID u ∧ cl_key c = fc_key cfg ∧
    s_db s' = s_db s ∧ s_redis s' = s_redis s ∧ ∀ others,
    run_with others orc (RunFull fuel cfg) i s =
    run_with others orc (ListAllPages fuel c (Since cfg) (Before cfg) (full_page fuel (max_depth cfg) (u_ID u)) (0, 0)) i' s'.
Proof.
  intros [ (id & Hu & He) Huniq Hrow Hg Hk (tok & Htok) _ _ _ _]. unfold RunFull. cbv zeta.
  destruct (run_GetUserByEmail orc Hrel (fc_Email cfg) i s) as (i1 & s1 & r & Hrun1 & Hd1 & Hr1 & -> & Hres).
  destruct r as [u'|e]; [|by destruct Hres as [_ Hf]; destruct (Hf id u Hu)].
  destruct Hres as (id' & Hu' & He'). assert (u' = u) as -> by (eapply Huniq; [done..|congruence]).
  unfold Gmail.New.
  destruct (run_connect "gmail svc" (u_ID u) (fc_key cfg) tok (S i) s1)
    as (c & i2 & s2 & Hrun2 & Hcu & Hck & Hd2 & Hr2 & Hi2); [done|by rewrite Hd1|].
  exists c, i2, s2. split_and!; [lia|done|done|congruence|congruence|]. intros others.
  rewrite run_with_bind, run_with_plain, Hrun1 by (unfold GetUserByEmail; walk_prog).
  rewrite run_with_bind, run_with_plain, Hrun2 by (unfold connect, LoadToken, GetOAuthToken; walk_prog). done.
Qed.

(** The import so far, from the state [s0] on. *)
Definition importing (u : uuid) (s0 : shared) (n : Z * Z) (acc : list string) (i : nat) (s : shared)
    : Prop :=
  is_Some (users (s_db s) !! u) ∧ db_ok (s_db s) ∧ fresh_from i (s_db s) ∧
  0 ≤ n.1 ∧ 0 ≤ n.2 ∧ n.1 + n.2 = Z.of_nat (length acc) ∧
  fetch_depth s = fetch_depth s0 + n.1 ∧ (∀ gid, gid ∈ acc → tracked u gid (s_db s)) ∧
  enq u (λ g, g ∈ acc ∧ ¬ tracked u g (s_db s0)) s0 s.

Lemma importing_request u s0 n acc i s c c' i' s' :
  importing u s0 n acc i s → request_step c c' s s' → (i ≤ i')%nat → importing u s0 n acc i' s'.
Proof.
  intros (Hu & Hok & Hfr & ? & ? & ? & Hdep & Ht & He) Hst Hi.
  pose proof Hst as (_ & _ & Hsame & Hr & _). pose proof Hsame as (Hj & Hus & _).
  unfold importing, tracked. rewrite Hj, Hus. split_and!; try done.
  - by eapply same_but_tokens_ok.
  - by eapply fresh_later.
  - unfold fetch_depth. by rewrite Hr.
  - eapply enq_trans; [exact He|]. by eapply enq_request.
Qed.

Lemma importing_page fuel d u all s0 n acc ids i s :
  (0 < fuel)%nat → fetch_depth s0 + Z.of_nat (length all) ≤ d →
  importing u s0 n acc i s → acc ++ ids `prefix_of` all →
  ∃ n' i' s', run orc (full_page fuel d u n ids) i s = Some ((n', Ok tt), i', s') ∧
    importing u s0 n' (acc ++ ids) i' s'.
Proof.
  intros Hf Hroom (Hu & Hok & Hfr & H1 & H2 & Hn & Hdep & Ht & He) Hpre.
  assert (Hlen : (length (acc ++ ids) ≤ length all)%nat) by by apply prefix_length.
  rewrite length_app in Hlen. unfold full_page. rewrite run_bind.
  destruct (run_wait fuel d i s) as (s1 & -> & Hd1 & Hl1); [done|lia|]. cbv beta iota.
  destruct (run_enqueue_page u ids n (S i) s1)
    as (a & b & i' & s' & -> & Ha & Hb & Hab & Hdep' & Hok' & Hfr' & Ht' & He' & _);
    [by rewrite Hd1..|stays_fresh|].
  exists (n.1 + a, n.2 + b), i', s'. split; [done|]. unfold importing. cbn [fst snd].
  pose proof (proj1 (enq_rest _ _ _ _ He')) as Hus.
  assert (Hdep1 : fetch_depth s1 = fetch_depth s) by (unfold fetch_depth; by rewrite Hl1).
  split_and!; [by rewrite Hus, Hd1|done|done|lia|lia|rewrite length_app; lia|lia| |].
  - intros gid [Hg|Hg]%elem_of_app; [|by apply Ht']. eapply enq_tracked; [exact He'|].
    rewrite Hd1. by apply Ht.
  - assert (Hs1 : enq u (λ g, g ∈ acc ++ ids ∧ ¬ tracked u g (s_db s0)) s s1) by by apply enq_same.
    eapply enq_trans; [|eapply enq_trans; [exact Hs1|] ]; eapply enq_weaken; [|exact He| |exact He'].
    + intros g [Hg Hnt]. by rewrite elem_of_app; auto.
    + intros g [Hg Hnt]. rewrite elem_of_app. split; [by right|]. intros Ht0. apply Hnt.
      rewrite Hd1. by eapply enq_tracked.
Qed.

(** The import over messages that all have jobs. *)
Definition imported (s0 : shared) (n : Z * Z) (acc : list string)
    (i : nat) (s : shared) : Prop :=
  n = (0, Z.of_nat (length acc)) ∧ pipeline_jobs (s_db s) = pipeline_jobs (s_db s0) ∧
  users (s_db s) = users (s_db s0) ∧ ∀ k, rlist (s_redis s) k = rlist (s_redis s0) k.

Lemma imported_page fuel d u all s0 n acc ids i s :
  (0 < fuel)%nat → fetch_depth s0 ≤ d → (∀ gid, gid ∈ all → tracked u gid (s_db s0)) →
  imported s0 n acc i s → acc ++ ids `prefix_of` all →
  ∃ n' i' s', run orc (full_page fuel d u n ids) i s = Some ((n', Ok tt), i', s') ∧
    imported s0 n' (acc ++ ids) i' s'.
Proof.
  intros Hf Hd Ht (-> & Hj & Hus & Hl) [k Hk]. unfold full_page. rewrite run_bind.
  destruct (run_wait fuel d i s) as (s1 & -> & Hd1 & Hl1); [done|unfold fetch_depth in *; by rewrite Hl|].
  cbv beta iota.
  destruct (run_enqueue_page_tracked u ids (0, Z.of_nat (length acc)) (S i) s1)
    as (i' & s' & -> & Hd' & Hr').
  { intros gid Hg. rewrite Hd1. unfold tracked. rewrite Hj. apply Ht. rewrite Hk, !elem_of_app. auto. }
  eexists _, i', s'. split; [done|]. unfold imported. cbn [fst snd].
  rewrite length_app, Nat2Z.inj_add, Hd', Hd1, Hr'. split_and!; [done..|].
  intros k'. by rewrite Hl1.
Qed.

End reliable.

(** ** Backpressure, whatever fails *)

Section any.
Context (orc : nat → outcome).

Lemma run_Depth_any st i s r i' s' :
  run orc (Depth st) i s = Some (r, i', s') →
  (∀ k, rlist (s_redis s') k = rlist (s_redis s) k) ∧
  (∀ n, r = Ok n → n = Z.of_nat (length (rlist (s_redis s) (Queue.key st)))).
Proof.
  unfold Depth. rewrite run_bind, run_call. cbn [fst snd cli_LLen exec].
  destruct (o_fault (orc i)); cbn; intros [= <- <- <-]; split; try done. by intros n [= ->].
Qed.

Lemma run_Push_any st id i s r i' s' :
  run orc (Push st id) i s = Some (r, i', s') →
  fetch_depth s ≤ fetch_depth s' ≤ fetch_depth s + 1.
Proof.
  intros H. assert (s_redis s' = s_redis s ∨ s_redis s' = LPush (Queue.key st) id (s_redis s)) as Hr.
  { revert H. unfold Push. rewrite run_bind, run_call. unfold cli_LPush. cbn [fst snd exec].
    destruct (o_fault (orc i)); cbn [with_fault fst snd]; intros [= _ _ <-]; auto. }
  unfold fetch_depth. destruct Hr as [-> | ->]; [lia|]. rewrite rlist_LPush by apply key_list.
  case_decide as Hk; [rewrite Hk; simpl length|]; lia.
Qed.

Lemma run_wait_any fuel d i s r i' s' :
  run orc (waitForQueueDepth fuel d) i s = Some (r, i', s') →
  (∀ k, rlist (s_redis s') k = rlist (s_redis s) k) ∧ (r = Ok tt → fetch_depth s ≤ d).
Proof.
  revert i s. induction fuel as [|fuel IH]; intros i s; cbn [waitForQueueDepth]; [done|].
  rewrite run_bind. destruct (run orc (Depth "fetch") i s) as [ [ [r1 i1] s1]|] eqn:Hrun; [|done].
  apply run_Depth_any in Hrun as [Hl Hn]. destruct r1 as [n|e]; [|by intros [= <- <- <-] ].
  specialize (Hn n eq_refl). destruct (Z.leb_spec n d).
  { intros [= <- <- <-]. split; [done|]. intros _. unfold fetch_depth. lia. }
  rewrite run_bind, run_call. cbn [exec fst snd]. destruct (o_ctx (orc i1)); [by intros [= <- <- <-]|].
  intros [Hl' Hd']%IH. unfold fetch_depth in *. cbn [elapse set_now s_redis] in *.
  split; [intros k; by rewrite Hl', Hl|]. intros ->. rewrite Hl in Hd'. auto.
Qed.

Lemma run_EnqueueJob_any nj i s r i' s' :
  run orc (EnqueueJob nj) i s = Some (r, i', s') → s_redis s' = s_redis s.
Proof.
  unfold EnqueueJob. rewrite run_bind, run_call. cbn [exec fst snd]. rewrite run_bind, run_call.
  match goal with |- context [exec ?o (Sql ?f) ?s0] =>
    pose proof (exec_Sql_redis o f s0) as Hr; destruct (exec o (Sql f) s0) as [x s1] end.
  cbn [fst snd] in *. intros H. rewrite <- (Hr : s_redis s1 = s_redis s).
  destruct x as [j|e]; [by injection H as <- <- <-|].
  destruct e as [m|c m|m|m e|m e1 e2]; try (by injection H as <- <- <-).
  match type of H with context [if ?b then _ else _] => destruct b end; by injection H as <- <- <-.
Qed.

Lemma run_HasJobForMessage_any u gid i s r i' s' :
  run orc (HasJobForMessage u gid) i s = Some (r, i', s') → s_redis s' = s_redis s.
Proof.
  unfold HasJobForMessage. rewrite run_bind, run_call.
  match goal with |- context [exec ?o (Sql ?f) ?s0] =>
    pose proof (exec_Sql_redis o f s0) as Hr; destruct (exec o (Sql f) s0) as [x s1] end.
  cbn [fst snd] in *. intros H. rewrite <- Hr.
  destruct x as [j|e]; [by injection H as <- <- <-|].
  destruct (errors_Is e pgxErrNoRows); by injection H as <- <- <-.
Qed.

Lemma run_enqueueOne_any u gid i s r i' s' :
  run orc (enqueueOne u gid) i s = Some (r, i', s') →
  fetch_depth s ≤ fetch_depth s' ≤ fetch_depth s + 1.
Proof.
  unfold enqueueOne. rewrite run_bind.
  destruct (run orc (HasJobForMessage u gid) i s) as [ [ [h i1] s1]|] eqn:Hh; [|done].
  apply run_HasJobForMessage_any in Hh. unfold fetch_depth. rewrite <- Hh.
  destruct h as [ [|]|e]; [intros [= _ _ <-]; lia| |intros [= _ _ <-]; lia].
  rewrite run_bind. destruct (run orc (EnqueueJob _) i1 s1) as [ [ [j i2] s2]|] eqn:Hj; [|done].
  apply run_EnqueueJob_any in Hj. rewrite <- Hj. destruct j as [j|e].
  2: { destruct (errors_Is e ErrDuplicateJob); intros [= _ _ <-]; lia. }
  rewrite run_bind. destruct (run orc (Push _ _) i2 s2) as [ [ [p i3] s3]|] eqn:Hp; [|done].
  apply run_Push_any in Hp. unfold fetch_depth in Hp. by destruct p; intros [= _ _ <-].
Qed.

Lemma run_enqueue_page_any u ids n i s r i' s' :
  run orc (enqueue_page u ids n) i s = Some (r, i', s') →
  fetch_depth s ≤ fetch_depth s' ≤ fetch_depth s + Z.of_nat (length ids).
Proof.
  revert n i s. induction ids as [|gid ids IH]; intros n i s; cbn [enqueue_page length].
  { intros [= _ _ <-]. lia. }
  rewrite run_bind. destruct (run orc (enqueueOne u gid) i s) as [ [ [b i1] s1]|] eqn:Hrun; [|done].
  apply run_enqueueOne_any in Hrun. destruct b as [ [|]|e]; [| |intros [= _ _ <-]; lia];
    intros H%IH; lia.
Qed.

End any.

(** ** Properties *)

(** Every reported message has a live job, and the jobs that are new are fetch
    jobs of reported messages with their ids on the queue. *)
Definition poll_done (u : User) (resp : HistoryResp) (s s' : shared) : Prop :=
  (∀ gid, reported resp gid → live (u_ID u) gid (s_db s')) ∧
  (∀ id j, pipeline_jobs (s_db s') !! id = Some j → pipeline_jobs (s_db s) !! id = Some j ∨
     ∃ gid, reported resp gid ∧ new_fetch (u_ID u) gid j ∧ uuid_String id ∈ rlist (s_redis s') (Queue.key "fetch")).

(** It is one call. *)
Lemma states_SetGmailSyncState orc u h i s r i' s' :
  run orc (SetGmailSyncState u h) i s = Some (r, i', s') → states orc (SetGmailSyncState u h) i s = [s'].
Proof.
  unfold SetGmailSyncState. rewrite run_bind, run_call. erewrite states_bind by apply run_call. simpl.
  destruct (with_fault _ _ _) as [ [?|?] s1]; simpl; by intros [= _ _ ->].
Qed.

(** C20. A poll whose calls succeed makes a fetch job for exactly the messages
    of the history page that have no live job yet, puts the ids of the new
    jobs on the fetch queue, keeps every old row, and moves the cursor to the
    page's history id.  It moves the cursor last: wherever the poll is cut off
    between two calls, the stored cursor is still the old one, or every
    reported message has its live job and every new job's id is on the
    queue. *)
Theorem pollUser_ok orc key u cursor resp i s :
  reliable orc → poll_ready orc key (u_ID u) cursor resp i s →
  ∃ i' s', run orc (pollUser key u) i s = Some (Ok tt, i', s') ∧
    (∃ t, gmail_sync_state (s_db s') !! u_ID u = Some (new_cursor cursor resp, t)) ∧
    poll_done u resp s s' ∧
    (∀ id j, pipeline_jobs (s_db s) !! id = Some j → pipeline_jobs (s_db s') !! id = Some j) ∧
    db_ok (s_db s') ∧
    Forall (λ sn, gmail_sync_state (s_db sn) = gmail_sync_state (s_db s) ∨ poll_done u resp s sn) (states orc (pollUser key u) i s).
Proof.
  intros Hrel Hpr. pose proof Hpr as [_ _ Hu _ _ _ _ Hok Hfr].
  destruct (run_poll_prefix orc Hrel key u cursor resp i s Hpr) as (i1 & s1 & l & Hi & Hs & Hr & -> & -> & Hl1). cbv zeta.
  pose proof Hs as (Hj & Hus & Hcur). rewrite run_bind.
  destruct (run_poll_enqueue orc Hrel (u_ID u) (new_ids resp) i1 s1) as (i2 & s2 & Hrun2 & He & Hok2 & Hl);
    [by eapply same_but_tokens_ok|by rewrite Hus|by eapply fresh_later; [done| |done]|].
  erewrite states_bind by exact Hrun2. rewrite Hrun2. cbv beta iota.
  rewrite run_bind. destruct (run_SetGmailSyncState orc Hrel (u_ID u) (new_cursor cursor resp) i2 s2)
    as (s3 & t & Hrun3 & Hd & Hr3); [by rewrite (proj1 (enq_rest _ _ _ _ He)), Hus|].
  erewrite states_bind by exact Hrun3. rewrite Hrun3. cbv beta iota.
  rewrite run_ret. exists (S i2), s3. pose proof (proj2 (new_ids_reported resp)) as Hids.
  assert (Hdone : poll_done u resp s s3).
  { split; rewrite Hd.
    - intros gid Hgid. by apply Hl, Hids.
    - intros id j Hid. rewrite Hr3. destruct (enq_new _ _ _ _ He id j Hid) as [H|(gid & Hg & Hn & Hin)];
        [left; by rewrite <- Hj|right]. exists gid. split; [by apply Hids|done]. }
  split; [done|]. split; [exists t; rewrite Hd; simpl; by rewrite lookup_insert_eq|]. split; [done|]. rewrite Hd. split; [|split].
  - intros id j. rewrite <- Hj. apply (enq_old _ _ _ _ He).
  - by apply (db_ok_frame (s_db s2)).
  - rewrite !Forall_app. split_and!.
    + eapply Forall_impl; [exact Hl1|]. by left.
    + eapply Forall_impl; [apply (states_no_cursor_write orc _ _ _ s (poll_enqueue_no_cursor_write _ _))|]; [done|by left].
    + rewrite (states_SetGmailSyncState orc _ _ _ _ _ _ _ Hrun3). constructor; [by right|constructor].
    + constructor.
Qed.

(** The archive import of a listing that fits in the queue, alone: every message
    Gmail lists has a job afterwards, and the new jobs' ids are all on the
    queue. *)
Theorem RunFull_fits orc fuel cfg u pages ps i s :
  reliable orc → import_ready orc cfg u pages ps i s →
  (length ps ≤ fuel)%nat → (0 < fuel)%nat →
  fetch_depth s + Z.of_nat (length (listed ps)) ≤ max_depth cfg →
  ∃ a b i' s', run orc (RunFull fuel cfg) i s = Some (((a, b), Ok tt), i', s') ∧
    a + b = Z.of_nat (length (listed ps)) ∧ fetch_depth s' = fetch_depth s + a ∧
    (∀ gid, gid ∈ listed ps → tracked (u_ID u) gid (s_db s')) ∧
    enq (u_ID u) (λ g, g ∈ listed ps ∧ ¬ tracked (u_ID u) g (s_db s)) s s' ∧ db_ok (s_db s').
Proof.
  intros Hrel Hir Hf Hf0 Hroom.
  destruct (run_import_prefix orc Hrel fuel cfg u pages ps i s Hir)
    as (c & i1 & s1 & Hi & Hcu & Hck & Hd & Hr & Hrun0).
  setoid_rewrite <- run_with_nobody. rewrite Hrun0.
  destruct Hir as [_ _ Hrow [Htok _] Hk _ Hsv Hch Hok Hfr].
  destruct (run_all_pages orc Hrel (λ _ s, s) (full_page fuel (max_depth cfg) (u_ID u)) (u_ID u) (listed ps)
    (importing orc (u_ID u) s)) with (pages := pages) (q := range_query (Since cfg) (Before cfg))
    (ps := ps) (fuel := fuel) (c := c) (a := (0, 0)) (acc := @nil string) (t := EmptyString)
    (i := i1) (s := s1) as ([a b] & i' & s' & Hrun & HI); try done.
  - by intros ? ? ? ? [? _].
  - intros. by eapply importing_request.
  - intros. setoid_rewrite run_with_nobody. by eapply importing_page.
  - by rewrite Hck.
  - unfold importing. cbn [fst snd length]. rewrite Hd. split_and!; try done.
    + by eapply fresh_later.
    + unfold fetch_depth. rewrite Hr. lia.
    + by intros gid ?%elem_of_nil.
    + by apply enq_refl.
  - destruct HI as (_ & Hok' & _ & _ & _ & Hab & Hdep & Ht & He). by exists a, b, i', s'.
Qed.

(** The import can be started again: when every listed message has a job,
    of whatever status, a run enqueues nothing, counts all of them as skipped
    and leaves jobs and queues as they are. *)
Theorem RunFull_resumes orc fuel cfg u pages ps i s :
  reliable orc → import_ready orc cfg u pages ps i s →
  (length ps ≤ fuel)%nat → (0 < fuel)%nat → fetch_depth s ≤ max_depth cfg →
  (∀ gid, gid ∈ listed ps → tracked (u_ID u) gid (s_db s)) →
  ∃ i' s', run orc (RunFull fuel cfg) i s =
      Some (((0, Z.of_nat (length (listed ps))), Ok tt), i', s') ∧
    pipeline_jobs (s_db s') = pipeline_jobs (s_db s) ∧
    ∀ k, rlist (s_redis s') k = rlist (s_redis s) k.
Proof.
  intros Hrel Hir Hf Hf0 Hroom Ht.
  destruct (run_import_prefix orc Hrel fuel cfg u pages ps i s Hir)
    as (c & i1 & s1 & Hi & Hcu & Hck & Hd & Hr & Hrun0).
  setoid_rewrite <- run_with_nobody. rewrite Hrun0.
  destruct Hir as [_ _ Hrow [Htok _] Hk _ Hsv Hch Hok Hfr].
  destruct (run_all_pages orc Hrel (λ _ s, s) (full_page fuel (max_depth cfg) (u_ID u)) (u_ID u) (listed ps)
    (imported s)) with (pages := pages) (q := range_query (Since cfg) (Before cfg))
    (ps := ps) (fuel := fuel) (c := c) (a := (0, 0)) (acc := @nil string) (t := EmptyString)
    (i := i1) (s := s1) as (n & i' & s' & Hrun & HI); try done.
  - intros ? ? ? ? (_ & _ & Hus & _). rewrite Hus. eauto.
  - intros ? ? ? ? ? ? ? ? (? & Hj & Hus & Hl) (_ & _ & (Hj' & Hus' & _) & Hr' & _) _.
    unfold imported. by rewrite Hj', Hus', Hr'.
  - intros. setoid_rewrite run_with_nobody. by eapply imported_page.
  - by rewrite Hck.
  - unfold imported. by rewrite Hd, Hr.
  - destruct HI as (-> & Hj & _ & Hl). by exists i', s'.
Qed.


(** C38. Backpressure: whatever calls fail, a page of the import is pushed only
    when the fetch queue is no deeper than the limit, so importing one page
    never takes the queue beyond the limit plus the page. *)
Theorem full_page_backpressure orc fuel d u n ids i s r i' s' :
  run orc (full_page fuel d u n ids) i s = Some (r, i', s') →
  fetch_depth s ≤ fetch_depth s' ∧
  (fetch_depth s < fetch_depth s' → fetch_depth s' ≤ d + Z.of_nat (length ids)).
Proof.
  unfold full_page. rewrite run_bind.
  destruct (run orc (waitForQueueDepth fuel d) i s) as [ [ [w i1] s1]|] eqn:Hw; [|done].
  apply run_wait_any in Hw as [Hl Hd]. assert (Hdep : fetch_depth s1 = fetch_depth s).
  { unfold fetch_depth. by rewrite Hl. }
  destruct w as [ []|e]; [|intros [= _ _ <-]; lia].
  specialize (Hd eq_refl). intros H%run_enqueue_page_any. lia.
Qed.

(** The first poll of an account only takes note of where the mailbox
    stands: the cursor becomes the profile's history id, and no job is made
    for the mail that is already there. *)
Theorem pollUser_first orc key u tok hid i s :
  reliable orc → google_up orc (u_ID u) → length key = KeySize →
  is_Some (users (s_db s) !! u_ID u) → stored (u_ID u) "google" key tok (s_db s) →
  gmail_sync_state (s_db s) !! u_ID u = None → (∀ k, o_api (orc k) N (GetProfile (u_ID u)) = Ok hid) →
  ∃ i' s' t, run orc (pollUser key u) i s = Some (Ok tt, i', s') ∧
    gmail_sync_state (s_db s') !! u_ID u = Some (FormatUint hid, t) ∧
    pipeline_jobs (s_db s') = pipeline_jobs (s_db s) ∧ s_redis s' = s_redis s.
Proof.
  intros Hrel Hg Hk Hu Hst Hnone Hprof. unfold pollUser. rewrite run_bind.
  destruct (run_GetGmailSyncState orc Hrel (u_ID u) i s) as (s1 & -> & Hd1 & Hr1). rewrite Hnone.
  cbv beta iota. rewrite bool_decide_eq_true_2 by done. rewrite run_bind. unfold fetchInitialHistoryID.
  rewrite run_bind.
  destruct (run_connect orc Hrel "gmail svc" (u_ID u) key tok (S i) s1)
    as (c & i2 & s2 & -> & Hcu & Hck & Hd2 & Hr2 & _); [done|by rewrite Hd1|]. cbv beta iota.
  rewrite run_bind.
  destruct (run_Do orc Hrel c (GetProfile (u_ID u)) i2 s2)
    as (k & c' & i3 & s3 & -> & (_ & _ & (Hj & Hus & _) & Hr & _)).
  { split; [by rewrite Hck|]. by rewrite Hcu, Hd2, Hd1. }
  { rewrite Hcu. apply Hg. }
  cbv beta iota. rewrite Hprof. cbv beta iota. rewrite run_ret. cbv beta iota. rewrite run_bind.
  destruct (run_SetGmailSyncState orc Hrel (u_ID u) (FormatUint hid) i3 s3) as (s4 & t & -> & Hd4 & Hr4);
    [by rewrite Hus, Hd2, Hd1|]. cbv beta iota. rewrite run_ret.
  eexists _, s4, t. split; [done|]. rewrite Hd4, Hr4, Hr, Hr2, Hr1. simpl.
  by rewrite lookup_insert_eq, Hj, Hd2, Hd1.
Qed.

End scheduler.

(** ** Witnesses *)
Import SchemaModel RedisModel DriveModel AeadModel EffectsModel.

Abbreviation google := (calm_api test_api).

Lemma google_reliable : reliable google.
Proof. by intros i. Qed.

Lemma google_is_up u : google_up google u.
Proof. split; [|done]. intros k. by exists test_token. Qed.

Lemma google_fresh i db : pipeline_jobs db = ∅ → fresh_from google i db.
Proof. intros Hj. split; [intros k _; by rewrite Hj|]. intros k k' _ _. apply (inj pretty). Qed.

Lemma signed_up_ok : db_ok (s_db signed_up).
Proof. apply (db_ok_frame no_rows); [done|set_solver|apply no_rows_ok]. Qed.

Lemma alice_ready : poll_ready google test_key "u" "5" test_history 0 signed_up.
Proof.
  constructor; [apply google_is_up|done|by exists alice|exists test_token; apply signed_up_stored|
    by exists 0|done| |apply signed_up_ok|by apply google_fresh].
  exists 5%N. split; [by vm_compute|]. by intros k.
Qed.

Lemma pollUser_ok_witness :
  ∃ i' s', run google (pollUser test_key alice) 0 signed_up = Some (Ok tt, i', s') ∧
    (∃ t, gmail_sync_state (s_db s') !! u_ID alice = Some (new_cursor "5" test_history, t)) ∧
    poll_done alice test_history signed_up s' ∧
    (∀ id j, pipeline_jobs (s_db signed_up) !! id = Some j → pipeline_jobs (s_db s') !! id = Some j) ∧
    db_ok (s_db s') ∧
    Forall (λ sn, gmail_sync_state (s_db sn) = gmail_sync_state (s_db signed_up) ∨ poll_done alice test_history signed_up sn)
      (states google (pollUser test_key alice) 0 signed_up).
Proof.
  apply (pollUser_ok google test_key alice "5" test_history 0 signed_up).
  - apply google_reliable.
  - apply alice_ready.
Defined.

Definition no_cursor : shared := set_db (with_sync ∅ (s_db signed_up)) signed_up.

Lemma pollUser_first_witness :
  ∃ i' s' t, run google (pollUser test_key alice) 0 no_cursor = Some (Ok tt, i', s') ∧
    gmail_sync_state (s_db s') !! u_ID alice = Some ("7", t) ∧
    pipeline_jobs (s_db s') = pipeline_jobs (s_db no_cursor) ∧ s_redis s' = s_redis no_cursor.
Proof.
  apply (pollUser_first google test_key alice test_token 7 0 no_cursor).
  - apply google_reliable.
  - apply google_is_up.
  - reflexivity.
  - exists alice. reflexivity.
  - apply signed_up_stored.
  - reflexivity.
  - intros k. reflexivity.
Defined.

Definition test_import : FullConfig := mk_FullConfig test_key "a@b.c" (Some 0) None 0 0.

Definition test_listing : list (list (option string)) :=
  [ [Some "m1"; None]; [Some EmptyString; Some "m2"] ].

Lemma only_alice id u : users (s_db signed_up) !! id = Some u → id = "u" ∧ u = alice.
Proof.
  change (users (s_db signed_up)) with ({[ "u" := alice ]} : gmap string User).
  rewrite lookup_singleton_Some. naive_solver.
Qed.

Lemma test_import_ready : import_ready google test_import alice test_pages test_listing 0 signed_up.
Proof.
  constructor; [by exists "u"| |done|apply google_is_up|done|exists test_token; apply signed_up_stored|
    by intros k t|apply test_chain|apply signed_up_ok|by apply google_fresh].
  by intros id1 id2 u1 u2 [_ ->]%only_alice [_ ->]%only_alice.
Qed.

Lemma RunFull_fits_witness :
  ∃ a b i' s', run google (RunFull 2 test_import) 0 signed_up = Some (((a, b), Ok tt), i', s') ∧
    a + b = 2 ∧ fetch_depth s' = fetch_depth signed_up + a ∧
    (∀ gid, gid ∈ ["m1"; "m2"] → tracked (u_ID alice) gid (s_db s')) ∧
    enq (u_ID alice) (λ g, g ∈ ["m1"; "m2"] ∧ ¬ tracked (u_ID alice) g (s_db signed_up)) signed_up s' ∧
    db_ok (s_db s').
Proof.
  apply (RunFull_fits google 2 test_import alice test_pages test_listing 0 signed_up).
  - apply google_reliable.
  - apply test_import_ready.
  - simpl. lia.
  - lia.
  - vm_compute. discriminate.
Defined.

Lemma full_page_backpressure_witness :
  ∃ r i' s', run google (full_page 1 500 (u_ID alice) (0, 0) ["m1"]) 0 signed_up = Some (r, i', s') ∧
    fetch_depth signed_up ≤ fetch_depth s' ∧
    (fetch_depth signed_up < fetch_depth s' → fetch_depth s' ≤ 501).
Proof.
  destruct (importing_page google google_reliable 1 500 (u_ID alice) ["m1"] signed_up (0, 0) [] ["m1"] 0 signed_up)
    as (n & i' & s' & Hrun & _).
  - lia.
  - vm_compute. discriminate.
  - unfold importing. cbn [fst snd length]. split_and!;
      [by exists alice|apply signed_up_ok|by apply google_fresh|lia|lia|done|lia| |].
    + by intros gid ?%elem_of_nil.
    + by apply enq_refl.
  - done.
  - exists (n, Ok tt), i', s'. split; [exact Hrun|].
    apply (full_page_backpressure google 1 500 (u_ID alice) (0, 0) ["m1"] 0 signed_up _ _ _ Hrun).
Defined.

(** Both listed messages were archived before. *)
Definition archived (id gid : string) : Job :=
  @mk_Job uuid_model id (Some "u") (Some gid) "fetch" StatusDone "{}" false None 0 8 None 0 None (Some 1) 0 1.

Definition archived_db : DB :=
  with_jobs (<[ "j2" := archived "j2" "m2" ]> {[ "j1" := archived "j1" "m1" ]}) (s_db signed_up).

Definition archive_done : shared := set_db archived_db signed_up.

Lemma archived_put id gid db :
  db_ok db → is_Some (users db !! "u") →
  db_ok (with_jobs (<[ id := archived id gid ]> (pipeline_jobs db)) db).
Proof.
  intros Hok Hu. apply db_ok_put; [done| |intros id' j' _; right; by left].
  constructor; simpl; try done. by apply bool_decide_eq_true_2.
Qed.

Lemma archived_db_ok : db_ok archived_db.
Proof.
  change (db_ok (with_jobs (<[ "j2" := archived "j2" "m2" ]>
    (pipeline_jobs (with_jobs (<[ "j1" := archived "j1" "m1" ]> (pipeline_jobs (s_db signed_up))) (s_db signed_up))))
    (with_jobs (<[ "j1" := archived "j1" "m1" ]> (pipeline_jobs (s_db signed_up))) (s_db signed_up)))).
  apply archived_put; [|by exists alice]. apply archived_put; [apply signed_up_ok|by exists alice].
Qed.

Lemma archived_fresh i : fresh_from google i archived_db.
Proof.
  assert (Hp : ∀ (k : nat) x, pretty k ≠ String "j" x).
  { intros k x Heq. pose proof (parse_pretty (N.of_nat k)) as H. change (pretty k) with (pretty (N.of_nat k)) in Heq.
    by rewrite Heq in H. }
  split; [intros k _|intros k k' _ _; apply (inj pretty)].
  change (pipeline_jobs archived_db) with
    (<[ "j2" := archived "j2" "m2" ]> {[ "j1" := archived "j1" "m1" ]} : gmap string Job).
  apply lookup_insert_None. split; [apply lookup_singleton_None|]; by intros Heq%eq_sym%Hp.
Qed.

Lemma archive_ready : import_ready google test_import alice test_pages test_listing 0 archive_done.
Proof.
  constructor; [by exists "u"| |done|apply google_is_up|done|exists test_token; apply signed_up_stored|
    by intros k t|apply test_chain|apply archived_db_ok|apply archived_fresh].
  by intros id1 id2 u1 u2 [_ ->]%only_alice [_ ->]%only_alice.
Qed.

Lemma RunFull_resumes_witness :
  ∃ i' s', run google (RunFull 2 test_import) 0 archive_done = Some (((0, 2), Ok tt), i', s') ∧
    pipeline_jobs (s_db s') = pipeline_jobs (s_db archive_done) ∧
    ∀ k, rlist (s_redis s') k = rlist (s_redis archive_done) k.
Proof.
  apply (RunFull_resumes google 2 test_import alice test_pages test_listing 0 archive_done).
  - apply google_reliable.
  - apply archive_ready.
  - simpl. lia.
  - lia.
  - vm_compute. discriminate.
  - intros gid [-> | ->%list_elem_of_singleton]%elem_of_cons;
      [exists "j1", (archived "j1" "m1")|exists "j2", (archived "j2" "m2")]; split; reflexivity.
Defined.

(** ** A lost message *)

(** Sending the insert of the first new message fails. *)
Definition flaky (i : nat) : outcome := {|
  o_fault := if decide (i = 6)%nat then FailBefore "connection reset" else NoFault; o_dt := 1;
  o_uuid := pretty i; o_rand := 0; o_ctx := false; o_handler := λ _, Ok EmptyString;
  o_api := test_api |}.

(** What the run leaves of a message: the result, the cursor, and whether a
    job tracks it. *)
Definition poll_summary (gid : string) : option (bool * option string * bool) :=
  '(r, _, s) ← run flaky (pollUser test_key alice) 0 signed_up;
  Some (is_ok r, fst <$> gmail_sync_state (s_db s) !! "u",
        existsb (has_message "u" gid) ((map_to_list (pipeline_jobs (s_db s))).*2)).

Lemma poll_summary_m1 : poll_summary "m1" = Some (true, Some "9", false).
Proof. vm_compute. reflexivity. Qed.

(** C33. The cursor does not wait for the jobs: when the insert of a reported
    message fails, the poll logs it, succeeds, and moves the cursor past the
    message, which has no job and will not be reported again from the new
    cursor. *)
Theorem poll_loses_message :
  ∃ orc i' s' t, run orc (pollUser test_key alice) 0 signed_up = Some (Ok tt, i', s') ∧
    reported test_history "m1" ∧ gmail_sync_state (s_db s') !! u_ID alice = Some ("9", t) ∧
    ¬ tracked (u_ID alice) "m1" (s_db s').
Proof.
  pose proof poll_summary_m1 as H. unfold poll_summary in H. exists flaky.
  destruct (run flaky (pollUser test_key alice) 0 signed_up) as [ [ [r i'] s'] |]; [|discriminate].
  cbn in H. apply (inj Some) in H. apply pair_equal_spec in H as [H Hno].
  apply pair_equal_spec in H as [Hr Hc]. destruct r as [ [] |e]; [|discriminate].
  apply fmap_Some in Hc as ([h t] & Hc & [= ->]). exists i', s', t. split; [done|]. split_and!; [|done|].
  - eexists. split; [apply list_elem_of_here|]. left. eexists. split; [apply list_elem_of_here|].
    split; [done|]. split; [done|]. apply hasLabel_spec. reflexivity.
  - intros (id & j & Hj & Hm). apply not_true_iff_false in Hno. apply Hno, existsb_exists.
    exists j. split; [|done]. apply list_elem_of_In, list_elem_of_fmap. exists (id, j).
    split; [done|]. by apply elem_of_map_to_list.
Qed.
