(* ===== verification/Archive.v ===== *)
(** * An archive import beside the workers: internal/backfill/full.go

    The import waits while the fetch queue is deeper than its limit, and relies
    on others to empty it.  Scheduler.v runs it alone, which is right as long as
    the archive fits; here other processes act whenever it waits, so the archive
    may be of any size. *)
From S2P Require Import Prelude Redis Schema GoStrings Services Effects Queue Store OAuth Base64 Gmail Scheduler.
Local Open Scope Z_scope.

Section import.
Context `{UL : UuidLib} `{PG : !PgServer} `{RS : RedisServer} `{DS : DriveServer} `{AE : AeadLib}.

(** A fetch job that waits for its first try; its id belongs on the queue. *)
Definition waits (j : Job) : Prop := Stage j = "fetch" ∧ Status j = StatusQueued ∧ LastError j = None.

Definition queued_up (s : shared) (id : uuid) : Prop :=
  ∀ j, pipeline_jobs (s_db s) !! id = Some j → waits j → uuid_String id ∈ rlist (s_redis s) (key "fetch").

(** What the others may do while the import waits: the queue gets shorter if it
    is deeper than [d]; no row appears or disappears, or changes its message;
    and a job that waits is on the queue if it was before. *)
Record helpful (d : Z) (others : nat → shared → shared) : Prop := {
  hp_drain n s : d < fetch_depth s → fetch_depth (others n s) < fetch_depth s;
  hp_rows n s id j : pipeline_jobs (s_db s) !! id = Some j →
    ∃ j', pipeline_jobs (s_db (others n s)) !! id = Some j' ∧ UserID j' = UserID j ∧ GmailMessageID j' = GmailMessageID j;
  hp_none n s id : pipeline_jobs (s_db s) !! id = None → pipeline_jobs (s_db (others n s)) !! id = None;
  hp_queue n s id : queued_up s id → queued_up (others n s) id;
  hp_users n s : users (s_db (others n s)) = users (s_db s);
  hp_ok n s : db_ok (s_db s) → db_ok (s_db (others n s))
}.

(** What has become of the rows since [s0]: the old ones are there, with the
    messages they had; the new ones are of messages of [u] that [P] holds of,
    and are on the queue as long as they wait. *)
Record grown (u : uuid) (P : string → Prop) (s0 s : shared) : Prop := {
  gr_old id j : pipeline_jobs (s_db s0) !! id = Some j →
    ∃ j', pipeline_jobs (s_db s) !! id = Some j' ∧ UserID j' = UserID j ∧ GmailMessageID j' = GmailMessageID j;
  gr_new id j : pipeline_jobs (s_db s) !! id = Some j → pipeline_jobs (s_db s0) !! id = None →
    ∃ gid, P gid ∧ UserID j = Some u ∧ GmailMessageID j = Some gid;
  gr_queue id : pipeline_jobs (s_db s0) !! id = None → queued_up s id
}.

Lemma tracked_kept u g db db' :
  (∀ id j, pipeline_jobs db !! id = Some j → ∃ j', pipeline_jobs db' !! id = Some j' ∧ UserID j' = UserID j ∧ GmailMessageID j' = GmailMessageID j) →
  tracked u g db → tracked u g db'.
Proof.
  intros H (id & j & Hj & Hm). destruct (H id j Hj) as (j' & Hj' & Hu & Hg). exists id, j'. split; [done|].
  revert Hm. unfold has_message. by rewrite Hu, Hg.
Qed.

Lemma grown_refl u P s0 s : s_db s = s_db s0 → grown u P s0 s.
Proof.
  intros Hd. constructor; unfold queued_up; rewrite Hd.
  - intros id j Hj. by exists j.
  - congruence.
  - congruence.
Qed.

(** A page is enqueued. *)
Lemma grown_enq u (P Q : string → Prop) s0 s s' :
  grown u P s0 s → enq u Q s s' → grown u (λ g, P g ∨ Q g) s0 s'.
Proof.
  intros [Ho Hn Hq] [Eo En _ _ (front & Eq) _]. constructor.
  - intros id j Hj. destruct (Ho id j Hj) as (j' & Hj' & H). exists j'. split; [by apply Eo|done].
  - intros id j Hj Hnone. destruct (En id j Hj) as [Hj'|(gid & HQ & (_ & _ & Hu & Hg & _) & _)].
    + destruct (Hn id j Hj' Hnone) as (gid & ? & ?). exists gid. auto.
    + exists gid. auto.
  - intros id Hnone j Hj Hw. destruct (En id j Hj) as [Hj'|(gid & _ & _ & Hin)]; [|done].
    rewrite Eq. apply elem_of_app. right. by apply (Hq id Hnone j).
Qed.

Lemma grown_weaken u (P Q : string → Prop) s0 s : (∀ g, P g → Q g) → grown u P s0 s → grown u Q s0 s.
Proof. intros HPQ []. constructor; [done| |done]. intros id j Hj Hn. destruct (gr_new0 id j Hj Hn) as (g & ? & ?). exists g. auto. Qed.

(** The others act. *)
Lemma grown_others u P d others n s0 s : helpful d others → grown u P s0 s → grown u P s0 (others n s).
Proof.
  intros Hh [Ho Hn Hq]. constructor.
  - intros id j Hj. destruct (Ho id j Hj) as (j1 & Hj1 & Hu1 & Hg1). destruct (hp_rows _ _ Hh n s id j1 Hj1) as (j2 & Hj2 & Hu2 & Hg2).
    exists j2. split; [done|]. split; congruence.
  - intros id j Hj Hnone. destruct (pipeline_jobs (s_db s) !! id) as [j1|] eqn:Hj1.
    + destruct (Hn id j1 Hj1 Hnone) as (g & HP & Hu & Hg). destruct (hp_rows _ _ Hh n s id j1 Hj1) as (j2 & Hj2 & Hu2 & Hg2).
      exists g. split; [done|]. split; congruence.
    + rewrite (hp_none _ _ Hh n s id Hj1) in Hj. done.
  - intros id Hnone. by apply (hp_queue _ _ Hh), Hq.
Qed.

Lemma grown_same u P s0 s s' : pipeline_jobs (s_db s') = pipeline_jobs (s_db s) →
  (∀ k, rlist (s_redis s') k = rlist (s_redis s) k) → grown u P s0 s → grown u P s0 s'.
Proof.
  intros Hd Hr [Ho Hn Hq]. constructor; unfold queued_up in *; rewrite Hd; [done|done|]. intros id Hnone j Hj Hw. rewrite Hr. by apply (Hq id Hnone j).
Qed.

(** The others neither add nor remove a row. *)
Lemma others_rows d others n s : helpful d others → rows (others n s) = rows s.
Proof.
  intros Hh. unfold rows. rewrite <- !size_dom. do 2 f_equal. apply set_eq. intros id. rewrite !elem_of_dom. split.
  - intros [j Hj]. destruct (pipeline_jobs (s_db s) !! id) eqn:E; [done|]. rewrite (hp_none _ _ Hh n s id E) in Hj. done.
  - intros [j Hj]. destruct (hp_rows _ _ Hh n s id j Hj) as (j' & Hj' & _). by exists j'.
Qed.

Section run.
Context (orc : nat → outcome) (Hrel : reliable orc) (others : nat → shared → shared) (d : Z) (Hh : helpful d others).
(** No signal comes. *)
Context (Hctx : ∀ k, o_ctx (orc k) = false).

(** The import so far, from the state [s0] on. *)
Record importing_with (u : uuid) (s0 : shared) (n : Z * Z) (acc : list string) (i : nat) (s : shared) : Prop := {
  iw_user : is_Some (users (s_db s) !! u);
  iw_ok : db_ok (s_db s);
  iw_fresh : fresh_from orc i (s_db s);
  iw_pos : 0 ≤ n.1 ∧ 0 ≤ n.2;
  iw_count : n.1 + n.2 = Z.of_nat (length acc);
  iw_depth : fetch_depth s ≤ fetch_depth s0 + n.1;
  iw_rows : rows s = rows s0 + n.1;
  iw_tracked gid : gid ∈ acc → tracked u gid (s_db s);
  iw_grown : grown u (λ g, g ∈ acc ∧ ¬ tracked u g (s_db s0)) s0 s
}.

Lemma importing_same u s0 n acc i s i' s' :
  importing_with u s0 n acc i s → (i ≤ i')%nat → pipeline_jobs (s_db s') = pipeline_jobs (s_db s) →
  users (s_db s') = users (s_db s) → (∀ k, rlist (s_redis s') k = rlist (s_redis s) k) → importing_with u s0 n acc i' s'.
Proof.
  intros [] Hi Hj Hu Hr. constructor; unfold fetch_depth, rows, tracked in *; rewrite ?Hj, ?Hu, ?Hr; try done.
  - apply (db_ok_frame (s_db s)); [done|by rewrite Hu|done].
  - by eapply fresh_later.
  - by eapply grown_same.
Qed.

Lemma importing_others u s0 n acc i s k : d < fetch_depth s →
  importing_with u s0 n acc i s → importing_with u s0 n acc i (others k s).
Proof.
  intros Hd []. constructor; try done.
  - by rewrite (hp_users _ _ Hh).
  - by apply (hp_ok _ _ Hh).
  - destruct iw_fresh0 as [H1 H2]. split; [|done]. intros m Hm. by apply (hp_none _ _ Hh), H1.
  - pose proof (hp_drain _ _ Hh k s Hd). lia.
  - by rewrite (others_rows d).
  - intros gid Hg. eapply tracked_kept; [apply (hp_rows _ _ Hh)|by apply iw_tracked0].
  - by eapply grown_others.
Qed.

(** The wait ends. *)
Lemma run_with_wait u s0 n acc fuel i s :
  importing_with u s0 n acc i s → 0 ≤ d → fetch_depth s < Z.of_nat fuel →
  ∃ i' s', run_with others orc (waitForQueueDepth fuel d) i s = Some (Ok tt, i', s') ∧ importing_with u s0 n acc i' s'.
Proof.
  intros Hi Hd. revert i s Hi. induction fuel as [|fuel IH]; intros i s Hi Hf; [unfold fetch_depth in Hf; lia|].
  cbn [waitForQueueDepth]. rewrite run_with_bind, run_with_plain by (unfold Depth; walk_prog).
  destruct (run_Depth orc Hrel "fetch" i s) as (s1 & -> & Hdb & _ & Hl & _). cbv beta iota.
  assert (Hl1 : ∀ k, rlist (s_redis s1) k = rlist (s_redis s) k) by (intros k; apply Hl, not_elem_of_nil).
  assert (Hi1 : importing_with u s0 n acc (S i) s1) by (eapply importing_same; [exact Hi|lia|by rewrite Hdb..|done]).
  destruct (Z.leb_spec (Z.of_nat (length (rlist (s_redis s) (key "fetch")))) d) as [Hle|Hgt].
  { by exists (S i), s1. }
  rewrite run_with_bind. cbn [run_with call exec fst snd]. rewrite Hctx. set (s2 := others (S i) (elapse (orc (S i)) s1)).
  assert (Hi2 : importing_with u s0 n acc (S (S i)) (elapse (orc (S i)) s1)) by (eapply importing_same; [exact Hi1|lia|done..]).
  assert (Hdep : fetch_depth (elapse (orc (S i)) s1) = fetch_depth s) by (unfold fetch_depth; by rewrite <- Hl1).
  assert (Hd2 : d < fetch_depth (elapse (orc (S i)) s1)) by (rewrite Hdep; exact Hgt).
  apply IH; [by apply importing_others|]. pose proof (hp_drain _ _ Hh (S i) _ Hd2). unfold s2. lia.
Qed.

Lemma enqueue_page_no_wait u ids n : calls_only no_wait (enqueue_page u ids n).
Proof.
  revert n. induction ids as [|gid ids IH]; intros n; cbn [enqueue_page]; [done|].
  apply calls_only_bind; [unfold enqueueOne, HasJobForMessage, EnqueueJob, Push; walk_prog|]. intros [ [|]|e]; [apply IH..|done].
Qed.

(** A page. *)
Lemma importing_with_page u all s0 fuel n acc ids i s :
  0 ≤ d → fetch_depth s0 + Z.of_nat (length all) < Z.of_nat fuel →
  importing_with u s0 n acc i s → acc ++ ids `prefix_of` all →
  ∃ n' i' s', run_with others orc (full_page fuel d u n ids) i s = Some ((n', Ok tt), i', s') ∧
    importing_with u s0 n' (acc ++ ids) i' s'.
Proof.
  intros Hd Hf Hi Hpre. assert (Hlen : (length (acc ++ ids) ≤ length all)%nat) by by apply prefix_length.
  rewrite length_app in Hlen. unfold full_page. rewrite run_with_bind.
  destruct (run_with_wait u s0 n acc fuel i s Hi Hd) as (i1 & s1 & -> & [Hu Hok Hfr Hpos Hc Hdep Hrows Ht Hg]).
  { destruct Hi as [_ _ _ ? ? ? _ _ _]. lia. }
  cbv beta iota. rewrite run_with_plain by apply enqueue_page_no_wait.
  destruct (run_enqueue_page orc Hrel u ids n i1 s1 Hok Hu Hfr)
    as (a & b & i' & s' & -> & Ha & Hb & Hab & Hdep' & Hok' & Hfr' & Ht' & He' & Hrows').
  exists (n.1 + a, n.2 + b), i', s'. split; [done|]. constructor; cbn [fst snd].
  - by rewrite (proj1 (enq_rest _ _ _ _ He')).
  - done.
  - done.
  - lia.
  - rewrite length_app. lia.
  - lia.
  - lia.
  - intros gid [Hin|Hin]%elem_of_app; [|by apply Ht']. eapply enq_tracked; [exact He'|by apply Ht].
  - eapply grown_weaken; [|by eapply grown_enq]. cbn beta. intros g [ [Hin Hnt]|[Hin Hnt] ]; rewrite elem_of_app; split; auto.
    intros Ht0. apply Hnt. eapply tracked_kept; [apply (gr_old _ _ _ _ Hg)|done].
Qed.
End run.

(** ** Property *)

(** C26. The archive import turns every message Gmail lists for the range, on
    however many pages and however many there are, into a job.  Let its own
    calls succeed and no signal come, and let others empty the queue while it
    waits: each time it has waited, the queue is shorter ([helpful]).  Then the
    import returns without an error (each of its loops takes fewer turns than
    there are pages, and ids on the queue at first and messages listed); every
    listed message has a job; all old rows are there, with the messages they
    had; the new rows are of listed messages that had no job, and their ids are
    on the fetch queue as long as the jobs wait for their first try; and the
    two counters say how many rows are new and how many listed messages were
    skipped. *)
Theorem RunFull_complete orc others fuel cfg u pages ps i s :
  reliable orc → (∀ k, o_ctx (orc k) = false) → helpful (max_depth cfg) others → import_ready orc cfg u pages ps i s →
  (length ps ≤ fuel)%nat → fetch_depth s + Z.of_nat (length (listed ps)) < Z.of_nat fuel →
  ∃ a b i' s', run_with others orc (RunFull fuel cfg) i s = Some (((a, b), Ok tt), i', s') ∧
    a + b = Z.of_nat (length (listed ps)) ∧ 0 ≤ b ∧ rows s' = rows s + a ∧
    (∀ gid, gid ∈ listed ps → tracked (u_ID u) gid (s_db s')) ∧
    grown (u_ID u) (λ g, g ∈ listed ps ∧ ¬ tracked (u_ID u) g (s_db s)) s s' ∧ db_ok (s_db s').
Proof.
  intros Hrel Hctx Hh Hir Hf Hfuel.
  destruct (run_import_prefix orc Hrel fuel cfg u pages ps i s Hir) as (c & i1 & s1 & Hi & Hcu & Hck & Hd & Hr & Hrun0).
  rewrite Hrun0. destruct Hir as [_ _ Hrow [Htok _] Hk _ Hsv Hch Hok Hfr].
  assert (Hmax : 0 ≤ max_depth cfg) by (unfold max_depth; destruct (Z.leb_spec (MaxQueueDepth cfg) 0); lia).
  assert (Hdep : fetch_depth s1 = fetch_depth s) by (unfold fetch_depth; by rewrite Hr).
  destruct (run_all_pages orc Hrel others (full_page fuel (max_depth cfg) (u_ID u)) (u_ID u) (listed ps)
    (importing_with orc (u_ID u) s)) with (pages := pages) (q := range_query (Since cfg) (Before cfg))
    (ps := ps) (fuel := fuel) (c := c) (a := (0, 0)) (acc := @nil string) (t := EmptyString)
    (i := i1) (s := s1) as ([a b] & i' & s' & Hrun & HI); try done.
  - by intros ? ? ? ? [? _].
  - intros a acc i0 s2 c0 c' i0' s2' HI (_ & _ & (Hj & Hus & Hg) & Hred & _) Hle.
    eapply importing_same; [exact HI|done..|]. by rewrite Hred.
  - intros. by eapply (importing_with_page orc Hrel others (max_depth cfg)).
  - by rewrite Hck.
  - constructor; cbn [fst snd length]; unfold rows; rewrite ?Hd, ?Hdep; try done; try lia.
    + by eapply fresh_later; [|done|exact Hfr].
    + by intros gid ?%elem_of_nil.
    + by apply grown_refl.
  - exists a, b, i', s'. destruct HI as [_ Hok' _ [_ Hb] Hab _ Hrows Ht He]. by split_and!.
Qed.

(** ** A fetch worker that finishes one job per wait *)

Definition finish_oldest (_ : nat) (s : shared) : shared :=
  match unsnoc (rlist (s_redis s) (key "fetch")) with
  | None => s
  | Some (_, raw) =>
      mk_shared
        (match uuid_Parse raw with
         | Ok id => with_jobs (alter (done_row (s_now s)) id (pipeline_jobs (s_db s))) (s_db s)
         | Err _ => s_db s
         end)
        (LMove (key "fetch") (processingKey "fetch" "w") RIGHT LEFT (s_redis s)).2 (s_ext s) (s_now s)
  end.

Lemma finish_oldest_rows n s id : pipeline_jobs (s_db (finish_oldest n s)) !! id = pipeline_jobs (s_db s) !! id ∨
  pipeline_jobs (s_db (finish_oldest n s)) !! id = done_row (s_now s) <$> pipeline_jobs (s_db s) !! id.
Proof.
  unfold finish_oldest. destruct (unsnoc _) as [ [l raw]|]; [|by left]. cbn [s_db]. destruct (uuid_Parse raw) as [id'|e]; [|by left].
  cbn. destruct (decide (id' = id)) as [->|Hne]; [right; by rewrite lookup_alter_eq|left; by rewrite lookup_alter_ne].
Qed.

Lemma finish_oldest_helpful d : 0 ≤ d → helpful d finish_oldest.
Proof.
  intros Hd. assert (Hmove : ∀ s l raw, unsnoc (rlist (s_redis s) (key "fetch")) = Some (l, raw) →
    rlist (s_redis s) (key "fetch") = l ++ [raw] ∧ rlist (s_redis (finish_oldest 0 s)) (key "fetch") = l).
  { intros s l raw Hu. split; [by apply unsnoc_Some|]. unfold finish_oldest. rewrite Hu. cbn [s_redis].
    destruct (LMove_Some (s_redis s) (key "fetch") (processingKey "fetch" "w") RIGHT LEFT l raw) as [_ H];
      [apply key_list|apply processingKey_list|done|done|]. rewrite H. by rewrite decide_True. }
  constructor.
  - intros n s Hdep. unfold fetch_depth in *. destruct (unsnoc (rlist (s_redis s) (key "fetch"))) as [ [l raw]|] eqn:Hu.
    + destruct (Hmove s l raw Hu) as [H1 H2]. change (finish_oldest n s) with (finish_oldest 0 s). rewrite H2, H1, length_app. cbn. lia.
    + apply unsnoc_None in Hu. rewrite Hu in Hdep. cbn in Hdep. lia.
  - intros n s id j Hj. destruct (finish_oldest_rows n s id) as [->| ->]; rewrite Hj; by eexists.
  - intros n s id Hj. by destruct (finish_oldest_rows n s id) as [->| ->]; rewrite Hj.
  - intros n s id Hq j Hj Hw. change (finish_oldest n s) with (finish_oldest 0 s) in *. revert Hj.
    destruct (unsnoc (rlist (s_redis s) (key "fetch"))) as [ [l raw]|] eqn:Hu.
    2: { unfold finish_oldest. rewrite Hu. intros Hj. by apply (Hq j). }
    destruct (Hmove s l raw Hu) as [H1 H2]. rewrite H2. unfold finish_oldest. rewrite Hu. cbn [s_db].
    destruct (decide (uuid_Parse raw = Ok id)) as [Hp|Hp].
    + rewrite Hp. cbn. rewrite lookup_alter_eq. destruct (pipeline_jobs (s_db s) !! id) as [j0|]; [|done]. intros [= <-].
      by destruct Hw as (_ & Hw & _).
    + intros Hj. assert (Hj0 : pipeline_jobs (s_db s) !! id = Some j).
      { destruct (uuid_Parse raw) as [id'|e]; [|done]. cbn in Hj. rewrite lookup_alter_ne in Hj by congruence. done. }
      specialize (Hq j Hj0 Hw). rewrite H1 in Hq. apply elem_of_app in Hq as [?|Hr%list_elem_of_singleton]; [done|].
      destruct Hp. rewrite <- Hr. apply uuid_Parse_String.
  - intros n s. unfold finish_oldest. destruct (unsnoc _) as [ [l raw]|]; [|done]. cbn. by destruct (uuid_Parse raw).
  - intros n s Hok. unfold finish_oldest. destruct (unsnoc _) as [ [l raw]|]; [|done]. cbn [s_db].
    destruct (uuid_Parse raw) as [id|e]; [|done]. pose proof (exec_stmt_ok (SMarkDone id) (s_now s) _ Hok) as H. revert H. cbn.
    unfold sql_mark_done. destruct (pipeline_jobs (s_db s) !! id) as [j|] eqn:Hj.
    + rewrite (sql_update_keep _ _ _ _ j (done_row (s_now s) j)); [|done|done|done|done|by left]. cbn.
      replace (alter _ _ _) with (<[id := done_row (s_now s) j]> (pipeline_jobs (s_db s))); [done|].
      apply map_eq. intros id'. destruct (decide (id' = id)) as [->|Hne]; [by rewrite lookup_insert_eq, lookup_alter_eq, Hj|].
      by rewrite lookup_insert_ne, lookup_alter_ne.
    + intros _. apply (db_ok_frame (s_db s)); [cbn|done|done]. apply map_eq. intros id'.
      destruct (decide (id' = id)) as [->|Hne]; [by rewrite lookup_alter_eq, Hj|by rewrite lookup_alter_ne].
Qed.
End import.

(** ** Witness: two messages, a limit of one, and two older ids on the queue *)
Import SchemaModel RedisModel DriveModel AeadModel EffectsModel.

Definition small_import : FullConfig := mk_FullConfig test_key "a@b.c" (Some 0) None 1 0.
Definition queue_full : shared :=
  set_redis (lpush "queue:fetch" "y" (lpush "queue:fetch" "x" (s_redis signed_up))) signed_up.

Lemma small_import_ready : import_ready google small_import alice test_pages test_listing 0 queue_full.
Proof. destruct test_import_ready as [H1 H2 H3 H4 H5 H6 H7 H8 H9 H10]. by constructor. Qed.

Lemma RunFull_complete_witness :
  ∃ a b i' s', run_with finish_oldest google (RunFull 9 small_import) 0 queue_full = Some (((a, b), Ok tt), i', s') ∧
    a + b = 2 ∧ 0 ≤ b ∧ rows s' = rows queue_full + a ∧
    (∀ gid, gid ∈ ["m1"; "m2"] → tracked (u_ID alice) gid (s_db s')) ∧
    grown (u_ID alice) (λ g, g ∈ ["m1"; "m2"] ∧ ¬ tracked (u_ID alice) g (s_db queue_full)) queue_full s' ∧
    db_ok (s_db s').
Proof.
  apply (RunFull_complete google finish_oldest 9 small_import alice test_pages test_listing 0 queue_full).
  - apply google_reliable.
  - intros k. reflexivity.
  - by apply finish_oldest_helpful.
  - apply small_import_ready.
  - simpl. lia.
  - vm_compute. reflexivity.
Defined.
