(* ===== verification/Drive.v ===== *)
(** * The Drive client: internal/drive

    [EnsureFolder] and [Upload] look for a file by name and parent before they
    create one; the folder cache remembers folder ids in Redis. *)
From S2P Require Import Prelude Redis Schema GoStrings Services Effects Queue Store OAuth Gmail.
Local Open Scope Z_scope.

Section drive.
Context `{UL : UuidLib} `{PG : !PgServer} `{RS : RedisServer} `{DS : DriveServer} `{AE : AeadLib}.

(** ** client.go *)

Definition New (u : uuid) (key : list Byte.byte) : prog (result Client) := connect "drive svc" u key.

(** Escape quotes for the query language. *)
Fixpoint escape (s : string) : string :=
  match s with
  | EmptyString => EmptyString
  | String c s =>
      if decide (c = "'"%char) then String "\" (String "'" (escape s)) else String c (escape s)
  end.

(** Files.List and Files.Create behind the authenticated transport. *)
Definition on_drive {X} (u : uuid) (f : dstate → X * dstate) : cmd (result X) :=
  Ext (λ _ x, let '(y, d) := f (o_drive x u) in
    (Ok y, mk_outside (o_files x) (o_dirs x) (λ v, if decide (v = u) then d else o_drive x v))).

Definition DoDrive {X} (c : Client) (f : dstate → X * dstate) : prog (result X * Client) :=
  '(tok, c) ← source c;
  match tok with
  | Err e => mret (Err e, c)
  | Ok _ => r ← call (on_drive (userID c) f); mret (r, c)
  end.

Definition Files_List (c : Client) (q : string) : prog (result (list string) * Client) :=
  DoDrive c (λ d, (FilesList q d, d)).
Definition Files_Create (c : Client) (name parent mime content : string)
    : prog (result string * Client) :=
  DoDrive c (FilesCreate name parent mime content).

Definition EnsureFolder (c : Client) (parentID name : string) : prog (result string * Client) :=
  let q := folder_query (escape name) parentID in
  '(resp, c) ← Files_List c q;
  match resp with
  | Err e => mret (Err (EWrap "list folders" e), c)
  | Ok (id :: _) => mret (Ok id, c)
  | Ok [] =>
      '(created, c) ← Files_Create c name parentID folderMime EmptyString;
      match created with
      | Err e => mret (Err (EWrap "create folder" e), c)
      | Ok id => mret (Ok id, c)
      end
  end.

Definition Upload (c : Client) (parentID name contentType content : string)
    : prog (result string * Client) :=
  let q := file_query (escape name) parentID in
  '(resp, c) ← Files_List c q;
  match resp with
  | Err e => mret (Err (EWrap "list files" e), c)
  | Ok (id :: _) => mret (Ok id, c)
  | Ok [] =>
      '(created, c) ← Files_Create c name parentID contentType content;
      match created with
      | Err e => mret (Err (EWrap "upload" e), c)
      | Ok id => mret (Ok id, c)
      end
  end.

(** ** cache.go *)

Definition cli_Get (k : string) : cmd (result string) :=
  Redis (λ t r, (match rstr r t k with Some v => Ok v | None => Err (ESentinel redisNil) end, r)).

Definition cache_key (userID : uuid) (path : string) : string :=
  "drive_folder_cache:" +:+ uuid_String userID +:+ ":" +:+ path.

Definition Get (userID : uuid) (path : string) : prog (result (option string)) :=
  val ← call (cli_Get (cache_key userID path));
  match val with
  | Err e => if errors_Is e redisNil then mret (Ok None) else mret (Err (EWrap "cache get" e))
  | Ok v => mret (Ok (Some v))
  end.

Definition Set_ (userID : uuid) (path folderID : string) (ttl : Z) : prog (result unit) :=
  r ← call (cli_Set (cache_key userID path) folderID ttl);
  match r with
  | Err e => mret (Err (EWrap "cache set" e))
  | Ok _ => mret (Ok tt)
  end.

(** ** Lemmas *)

(** The client escapes quotes but not backslashes: for names without a
    backslash that is the query language's quoting. *)
Lemma escape_quote s : contains_byte "\" s = false → escape s = drive_quote s.
Proof.
  induction s as [|c s IH]; simpl; [done|]. intros [Hc%bool_decide_eq_false Hs]%orb_false_iff.
  rewrite IH by done. destruct (decide (c = "'"%char)) as [->|Hne]; [by rewrite decide_True by (by left)|].
  rewrite decide_False by tauto. done.
Qed.

(** The client's Drive; the disk and the other accounts' Drives. *)
Definition drive_of (c : Client) (s : shared) : dstate := o_drive (s_ext s) (userID c).
Definition same_else (c : Client) (s s' : shared) : Prop :=
  disk (s_ext s') = disk (s_ext s) ∧ ∀ v, v ≠ userID c → o_drive (s_ext s') v = o_drive (s_ext s) v.

Lemma same_else_trans c s1 s2 s3 : same_else c s1 s2 → same_else c s2 s3 → same_else c s1 s3.
Proof. intros [? H1] [? H2]. split; [congruence|]. intros v Hv. rewrite H2, H1; done. Qed.

Lemma source_client orc c i s tok c' i' s' :
  run orc (source c) i s = Some ((tok, c'), i', s') → userID c' = userID c.
Proof.
  unfold source. rewrite run_bind. destruct (run orc (savingSource_Token _ _ _) i s) as [ [ [ [? ?] ?] ?]|]; [|done].
  by intros [= _ <- _ _].
Qed.

(** A request to Drive: it is refused before it reaches Drive, or Drive
    executes it; with an answer, it did. *)
Lemma run_DoDrive {X} orc c (f : dstate → X * dstate) i s r c' i' s' :
  run orc (DoDrive c f) i s = Some ((r, c'), i', s') →
  same_else c s s' ∧ userID c' = userID c ∧
  ((is_ok r = false ∧ drive_of c s' = drive_of c s) ∨
   ((∀ x, r = Ok x → x = (f (drive_of c s)).1) ∧ drive_of c s' = (f (drive_of c s)).2)).
Proof.
  unfold DoDrive, same_else, drive_of. rewrite run_bind.
  destruct (run orc (source c) i s) as [ [ [ [tok c1] i1] s1]|] eqn:Hs; [|done].
  pose proof (source_client _ _ _ _ _ _ _ _ Hs) as Hu.
  apply run_not_ext in Hs; [|apply source_not_ext]. cbv beta iota. rewrite <- Hs, <- Hu.
  destruct tok as [tok|e]; [|intros [= <- <- <- <-]; auto].
  rewrite run_bind, run_call. cbn [exec fst snd on_drive]. intros H. injection H as Hr <- _ <-. revert Hr.
  destruct (f (o_drive (s_ext s1) (userID c1))) as [y d] eqn:E. cbn [s_ext elapse set_now].
  destruct (o_fault (orc i1)); cbn [with_fault fst snd s_ext set_ext elapse set_now]; rewrite ?E; cbn;
    rewrite ?decide_True by done; intros <-; (split; [split; [done|]; intros; by rewrite ?decide_False|split; [done|] ]);
    [right|left|right]; split; try done; by intros ? [= <-].
Qed.

(** Both operations: look, and create if there is nothing. *)
Definition find_or_create (c : Client) (q name parent mime content e1 e2 : string)
    : prog (result string * Client) :=
  '(resp, c) ← Files_List c q;
  match resp with
  | Err e => mret (Err (EWrap e1 e), c)
  | Ok (id :: _) => mret (Ok id, c)
  | Ok [] =>
      '(created, c) ← Files_Create c name parent mime content;
      match created with
      | Err e => mret (Err (EWrap e2 e), c)
      | Ok id => mret (Ok id, c)
      end
  end.

Lemma run_find_or_create orc c q name parent mime content e1 e2 i s r c' i' s' :
  run orc (find_or_create c q name parent mime content e1 e2) i s = Some ((r, c'), i', s') →
  let st := drive_of c s in
  let new := FilesCreate name parent mime content st in
  same_else c s s' ∧ userID c' = userID c ∧
  ((drive_of c s' = st ∧ ∀ id, r = Ok id → id ∈ FilesList q st) ∨
   (FilesList q st = [] ∧ drive_of c s' = new.2 ∧ ∀ id, r = Ok id → id = new.1)).
Proof.
  unfold find_or_create. rewrite run_bind. cbv zeta.
  destruct (run orc (Files_List c q) i s) as [ [ [ [resp c1] i1] s1]|] eqn:H1; [|done]. cbv beta iota.
  apply run_DoDrive in H1 as (Hf1 & Hu1 & Hd1). cbn [fst snd] in Hd1.
  assert (Hst : drive_of c s1 = drive_of c s) by (by destruct Hd1 as [ [_ ?]|[_ ?] ]).
  destruct resp as [ [|id ids]|e].
  - destruct Hd1 as [ [? _]|[Hans _] ]; [done|]. specialize (Hans _ eq_refl). rewrite run_bind.
    destruct (run orc (Files_Create _ _ _ _ _) i1 s1) as [ [ [ [cr c2] i2] s2]|] eqn:H2; [|done]. cbv beta iota.
    apply run_DoDrive in H2 as (Hf2 & Hu2 & Hd2). unfold drive_of, same_else in *. rewrite Hu1 in *. rewrite Hst in Hd2.
    assert (Hf : same_else c s s2) by (by eapply same_else_trans).
    destruct cr as [id|e]; intros [= <- <- <- <-]; (split; [exact Hf|split; [congruence|] ]);
      destruct Hd2 as [ [Hok Hd2]|[Hid Hd2] ]; try done; [right|left|right]; try done.
  - intros [= <- <- <- <-]. split; [done|]. split; [done|]. left. split; [done|]. intros id' [= <-].
    destruct Hd1 as [ [? _]|[Hans _] ]; [done|]. rewrite <- (Hans _ eq_refl). apply list_elem_of_here.
  - intros [= <- <- <- <-]. split; [done|]. split; [done|]. left. by split.
Qed.

(** The files of a name in a folder; the folders among them. *)
Definition named (name parent : string) (d : dstate) : list dfile :=
  filter (λ f, f_name f = name ∧ f_parent f = parent) (d_files d).
Definition folders_named (name parent : string) (d : dstate) : list dfile :=
  filter (λ f, f_mime f = folderMime) (named name parent d).

Lemma elem_of_named name parent d f :
  f ∈ named name parent d ↔ f ∈ d_files d ∧ f_name f = name ∧ f_parent f = parent.
Proof. unfold named. rewrite list_elem_of_filter. tauto. Qed.

Lemma elem_of_folders name parent d f :
  f ∈ folders_named name parent d ↔
  f ∈ d_files d ∧ f_name f = name ∧ f_parent f = parent ∧ f_mime f = folderMime.
Proof. unfold folders_named. rewrite list_elem_of_filter, elem_of_named. tauto. Qed.

(** What an operation does to Drive, whatever fails: nothing, or, if nothing
    was found, it adds one file with a new id; never a second one; and an id
    it returns is the id of what is there. *)
Record once (found : dstate → list dfile) (new : string → dfile) (r : result string) (d d' : dstate) : Prop := {
  once_shape : d' = d ∨ (found d = [] ∧ ∃ id, drive_id_ok id ∧ (∀ f, f ∈ d_files d → f_id f ≠ id) ∧
    d_files d' ≡ₚ new id :: d_files d);
  once_single : (length (found d) ≤ 1)%nat → (length (found d') ≤ 1)%nat;
  once_id id : r = Ok id → ∃ f, f ∈ found d' ∧ f_id f = id
}.

Lemma once_grows found new r d d' f : once found new r d d' → f ∈ d_files d → f ∈ d_files d'.
Proof.
  intros [ [->|(_ & id & _ & _ & Hp)] _ _]; [done|]. intros Hf. rewrite Hp. by apply list_elem_of_further.
Qed.

Lemma once_new found new r d d' f : once found new r d d' → f ∈ d_files d' →
  f ∈ d_files d ∨ ∃ id, f = new id ∧ drive_id_ok id.
Proof.
  intros [ [->|(_ & id & Hid & _ & Hp)] _ _]; [by left|]. rewrite Hp, elem_of_cons. intros [->|?]; eauto.
Qed.

Lemma once_keeps found new r d d' : once found new r d d' → found d ≠ [] → d' = d.
Proof. by intros [ [->|(? & _)] _ _]. Qed.

Lemma create_cons name parent mime content d :
  ∃ id d', FilesCreate name parent mime content d = (id, d') ∧
    drive_id_ok id ∧ (∀ f, f ∈ d_files d → f_id f ≠ id) ∧ d_files d' ≡ₚ mk_dfile id name parent mime content :: d_files d.
Proof.
  pose proof (FilesCreate_spec d name parent mime content) as H.
  destruct (FilesCreate _ _ _ _ _) as [id d']. destruct H as (Hid & Hfresh & _ & Hp). exists id, d'.
  split_and!; [done|done|by intros f [? _]%Hfresh|done].
Qed.

Lemma find_or_create_once orc c q name parent mime content e1 e2 (found : dstate → list dfile) i s r c' i' s' :
  (∀ id, id ∈ FilesList q (drive_of c s) → ∃ f, f ∈ found (drive_of c s) ∧ f_id f = id) →
  (FilesList q (drive_of c s) = [] → found (drive_of c s) = []) →
  (∀ d d' f, d_files d' ≡ₚ f :: d_files d → f_name f = name → f_parent f = parent → f_mime f = mime →
     found d' ≡ₚ f :: found d) →
  run orc (find_or_create c q name parent mime content e1 e2) i s = Some ((r, c'), i', s') →
  once found (λ id, mk_dfile id name parent mime content) r (drive_of c s) (drive_of c s') ∧
  same_else c s s' ∧ userID c' = userID c.
Proof.
  intros Hfound Hnil Hcons Hrun. apply run_find_or_create in Hrun as (Hf & Hu & H). split; [|done].
  destruct H as [ [Hd Hid]|(Hq & Hd & Hid)].
  - rewrite Hd. constructor; [by left|done|]. intros id Hr. by apply Hfound, Hid.
  - destruct (create_cons name parent mime content (drive_of c s)) as (id & d' & Hc & Hok & Hfresh & Hp).
    rewrite Hc in *. cbn [fst snd] in *. rewrite Hd. pose proof (Hcons _ _ _ Hp eq_refl eq_refl eq_refl) as Hfd.
    rewrite (Hnil Hq) in Hfd. constructor.
    + right. split; [by apply Hnil|]. by exists id.
    + intros _. rewrite Hfd. simpl. lia.
    + intros id' Hr. rewrite (Hid id' Hr). eexists. rewrite Hfd. split; [apply list_elem_of_here|done].
Qed.

Lemma DoDrive_total {X} c (f : dstate → X * dstate) : total (DoDrive c f).
Proof. unfold DoDrive. apply total_bind; [apply source_total|]. by intros [ [?|?] ?]. Qed.

Lemma find_or_create_total c q name parent mime content e1 e2 :
  total (find_or_create c q name parent mime content e1 e2).
Proof.
  unfold find_or_create. apply total_bind; [apply DoDrive_total|]. intros [ [ [|? ?]|?] ?]; try done.
  apply total_bind; [apply DoDrive_total|]. by intros [ [?|?] ?].
Qed.

Lemma run_EnsureFolder orc c parent name i s r c' i' s' :
  drive_id_ok parent → contains_byte "\" name = false →
  run orc (EnsureFolder c parent name) i s = Some ((r, c'), i', s') →
  once (folders_named name parent) (λ id, mk_dfile id name parent folderMime EmptyString) r
    (drive_of c s) (drive_of c s') ∧ same_else c s s' ∧ userID c' = userID c.
Proof.
  intros Hp Hn Hrun. destruct (FilesList_folder (drive_of c s) name parent Hp) as [H1 H2].
  rewrite <- escape_quote in H1, H2 by done.
  eapply find_or_create_once; [| | |exact Hrun].
  - intros id (f & Hf & ? & ? & ? & ?)%H1. exists f. by rewrite elem_of_folders.
  - intros Hq. apply elem_of_nil_inv. intros f (Hf & ? & ? & ?)%elem_of_folders. by eapply (H2 f).
  - intros d d' f Hperm ? ? ?. unfold folders_named, named. rewrite Hperm.
    rewrite filter_cons_True by done. by rewrite filter_cons_True.
Qed.

Lemma run_Upload orc c parent name contentType content i s r c' i' s' :
  drive_id_ok parent → contains_byte "\" name = false →
  run orc (Upload c parent name contentType content) i s = Some ((r, c'), i', s') →
  once (named name parent) (λ id, mk_dfile id name parent contentType content) r
    (drive_of c s) (drive_of c s') ∧ same_else c s s' ∧ userID c' = userID c.
Proof.
  intros Hp Hn Hrun. destruct (FilesList_file (drive_of c s) name parent Hp) as [H1 H2].
  rewrite <- escape_quote in H1, H2 by done.
  eapply find_or_create_once; [| | |exact Hrun].
  - intros id (f & Hf & ? & ? & ?)%H1. exists f. by rewrite elem_of_named.
  - intros Hq. apply elem_of_nil_inv. intros f (Hf & ? & ?)%elem_of_named. by eapply (H2 f).
  - intros d d' f Hperm ? ? _. unfold named. rewrite Hperm. by rewrite filter_cons_True.
Qed.

(** ** Properties *)

(** However often a folder is asked for and whatever fails in between,
    there is at most one folder of the name in the parent, nothing on Drive is
    removed or replaced, and an id that is returned is that folder's. *)
Theorem EnsureFolder_once orc c parent name i s r c' i' s' :
  drive_id_ok parent → contains_byte "\" name = false →
  run orc (EnsureFolder c parent name) i s = Some ((r, c'), i', s') →
  once (folders_named name parent) (λ id, mk_dfile id name parent folderMime EmptyString) r
    (drive_of c s) (drive_of c s') ∧ same_else c s s'.
Proof. intros Hp Hn Hrun. by destruct (run_EnsureFolder orc c parent name i s r c' i' s' Hp Hn Hrun) as (? & ? & _). Qed.

(** An upload never stores a name twice in a folder and never replaces
    what is stored: if a file of the name is there, whatever it holds, Drive
    stays as it is; otherwise what is stored is the content. *)
Theorem Upload_once orc c parent name contentType content i s r c' i' s' :
  drive_id_ok parent → contains_byte "\" name = false →
  run orc (Upload c parent name contentType content) i s = Some ((r, c'), i', s') →
  once (named name parent) (λ id, mk_dfile id name parent contentType content) r
    (drive_of c s) (drive_of c s') ∧ same_else c s s'.
Proof.
  intros Hp Hn Hrun.
  by destruct (run_Upload orc c parent name contentType content i s r c' i' s' Hp Hn Hrun) as (? & ? & _).
Qed.

End drive.

(** ** Witnesses *)
Import SchemaModel RedisModel DriveModel AeadModel EffectsModel.

Lemma EnsureFolder_once_witness :
  ∃ r c' i' s', run (calm_api test_api) (EnsureFolder alice_client "root" "2026") 0 signed_up =
      Some ((r, c'), i', s') ∧
    once (folders_named "2026" "root") (λ id, mk_dfile id "2026" "root" folderMime EmptyString) r (drive_of alice_client signed_up) (drive_of alice_client s') ∧
    same_else alice_client signed_up s'.
Proof.
  destruct (run_total (calm_api test_api) (EnsureFolder alice_client "root" "2026") 0 signed_up)
    as ([r c'] & i' & s' & Hrun); [apply find_or_create_total|].
  exists r, c', i', s'. split; [exact Hrun|].
  apply (EnsureFolder_once (calm_api test_api) alice_client "root" "2026" 0 signed_up r c' i' s').
  - reflexivity.
  - reflexivity.
  - exact Hrun.
Defined.

Lemma Upload_once_witness :
  ∃ r c' i' s', run (calm_api test_api) (Upload alice_client "root" "email.pdf" "application/pdf" "PDF") 0
      signed_up = Some ((r, c'), i', s') ∧
    once (named "email.pdf" "root") (λ id, mk_dfile id "email.pdf" "root" "application/pdf" "PDF") r (drive_of alice_client signed_up) (drive_of alice_client s') ∧
    same_else alice_client signed_up s'.
Proof.
  destruct (run_total (calm_api test_api) (Upload alice_client "root" "email.pdf" "application/pdf" "PDF") 0
    signed_up) as ([r c'] & i' & s' & Hrun); [apply find_or_create_total|].
  exists r, c', i', s'. split; [exact Hrun|].
  apply (Upload_once (calm_api test_api) alice_client "root" "email.pdf" "application/pdf" "PDF" 0 signed_up r c' i' s').
  - reflexivity.
  - reflexivity.
  - exact Hrun.
Defined.
