(* ===== verification/Fetch.v ===== *)
(** * The fetch stage: internal/handler/fetch.go

    The handler downloads a message and writes it to the shared disk. *)
From S2P Require Import Prelude Redis Schema GoStrings Services Effects Files Disk Queue Store OAuth Gmail.
Local Open Scope Z_scope.

Section fetch.
Context `{UL : UuidLib} `{PG : !PgServer} `{RS : RedisServer} `{DS : DriveServer} `{AE : AeadLib}.

Definition eml_path (dataDir : string) (id : uuid) : string :=
  Join [Join [dataDir; "mime"]; uuid_String id +:+ ".eml"].

Definition Fetch (dataDir : string) (key : list Byte.byte) (job : Job) : prog (result string) :=
  match UserID job, GmailMessageID job with
  | None, _ => mret (Err (EText "fetch: job missing user_id"))
  | Some _, None => mret (Err (EText "fetch: job missing gmail_message_id"))
  | Some u, Some gid =>
      client ← Gmail.New u key;
      match client with
      | Err e => mret (Err (EWrap "gmail client" e))
      | Ok client =>
          '(raw, _) ← FetchMessage client gid;
          match raw with
          | Err e => mret (Err (EWrap "fetch" e))
          | Ok raw =>
              r ← call (MkdirAll (Join [dataDir; "mime"]));
              match r with
              | Err e => mret (Err (EWrap "mkdir" e))
              | Ok _ =>
                  r ← WriteFile (eml_path dataDir (ID job)) raw;
                  match r with
                  | Err e => mret (Err (EWrap "write mime" e))
                  | Ok _ => mret (Ok "render")
                  end
              end
          end
      end
  end.

(** ** Lemmas *)

Lemma Fetch_total dataDir key job : total (Fetch dataDir key job).
Proof.
  unfold Fetch. walk_prog.
Qed.

(** What a successful run did, when its calls are numbered [lo] to [hi]. *)
Definition fetched orc lo hi dataDir key job (stage : string) (F F' : gmap string string) : Prop :=
  stage = "render" ∧ ∃ u gid client raw c',
    UserID job = Some u ∧ GmailMessageID job = Some gid ∧
    returns orc lo hi (Gmail.New u key) (Ok client) ∧
    returns orc lo hi (FetchMessage client gid) (Ok raw, c') ∧
    F' = <[eml_path dataDir (ID job) := raw]> F.

Lemma writes_Fetch orc dataDir key job lo hi :
  writes orc lo hi (λ p, p = eml_path dataDir (ID job)) (Fetch dataDir key job)
    (fetched orc lo hi dataDir key job).
Proof.
  unfold Fetch. destruct (UserID job) as [u|] eqn:Hu; [|apply writes_err].
  destruct (GmailMessageID job) as [gid|] eqn:Hg; [|apply writes_err].
  eapply writes_conseq.
  { apply writes_bind; [apply writes_quiet, (calls_only_impl _ _ _ quiet_not_ext), connect_quiet|].
    intros client. apply writes_bind_quiet; [apply (calls_only_impl _ _ _ quiet_not_ext), FetchMessage_quiet|].
    intros raw. apply writes_bind; [apply writes_MkdirAll|]. intros ?.
    apply writes_bind; [by apply writes_WriteFile|]. intros ?.
    apply (writes_ok _ _ _ _ _ (λ stage F F', stage = "render" ∧ F' = F)). done. }
  intros stage F F'. cbn beta. intros (client & F1 & [-> Hc] & raw & c' & Hf & ? & F2 & -> & ? & F3 & -> & -> & ->).
  split; [done|]. by exists u, gid, client, raw, c'.
Qed.

(** ** Properties *)

(** C24. The fetch stage: it returns, and whatever fails, no Drive and no file
    but the job's .eml changes; when it succeeds, the job goes to the render
    stage and the .eml holds, byte for byte, what the Gmail client fetched for
    the job's message with the account's token. *)
Theorem Fetch_stores orc dataDir key job i s :
  ∃ r i' s', run orc (Fetch dataDir key job) i s = Some (r, i', s') ∧
  drives s' = drives s ∧ keeps (λ p, p = eml_path dataDir (ID job)) (files s) (files s') ∧
  ∀ stage, r = Ok stage → stage = "render" ∧ ∃ u gid client raw c',
    UserID job = Some u ∧ GmailMessageID job = Some gid ∧
    returns orc i i' (Gmail.New u key) (Ok client) ∧
    returns orc i i' (FetchMessage client gid) (Ok raw, c') ∧
    files s' = <[eml_path dataDir (ID job) := raw]> (files s).
Proof.
  apply (writes_run _ _ (λ lo hi, fetched orc lo hi dataDir key job)); [apply Fetch_total|].
  intros lo hi. apply writes_Fetch.
Qed.

End fetch.
