(* ===== verification/Render.v ===== *)
(** * The render stage: internal/handler/render.go and internal/pdf

    The handler parses a fetched message, writes its attachments, its page as
    a PDF, and the metadata for the upload stage. *)
From S2P Require Import Prelude Redis Schema GoStrings Utf8 Calendar Times Json Meta Mime Html Paths Services Effects Files Disk.
Local Open Scope Z_scope.

Section render.
Context `{UL : UuidLib} `{RS : RedisServer} `{DS : DriveServer} `{ML : MailLib}.

(** ** internal/pdf: client.go *)

(** The form is written to memory, so building it does not fail. *)
Definition RenderHTML (html : string) : prog (result string) :=
  resp ← call (Api (RenderPost html));
  match resp with
  | Err e => mret (Err (EWrap "post" e))
  | Ok (StatusCode, body, read_err) =>
      if negb (Z.quot StatusCode 100 =? 2) then
        mret (Err (EText ("gotenberg " +:+ pretty StatusCode +:+ ": " +:+ body)))
      else
        match read_err with
        | Some e => mret (Err (EWrap "read body" e))
        | None => mret (Ok body)
        end
  end.

(** ** render.go *)

Definition attach_dir (dataDir : string) (id : uuid) : string :=
  Join [dataDir; "attachments"; uuid_String id].

(** The loop over the attachments; the result is the names. *)
Fixpoint write_attachments (dir : string) (l : list Attachment) (names : list string)
    : prog (result (list string)) :=
  match l with
  | [] => mret (Ok names)
  | a :: l =>
      let name := SanitizeFilename (a_Filename a) in
      r ← WriteFile (Join [dir; name]) (a_Content a);
      match r with
      | Err e => mret (Err (EWrap ("write attachment " +:+ name) e))
      | Ok _ => write_attachments dir l (names ++ [name])
      end
  end.

(** MkdirAll and WriteFile with the error texts of a step of [Render]. *)
Definition save_in (dir : string) (what : string) (file data : string) : prog (result unit) :=
  r ← call (MkdirAll dir);
  match r with
  | Err e => mret (Err (EWrap ("mkdir " +:+ what) e))
  | Ok _ =>
      r ← WriteFile (Join [dir; file]) data;
      match r with
      | Err e => mret (Err (EWrap ("write " +:+ what) e))
      | Ok _ => mret (Ok tt)
      end
  end.

(** The attachments go to disk before the page is rendered. *)
Definition save_attachments (dir : string) (l : list Attachment) : prog (result (list string)) :=
  match l with
  | [] => write_attachments dir [] []
  | _ =>
      r ← call (MkdirAll dir);
      match r with
      | Err e => mret (Err (EWrap "mkdir attachments" e))
      | Ok _ => write_attachments dir l []
      end
  end.

Definition meta_of (job : Job) (parsed : ParsedMessage) (names : list string) : RenderMeta :=
  mk_RenderMeta (pm_Subject parsed) (pm_FromEmail parsed)
    (if IsZero (pm_ReceivedAt parsed) then UTC (CreatedAt job) else pm_ReceivedAt parsed) names.

Definition render_parsed (dataDir : string) (job : Job) (parsed : ParsedMessage) : prog (result string) :=
  names ← save_attachments (attach_dir dataDir (ID job)) (Attachments parsed);
  match names with
  | Err e => mret (Err e)
  | Ok names =>
      pdfBytes ← RenderHTML (buildHTMLWrapper parsed);
      match pdfBytes with
      | Err e => mret (Err (EWrap "render" e))
      | Ok pdfBytes =>
          r ← save_in (Join [dataDir; "pdf"]) "pdf" (uuid_String (ID job) +:+ ".pdf") pdfBytes;
          match r with
          | Err e => mret (Err e)
          | Ok _ =>
              match MarshalMeta (meta_of job parsed names) with
              | Err e => mret (Err (EWrap "marshal meta" e))
              | Ok metaB =>
                  r ← save_in (Join [dataDir; "meta"]) "meta" (uuid_String (ID job) +:+ ".json") metaB;
                  match r with
                  | Err e => mret (Err e)
                  | Ok _ => mret (Ok "upload")
                  end
              end
          end
      end
  end.

Definition Render (dataDir : string) (job : Job) : prog (result string) :=
  rawMime ← call (ReadFile (Join [dataDir; "mime"; uuid_String (ID job) +:+ ".eml"]));
  match rawMime with
  | Err e => mret (Err (EWrap "read mime" e))
  | Ok rawMime =>
      match parseMessage rawMime with
      | None => NoFuel
      | Some (Err e) => mret (Err (EWrap "parse mime" e))
      | Some (Ok parsed) => render_parsed dataDir job parsed
      end
  end.


(** ** Lemmas *)

Definition pdf_path (dataDir : string) (id : uuid) : string :=
  Join [Join [dataDir; "pdf"]; uuid_String id +:+ ".pdf"].
Definition meta_path (dataDir : string) (id : uuid) : string :=
  Join [Join [dataDir; "meta"]; uuid_String id +:+ ".json"].

(** The files the stage may write for a job. *)
Definition rendered_file (dataDir : string) (id : uuid) (p : string) : Prop :=
  p = pdf_path dataDir id ∨ p = meta_path dataDir id ∨
  ∃ name, plain_name name ∧ p = Join [attach_dir dataDir id; name].

(** One file after the other; the later of two with the same name stays. *)
Definition put_attachments (dir : string) (l : list Attachment) (F : gmap string string) : gmap string string :=
  foldl (λ F a, <[Join [dir; SanitizeFilename (a_Filename a)] := a_Content a]> F) F l.

Definition names_of (l : list Attachment) : list string := (λ a, SanitizeFilename (a_Filename a)) <$> l.

Section rules.
Variables (orc : nat → outcome) (lo hi : nat).

Lemma RenderHTML_not_ext html : calls_only not_ext (RenderHTML html).
Proof. unfold RenderHTML. walk_prog. Qed.

Lemma writes_attachments W dir l names :
  (∀ name, plain_name name → W (Join [dir; name])) →
  writes orc lo hi W (write_attachments dir l names)
    (λ names' F F', names' = names ++ names_of l ∧ F' = put_attachments dir l F).
Proof.
  intros HW. revert names. induction l as [|a l IH]; intros names; cbn [write_attachments].
  - apply writes_ok. intros F. by rewrite app_nil_r.
  - eapply writes_conseq.
    + apply writes_bind; [|intros ?; apply IH]. apply writes_WriteFile, HW, SanitizeFilename_plain.
    + intros names' F F' (_ & F1 & -> & -> & ->). by rewrite <- app_assoc.
Qed.

Lemma writes_save_attachments W dir l :
  (∀ name, plain_name name → W (Join [dir; name])) →
  writes orc lo hi W (save_attachments dir l)
    (λ names F F', names = names_of l ∧ F' = put_attachments dir l F).
Proof.
  intros HW. pose proof (writes_attachments W dir l [] HW) as H.
  destruct l as [|a l]; [exact H|]. unfold save_attachments. eapply writes_conseq.
  - apply writes_bind; [apply writes_MkdirAll|]. intros ?. exact H.
  - by intros names F F' (_ & F1 & -> & ?).
Qed.

Lemma writes_save_in (W : string → Prop) dir what file data :
  W (Join [dir; file]) →
  writes orc lo hi W (save_in dir what file data) (λ _ F F', F' = <[Join [dir; file] := data]> F).
Proof.
  intros HW. unfold save_in. eapply writes_conseq.
  - apply writes_bind; [apply writes_MkdirAll|]. intros ?.
    apply writes_bind; [by apply writes_WriteFile|]. intros ?. by apply (writes_ok _ _ _ _ _ (λ _ F F', F' = F)).
  - by intros ? F F' (? & F1 & -> & ? & F2 & -> & ->).
Qed.

(** The state between the calls of the stage. *)
Definition rendered (dataDir : string) (job : Job) (raw : string) (stage : string) (F F' : gmap string string) : Prop :=
  stage = "upload" ∧ ∃ parsed pdf meta, parseMessage raw = Some (Ok parsed) ∧
    returns orc lo hi (RenderHTML (buildHTMLWrapper parsed)) (Ok pdf) ∧
    MarshalMeta (meta_of job parsed (names_of (Attachments parsed))) = Ok meta ∧
    F' = <[meta_path dataDir (ID job) := meta]> (<[pdf_path dataDir (ID job) := pdf]>
           (put_attachments (attach_dir dataDir (ID job)) (Attachments parsed) F)).

Lemma writes_render_parsed dataDir job raw parsed :
  parseMessage raw = Some (Ok parsed) →
  writes orc lo hi (rendered_file dataDir (ID job)) (render_parsed dataDir job parsed)
    (rendered dataDir job raw).
Proof.
  intros Hp. unfold render_parsed. eapply writes_conseq.
  - apply (writes_bind _ _ _ _ _ _ (λ e, e)); [apply writes_save_attachments; unfold rendered_file; eauto|].
    intros names. apply writes_bind; [apply writes_quiet, RenderHTML_not_ext|]. intros pdfBytes.
    apply (writes_bind _ _ _ _ _ _ (λ e, e)); [apply writes_save_in; by left|]. intros ?.
    destruct (MarshalMeta _) as [metaB|e] eqn:Hm;
      [|apply (writes_err _ _ _ _ _ (λ stage F F', ∃ metaB, MarshalMeta (meta_of job parsed names) = Ok metaB ∧
          stage = "upload" ∧ F' = <[meta_path dataDir (ID job) := metaB]> F))].
    eapply writes_conseq; [apply (writes_bind _ _ _ _ _ _ (λ e, e)); [apply writes_save_in; by right; left|]|].
    + intros ?. by apply (writes_ok _ _ _ _ _ (λ stage F F', stage = "upload" ∧ F' = F)).
    + cbn beta. intros stage F F' (? & F1 & -> & -> & ->). by exists metaB.
  - cbn beta. intros stage F F' (names & F1 & [-> ->] & pdf & F2 & [-> Hr] & ? & F3 & -> & metaB & Hm & -> & ->).
    split; [done|]. by exists parsed, pdf, metaB.
Qed.
End rules.

Lemma put_attachments_other dir l F p :
  (∀ name, plain_name name → p ≠ Join [dir; name]) → put_attachments dir l F !! p = F !! p.
Proof.
  intros Hp. revert F. induction l as [|a l IH]; intros F; [done|]. cbn. fold (put_attachments dir l).
  unfold put_attachments in IH. rewrite IH. apply lookup_insert_ne. intros Heq. exact (Hp _ (SanitizeFilename_plain _) (eq_sym Heq)).
Qed.

Lemma plain_component name : plain_name name → component name.
Proof.
  intros (Hne & _ & Hdd & Hd & Hsep). split_and!; [done|done| |by apply Hsep].
  intros ->. by vm_compute in Hdd.
Qed.

Lemma Join_plain_inj dir n1 n2 : component n1 → component n2 → Join [dir; n1] = Join [dir; n2] → n1 = n2.
Proof. intros H1 H2. rewrite !Join1 by done. apply sapp_inj_l. Qed.

(** An attachment's content is on disk unless a later one has its name. *)
Lemma put_attachments_last dir l1 a l2 F :
  SanitizeFilename (a_Filename a) ∉ names_of l2 →
  put_attachments dir (l1 ++ a :: l2) F !! Join [dir; SanitizeFilename (a_Filename a)] = Some (a_Content a).
Proof.
  unfold put_attachments. rewrite foldl_app. cbn [foldl].
  match goal with |- context [foldl ?f F l1] => generalize (foldl f F l1) end. intros G Hn.
  assert (Hp : ∀ n, component (SanitizeFilename n)) by (intros n; apply plain_component, SanitizeFilename_plain).
  assert (H : ∀ (p : string) (G' : gmap string string), (∀ b, b ∈ l2 → p ≠ Join [dir; SanitizeFilename (a_Filename b)]) →
    foldl (λ F a, <[Join [dir; SanitizeFilename (a_Filename a)] := a_Content a]> F) G' l2 !! p = G' !! p).
  { intros p. clear Hn. induction l2 as [|b l2 IH]; intros G' Hb; [done|]. cbn [foldl].
    rewrite IH by (intros b' Hb'; apply Hb; by right). apply lookup_insert_ne. intros Heq.
    by apply (Hb b (list_elem_of_here _ _)). }
  rewrite H, lookup_insert_eq; [done|]. intros b Hb Heq. apply Hn. apply Join_plain_inj in Heq; [|done..].
  rewrite Heq. unfold names_of. by apply (list_elem_of_fmap_2 (λ a, SanitizeFilename (a_Filename a))).
Qed.

Lemma RenderHTML_total html : total (RenderHTML html).
Proof. unfold RenderHTML. walk_prog. Qed.

Lemma WriteFile_total p data : total (WriteFile p data).
Proof. unfold WriteFile. walk_prog. Qed.

Lemma write_attachments_total dir l names : total (write_attachments dir l names).
Proof. revert names. induction l as [|a l IH]; intros names; cbn [write_attachments]; walk_prog; apply IH. Qed.

Lemma Render_total dataDir job : total (Render dataDir job).
Proof.
  unfold Render. apply total_bind; [done|]. intros [raw|e]; [|done].
  pose proof (parseMessage_total raw). destruct (parseMessage raw) as [ [parsed|e]|]; [|done..].
  unfold render_parsed, save_attachments, save_in. walk_prog; apply write_attachments_total.
Qed.

Lemma put_attachments_except dir l p F1 F2 :
  (∀ q, q ≠ p → F1 !! q = F2 !! q) →
  ∀ q, q ≠ p → put_attachments dir l F1 !! q = put_attachments dir l F2 !! q.
Proof.
  revert F1 F2. induction l as [|a l IH]; intros F1 F2 HF; [exact HF|]. apply (IH (<[_ := _]> F1) (<[_ := _]> F2)).
  intros q Hq. destruct (decide (q = Join [dir; SanitizeFilename (a_Filename a)])) as [->|Hne].
  - by rewrite !lookup_insert_eq.
  - rewrite !lookup_insert_ne by congruence. by apply HF.
Qed.

Lemma writes_Render orc dataDir job lo hi :
  writes orc lo hi (rendered_file dataDir (ID job)) (Render dataDir job) (λ stage F F',
    ∃ raw, F !! Join [dataDir; "mime"; uuid_String (ID job) +:+ ".eml"] = Some raw ∧
      rendered orc lo hi dataDir job raw stage F F').
Proof.
  unfold Render. eapply writes_conseq.
  - apply writes_bind; [apply writes_ReadFile|]. intros raw.
    destruct (parseMessage raw) as [ [parsed|e]|] eqn:Hp;
      [by apply (writes_render_parsed _ _ _ _ _ raw)|apply writes_err|by destruct (parseMessage_total raw Hp)].
  - cbn beta. intros stage F F' (raw & F1 & [-> Hraw] & H). by exists raw.
Qed.

(** ** Properties *)

(** C23. The render stage: it returns, and whatever fails, no Drive changes and
    no file but the job's PDF, metadata and files of plain names in its
    attachment directory; when it succeeds, the job goes to the upload stage,
    the attachments of the job's message are on disk under their sanitised
    names, the PDF is what the renderer answered for the message's page, and
    the metadata names subject, sender, time and those attachments. *)
Theorem Render_stores orc dataDir job i s :
  ∃ r i' s', run orc (Render dataDir job) i s = Some (r, i', s') ∧
  drives s' = drives s ∧ keeps (rendered_file dataDir (ID job)) (files s) (files s') ∧
  ∀ stage, r = Ok stage → stage = "upload" ∧ ∃ raw parsed pdf meta,
    files s !! Join [dataDir; "mime"; uuid_String (ID job) +:+ ".eml"] = Some raw ∧
    parseMessage raw = Some (Ok parsed) ∧
    returns orc i i' (RenderHTML (buildHTMLWrapper parsed)) (Ok pdf) ∧
    MarshalMeta (meta_of job parsed (names_of (Attachments parsed))) = Ok meta ∧
    files s' = <[meta_path dataDir (ID job) := meta]> (<[pdf_path dataDir (ID job) := pdf]>
           (put_attachments (attach_dir dataDir (ID job)) (Attachments parsed) (files s))).
Proof.
  destruct (writes_run _ _ _ orc i s (Render_total dataDir job) (writes_Render orc dataDir job))
    as (r & i' & s' & Hrun & Hd & Hk & HG).
  exists r, i', s'. do 3 (split; [done|]). intros stage Hr. destruct (HG stage Hr) as (raw & Hraw & -> & Hex).
  split; [done|]. destruct Hex as (parsed & pdf & meta & H). by exists raw, parsed, pdf, meta.
Qed.

(** Attachments whose names are the same once sanitised share one file:
    what the earlier one held is not on the disk, as if the message did not
    have it. *)
Theorem attachments_collide dir l1 a l2 b F :
  SanitizeFilename (a_Filename a) = SanitizeFilename (a_Filename b) →
  put_attachments dir (l1 ++ a :: l2 ++ [b]) F = put_attachments dir (l1 ++ l2 ++ [b]) F.
Proof.
  intros Hab. unfold put_attachments. rewrite !foldl_app. cbn [foldl].
  match goal with |- context [foldl ?f F l1] => generalize (foldl f F l1) end. intros G. rewrite !foldl_app. cbn [foldl].
  apply map_eq. intros q. destruct (decide (q = Join [dir; SanitizeFilename (a_Filename b)])) as [->|Hne].
  - by rewrite !lookup_insert_eq.
  - rewrite !lookup_insert_ne by congruence. apply (put_attachments_except dir l2 (Join [dir; SanitizeFilename (a_Filename b)]));
      [|done]. intros q' Hq'. rewrite Hab. apply lookup_insert_ne. congruence.
Qed.
End render.

(** ** Witnesses *)

Lemma attachments_collide_witness :
  put_attachments "/data/attachments/7" [mk_Attachment "image.png" "image/png" "A"; mk_Attachment "image.png" "image/png" "B"] ∅ =
  put_attachments "/data/attachments/7" [mk_Attachment "image.png" "image/png" "B"] ∅.
Proof.
  apply (attachments_collide "/data/attachments/7" [] (mk_Attachment "image.png" "image/png" "A") []
    (mk_Attachment "image.png" "image/png" "B") ∅). reflexivity.
Defined.
