(* ===== verification/Upload.v ===== *)
(** * The upload stage: internal/handler/upload.go

    The handler finds or creates the folder of the message, through the folder
    cache, and stores the PDF and the attachments there. *)
From S2P Require Import Prelude Redis Schema GoStrings Utf8 Calendar Times Json Meta Paths Services Effects Files Disk Queue Store OAuth Gmail Drive.
Local Open Scope Z_scope.

Section upload.
Context `{UL : UuidLib} `{PG : !PgServer} `{RS : RedisServer} `{DS : DriveServer} `{AE : AeadLib} `{TP : TimeParser}.

Record UploadConfig := mk_UploadConfig { DataDir : string; RootFolderID : string; RootPath : string }.

Definition cache_ttl : Z := 24 * 3600 * 1000000000.

(** The loop that resolves a chain of folders, through the cache. *)
Fixpoint ensure_chain (u : uuid) (c : Client) (folders : list string) (pathSoFar parent : string)
    : prog (result string * Client) :=
  match folders with
  | [] => mret (Ok parent, c)
  | f :: folders =>
      let pathSoFar := if bool_decide (pathSoFar = EmptyString) then f else Join [pathSoFar; f] in
      cached ← Drive.Get u pathSoFar;
      match cached with
      | Ok (Some id) => ensure_chain u c folders pathSoFar id
      | _ =>
          '(folderID, c) ← EnsureFolder c parent f;
          match folderID with
          | Err e => mret (Err (EWrap ("ensure folder " +:+ f) e), c)
          | Ok folderID =>
              _ ← Set_ u pathSoFar folderID cache_ttl;
              ensure_chain u c folders pathSoFar folderID
          end
      end
  end.

Fixpoint upload_attachments (c : Client) (dataDir : string) (id : uuid) (parent : string) (names : list string) : prog (result unit) :=
  match names with
  | [] => mret (Ok tt)
  | name :: names =>
      data ← call (ReadFile (Join [dataDir; "attachments"; uuid_String id; name]));
      match data with
      | Err e => mret (Err (EWrap ("read attachment " +:+ name) e))
      | Ok data =>
          '(r, c) ← Drive.Upload c parent name "application/octet-stream" data;
          match r with
          | Err e => mret (Err (EWrap ("upload attachment " +:+ name) e))
          | Ok _ => upload_attachments c dataDir id parent names
          end
      end
  end.

Definition root_folders (rootPath : string) : list string :=
  filter (λ p, p ≠ EmptyString) (trim_space <$> Split rootPath "/").

Definition folders_of (cfg : UploadConfig) (m : RenderMeta) : list string :=
  (if decide (RootPath cfg = EmptyString) then [] else root_folders (RootPath cfg)) ++
  DateTreeFolders (t_ns (rm_ReceivedAt m)) ++
  [EmailFolderName (t_ns (rm_ReceivedAt m)) (rm_Subject m) (rm_FromEmail m)].

Definition upload_files (cfg : UploadConfig) (job : Job) (c : Client) (parent : string) (names : list string)
    : prog (result string) :=
  pdfBytes ← call (ReadFile (Join [DataDir cfg; "pdf"; uuid_String (ID job) +:+ ".pdf"]));
  match pdfBytes with
  | Err e => mret (Err (EWrap "read pdf" e))
  | Ok pdfBytes =>
      '(r, c) ← Drive.Upload c parent "email.pdf" "application/pdf" pdfBytes;
      match r with
      | Err e => mret (Err (EWrap "upload pdf" e))
      | Ok _ =>
          r ← upload_attachments c (DataDir cfg) (ID job) parent names;
          match r with
          | Err e => mret (Err e)
          | Ok _ => mret (Ok EmptyString)
          end
      end
  end.

Definition with_default_time (job : Job) (m : RenderMeta) : RenderMeta :=
  if IsZero (rm_ReceivedAt m) then
    mk_RenderMeta (rm_Subject m) (rm_FromEmail m) (UTC (CreatedAt job)) (rm_AttachmentNames m)
  else m.

Definition Upload (cfg : UploadConfig) (key : list Byte.byte) (job : Job) : prog (result string) :=
  match UserID job with
  | None => mret (Err (EText "upload: job missing user_id"))
  | Some u =>
      metaB ← call (ReadFile (Join [DataDir cfg; "meta"; uuid_String (ID job) +:+ ".json"]));
      match metaB with
      | Err e => mret (Err (EWrap "read meta" e))
      | Ok metaB =>
          match UnmarshalMeta metaB with
          | Err e => mret (Err (EWrap "parse meta" e))
          | Ok m =>
              let m := with_default_time job m in
              client ← Drive.New u key;
              match client with
              | Err e => mret (Err (EWrap "drive client" e))
              | Ok c =>
                  let root := if decide (RootFolderID cfg = EmptyString) then "root" else RootFolderID cfg in
                  '(parent, c) ← ensure_chain u c (folders_of cfg m) EmptyString root;
                  match parent with
                  | Err e => mret (Err e)
                  | Ok parent => upload_files cfg job c parent (rm_AttachmentNames m)
                  end
              end
          end
      end
  end.
(** ** Folders on Drive *)

(** A path of folder names from [root] to the folder [id]. *)
Fixpoint chain (d : dstate) (root : string) (names : list string) (id : string) : Prop :=
  match names with
  | [] => id = root
  | n :: names => ∃ f, f ∈ folders_named n root d ∧ chain d (f_id f) names id
  end.

Definition grows (d d' : dstate) : Prop := ∀ f, f ∈ d_files d → f ∈ d_files d'.

(** Drive identifiers hold no quote; no two folders of a parent have the same
    name. *)
Definition ids_ok (d : dstate) : Prop := ∀ f, f ∈ d_files d → drive_id_ok (f_id f).
Definition tidy (d : dstate) : Prop := ∀ name parent, (length (folders_named name parent d) ≤ 1)%nat.

Lemma chain_grows d d' root names id : grows d d' → chain d root names id → chain d' root names id.
Proof.
  intros Hg. revert root. induction names as [|n names IH]; intros root; [done|]. cbn [chain].
  intros (f & Hf & Hc). exists f. split; [|by apply IH]. rewrite elem_of_folders in *. naive_solver.
Qed.

Lemma chain_snoc d root names n mid f :
  chain d root names mid → f ∈ folders_named n mid d → chain d root (names ++ [n]) (f_id f).
Proof.
  revert root. induction names as [|m names IH]; intros root; cbn [app chain].
  - intros -> Hf. by exists f.
  - intros (g & Hg & Hc) Hf. exists g. auto.
Qed.

Lemma chain_app d root ns1 ns2 id :
  chain d root (ns1 ++ ns2) id ↔ ∃ mid, chain d root ns1 mid ∧ chain d mid ns2 id.
Proof.
  revert root. induction ns1 as [|n ns1 IH]; intros root; cbn [app chain]; [naive_solver|].
  setoid_rewrite IH. naive_solver.
Qed.

Lemma chain_fun d root names id1 id2 : tidy d → chain d root names id1 → chain d root names id2 → id1 = id2.
Proof.
  intros Ht. revert root. induction names as [|n names IH]; intros root; cbn [chain]; [by intros -> ->|].
  intros (f & Hf & H1) (g & Hg & H2). assert (f = g) as ->; [|by eapply IH].
  specialize (Ht n root). destruct (folders_named n root d) as [|a [|b l] ]; simpl in Ht; [|set_solver|lia].
  by apply elem_of_nil in Hf.
Qed.

Lemma chain_id_ok d root names id : ids_ok d → drive_id_ok root → chain d root names id → drive_id_ok id.
Proof.
  intros Hok. revert root. induction names as [|n names IH]; intros root Hr; cbn [chain]; [by intros ->|].
  intros (f & Hf & Hc). eapply IH; [|exact Hc]. apply Hok. apply elem_of_folders in Hf as [? _]. done.
Qed.

(** What one search-or-create call keeps. *)
Lemma once_grows' found new r d d' : once found new r d d' → grows d d'.
Proof. intros H f. by eapply once_grows. Qed.

Lemma once_ids_ok found new r d d' :
  (∀ id, f_id (new id) = id) → once found new r d d' → ids_ok d → ids_ok d'.
Proof. intros Hn H Hok f Hf. destruct (once_new _ _ _ _ _ _ H Hf) as [?|(id & -> & ?)]; [auto|by rewrite Hn]. Qed.

Lemma tidy_folder name parent r d d' :
  once (folders_named name parent) (λ id, mk_dfile id name parent folderMime EmptyString) r d d' → tidy d → tidy d'.
Proof.
  intros [Hs _ _] Ht n p. destruct Hs as [->|(Hnil & id & _ & _ & Hp)]; [done|].
  specialize (Ht n p). unfold folders_named, named in *. rewrite Hp, filter_cons. cbn [f_name f_parent].
  case_decide as Hc; [|done]. destruct Hc as [-> ->]. rewrite filter_cons. cbn [f_mime].
  rewrite decide_True, Hnil by done. simpl. lia.
Qed.

Lemma tidy_file found name parent mime content r d d' :
  mime ≠ folderMime →
  once found (λ id, mk_dfile id name parent mime content) r d d' → tidy d → tidy d'.
Proof.
  intros Hm [Hs _ _] Ht n p. destruct Hs as [->|(Hnil & id & _ & _ & Hp)]; [done|].
  specialize (Ht n p). unfold folders_named, named in *. rewrite Hp, filter_cons. cbn [f_name f_parent].
  case_decide; [|done]. rewrite filter_cons. cbn [f_mime]. by rewrite decide_False.
Qed.

(** ** The cache *)

Lemma cache_key_string u path : string_key (cache_key u path).
Proof. right. apply prefix_spec. by eexists. Qed.

Lemma cache_key_inj u p1 p2 : cache_key u p1 = cache_key u p2 → p1 = p2.
Proof. unfold cache_key. intros H. by apply sapp_inj_l, sapp_inj_l, sapp_inj_l in H. Qed.

Lemma run_Get orc u path i s r i' s' :
  run orc (Drive.Get u path) i s = Some (r, i', s') →
  s_redis s' = s_redis s ∧ s_ext s' = s_ext s ∧
  ∀ id, r = Ok (Some id) → rstr (s_redis s) (s_now s') (cache_key u path) = Some id.
Proof.
  unfold Drive.Get. rewrite run_bind, run_call. cbn [exec cli_Get elapse set_now s_now s_redis]. cbv beta iota.
  set (t := s_now s + _). destruct (rstr (s_redis s) t _) as [v|] eqn:E;
    destruct (o_fault (orc i)); cbn [with_fault fst snd]; try case_match; intros [= <- _ <-]; cbn; naive_solver.
Qed.

Lemma run_Set orc u path id ttl i s r i' s' :
  run orc (Set_ u path id ttl) i s = Some (r, i', s') →
  s_ext s' = s_ext s ∧
  (s_redis s' = s_redis s ∨ s_redis s' = SetKey (s_now s') (cache_key u path) id ttl (s_redis s)).
Proof.
  unfold Set_. rewrite run_bind, run_call. cbn [exec cli_Set elapse set_now s_now s_redis]. cbv beta iota.
  destruct (o_fault (orc i)); cbn [with_fault fst snd]; intros [= _ _ <-]; cbn; auto.
Qed.

(** What the cache of an account says about folders below [root] is true. *)
Definition cache_ok (u : uuid) (root : string) (s : shared) : Prop :=
  ∀ t names id, s_now s ≤ t → names ≠ [] → Forall component names →
    rstr (s_redis s) t (cache_key u (join_comps names)) = Some id → chain (drives s u) root names id.

Lemma cache_ok_later u root s s' :
  cache_ok u root s → s_redis s' = s_redis s → s_now s ≤ s_now s' → grows (drives s u) (drives s' u) →
  cache_ok u root s'.
Proof.
  intros H Hr Hn Hg t names id Ht Hne Hc. rewrite Hr. intros Hid. eapply chain_grows; [exact Hg|].
  apply (H t); [lia|done..].
Qed.

Lemma cache_ok_set u root s s' names id ttl :
  cache_ok u root s → s_ext s' = s_ext s → s_now s ≤ s_now s' → 0 < ttl →
  names ≠ [] → Forall component names → chain (drives s u) root names id →
  s_redis s' = SetKey (s_now s') (cache_key u (join_comps names)) id ttl (s_redis s) → cache_ok u root s'.
Proof.
  intros H Hx Hn Httl Hne Hc Hch Hr t ns id' Ht Hns Hcs. rewrite Hr, rstr_SetKey by (done || apply cache_key_string).
  unfold drives. rewrite Hx. case_decide as Heq.
  - apply cache_key_inj, join_comps_inj in Heq as ->; [|done..]. case_decide; [|done]. by intros [= <-].
  - intros Hid. apply (H t); [lia|done..].
Qed.

(** ** One account's upload *)

Section account.
Variables (orc : nat → outcome) (u : uuid) (root : string).
(** the folders of the message and the files to store in the last one *)
Variables (all : list string) (pk : list (string * string)).

Definition folder_name (n : string) : Prop := component n ∧ contains_byte "\" n = false.
Hypothesis root_ok : drive_id_ok root.
Hypothesis all_ok : Forall folder_name all.

(** What the stage adds to a Drive: folders on the way, and the files. *)
Definition added (d : dstate) (f : dfile) : Prop :=
  (∃ ns n rest, all = ns ++ n :: rest ∧ chain d root ns (f_parent f) ∧ f_name f = n ∧
     f_mime f = folderMime ∧ f_content f = EmptyString) ∨
  (chain d root all (f_parent f) ∧ (f_name f, f_content f) ∈ pk).

Lemma added_grows d d' f : grows d d' → added d f → added d' f.
Proof.
  intros Hg [(ns & n & rest & ? & Hc & ?)|[Hc ?] ]; [left; exists ns, n, rest|right];
    split_and!; try tauto; by eapply chain_grows.
Qed.

Definition ready (s : shared) : Prop := ids_ok (drives s u) ∧ cache_ok u root s.

Record step (s s' : shared) : Prop := {
  st_disk : disk (s_ext s') = disk (s_ext s);
  st_else v : v ≠ u → drives s' v = drives s v;
  st_grows : grows (drives s u) (drives s' u);
  st_added f : f ∈ d_files (drives s' u) → f ∈ d_files (drives s u) ∨ added (drives s' u) f;
  st_tidy : tidy (drives s u) → tidy (drives s' u);
  st_ready : ready s'
}.

Lemma step_trans s1 s2 s3 : step s1 s2 → step s2 s3 → step s1 s3.
Proof.
  intros [D1 E1 G1 A1 T1 _] [D2 E2 G2 A2 T2 R2]. constructor; [congruence| |intros f Hf; auto| |auto|done].
  - intros v Hv. by rewrite E2, E1.
  - intros f Hf. destruct (A2 f Hf) as [Hf2|Hf2]; [|by right]. destruct (A1 f Hf2) as [?|Hf1]; [by left|].
    right. by eapply added_grows.
Qed.

Lemma step_same s s' :
  s_ext s' = s_ext s → ready s' → step s s'.
Proof. intros Hx Hr. unfold drives in *. constructor; unfold drives, grows; rewrite ?Hx; auto. Qed.

(** A search-or-create call on the account's Drive. *)
Lemma step_once (found : dstate → list dfile) new (r : result string) i s s' i' {A} (p : prog A) a :
  run orc p i s = Some (a, i', s') → calls_only not_redis p →
  (∀ id, f_id (new id) = id) → (∀ id, added (drives s u) (new id)) →
  (once found new r (drives s u) (drives s' u) → tidy (drives s u) → tidy (drives s' u)) →
  once found new r (drives s u) (drives s' u) → disk (s_ext s') = disk (s_ext s) →
  (∀ v, v ≠ u → drives s' v = drives s v) →
  ready s → step s s'.
Proof.
  intros Hrun Hq Hid Hadd Ht Ho Hdisk Helse [Hids Hcache]. pose proof (once_grows' _ _ _ _ _ Ho) as Hg.
  constructor; [done|done|done| |auto|split].
  - intros f Hf. destruct (once_new _ _ _ _ _ _ Ho Hf) as [?|(id & -> & _)]; [by left|]. right.
    by eapply added_grows.
  - by eapply once_ids_ok.
  - eapply cache_ok_later; [done|by eapply run_not_redis|by eapply run_now|done].
Qed.

Lemma find_or_create_not_redis c q name parent mime content e1 e2 :
  calls_only not_redis (find_or_create c q name parent mime content e1 e2).
Proof.
  assert (H : ∀ X (f : dstate → X * dstate) c, calls_only not_redis (DoDrive c f)).
  { intros X f c1. unfold DoDrive. apply calls_only_bind; [|by intros [ [?|?] ?] ].
    apply (calls_only_impl _ _ _ quiet_not_redis), source_quiet. }
  unfold find_or_create. apply calls_only_bind; [apply H|]. intros [ [ [|? ?]|?] ?]; try done.
  apply calls_only_bind; [apply H|]. by intros [ [?|?] ?].
Qed.

(** One folder, from the cache or from Drive. *)
Definition ensure_miss (c : Client) (path parent f : string) : prog (result string * Client) :=
  '(folderID, c) ← EnsureFolder c parent f;
  match folderID with
  | Err e => mret (Err (EWrap ("ensure folder " +:+ f) e), c)
  | Ok folderID => _ ← Set_ u path folderID cache_ttl; mret (Ok folderID, c)
  end.

Definition ensure_one (c : Client) (path parent f : string) : prog (result string * Client) :=
  cached ← Drive.Get u path;
  match cached with
  | Ok (Some id) => mret (Ok id, c)
  | _ => ensure_miss c path parent f
  end.

Lemma run_ensure_chain_cons c f folders path parent i s :
  run orc (ensure_chain u c (f :: folders) path parent) i s =
  let path := if bool_decide (path = EmptyString) then f else Join [path; f] in
  run orc ('(r, c) ← ensure_one c path parent f;
    match r with Err e => mret (Err e, c) | Ok id => ensure_chain u c folders path id end) i s.
Proof.
  cbn [ensure_chain]. cbv zeta. unfold ensure_one, ensure_miss. rewrite !run_bind.
  destruct (run orc (Drive.Get _ _) i s) as [ [ [ [ [id|]|e] i1] s1]|]; try done; cbv beta iota; rewrite !run_bind;
    (destruct (run orc (EnsureFolder _ _ _) i1 s1) as [ [ [ [ [id|e'] c1] i2] s2]|]; try done); cbv beta iota;
    rewrite !run_bind; by destruct (run orc (Set_ _ _ _ _) i2 s2) as [ [ [? ?] ?]|].
Qed.

Section one.
Variables (dn : list string) (f : string) (rest : list string).
Hypothesis Hall : all = dn ++ f :: rest.

Lemma split_ok : folder_name f ∧ Forall component (dn ++ [f]).
Proof.
  rewrite Hall, Forall_app, Forall_cons in all_ok. destruct all_ok as (H1 & Hf & _). split; [done|].
  apply Forall_app. split; [eapply Forall_impl; [exact H1|]; by intros ? [? _]|]. apply Forall_singleton, Hf.
Qed.

Lemma run_ensure_miss c parent i s r c' i' s' :
  chain (drives s u) root dn parent → ready s → userID c = u →
  run orc (ensure_miss c (join_comps (dn ++ [f])) parent f) i s = Some ((r, c'), i', s') →
  step s s' ∧ userID c' = u ∧ (∀ id, r = Ok id → chain (drives s' u) root (dn ++ [f]) id) ∧
  (folders_named f parent (drives s u) ≠ [] → drives s' u = drives s u).
Proof.
  destruct split_ok as [ [_ Hbs] Hnames]. intros Hch Hready Hu. unfold ensure_miss. rewrite run_bind.
  destruct (run orc (EnsureFolder c parent f) i s) as [ [ [ [fr c1] i1] s1]|] eqn:HE; [|done].
  pose proof HE as Ho. apply run_EnsureFolder in Ho as (Ho & [Hdisk Helse] & Hu1);
    [|by eapply chain_id_ok; [apply Hready| |]|done]. rewrite Hu in *. unfold drive_of in Ho. rewrite ?Hu in Ho.
  assert (Hstep : step s s1).
  { eapply step_once; [exact HE|apply find_or_create_not_redis| | | |exact Ho|done|done|done]; [done| |].
    - intros id. left. by exists dn, f, rest.
    - apply tidy_folder. }
  cbv beta iota. destruct fr as [id|e]; [|intros [= <- <- _ <-]; split_and!; [done|done|done|by apply (once_keeps _ _ _ _ _ Ho)] ].
  assert (Hch1 : chain (drives s1 u) root (dn ++ [f]) id).
  { destruct (once_id _ _ _ _ _ Ho id eq_refl) as (g & Hg & <-). eapply chain_snoc; [|exact Hg].
    eapply chain_grows; [apply Hstep|done]. }
  rewrite run_bind. destruct (run orc (Set_ _ _ _ _) i1 s1) as [ [ [sr i2] s2]|] eqn:HS; [|done].
  pose proof (run_now _ _ _ _ _ _ _ HS) as Ht. apply run_Set in HS as [Hx Hr]. cbv beta iota. intros [= <- <- _ <-].
  assert (Hd2 : drives s2 = drives s1) by (unfold drives; by rewrite Hx).
  assert (Hready2 : ready s2).
  { destruct (st_ready _ _ Hstep) as [Hids Hc]. split; [by rewrite Hd2|]. destruct Hr as [Hr|Hr].
    - eapply cache_ok_later; [done..|]. rewrite Hd2. by intros ?.
    - eapply (cache_ok_set u root s1 s2 (dn ++ [f])); [done|done|done| | | |exact Hch1|exact Hr]; [reflexivity|by destruct dn|done]. }
  split_and!; [|done| |].
  - eapply step_trans; [exact Hstep|]. by apply step_same.
  - intros id' [= <-]. by rewrite Hd2.
  - intros Hf. rewrite Hd2. by apply (once_keeps _ _ _ _ _ Ho).
Qed.

Lemma run_ensure_one c parent i s r c' i' s' :
  chain (drives s u) root dn parent → ready s → userID c = u →
  run orc (ensure_one c (join_comps (dn ++ [f])) parent f) i s = Some ((r, c'), i', s') →
  step s s' ∧ userID c' = u ∧ (∀ id, r = Ok id → chain (drives s' u) root (dn ++ [f]) id) ∧
  (folders_named f parent (drives s u) ≠ [] → drives s' u = drives s u).
Proof.
  intros Hch [Hids Hcache] Hu. destruct split_ok as [_ Hnames].
  unfold ensure_one. rewrite run_bind. destruct (run orc (Drive.Get _ _) i s) as [ [ [cr i1] s1]|] eqn:HG; [|done].
  pose proof (run_now _ _ _ _ _ _ _ HG) as Ht1. apply run_Get in HG as (Hr1 & Hx1 & Hget). cbv beta iota.
  assert (Hd1 : drives s1 = drives s) by (unfold drives; by rewrite Hx1).
  assert (Hready1 : ready s1).
  { split; [by rewrite Hd1|]. eapply cache_ok_later; [done..|]. rewrite Hd1. by intros ?. }
  assert (Hstep1 : step s s1) by (by apply step_same). rewrite <- Hd1 in Hch |- *.
  assert (Hmiss : run orc (ensure_miss c (join_comps (dn ++ [f])) parent f) i1 s1 = Some ((r, c'), i', s') →
    step s s' ∧ userID c' = u ∧ (∀ id, r = Ok id → chain (drives s' u) root (dn ++ [f]) id) ∧
    (folders_named f parent (drives s1 u) ≠ [] → drives s' u = drives s1 u)).
  { intros Hrun. apply run_ensure_miss in Hrun as (H1 & H2); [|done..]. split; [by eapply step_trans|done]. }
  destruct cr as [ [id|]|e]; [|exact Hmiss|exact Hmiss]. intros [= <- <- _ <-].
  split_and!; [done|done| |done]. intros id' [= <-]. rewrite Hd1. eapply Hcache; [exact Ht1|by destruct dn|done|].
  by apply Hget.
Qed.
End one.

Lemma path_so_far dn f : Forall component (dn ++ [f]) →
  (if bool_decide (join_comps dn = EmptyString) then f else Join [join_comps dn; f]) = join_comps (dn ++ [f]).
Proof.
  intros H. pose proof H as [Hdn _]%Forall_app. destruct dn as [|n dn]; [by rewrite bool_decide_eq_true_2|].
  rewrite bool_decide_eq_false_2 by (by apply join_comps_nonempty). by apply Join_join.
Qed.

(** The loop over the folders. *)
Lemma run_ensure_chain folders dn c parent i s r c' i' s' :
  all = dn ++ folders → chain (drives s u) root dn parent → ready s → userID c = u →
  run orc (ensure_chain u c folders (join_comps dn) parent) i s = Some ((r, c'), i', s') →
  step s s' ∧ userID c' = u ∧ (∀ id, r = Ok id → chain (drives s' u) root all id) ∧
  (tidy (drives s u) → ∀ id, chain (drives s u) root all id → drives s' u = drives s u).
Proof.
  revert dn c parent i s. induction folders as [|f folders IH]; intros dn c parent i s Hall Hch Hready Hu.
  - intros [= <- <- _ <-]. rewrite app_nil_r in Hall. rewrite Hall. split; [by apply step_same|].
    split; [done|]. split; [|done]. by intros id [= <-].
  - rewrite run_ensure_chain_cons. cbv zeta. destruct (split_ok _ _ _ Hall) as [_ Hnames].
    rewrite path_so_far, run_bind by done. destruct (run orc (ensure_one _ _ _ _) i s) as [ [ [ [r1 c1] i1] s1]|] eqn:HE; [|done].
    apply (run_ensure_one dn f folders Hall) in HE as (Hstep & Hu1 & Hid & Hkeep); [|done..]. cbv beta iota.
    assert (Hsame : tidy (drives s u) → ∀ id, chain (drives s u) root all id → drives s1 u = drives s u).
    { intros Ht id Hc. apply Hkeep. rewrite Hall, chain_app in Hc. destruct Hc as (mid & Hm & Hc).
      rewrite (chain_fun _ _ _ _ _ Ht Hm Hch) in Hc. destruct Hc as (g & Hg & _). intros Hnil. rewrite Hnil in Hg.
      by apply elem_of_nil in Hg. }
    destruct r1 as [id1|e]; [|by intros [= <- <- _ <-] ].
    intros Hrun. apply (IH (dn ++ [f])) in Hrun as (Hstep2 & Hu2 & Hid2 & Hkeep2).
    + split; [by eapply step_trans|]. split; [done|]. split; [done|]. intros Ht id Hc.
      pose proof (Hsame Ht id Hc) as Hs. rewrite <- Hs. apply (Hkeep2 ltac:(by rewrite Hs) id). by rewrite Hs.
    + by rewrite <- app_assoc.
    + by apply Hid.
    + apply Hstep.
    + done.
Qed.

(** One file into the last folder. *)
Lemma run_put c parent name contentType content i s r c' i' s' :
  contains_byte "\" name = false → contentType ≠ folderMime → (name, content) ∈ pk →
  chain (drives s u) root all parent → ready s → userID c = u →
  run orc (Drive.Upload c parent name contentType content) i s = Some ((r, c'), i', s') →
  step s s' ∧ userID c' = u ∧ (∀ id, r = Ok id → named name parent (drives s' u) ≠ []) ∧
  (named name parent (drives s u) ≠ [] → drives s' u = drives s u).
Proof.
  intros Hbs Hmime Hpk Hch Hready Hu Hrun. pose proof Hrun as Ho.
  apply run_Upload in Ho as (Ho & [Hdisk Helse] & Hu1); [|by eapply chain_id_ok; [apply Hready| |]|done].
  unfold drive_of in Ho. rewrite Hu in *.
  split; [|split; [done|split; [|apply (once_keeps _ _ _ _ _ Ho)] ] ].
  - eapply step_once; [exact Hrun|apply find_or_create_not_redis| | | |exact Ho|done|done|done]; [done| |].
    + intros id. by right.
    + by apply tidy_file.
  - intros id Hr Hnil. destruct (once_id _ _ _ _ _ Ho id Hr) as (g & Hg & _).
    change (g ∈ named name parent (drives s' u)) in Hg. rewrite Hnil in Hg. by apply elem_of_nil in Hg.
Qed.

Lemma named_grows d d' name parent : grows d d' → named name parent d ≠ [] → named name parent d' ≠ [].
Proof.
  intros Hg Hn Hnil. destruct (named name parent d) as [|g l] eqn:E; [done|].
  assert (Hin : g ∈ named name parent d) by (rewrite E; apply list_elem_of_here).
  assert (g ∈ named name parent d') as H; [|rewrite Hnil in H; by apply elem_of_nil in H].
  rewrite elem_of_named in *. naive_solver.
Qed.

Lemma step_files s s' : step s s' → files s' = files s.
Proof. intros [H _ _ _ _ _]. by injection H. Qed.

Lemma run_ReadFile path i s r i' s' :
  ready s → run orc (call (ReadFile path)) i s = Some (r, i', s') →
  step s s' ∧ drives s' = drives s ∧ ∀ data, r = Ok data → files s !! path = Some data.
Proof.
  intros [Hids Hcache] Hrun. pose proof (run_now _ _ _ _ _ _ _ Hrun) as Ht. revert Hrun. rewrite run_call.
  cbn [exec ReadFile]. intros Hrun.
  assert (H : s_ext s' = s_ext s ∧ s_redis s' = s_redis s ∧ ∀ data, r = Ok data → files s !! path = Some data).
  { revert Hrun. cbn [elapse set_now s_ext]. fold (files s). unfold files.
    destruct (o_files (s_ext s) !! path) as [d|] eqn:E; destruct (o_fault (orc i));
      cbn [with_fault fst snd]; intros [= <- _ <-]; cbn; naive_solver. }
  destruct H as (Hx & Hr & Hd). assert (Hdr : drives s' = drives s) by (unfold drives; by rewrite Hx).
  split; [|done]. apply step_same; [done|]. split; [by rewrite Hdr|].
  eapply cache_ok_later; [done..|]. rewrite Hdr. by intros ?.
Qed.

Lemma run_upload_attachments dataDir id names c parent i s r i' s' :
  Forall (λ n, contains_byte "\" n = false) names →
  (∀ n data, n ∈ names → files s !! Join [dataDir; "attachments"; uuid_String id; n] = Some data → (n, data) ∈ pk) →
  chain (drives s u) root all parent → ready s → userID c = u →
  run orc (upload_attachments c dataDir id parent names) i s = Some (r, i', s') →
  step s s' ∧ (is_ok r = true → Forall (λ n, named n parent (drives s' u) ≠ []) names) ∧
  (Forall (λ n, named n parent (drives s u) ≠ []) names → drives s' u = drives s u).
Proof.
  intros Hbs Hpk Hch Hready Hu Hrun. revert c i s Hpk Hch Hready Hu Hrun.
  induction Hbs as [|n names Hn Hbs IH]; intros c i s Hpk Hch Hready Hu; cbn [upload_attachments].
  { intros [= <- _ <-]. split; [by apply step_same|done]. }
  rewrite run_bind. destruct (run orc (call (ReadFile _)) i s) as [ [ [rd i1] s1]|] eqn:HR; [|done].
  apply run_ReadFile in HR as (Hstep1 & Hd1 & Hdata); [|done]. cbv beta iota.
  destruct rd as [data|e]; [|by intros [= <- _ <-]; rewrite Hd1]. rewrite run_bind.
  destruct (run orc (Drive.Upload _ _ _ _ _) i1 s1) as [ [ [ [ru c2] i2] s2]|] eqn:HU; [|done].
  apply run_put in HU as (Hstep2 & Hu2 & Hput & Hkeep);
    [|done|done|apply Hpk; [apply list_elem_of_here|by apply Hdata]|by rewrite Hd1|apply Hstep1|done].
  cbv beta iota. rewrite Hd1 in Hkeep. pose proof (step_trans _ _ _ Hstep1 Hstep2) as Hstep.
  destruct ru as [id'|e]; [|intros [= <- _ <-]; split; [done|split; [done|] ]; by intros [? _]%Forall_cons; apply Hkeep].
  intros Hrun. apply IH in Hrun as (Hstep3 & Hok & Hsame).
  - split; [by eapply step_trans|]. split.
    + intros Hr. constructor; [|auto]. eapply named_grows; [apply Hstep3|by eapply Hput].
    + intros [Hf Hrest]%Forall_cons. rewrite <- (Hkeep Hf). apply Hsame. by rewrite (Hkeep Hf).
  - intros n' d Hin. rewrite (step_files _ _ Hstep). apply Hpk. by right.
  - eapply chain_grows; [apply Hstep|done].
  - apply Hstep.
  - done.
Qed.

Lemma run_upload_files cfg job names c parent i s r i' s' :
  Forall (λ n, contains_byte "\" n = false) names →
  (∀ data, files s !! Join [DataDir cfg; "pdf"; uuid_String (ID job) +:+ ".pdf"] = Some data → ("email.pdf", data) ∈ pk) →
  (∀ n data, n ∈ names →
     files s !! Join [DataDir cfg; "attachments"; uuid_String (ID job); n] = Some data → (n, data) ∈ pk) →
  chain (drives s u) root all parent → ready s → userID c = u →
  run orc (upload_files cfg job c parent names) i s = Some (r, i', s') →
  step s s' ∧ (∀ st, r = Ok st → st = EmptyString ∧ Forall (λ n, named n parent (drives s' u) ≠ []) ("email.pdf" :: names)) ∧
  (Forall (λ n, named n parent (drives s u) ≠ []) ("email.pdf" :: names) → drives s' u = drives s u).
Proof.
  intros Hbs Hpdf Hpk Hch Hready Hu. unfold upload_files. rewrite run_bind.
  destruct (run orc (call (ReadFile _)) i s) as [ [ [rd i1] s1]|] eqn:HR; [|done].
  apply run_ReadFile in HR as (Hstep1 & Hd1 & Hdata); [|done]. cbv beta iota.
  destruct rd as [data|e]; [|by intros [= <- _ <-]; rewrite Hd1]. rewrite run_bind.
  destruct (run orc (Drive.Upload _ _ _ _ _) i1 s1) as [ [ [ [ru c2] i2] s2]|] eqn:HU; [|done].
  apply run_put in HU as (Hstep2 & Hu2 & Hput & Hkeep);
    [|done|done|by apply Hpdf, Hdata|by rewrite Hd1|apply Hstep1|done].
  cbv beta iota. rewrite Hd1 in Hkeep. pose proof (step_trans _ _ _ Hstep1 Hstep2) as Hstep.
  destruct ru as [id'|e]; [|intros [= <- _ <-]; split; [done|split; [done|] ]; by intros [? _]%Forall_cons; apply Hkeep].
  rewrite run_bind. destruct (run orc (upload_attachments _ _ _ _ _) i2 s2) as [ [ [ra i3] s3]|] eqn:HA; [|done].
  apply run_upload_attachments in HA as (Hstep3 & Hok & Hsame); [|done| | |apply Hstep|done].
  - cbv beta iota. intros Hrun. assert (s' = s3) as -> by (destruct ra; by injection Hrun).
    split; [by eapply step_trans|]. split.
    + intros st ->. destruct ra; [|done]. injection Hrun as <- _. split; [done|]. constructor; [|by apply Hok].
      eapply named_grows; [apply Hstep3|by eapply Hput].
    + intros [Hf Hrest]%Forall_cons. rewrite <- (Hkeep Hf). apply Hsame. by rewrite (Hkeep Hf).
  - intros n' d Hin. rewrite (step_files _ _ Hstep). by apply Hpk.
  - eapply chain_grows; [apply Hstep|done].
Qed.
End account.

(** ** The stage *)

Definition root_of (cfg : UploadConfig) : string :=
  if decide (RootFolderID cfg = EmptyString) then "root" else RootFolderID cfg.

(** The metadata the stage reads, and the files it stores for them. *)
Definition meta_for (cfg : UploadConfig) (job : Job) (F : gmap string string) (m : RenderMeta) : Prop :=
  ∃ metaB m0, F !! Join [DataDir cfg; "meta"; uuid_String (ID job) +:+ ".json"] = Some metaB ∧
    UnmarshalMeta metaB = Ok m0 ∧ m = with_default_time job m0.

Definition package (cfg : UploadConfig) (job : Job) (m : RenderMeta) (F : gmap string string) : list (string * string) :=
  let file n p := match F !! p with Some data => [(n, data)] | None => [] end in
  file "email.pdf" (Join [DataDir cfg; "pdf"; uuid_String (ID job) +:+ ".pdf"]) ++
  flat_map (λ n, file n (Join [DataDir cfg; "attachments"; uuid_String (ID job); n])) (rm_AttachmentNames m).

(** The message's folder holds a file of every name of the message.  What is in
    these files is stated apart: by [step] below for what this run adds, and by
    [delivered] in Placement.v for the system. *)
Definition complete (cfg : UploadConfig) (m : RenderMeta) (d : dstate) : Prop :=
  ∃ folder, chain d (root_of cfg) (folders_of cfg m) folder ∧
    Forall (λ n, named n folder d ≠ []) ("email.pdf" :: rm_AttachmentNames m).

Definition plain_meta (cfg : UploadConfig) (m : RenderMeta) : Prop :=
  Forall folder_name (folders_of cfg m) ∧ Forall (λ n, contains_byte "\" n = false) (rm_AttachmentNames m).

Lemma run_New orc c key u i s i' s' : run orc (Drive.New u key) i s = Some (Ok c, i', s') → userID c = u.
Proof.
  unfold Drive.New, connect. rewrite run_bind. destruct (run orc (LoadToken _ _ _) i s) as [ [ [ [tok|e] i1] s1]|]; [|done..].
  cbv beta iota. rewrite run_bind. destruct (run orc (call _) i1 s1) as [ [ [ [?|e] i2] s2]|]; [|done..].
  by intros [= <- _ _].
Qed.

Lemma step_quiet {A} orc u root all pk (p : prog A) i s a i' s' :
  calls_only quiet p → ready u root s → run orc p i s = Some (a, i', s') →
  step u root all pk s s' ∧ drives s' = drives s.
Proof.
  intros Hq [Hids Hcache] Hrun. pose proof (run_now _ _ _ _ _ _ _ Hrun). apply run_quiet in Hrun as [Hx Hr]; [|done].
  assert (Hd : drives s' = drives s) by (unfold drives; by rewrite Hx). split; [|done]. apply step_same; [done|].
  split; [by rewrite Hd|]. eapply cache_ok_later; [done..|]. rewrite Hd. by intros ?.
Qed.

Lemma run_Upload_stage orc cfg key job u m i s r i' s' :
  UserID job = Some u → meta_for cfg job (files s) m → plain_meta cfg m →
  drive_id_ok (root_of cfg) → ready u (root_of cfg) s →
  run orc (Upload cfg key job) i s = Some (r, i', s') →
  step u (root_of cfg) (folders_of cfg m) (package cfg job m (files s)) s s' ∧
  (∀ st, r = Ok st → st = EmptyString ∧ complete cfg m (drives s' u)) ∧
  (tidy (drives s u) → complete cfg m (drives s u) → drives s' u = drives s u).
Proof.
  intros Hu (metaB & m0 & Hfile & Hjson & Hm) [Hfolders Hnames] Hroot Hready.
  unfold Upload. rewrite Hu, run_bind.
  destruct (run orc (call (ReadFile _)) i s) as [ [ [rd i1] s1]|] eqn:HR; [|done].
  set (all := folders_of cfg m) in *. set (pk := package cfg job m (files s)).
  eapply (run_ReadFile orc u (root_of cfg) all pk) in HR as (Hstep1 & Hd1 & Hdata); [|done]. cbv beta iota.
  destruct rd as [data|e]; [|by intros [= <- _ <-]; rewrite Hd1].
  assert (Hdm : data = metaB) by (specialize (Hdata _ eq_refl); congruence). rewrite Hdm, Hjson. cbv zeta. rewrite <- Hm.
  rewrite run_bind. destruct (run orc (Drive.New u key) i1 s1) as [ [ [rc i2] s2]|] eqn:HN; [|done].
  assert (Huc : ∀ c, rc = Ok c → userID c = u) by (intros c ->; by eapply run_New).
  apply (step_quiet _ u (root_of cfg) all pk) in HN as [Hstep2 Hd2]; [|apply connect_quiet|apply Hstep1].
  pose proof (step_trans _ _ _ _ _ _ _ Hstep1 Hstep2) as Hstep12. rewrite Hd1 in Hd2. cbv beta iota.
  destruct rc as [c|e]; [|by intros [= <- _ <-]; rewrite Hd2]. fold (root_of cfg). fold all.
  rewrite run_bind. destruct (run orc (ensure_chain _ _ _ _ _) i2 s2) as [ [ [ [rp c3] i3] s3]|] eqn:HC; [|done].
  apply (run_ensure_chain orc u (root_of cfg) all pk Hroot Hfolders all []) in HC as (Hstep3 & Hu3 & Hch & Hkeep);
    [|done|done|apply Hstep12|by apply Huc].
  pose proof (step_trans _ _ _ _ _ _ _ Hstep12 Hstep3) as Hstep. rewrite Hd2 in Hkeep. cbv beta iota.
  assert (Hsame3 : tidy (drives s u) → complete cfg m (drives s u) → drives s3 u = drives s u).
  { intros Ht (fo & Hc & _). by eapply Hkeep. }
  destruct rp as [parent|e]; [|by intros [= <- _ <-] ]. specialize (Hch _ eq_refl).
  intros Hrun. apply (run_upload_files orc u (root_of cfg) all pk Hroot) in Hrun as (Hstep4 & Hok & Hsame4);
    [|done| | |done|apply Hstep|done].
  - split; [by eapply step_trans|]. split.
    + intros st Hr. destruct (Hok st Hr) as [-> Hall]. split; [done|]. exists parent. split; [|done].
      eapply chain_grows; [apply Hstep4|done].
    + intros Ht Hcomp. pose proof (Hsame3 Ht Hcomp) as Hs. rewrite <- Hs. apply Hsame4. rewrite Hs.
      destruct Hcomp as (fo & Hc & Hall). rewrite Hs in Hch. by rewrite (chain_fun _ _ _ _ _ Ht Hch Hc).
  - intros d. rewrite (step_files _ _ _ _ _ _ Hstep). unfold pk, package. intros ->. apply elem_of_app. left.
    apply list_elem_of_here.
  - intros n d Hin. rewrite (step_files _ _ _ _ _ _ Hstep). unfold pk, package. intros Hd. apply elem_of_app. right.
    apply list_elem_of_In, in_flat_map. exists n. split; [by apply list_elem_of_In|]. rewrite Hd. by left.
Qed.

Lemma Upload_total cfg key job : total (Upload cfg key job).
Proof.
  assert (HD : ∀ c p n ct d, total (Drive.Upload c p n ct d)) by (intros; apply find_or_create_total).
  assert (HF : ∀ c p n, total (EnsureFolder c p n)) by (intros; apply find_or_create_total).
  assert (HC : ∀ fs u c p parent, total (ensure_chain u c fs p parent)).
  { intros fs. induction fs as [|f fs IH]; intros u c p parent; cbn [ensure_chain]; [done|].
    apply total_bind; [unfold Drive.Get; walk_prog|]. intros [ [id|]|e]; [apply IH|..];
      (apply total_bind; [apply HF|]); intros [ [id|e'] c']; try done; (apply total_bind; [unfold Set_; walk_prog|]);
      intros ?; apply IH. }
  assert (HA : ∀ names c p, total (upload_attachments c (DataDir cfg) (ID job) p names)).
  { intros names. induction names as [|n names IH]; intros c p; cbn [upload_attachments]; [done|].
    apply total_bind; [done|]. intros [d|e]; [|done]. apply total_bind; [apply HD|]. intros [ [?|?] ?]; [apply IH|done]. }
  unfold Upload. destruct (UserID job) as [u|]; [|done]. apply total_bind; [done|]. intros [b|e]; [|done].
  destruct (UnmarshalMeta b) as [m|e]; [|done]. cbv zeta. apply total_bind; [apply connect_total|]. intros [c|e]; [|done].
  apply total_bind; [apply HC|]. intros [ [p|e] c']; [|done]. unfold upload_files. apply total_bind; [done|].
  intros [d|e]; [|done]. apply total_bind; [apply HD|]. intros [ [?|?] ?]; [|done]. apply total_bind; [apply HA|]. by intros [?|?].
Qed.

(** The stage does not write files. *)
Definition reads_files (X : Type) (c : cmd X) : Prop :=
  match c with Ext f => ∀ t x, o_files (f t x).2 = o_files x | _ => True end.

Lemma run_reads_files {A} orc (p : prog A) i s a i' s' :
  calls_only reads_files p → run orc p i s = Some (a, i', s') → files s' = files s.
Proof.
  intros Hp. apply (run_calls_only reads_files (λ s1, files s1 = files s)); [|done|done].
  intros X c o s1 Hc <-. unfold files. destruct c as [Y f|Y f| | | | |j|Y f|Y rq]; simpl; try done;
    destruct (o_fault o); simpl; try done; try (by destruct (f _ _));
    specialize (Hc (s_now s1 + Z.of_N (o_dt o)) (s_ext s1)); by destruct (f _ _).
Qed.

Lemma find_or_create_reads c q name parent mime content e1 e2 :
  calls_only reads_files (find_or_create c q name parent mime content e1 e2).
Proof.
  assert (H : ∀ X (f : dstate → X * dstate) c, calls_only reads_files (DoDrive c f)).
  { intros X f c1. unfold DoDrive. apply calls_only_bind.
    - apply (calls_only_impl quiet); [by intros Y []|]. apply source_quiet.
    - intros [ [?|?] ?]; [|done]. apply calls_only_bind; [|by intros]. split; [|done].
      intros t x. cbn. by destruct (f _). }
  unfold find_or_create. apply calls_only_bind; [apply H|]. intros [ [ [|? ?]|?] ?]; try done.
  apply calls_only_bind; [apply H|]. by intros [ [?|?] ?].
Qed.

Lemma ReadFile_reads p : calls_only reads_files (call (ReadFile p)).
Proof. split; [|done]. intros t x. by destruct (o_files x !! p). Qed.

Lemma ensure_chain_reads fs u c p parent : calls_only reads_files (ensure_chain u c fs p parent).
Proof.
  revert c p parent. induction fs as [|f fs IH]; intros c p parent; cbn [ensure_chain]; [done|].
  apply calls_only_bind; [unfold Drive.Get; walk_prog|]. intros [ [id|]|e]; [apply IH|..];
    (apply calls_only_bind; [apply find_or_create_reads|]); intros [ [id|e'] c']; try done;
    (apply calls_only_bind; [unfold Set_; walk_prog|]); intros ?; apply IH.
Qed.

(** Every attachment that is uploaded was read. *)
Lemma run_upload_attachments_read orc dataDir id names c parent i s u0 i' s' n :
  run orc (upload_attachments c dataDir id parent names) i s = Some (Ok u0, i', s') → n ∈ names →
  is_Some (files s !! Join [dataDir; "attachments"; uuid_String id; n]).
Proof.
  revert c i s. induction names as [|x names IH]; intros c i s; [by intros _ ?%elem_of_nil|].
  cbn [upload_attachments]. rewrite run_bind.
  destruct (run orc (call (ReadFile _)) i s) as [ [ [rd i1] s1]|] eqn:HR; [|done].
  assert (Hx : ∀ d, rd = Ok d → files s !! Join [dataDir; "attachments"; uuid_String id; x] = Some d).
  { intros d ->. eapply (writes_ReadFile orc 0 i1 (λ _, False)) in HR as (_ & _ & HG); [|lia|lia]. by apply HG. }
  apply run_reads_files in HR; [|apply ReadFile_reads]. cbv beta iota. destruct rd as [d|e]; [|done].
  rewrite run_bind. destruct (run orc (Drive.Upload _ _ _ _ _) i1 s1) as [ [ [ [ru c2] i2] s2]|] eqn:HU; [|done].
  apply run_reads_files in HU; [|apply find_or_create_reads]. cbv beta iota. destruct ru as [?|e]; [|done].
  intros Hrun [->|Hn]%elem_of_cons; [by rewrite (Hx d eq_refl)|]. rewrite <- HR, <- HU. by eapply IH.
Qed.

Lemma run_Upload_read orc cfg key job m i s st i' s' n :
  meta_for cfg job (files s) m → n ∈ rm_AttachmentNames m →
  run orc (Upload cfg key job) i s = Some (Ok st, i', s') →
  is_Some (files s !! Join [DataDir cfg; "attachments"; uuid_String (ID job); n]).
Proof.
  intros (metaB & m0 & Hfile & Hjson & Hm) Hn. unfold Upload. destruct (UserID job) as [u|]; [|done]. rewrite run_bind.
  destruct (run orc (call (ReadFile _)) i s) as [ [ [rd i1] s1]|] eqn:HR; [|done]. cbv beta iota.
  destruct rd as [data|e]; [|done]. assert (data = metaB) as ->.
  { pose proof HR as H. eapply (writes_ReadFile orc 0 i1 (λ _, False)) in H as (_ & _ & HG); [|lia|lia].
    destruct (HG _ eq_refl) as [_ H]. congruence. }
  apply run_reads_files in HR; [|apply ReadFile_reads]. rewrite Hjson. cbv zeta. rewrite <- Hm, run_bind.
  destruct (run orc (Drive.New u key) i1 s1) as [ [ [ [c|e] i2] s2]|] eqn:HN; [|done..].
  apply run_reads_files in HN; [|apply (calls_only_impl quiet); [by intros Y []|apply connect_quiet] ].
  cbv beta iota. rewrite run_bind.
  destruct (run orc (ensure_chain _ _ _ _ _) i2 s2) as [ [ [ [ [p|e] c3] i3] s3]|] eqn:HC; [|done..].
  apply run_reads_files in HC; [|apply ensure_chain_reads]. cbv beta iota. unfold upload_files. rewrite run_bind.
  destruct (run orc (call (ReadFile _)) i3 s3) as [ [ [ [d|e] i4] s4]|] eqn:HP; [|done..].
  apply run_reads_files in HP; [|apply ReadFile_reads]. cbv beta iota. rewrite run_bind.
  destruct (run orc (Drive.Upload _ _ _ _ _) i4 s4) as [ [ [ [ [?|e] c5] i5] s5]|] eqn:HU; [|done..].
  apply run_reads_files in HU; [|apply find_or_create_reads]. cbv beta iota. rewrite run_bind.
  destruct (run orc (upload_attachments _ _ _ _ _) i5 s5) as [ [ [ [u0|e] i6] s6]|] eqn:HA; [|done..].
  intros _. eapply run_upload_attachments_read in HA; [|exact Hn]. congruence.
Qed.

(** ** Properties *)

(** C13. The upload stage: it returns, and whatever fails, the disk and the
    other accounts' Drives stay as they are, nothing on the account's Drive is
    removed or replaced, what is added are the folders on the way to the
    message's folder and, in it, the PDF and the attachments with their
    contents on disk, and the folder cache stays right; when it succeeds, the
    job is done and the message's folder holds a file of every name of the
    message (a file of that name that was there already is kept as it is). *)
Theorem Upload_stores orc cfg key job u m i s :
  UserID job = Some u → meta_for cfg job (files s) m → plain_meta cfg m →
  drive_id_ok (root_of cfg) → ready u (root_of cfg) s →
  ∃ r i' s', run orc (Upload cfg key job) i s = Some (r, i', s') ∧
    step u (root_of cfg) (folders_of cfg m) (package cfg job m (files s)) s s' ∧
    ∀ st, r = Ok st → st = EmptyString ∧ complete cfg m (drives s' u).
Proof.
  intros Hu Hm Hp Hroot Hr. destruct (run_total orc _ i s (Upload_total cfg key job)) as (r & i' & s' & Hrun).
  exists r, i', s'. split; [done|].
  by destruct (run_Upload_stage orc cfg key job u m i s r i' s' Hu Hm Hp Hroot Hr Hrun) as (? & ? & _).
Qed.

(** If the metadata name an attachment that is not on the disk, the stage
    fails, whatever is on Drive and however often it is tried. *)
Theorem Upload_missing orc cfg key job m n i s :
  meta_for cfg job (files s) m → n ∈ rm_AttachmentNames m →
  files s !! Join [DataDir cfg; "attachments"; uuid_String (ID job); n] = None →
  ∃ e i' s', run orc (Upload cfg key job) i s = Some (Err e, i', s').
Proof.
  intros Hm Hn Hnone. destruct (run_total orc _ i s (Upload_total cfg key job)) as ([st|e] & i' & s' & Hrun).
  - destruct (run_Upload_read orc cfg key job m i s st i' s' n Hm Hn Hrun) as [d Hd]. congruence.
  - by exists e, i', s'.
Qed.

End upload.


(** ** Witnesses *)
Import SchemaModel RedisModel DriveModel AeadModel EffectsModel.

Definition upload_job : Job :=
  @mk_Job uuid_model "7" (Some "u") (Some "m1") "upload" StatusRunning EmptyString false (Some "w") 1 5 None 0 None None 0 0.

Definition test_config : UploadConfig := mk_UploadConfig "/data" EmptyString "Backup".

Definition test_meta_text : string := match MarshalMeta test_meta with Ok s => s | Err _ => EmptyString end.

Definition test_files : gmap string string :=
  list_to_map [("/data/meta/u7.json", test_meta_text); ("/data/pdf/u7.pdf", "PDF");
    ("/data/attachments/u7/a.pdf", "A"); ("/data/attachments/u7/b.txt", "B")].

Definition disk_ready (d : drive) : shared :=
  mk_shared (s_db signed_up) RedisModel.empty (mk_outside test_files ∅ (λ _, d)) 0.

Definition read_meta : RenderMeta := match UnmarshalMeta test_meta_text with Ok m => m | Err _ => test_meta end.

Lemma test_meta_for d : meta_for test_config upload_job (files (disk_ready d)) (with_default_time upload_job read_meta).
Proof. exists test_meta_text, read_meta. split; [|split]; vm_compute; reflexivity. Qed.

Lemma test_plain : plain_meta test_config (with_default_time upload_job read_meta).
Proof. split; apply (bool_decide_unpack _); vm_compute; reflexivity. Qed.

Lemma disk_ready_ready d :
  (∀ f, f ∈ d → drive_id_ok (f_id f)) → ready "u" (root_of test_config) (disk_ready d).
Proof. intros Hd. split; [exact Hd|]. intros t names id _ _ _. vm_compute. done. Qed.

Lemma Upload_stores_witness :
  let s := disk_ready [] in let m := with_default_time upload_job read_meta in
  ∃ r i' s', run (calm_api test_api) (Upload test_config test_key upload_job) 0 s = Some (r, i', s') ∧
    step "u" "root" (folders_of test_config m) (package test_config upload_job m (files s)) s s' ∧
    ∀ st, r = Ok st → st = EmptyString ∧ complete test_config m (drives s' "u").
Proof.
  cbv zeta. apply (Upload_stores (calm_api test_api) test_config test_key upload_job "u").
  - reflexivity.
  - apply test_meta_for.
  - apply test_plain.
  - reflexivity.
  - apply disk_ready_ready. intros f Hf. by apply elem_of_nil in Hf.
Defined.







Lemma Upload_missing_witness :
  let s := mk_shared (s_db signed_up) RedisModel.empty
    (mk_outside {[ "/data/meta/u7.json" := test_meta_text ]} ∅ (λ _, [])) 0 in
  ∃ e i' s', run (calm_api test_api) (Upload test_config test_key upload_job) 0 s = Some (Err e, i', s').
Proof.
  cbv zeta. apply (Upload_missing (calm_api test_api) test_config test_key upload_job
    (with_default_time upload_job read_meta) "a.pdf").
  - exists test_meta_text, read_meta. split; [|split]; vm_compute; reflexivity.
  - apply (bool_decide_unpack _). vm_compute. reflexivity.
  - vm_compute. reflexivity.
Defined.
