(* ===== verification/Forest.v ===== *)
(** * The folders of a Drive form a forest

    Drive gives every file an id of its own, so the path of folder names from
    the root to a folder is unique, and what the handlers create keeps it so. *)
From S2P Require Import Prelude Redis Schema GoStrings Utf8 Calendar Times Json Meta Paths Services Effects Files Disk Queue Store OAuth Gmail Drive Upload.
Local Open Scope Z_scope.

Section forest.
Context `{UL : UuidLib} `{PG : !PgServer} `{RS : RedisServer} `{DS : DriveServer} `{AE : AeadLib} `{TP : TimeParser}.
Variable root : string.

(** No two files have an id in common, and the root is not below itself. *)
Record forest (d : dstate) : Prop := {
  fo_ids f g : f ∈ d_files d → g ∈ d_files d → f_id f = f_id g → f = g;
  fo_root ns : ns ≠ [] → ¬ chain d root ns root
}.

Lemma chain_last d ns n p :
  chain d root (ns ++ [n]) p ↔ ∃ f, f ∈ d_files d ∧ chain d root ns (f_parent f) ∧ f_name f = n ∧ f_mime f = folderMime ∧ f_id f = p.
Proof.
  rewrite chain_app. cbn [chain]. split.
  - intros (mid & Hm & f & (Hf & Hn & Hp & Hmime)%elem_of_folders & ->). subst mid. by exists f.
  - intros (f & Hf & Hc & Hn & Hm & <-). exists (f_parent f). split; [done|]. exists f. by rewrite elem_of_folders.
Qed.

(** A folder has one path. *)
Lemma chain_path d ns1 ns2 p : forest d → chain d root ns1 p → chain d root ns2 p → ns1 = ns2.
Proof.
  intros [Hids Hroot]. revert ns2 p. induction ns1 as [|n ns1 IH] using rev_ind; intros ns2 p; destruct ns2 as [|m ns2 _] using rev_ind.
  - done.
  - intros -> H. by destruct (Hroot (ns2 ++ [m])); [by destruct ns2|].
  - intros H ->. by destruct (Hroot (ns1 ++ [n])); [by destruct ns1|].
  - rewrite !chain_last. intros (f & Hf & Hc1 & Hn & _ & <-) (g & Hg & Hc2 & Hm & _ & Hid).
    assert (g = f) as -> by (by apply Hids). rewrite <- Hn, <- Hm. f_equal. by eapply IH.
Qed.

Lemma forest_empty d : d_files d = [] → forest d.
Proof.
  intros Hd. split; [by intros f g; rewrite Hd; intros ?%elem_of_nil|].
  intros [|n ns] Hne; [done|]. intros (f & (Hf & _)%elem_of_folders & _). rewrite Hd in Hf. by apply elem_of_nil in Hf.
Qed.

(** ** What is created *)

Section create.
Variables (d d' : dstate) (x : dfile).
Hypothesis Hfiles : d_files d' ≡ₚ x :: d_files d.
Hypothesis Hfresh : ∀ f, f ∈ d_files d → f_id f ≠ f_id x ∧ f_parent f ≠ f_id x.
Hypothesis Hparent : f_parent x ≠ f_id x.

(** Nothing is below the new file. *)
Lemma below_new n p f : f ∈ folders_named n p d' → p ≠ f_id x.
Proof.
  rewrite elem_of_folders, Hfiles, elem_of_cons. intros ([->|Hf] & _ & <- & _); [done|]. by apply Hfresh.
Qed.

Lemma chain_new a ns b : chain d' a ns b → b = f_id x ∨ chain d a ns b.
Proof.
  revert a. induction ns as [|n ns IH]; intros a; cbn [chain]; [by right|].
  intros (f & Hf & Hc). pose proof Hf as (Hin & Hn & Hp & Hm)%elem_of_folders. rewrite Hfiles, elem_of_cons in Hin.
  destruct Hin as [->|Hin].
  - destruct ns as [|n' ns]; [by left|]. destruct Hc as (g & Hg & _). by destruct (below_new _ _ _ Hg).
  - destruct (IH _ Hc) as [?|?]; [by left|right]. exists f. by rewrite elem_of_folders.
Qed.

Lemma forest_new : forest d → forest d'.
Proof.
  intros [Hids Hroot]. split.
  - intros f g. rewrite Hfiles, !elem_of_cons. intros [->|Hf] [->|Hg] E; [done|..].
    + by destruct (Hfresh g Hg) as [[] _].
    + by destruct (Hfresh f Hf) as [[] _].
    + by apply Hids.
  - intros [|n ns] Hne H; [done|]. pose proof H as (f & Hf & _). apply below_new in Hf.
    destruct (chain_new _ _ _ H) as [?|Hc]; [done|]. by eapply Hroot, Hc.
Qed.
End create.

Lemma forest_FilesCreate name parent mime content d : forest d → forest (FilesCreate name parent mime content d).2.
Proof.
  pose proof (FilesCreate_spec d name parent mime content) as H. destruct (FilesCreate _ _ _ _ _) as [id d'].
  destruct H as (_ & Hfresh & Hp & Hfiles). by eapply forest_new.
Qed.

(** ** What programs keep *)

Definition keeps_forest (X : Type) (c : cmd X) : Prop :=
  match c with
  | Ext f => ∀ t x, (∀ u, forest (o_drive x u)) → ∀ u, forest (o_drive (f t x).2 u)
  | _ => True
  end.

Lemma not_ext_forest X (c : cmd X) : not_ext X c → keeps_forest X c.
Proof. by destruct c. Qed.

Lemma run_forest {A} orc (p : prog A) i s a i' s' :
  calls_only keeps_forest p → run orc p i s = Some (a, i', s') → (∀ u, forest (drives s u)) → ∀ u, forest (drives s' u).
Proof.
  intros Hp Hrun Hs. revert Hrun. apply (run_calls_only keeps_forest (λ s1, ∀ u, forest (drives s1 u))); [|done|done].
  intros X c o s1 Hc. unfold drives. destruct c as [Y f|Y f| | | | |j|Y f|Y rq]; simpl; try done; destruct (o_fault o); simpl; try done;
    try (by destruct (f _ _)); specialize (Hc (s_now s1 + Z.of_N (o_dt o)) (s_ext s1)); by destruct (f _ _).
Qed.

Lemma on_drive_forest {X} u (f : dstate → X * dstate) :
  (∀ d, forest d → forest (f d).2) → keeps_forest _ (on_drive u f).
Proof.
  intros Hf t x Hx v. specialize (Hf (o_drive x u) (Hx u)). destruct (f (o_drive x u)) as [y d]. cbn. by case_decide.
Qed.

Lemma find_or_create_forest c q name parent mime content e1 e2 :
  calls_only keeps_forest (find_or_create c q name parent mime content e1 e2).
Proof.
  assert (H : ∀ X (f : dstate → X * dstate) c, (∀ d, forest d → forest (f d).2) → calls_only keeps_forest (DoDrive c f)).
  { intros X f c1 Hf. unfold DoDrive. apply calls_only_bind; [apply (calls_only_impl _ _ _ not_ext_forest), source_not_ext|].
    intros [ [?|?] ?]; [|done]. apply calls_only_bind; [|by intros]. split; [by apply on_drive_forest|done]. }
  unfold find_or_create. apply calls_only_bind; [by apply H|]. intros [ [ [|? ?]|?] ?]; try done.
  apply calls_only_bind; [by apply H, forest_FilesCreate|]. by intros [ [?|?] ?].
Qed.

Lemma ReadFile_forest p : calls_only keeps_forest (call (ReadFile p)).
Proof. split; [|done]. intros t x. by destruct (o_files x !! p). Qed.

Lemma ensure_chain_forest fs u c p parent : calls_only keeps_forest (ensure_chain u c fs p parent).
Proof.
  revert c p parent. induction fs as [|f fs IH]; intros c p parent; cbn [ensure_chain]; [done|].
  apply calls_only_bind; [unfold Drive.Get; walk_prog|]. intros [ [id|]|e]; [apply IH|..];
    (apply calls_only_bind; [apply find_or_create_forest|]); intros [ [id|e'] c']; try done;
    (apply calls_only_bind; [unfold Set_; walk_prog|]); intros ?; apply IH.
Qed.

Lemma upload_attachments_forest names c dir id p : calls_only keeps_forest (upload_attachments c dir id p names).
Proof.
  revert c. induction names as [|n names IH]; intros c; cbn [upload_attachments]; [done|].
  apply calls_only_bind; [apply ReadFile_forest|]. intros [d|e]; [|done].
  apply calls_only_bind; [apply find_or_create_forest|]. intros [ [?|?] ?]; [apply IH|done].
Qed.

Lemma Upload_forest cfg key job : calls_only keeps_forest (Upload cfg key job).
Proof.
  unfold Upload. destruct (UserID job) as [u|]; [|done]. apply calls_only_bind; [apply ReadFile_forest|]. intros [b|e]; [|done].
  destruct (UnmarshalMeta b) as [m|e]; [|done]. cbv zeta.
  apply calls_only_bind; [apply (calls_only_impl quiet); [by intros X []|apply connect_quiet]|]. intros [c|e]; [|done].
  apply calls_only_bind; [apply ensure_chain_forest|]. intros [ [p|e] c']; [|done]. unfold upload_files.
  apply calls_only_bind; [apply ReadFile_forest|]. intros [d|e]; [|done].
  apply calls_only_bind; [apply find_or_create_forest|]. intros [ [?|?] ?]; [|done].
  apply calls_only_bind; [apply upload_attachments_forest|]. by intros [?|?].
Qed.

(** ** Paths of messages *)

Lemma folders_of_length cfg m m' : length (folders_of cfg m) = length (folders_of cfg m').
Proof. unfold folders_of. rewrite !length_app. by case_decide. Qed.

(** A folder on the way to a message is no message's folder. *)
Lemma on_the_way cfg m m' ns n rest : folders_of cfg m' = ns ++ n :: rest → ns ≠ folders_of cfg m.
Proof.
  intros H ->. pose proof (folders_of_length cfg m m') as Hl. rewrite H, length_app in Hl. cbn in Hl. lia.
Qed.
End forest.
