(* ===== verification/Slug.v ===== *)
(** * Slugs: SubjectSlug and FromSlug of internal/handler/paths.go

    The older names of folders, kept for tests.  The tables of package unicode
    are a parameter ([Unicode]) with their ASCII part as laws. *)
From S2P Require Import Prelude GoStrings Utf8 Calendar Paths.
Local Open Scope N_scope.

Class Unicode := {
  IsLetter : N → bool;
  IsDigit : N → bool;
  ToLower_rune : N → N;
  IsLetter_ascii r : r < 128 → IsLetter r = ((65 <=? r) && (r <=? 90)) || ((97 <=? r) && (r <=? 122));
  IsDigit_ascii r : r < 128 → IsDigit r = (48 <=? r) && (r <=? 57);
  ToLower_ascii r : r < 128 → ToLower_rune r = if (65 <=? r) && (r <=? 90) then r + 32 else r;
  (** no letter is mapped to an upper-case ASCII letter *)
  ToLower_upper r : ToLower_rune r < 65 ∨ 90 < ToLower_rune r
}.

Section slug.
Context `{UC : Unicode}.

(** strings.ToLower: every rune is mapped; a byte that is no rune becomes
    U+FFFD. *)
Definition ToLower (l : bytes) : bytes :=
  if forallb (λ c, N_of_ascii c <? 128) l then (λ c, ascii_of_N (ToLower_rune (N_of_ascii c))) <$> l
  else encode (ToLower_rune <$> runes l).

Definition maxSlug : nat := 40.
Definition dash : ascii := "-".

(** One rune of the loop; the state is the builder and [lastDash]. *)
Definition slug_rune (st : bytes * bool) (r : N) : bytes * bool :=
  if IsLetter r || IsDigit r then (st.1 ++ encode_rune r, false)
  else if st.2 then st else (st.1 ++ [dash], true).

Definition TrimRight_dash (l : bytes) : bytes := trim_right (λ c, bool_decide (c = dash)) l.

Definition SubjectSlug (s : string) : string :=
  let l := ToLower (TrimSpace (to_bytes s)) in
  if decide (l = []) then "untitled"
  else
    let out := TrimRight_dash (foldl slug_rune ([], true) (runes l)).1 in
    if decide (out = []) then "untitled"
    else if (maxSlug <? length out)%nat then of_bytes (TrimRight_dash (take maxSlug out))
    else of_bytes out.

Definition FromSlug (email : string) : string :=
  if decide (email = EmptyString) then "unknown"
  else match Cut "@" email with
  | None | Some (EmptyString, _) => SubjectSlug email
  | Some (name, _) => ReplaceAll (ReplaceAll (of_bytes (ToLower (to_bytes name))) "+" "-") "." "-"
  end.

(** ** The shape of a slug *)

(** Lower-case letters, digits, dashes, and what is beyond ASCII. *)
Definition slug_byte (c : ascii) : Prop :=
  let n := N_of_ascii c in 128 <= n ∨ 97 <= n <= 122 ∨ 48 <= n <= 57 ∨ c = dash.

Definition lowered (r : N) : Prop := r < 65 ∨ 90 < r.

Lemma runes_lowered l : Forall lowered (runes (ToLower l)).
Proof.
  apply Forall_forall. intros r Hr. unfold lowered. destruct (N.lt_ge_cases r 128) as [Hlt|]; [|lia].
  apply runes_low in Hr as (c & Hc & Hn); [|done]. subst r. revert Hc. unfold ToLower. destruct (forallb _ l) eqn:E.
  - intros (d & -> & Hd)%list_elem_of_fmap. rewrite forallb_forall in E. apply list_elem_of_In, E, N.ltb_lt in Hd.
    pose proof (ToLower_ascii _ Hd) as Ha. pose proof (ToLower_upper (N_of_ascii d)).
    rewrite N_of_ascii_of_N; [done|]. rewrite Ha in *. destruct (_ && _) eqn:Eb; [|lia].
    apply andb_true_iff in Eb as [?%N.leb_le ?%N.leb_le]. lia.
  - unfold encode. intros Hc. apply list_elem_of_In, in_concat in Hc as (x & Hx & Hc). apply list_elem_of_In in Hx, Hc.
    apply list_elem_of_fmap in Hx as (r' & -> & Hr'). apply encode_rune_ascii in Hc; [|done]. rewrite <- Hc.
    apply list_elem_of_fmap in Hr' as (q & -> & _). pose proof (ToLower_upper q). lia.
Qed.

(** The builder: slug bytes, the first of them no dash. *)
Definition building (l : bytes) : Prop := Forall slug_byte l ∧ ∀ c t, l = c :: t → c ≠ dash.

Lemma letter_slug r c : lowered r → IsLetter r || IsDigit r = true → c ∈ encode_rune r → slug_byte c ∧ c ≠ dash.
Proof.
  intros Hr Hl Hc. unfold slug_byte, lowered in *. cbv zeta. destruct (N.lt_ge_cases (N_of_ascii c) 128) as [Hlt|Hge].
  - apply encode_rune_ascii in Hc; [|done]. subst r. rewrite IsLetter_ascii, IsDigit_ascii in Hl by done.
    rewrite !orb_true_iff, !andb_true_iff, !N.leb_le in Hl. split; [lia|]. intros ->. unfold dash in Hl. simpl in Hl. lia.
  - split; [by left|]. intros ->. unfold dash in Hge. simpl in Hge. lia.
Qed.

Lemma slug_rune_building st r : lowered r → building st.1 → (st.1 = [] → st.2 = true) →
  building (slug_rune st r).1 ∧ ((slug_rune st r).1 = [] → (slug_rune st r).2 = true).
Proof.
  intros Hr [Hall Hhead] Hempty. unfold slug_rune. destruct (IsLetter r || IsDigit r) eqn:Hl.
  - assert (Henc : Forall slug_byte (encode_rune r) ∧ Forall (λ c, c ≠ dash) (encode_rune r)).
    { split; apply Forall_forall; intros c Hc; by apply (letter_slug r c). }
    destruct Henc as [H1 H2]. cbn [fst snd]. split; [split; [by apply Forall_app|]|].
    + intros c t. destruct st.1 as [|d u]; [|intros [= <- _]; by eapply Hhead]. cbn [app]. intros E. rewrite E in H2.
      by apply Forall_cons in H2 as [? _].
    + intros E. apply app_eq_nil in E as [_ E]. by destruct (encode_rune_nonempty r).
  - destruct st.2 eqn:E2; [done|]. cbn [fst snd]. destruct st.1 as [|d u] eqn:E1; [discriminate (Hempty eq_refl)|].
    split; [split|done].
    + apply Forall_app. split; [done|]. apply Forall_singleton. by right; right; right.
    + intros c t [= <- _]. by eapply Hhead.
Qed.

Lemma slug_fold rs st : Forall lowered rs → building st.1 → (st.1 = [] → st.2 = true) → building (foldl slug_rune st rs).1.
Proof.
  intros Hrs. revert st. induction Hrs as [|r rs Hr _ IH]; intros st Hb He; [done|]. cbn [foldl].
  destruct (slug_rune_building st r Hr Hb He). by apply IH.
Qed.

Lemma TrimRight_building l : building l → building (TrimRight_dash l) ∧ (l ≠ [] → TrimRight_dash l ≠ []).
Proof.
  unfold TrimRight_dash. set (p := λ c, _). intros [Hall Hhead]. destruct (trim_right_prefix p l) as (b & Hb & Hp).
  split; [split|].
  - rewrite Hb in Hall. by apply Forall_app in Hall as [? _].
  - intros c t E. rewrite E in Hb. by eapply Hhead.
  - intros Hne E. rewrite E in Hb. cbn [app] in Hb. destruct l as [|c t]; [done|]. rewrite <- Hb in Hp.
    apply Forall_cons in Hp as [Hc _]. apply bool_decide_eq_true in Hc. by eapply Hhead.
Qed.

Lemma take_building n l : building l → building (take n l).
Proof.
  intros [Hall Hhead]. split; [by apply Forall_take|]. intros c t E. destruct n, l as [|d u]; try done.
  injection E as -> _. by eapply Hhead.
Qed.

(** What a slug looks like. *)
Record slug_shape (l : bytes) : Prop := {
  sl_nonempty : l ≠ [];
  sl_length : (length l ≤ maxSlug)%nat;
  sl_bytes : Forall slug_byte l;
  sl_head c t : l = c :: t → c ≠ dash;
  sl_last t c : l = t ++ [c] → c ≠ dash
}.

Lemma TrimRight_last l t c : TrimRight_dash l = t ++ [c] → c ≠ dash.
Proof. intros H%trim_right_last. by apply bool_decide_eq_false in H. Qed.

Lemma trim_right_length (p : ascii → bool) l : (length (trim_right p l) ≤ length l)%nat.
Proof. destruct (trim_right_prefix p l) as (b & Hb & _). rewrite Hb at 2. rewrite length_app. lia. Qed.

(** Whatever the Unicode tables and the subject, the slug is not empty, at most
    40 bytes long, without a dash at either end, and its ASCII bytes are
    lower-case letters, digits and dashes; so it is one path component. *)
Theorem SubjectSlug_shape s : slug_shape (to_bytes (SubjectSlug s)).
Proof.
  assert (Hun : slug_shape (to_bytes "untitled")).
  { split; [done|unfold maxSlug; simpl; lia| | |].
    - apply (bool_decide_unpack _). unfold slug_byte. vm_compute. done.
    - by intros c t [= <- _].
    - intros t c H. apply (f_equal last) in H. rewrite last_snoc in H. by injection H as <-. }
  unfold SubjectSlug. cbv zeta. destruct (decide _) as [_|_]; [done|].
  set (b := (foldl slug_rune _ _).1). assert (Hb : building b).
  { apply slug_fold; [apply runes_lowered|by split|done]. }
  destruct (TrimRight_building b Hb) as [Ht _]. destruct (decide _) as [_|Hne]; [done|].
  destruct (Nat.ltb_spec maxSlug (length (TrimRight_dash b))) as [Hl|Hl]; rewrite String.list_ascii_of_string_of_list_ascii.
  - pose proof (take_building maxSlug _ Ht) as Hk. destruct (TrimRight_building _ Hk) as [Hk' Hne']. split.
    + apply Hne'. destruct (TrimRight_dash b); [done|]. by unfold maxSlug.
    + unfold TrimRight_dash at 1. etrans; [apply trim_right_length|]. rewrite length_take. lia.
    + apply Hk'.
    + apply Hk'.
    + apply TrimRight_last.
  - split; [done|done|apply Ht|apply Ht|apply TrimRight_last].
Qed.
End slug.

(** ** The ASCII part of the tables, and the cases of the repository's tests *)
Module SlugModel.

Definition upper (r : N) : bool := (65 <=? r) && (r <=? 90).

#[export] Instance ascii_tables : Unicode.
Proof.
  refine {| IsLetter r := ((65 <=? r) && (r <=? 90)) || ((97 <=? r) && (r <=? 122));
    IsDigit r := (48 <=? r) && (r <=? 57); ToLower_rune r := if (65 <=? r) && (r <=? 90) then r + 32 else r |}; try done.
  intros r. destruct (_ && _) eqn:E.
  - apply andb_true_iff in E as [?%N.leb_le ?%N.leb_le]. lia.
  - apply andb_false_iff in E as [?%N.leb_gt|?%N.leb_gt]; lia.
Defined.

Example slug_re : SubjectSlug "Re: project update" = "re-project-update".
Proof. vm_compute. reflexivity. Qed.
Example slug_statement : SubjectSlug "Your Monthly Statement for Apr 2026!" = "your-monthly-statement-for-apr-2026".
Proof. vm_compute. reflexivity. Qed.
Example slug_slash : SubjectSlug "  leading/trailing  " = "leading-trailing".
Proof. vm_compute. reflexivity. Qed.
Example slug_bob : FromSlug "BOB+news@example.com" = "bob-news".
Proof. vm_compute. reflexivity. Qed.
End SlugModel.
