(* ===== verification/Names.v ===== *)
(** * Folder names

    The names upload.go gives to the folders of a message are plain: one
    component each, without a slash or backslash, provided the sender's
    address holds neither (paths.go cleans the subject only). *)
From S2P Require Import Prelude Redis Schema GoStrings Utf8 Calendar Times Json Meta Paths Services Effects Files Queue Drive Upload.
Local Open Scope Z_scope.

Definition no_slash (s : string) : Prop := contains_byte "/" s = false ∧ contains_byte "\" s = false.

Lemma no_slash_app s1 s2 : no_slash s1 → no_slash s2 → no_slash (s1 +:+ s2).
Proof. intros [H1 H2] [H3 H4]. split; rewrite contains_byte_app; by rewrite ?H1, ?H2, ?H3, ?H4. Qed.

(** A name with a blank is neither empty nor one of the two dots. *)
Lemma blank_folder n : contains_byte " " n = true → no_slash n → folder_name n.
Proof. intros Hb [H1 H2]. split; [|done]. split_and!; [..|done]; intros ->; by vm_compute in Hb. Qed.

Lemma zeros_byte k c : c ≠ "0"%char → contains_byte c (zeros k) = false.
Proof.
  intros Hc. unfold zeros. rewrite contains_of_bytes. apply bool_decide_eq_false. by intros [? _]%elem_of_replicate.
Qed.

Lemma pad_byte w n c : digit_value c = None → c ≠ "-"%char → contains_byte c (pad w n) = false.
Proof.
  intros Hd Hm. assert (H0 : c ≠ "0"%char) by (by intros ->). unfold pad.
  destruct (Z.ltb_spec n 0); rewrite !contains_byte_app, zeros_byte, pretty_no_byte by (done || lia); [|done].
  cbn. by rewrite bool_decide_eq_false_2 by congruence.
Qed.

Lemma pad_nonempty w n : pad w n ≠ EmptyString.
Proof.
  unfold pad. destruct (Z.ltb_spec n 0); [done|]. rewrite pretty_Z_nonneg by done. intros He.
  apply (pretty_nonempty (Z.to_N n)). by destruct (zeros _).
Qed.

Lemma pad_folder w n : folder_name (pad w n).
Proof.
  assert (Hdot : contains_byte "." (pad w n) = false) by (by apply pad_byte).
  split; [|by apply pad_byte]. split_and!; [apply pad_nonempty|intros H|intros H|by apply pad_byte];
    rewrite H in Hdot; by vm_compute in Hdot.
Qed.

Definition plain_names (l : list string) : bool :=
  forallb (λ s, negb (contains_byte "/" s) && negb (contains_byte "\" s)) l.

Lemma plain_names_at l n : plain_names l = true → no_slash (default EmptyString (l !! n)).
Proof.
  intros H. destruct (l !! n) as [s|] eqn:E; [|done]. apply list_elem_of_lookup_2 in E. cbn [default from_option].
  unfold plain_names in H. rewrite forallb_forall in H. apply list_elem_of_In in E.
  specialize (H s E). apply andb_true_iff in H as [H1%negb_true_iff H2%negb_true_iff]. done.
Qed.

Lemma Date_folders t : Forall folder_name (DateTreeFolders t).
Proof.
  unfold DateTreeFolders. pose proof (civil_range (t / day_ns)) as Hr. destruct (civil _) as [ [year m] d].
  assert (Hm : no_slash (Month_String m)) by (by apply plain_names_at).
  assert (Hw : no_slash (Weekday_String (weekday (t / day_ns)))) by (by apply plain_names_at).
  assert (Hy : no_slash (pad 4 year)) by (split; by apply pad_byte).
  assert (Hd : no_slash (pretty d)) by (split; apply pretty_no_byte; done || lia).
  repeat (apply Forall_cons; split); [apply pad_folder| | |by apply Forall_nil].
  - apply blank_folder; [|repeat apply no_slash_app; done]. rewrite contains_byte_app. cbn. by rewrite orb_true_r.
  - apply blank_folder; [|repeat apply no_slash_app; done]. rewrite contains_byte_app. cbn. by rewrite orb_true_r.
Qed.

Lemma Email_folder t subject from : no_slash from → folder_name (EmailFolderName t subject from).
Proof.
  intros [Hs Hb]. unfold EmailFolderName. destruct (cleanSubject_plain subject) as [_ Hc].
  assert (Hf : no_slash (of_bytes (TrimSpace (to_bytes from)))).
  { rewrite <- (String.string_of_list_ascii_of_string from), contains_of_bytes in Hs, Hb.
    apply bool_decide_eq_false in Hs, Hb. split; rewrite contains_of_bytes; apply bool_decide_eq_false;
      by intros ?%TrimSpace_subset. }
  assert (Hsub : no_slash (cleanSubject subject)) by (split; by apply Hc).
  assert (Hp : ∀ n, no_slash (pad 2 n)) by (intros n; split; by apply pad_byte).
  apply blank_folder.
  - rewrite contains_byte_app. cbn. by rewrite orb_true_r.
  - repeat (apply no_slash_app; [done|]). apply no_slash_app; [by case_decide|].
    repeat (apply no_slash_app; [done|]). done.
Qed.
