(* ===== verification/Pipeline.v ===== *)
(** * From fetch to upload

    The stages hand a message on through files named by the job: what one
    writes the next one reads, and jobs do not touch each other's files. *)
From S2P Require Import Prelude Redis Schema GoStrings Utf8 Calendar Times Json Meta Mime Html Paths Services Effects Files Disk Queue Store OAuth Base64 Gmail Drive Fetch Render Upload.
Local Open Scope Z_scope.

Section names.
Context `{UL : UuidLib}.

(** The text of an id is one path component without dots. *)
Definition plain_id (id : uuid) : Prop :=
  uuid_String id ≠ EmptyString ∧ contains_byte "/" (uuid_String id) = false ∧
  contains_byte "." (uuid_String id) = false.

Lemma uuid_String_inj id id' : uuid_String id = uuid_String id' → id = id'.
Proof. intros H. pose proof (uuid_Parse_String id) as H1. rewrite H, uuid_Parse_String in H1. by injection H1. Qed.

Lemma component_id id : plain_id id → component (uuid_String id).
Proof.
  intros (Hne & Hs & Hd). split_and!; [done|..|done]; intros H; rewrite H in Hd; by vm_compute in Hd.
Qed.

Lemma component_ext id e :
  plain_id id → contains_byte "/" e = false → component (uuid_String id +:+ e).
Proof.
  intros (Hne & Hs & Hd) He. destruct (uuid_String id) as [|c s]; [done|].
  cbn [contains_byte] in Hd. apply orb_false_iff in Hd as [Hd%bool_decide_eq_false _].
  split_and!; [done|by intros [= -> _]|by intros [= -> _]|]. by rewrite contains_byte_app, Hs, He.
Qed.

(** The files of a job below the data directory. *)
Inductive part : Set := Mime | Pdf | Meta | Attached (name : string).

Definition comps (id : uuid) (k : part) : list string :=
  match k with
  | Mime => ["mime"; uuid_String id +:+ ".eml"]
  | Pdf => ["pdf"; uuid_String id +:+ ".pdf"]
  | Meta => ["meta"; uuid_String id +:+ ".json"]
  | Attached name => ["attachments"; uuid_String id; name]
  end.

Definition path_of (dataDir : string) (id : uuid) (k : part) : string := Join (dataDir :: comps id k).

Definition plain_part (k : part) : Prop := match k with Attached name => component name | _ => True end.

Lemma comps_component id k : plain_id id → plain_part k → Forall component (comps id k).
Proof.
  intros Hid Hk. destruct k; cbn [comps]; repeat (apply Forall_cons; split); try apply Forall_nil_2; try done;
    first [by apply component_ext|by apply component_id].
Qed.

Lemma suffix_inj (s1 s2 e : string) : s1 +:+ e = s2 +:+ e → s1 = s2.
Proof.
  intros H. assert (Hl : ∀ a b : string, String.length (a +:+ b) = (String.length a + String.length b)%nat).
  { intros a b. induction a as [|c a IH]; [done|]. rewrite sapp_cons. simpl. by rewrite IH. }
  revert s2 H. induction s1 as [|c s1 IH]; intros [|d s2] H; [done| | |].
  - apply (f_equal String.length) in H. rewrite !Hl in H. simpl in H. lia.
  - apply (f_equal String.length) in H. rewrite !Hl in H. simpl in H. lia.
  - rewrite !sapp_cons in H. injection H as -> H. f_equal. by apply IH.
Qed.

(** No two files share a path, of one job or of two. *)
Lemma path_of_inj dataDir id1 k1 id2 k2 :
  plain_id id1 → plain_id id2 → plain_part k1 → plain_part k2 →
  path_of dataDir id1 k1 = path_of dataDir id2 k2 → id1 = id2 ∧ k1 = k2.
Proof.
  intros H1 H2 Hk1 Hk2 Heq. pose proof (comps_component id1 k1 H1 Hk1) as C1.
  pose proof (comps_component id2 k2 H2 Hk2) as C2.
  assert (Hs : ∀ id k, ∃ cs c, comps id k = cs ++ [c]).
  { intros id k. destruct k; [exists ["mime"]|exists ["pdf"]|exists ["meta"]|exists ["attachments"; uuid_String id] ];
      by eexists. }
  unfold path_of in Heq. destruct (Hs id1 k1) as (cs1 & c1 & E1). destruct (Hs id2 k2) as (cs2 & c2 & E2).
  rewrite E1, E2 in *. apply Join_inj in Heq; [|done..]. rewrite <- E1, <- E2 in Heq.
  destruct k1, k2; try done; cbn [comps] in Heq; injection Heq; intros; subst;
    try match goal with H : _ +:+ _ = _ +:+ _ |- _ => apply suffix_inj in H end;
    (split; [by apply uuid_String_inj|congruence]).
Qed.

Definition job_file (dataDir : string) (id : uuid) (p : string) : Prop :=
  ∃ k, plain_part k ∧ p = path_of dataDir id k.

(** ** The stages' names for them *)

Lemma eml_path_of dataDir id : plain_id id → eml_path dataDir id = path_of dataDir id Mime.
Proof. intros H. by apply Join_Join, component_ext. Qed.

Lemma pdf_path_of dataDir id : plain_id id → pdf_path dataDir id = path_of dataDir id Pdf.
Proof. intros H. by apply Join_Join, component_ext. Qed.

Lemma meta_path_of dataDir id : plain_id id → meta_path dataDir id = path_of dataDir id Meta.
Proof. intros H. by apply Join_Join, component_ext. Qed.

Lemma attached_path_of dataDir id name : plain_id id → component name →
  Join [attach_dir dataDir id; name] = path_of dataDir id (Attached name).
Proof. intros H Hn. apply Join_Join3; [done|by apply component_id|done]. Qed.

(** The render stage does not write the message itself. *)
Lemma rendered_other dataDir id p : plain_id id → rendered_file dataDir id p →
  ∃ k, plain_part k ∧ k ≠ Mime ∧ p = path_of dataDir id k.
Proof.
  intros H [->|[->|(name & Hn & ->)] ].
  - exists Pdf. split; [done|]. split; [done|by apply pdf_path_of].
  - exists Meta. split; [done|]. split; [done|by apply meta_path_of].
  - exists (Attached name). split; [by apply plain_component|]. split; [done|]. by apply attached_path_of, plain_component.
Qed.

Lemma rendered_job_file dataDir id p : plain_id id → rendered_file dataDir id p → job_file dataDir id p.
Proof. intros H (k & Hk & _ & ->)%rendered_other; [|done]. by exists k. Qed.

Lemma eml_job_file dataDir id : plain_id id → job_file dataDir id (eml_path dataDir id).
Proof. intros H. exists Mime. split; [done|by apply eml_path_of]. Qed.

(** Writing files of one job leaves those of another alone. *)
Lemma kept_other dataDir id id' W F F' :
  plain_id id → plain_id id' → id' ≠ id → (∀ p, W p → job_file dataDir id p) → keeps W F F' →
  ∀ p, job_file dataDir id' p → F' !! p = F !! p.
Proof.
  intros Hid Hid' Hne HW Hk p (k & Hp & ->). apply Hk. intros (k' & Hp' & Heq)%HW.
  by apply path_of_inj in Heq as [? _].
Qed.
End names.

Section pipeline.
Context `{UL : UuidLib} `{PG : !PgServer} `{RS : RedisServer} `{DS : DriveServer} `{AE : AeadLib}
  `{ML : MailLib} `{TP : TimeParser}.

(** ** Jobs do not touch each other's files *)

(** The fetch and the render stage of a job leave every file of every other
    job alone, whatever fails and whatever the message holds. *)
Theorem jobs_isolated orc dataDir key job id i s :
  plain_id (ID job) → plain_id id → id ≠ ID job →
  (∃ r i' s', run orc (Fetch dataDir key job) i s = Some (r, i', s') ∧
     ∀ p, job_file dataDir id p → files s' !! p = files s !! p) ∧
  (∃ r i' s', run orc (Render dataDir job) i s = Some (r, i', s') ∧
     ∀ p, job_file dataDir id p → files s' !! p = files s !! p).
Proof.
  intros Hjob Hid Hne. split.
  - destruct (writes_run _ _ _ orc i s (Fetch_total dataDir key job) (writes_Fetch orc dataDir key job))
      as (r & i' & s' & Hrun & _ & Hk & _). exists r, i', s'. split; [done|].
    eapply (kept_other dataDir (ID job) id); [done..| |exact Hk]. by intros p ->; apply eml_job_file.
  - destruct (writes_run _ _ _ orc i s (Render_total dataDir job) (writes_Render orc dataDir job))
      as (r & i' & s' & Hrun & _ & Hk & _). exists r, i', s'. split; [done|].
    eapply (kept_other dataDir (ID job) id); [done..| |exact Hk]. intros p. by apply rendered_job_file.
Qed.

(** ** What reaches the upload stage *)

(** What is on disk under an attachment's name: the content of the last one
    that has it. *)
Definition content_of (n : string) (l : list Attachment) : string :=
  foldl (λ acc a, if decide (SanitizeFilename (a_Filename a) = n) then a_Content a else acc) EmptyString l.

Lemma put_attachments_lookup dir l F n :
  n ∈ names_of l → put_attachments dir l F !! Join [dir; n] = Some (content_of n l).
Proof.
  assert (Hc : ∀ x, component (SanitizeFilename x)) by (intros x; apply plain_component, SanitizeFilename_plain).
  unfold put_attachments, content_of. induction l as [|a l IH] using rev_ind; [by intros ?%elem_of_nil|].
  unfold names_of. rewrite fmap_app, elem_of_app, !foldl_app. cbn [foldl]. intros Hn.
  destruct (decide (SanitizeFilename (a_Filename a) = n)) as [->|Hne]; [by rewrite lookup_insert_eq|].
  destruct Hn as [Hn|Hn]; [|by apply list_elem_of_singleton in Hn].
  rewrite lookup_insert_ne; [by apply IH|]. intros Heq. apply Hne, (Join_plain_inj dir); [done| |done].
  apply list_elem_of_fmap in Hn as (b & -> & _). done.
Qed.

Definition undisturbed (dataDir : string) (id : uuid) (s s' : shared) : Prop :=
  ∀ p, job_file dataDir id p → files s' !! p = files s !! p.

Definition received (job : Job) (parsed : ParsedMessage) : Z :=
  if IsZero (pm_ReceivedAt parsed) then CreatedAt job else t_ns (pm_ReceivedAt parsed).

Lemma parsed_offset raw parsed : (∀ d t, ParseDate d = Ok t → t_off t mod 60 = 0) →
  parseMessage raw = Some (Ok parsed) → t_off (pm_ReceivedAt parsed) mod 60 = 0.
Proof.
  intros dates (h & _ & ->)%parseMessage_header. cbn [header_part pm_ReceivedAt]. case_decide; [done|].
  destruct (ParseDate _) as [t|e] eqn:E; [by eapply dates|done].
Qed.

(** The files of a job once a page and its metadata are written. *)
Lemma written_package cfg job raw parsed pdf meta F (dates : ∀ d t, ParseDate d = Ok t → t_off t mod 60 = 0) :
  plain_id (ID job) → parseMessage raw = Some (Ok parsed) →
  MarshalMeta (meta_of job parsed (names_of (Attachments parsed))) = Ok meta →
  let F' := <[meta_path (DataDir cfg) (ID job) := meta]> (<[pdf_path (DataDir cfg) (ID job) := pdf]>
    (put_attachments (attach_dir (DataDir cfg) (ID job)) (Attachments parsed) F)) in
  ∃ m, meta_for cfg job F' m ∧ rm_Subject m = to_valid (pm_Subject parsed) ∧
    rm_FromEmail m = to_valid (pm_FromEmail parsed) ∧ t_ns (rm_ReceivedAt m) = received job parsed ∧
    rm_AttachmentNames m = to_valid <$> names_of (Attachments parsed) ∧
    F' !! path_of (DataDir cfg) (ID job) Pdf = Some pdf ∧
    ∀ n, n ∈ names_of (Attachments parsed) →
      F' !! path_of (DataDir cfg) (ID job) (Attached n) = Some (content_of n (Attachments parsed)).
Proof.
  intros Hid Hp Hm F'. unfold F'. clear F'.
  assert (Hoff : t_off (rm_ReceivedAt (meta_of job parsed (names_of (Attachments parsed)))) mod 60 = 0).
  { cbn [rm_ReceivedAt meta_of]. case_match; [done|]. by eapply parsed_offset. }
  destruct (Unmarshal_Marshal _ _ Hoff Hm) as [z Hz].
  exists (with_default_time job (mk_RenderMeta (to_valid (pm_Subject parsed)) (to_valid (pm_FromEmail parsed))
    (mk_Time (received job parsed) (t_off (rm_ReceivedAt (meta_of job parsed (names_of (Attachments parsed))))) z)
    (to_valid <$> names_of (Attachments parsed)))).
  assert (Hns : t_ns (rm_ReceivedAt (meta_of job parsed (names_of (Attachments parsed)))) = received job parsed).
  { cbn [rm_ReceivedAt meta_of]. unfold received. by destruct (IsZero (pm_ReceivedAt parsed)). }
  rewrite Hns in Hz. unfold with_default_time. rewrite (meta_path_of _ _ Hid), (pdf_path_of _ _ Hid).
  split; [|split; [by case_match|split; [by case_match|split; [|split; [by case_match|split] ] ] ] ].
  - exists meta. eexists. split; [|split; [exact Hz|done] ]. apply lookup_insert_eq.
  - case_match eqn:E; [|done]. cbn [rm_ReceivedAt t_ns UTC] in *. unfold received in *. unfold IsZero in *. cbn [t_ns] in E.
    destruct (t_ns (pm_ReceivedAt parsed) =? zero_ns) eqn:E2; [done|]. congruence.
  - rewrite lookup_insert_ne by (intros Heq; by apply path_of_inj in Heq as [_ ?]). apply lookup_insert_eq.
  - intros n Hn. assert (Hc : component n).
    { apply list_elem_of_fmap in Hn as (b & -> & _). apply plain_component, SanitizeFilename_plain. }
    rewrite !lookup_insert_ne by (intros Heq; by apply path_of_inj in Heq as [_ ?]).
    rewrite <- attached_path_of by done. by apply put_attachments_lookup.
Qed.

Lemma rendered_package orc lo hi cfg job raw stage F F' (dates : ∀ d t, ParseDate d = Ok t → t_off t mod 60 = 0) :
  plain_id (ID job) → rendered orc lo hi (DataDir cfg) job raw stage F F' →
  ∃ parsed pdf m, parseMessage raw = Some (Ok parsed) ∧
    returns orc lo hi (RenderHTML (buildHTMLWrapper parsed)) (Ok pdf) ∧
    meta_for cfg job F' m ∧ rm_Subject m = to_valid (pm_Subject parsed) ∧
    rm_FromEmail m = to_valid (pm_FromEmail parsed) ∧ t_ns (rm_ReceivedAt m) = received job parsed ∧
    rm_AttachmentNames m = to_valid <$> names_of (Attachments parsed) ∧
    F' !! path_of (DataDir cfg) (ID job) Pdf = Some pdf ∧
    ∀ n, n ∈ names_of (Attachments parsed) →
      F' !! path_of (DataDir cfg) (ID job) (Attached n) = Some (content_of n (Attachments parsed)).
Proof.
  intros Hid (-> & parsed & pdf & meta & Hp & Hr & Hm & ->). exists parsed, pdf.
  destruct (written_package cfg job raw parsed pdf meta F dates Hid Hp Hm) as (m & H). by exists m.
Qed.

Lemma package_of cfg job m F pdf l :
  plain_id (ID job) → rm_AttachmentNames m = names_of l →
  F !! path_of (DataDir cfg) (ID job) Pdf = Some pdf →
  (∀ n, n ∈ names_of l → F !! path_of (DataDir cfg) (ID job) (Attached n) = Some (content_of n l)) →
  package cfg job m F = ("email.pdf", pdf) :: ((λ n, (n, content_of n l)) <$> names_of l).
Proof.
  intros Hid Hnames Hpdf Hatt. unfold package. rewrite Hnames. unfold path_of in *. cbn [comps] in *.
  rewrite Hpdf. cbn [app]. f_equal. revert Hatt. generalize (names_of l). intros ns Hatt.
  induction ns as [|n ns IH]; [done|]. cbn [flat_map]. rewrite fmap_cons, Hatt by apply list_elem_of_here.
  cbn [app]. f_equal. apply IH. intros n' Hn'. apply Hatt. by right.
Qed.

(** C34. From Gmail to the upload stage: when fetch and render succeeded for a
    job and nobody else wrote the job's files in between, the upload stage
    finds, with the message's subject, sender and time, the renderer's PDF of
    the page of the very message the Gmail client fetched, and, if their names
    are valid UTF-8, the attachments of that message with their content.  (The
    zones of dates in mail have whole minutes, and the job's id has no slash,
    dot or colon.) *)
Theorem pipeline_delivers orc cfg key job i1 s1 stage1 j1 t1 i2 s2 stage2 j2 t2 s3 :
  (∀ d t, ParseDate d = Ok t → t_off t mod 60 = 0) → plain_id (ID job) →
  run orc (Fetch (DataDir cfg) key job) i1 s1 = Some (Ok stage1, j1, t1) →
  undisturbed (DataDir cfg) (ID job) t1 s2 →
  run orc (Render (DataDir cfg) job) i2 s2 = Some (Ok stage2, j2, t2) →
  undisturbed (DataDir cfg) (ID job) t2 s3 →
  ∃ gid client raw c' parsed pdf m,
    GmailMessageID job = Some gid ∧ returns orc i1 j1 (FetchMessage client gid) (Ok raw, c') ∧
    parseMessage raw = Some (Ok parsed) ∧
    returns orc i2 j2 (RenderHTML (buildHTMLWrapper parsed)) (Ok pdf) ∧
    meta_for cfg job (files s3) m ∧ rm_Subject m = to_valid (pm_Subject parsed) ∧
    rm_FromEmail m = to_valid (pm_FromEmail parsed) ∧ t_ns (rm_ReceivedAt m) = received job parsed ∧
    rm_AttachmentNames m = to_valid <$> names_of (Attachments parsed) ∧
    (Forall (λ n, to_valid n = n) (names_of (Attachments parsed)) →
       package cfg job m (files s3) =
       ("email.pdf", pdf) :: ((λ n, (n, content_of n (Attachments parsed))) <$> names_of (Attachments parsed))).
Proof.
  intros dates Hid Hfetch Hu1 Hrender Hu2.
  destruct (writes_Fetch orc (DataDir cfg) key job i1 j1 i1 s1 (Ok stage1) j1 t1) as (_ & _ & HF); [done..|].
  destruct (HF _ eq_refl) as (_ & u & gid & client & raw & c' & _ & Hgid & _ & Hraw & Hf1).
  destruct (writes_Render orc (DataDir cfg) job i2 j2 i2 s2 (Ok stage2) j2 t2) as (_ & _ & HR); [done..|].
  destruct (HR _ eq_refl) as (raw' & Hraw' & Hrendered).
  assert (raw' = raw) as ->.
  { change (files s2 !! path_of (DataDir cfg) (ID job) Mime = Some raw') in Hraw'.
    rewrite Hu1 in Hraw' by by exists Mime. rewrite Hf1, (eml_path_of _ _ Hid), lookup_insert_eq in Hraw'. congruence. }
  destruct (rendered_package _ _ _ _ _ _ _ _ _ dates Hid Hrendered)
    as (parsed & pdf & m & Hp & Hpdf & Hm & Hsub & Hfrom & Hns & Hnames & Hfp & Hfa).
  exists gid, client, raw, c', parsed, pdf, m. do 4 (split; [done|]). split.
  - destruct Hm as (mb & m0 & Hmb & ? & ?). exists mb, m0. split; [|done].
    change (files s3 !! path_of (DataDir cfg) (ID job) Meta = Some mb). rewrite Hu2; [done|by exists Meta].
  - do 4 (split; [done|]). intros Hv. apply package_of; [done| | |].
    + rewrite Hnames. clear -Hv. induction Hv as [|n ns Hn _ IH]; [done|]. by rewrite fmap_cons, Hn, IH.
    + rewrite Hu2 by by exists Pdf. done.
    + intros n Hn. rewrite Hu2; [by apply Hfa|]. exists (Attached n). split; [|done].
      apply list_elem_of_fmap in Hn as (b & -> & _). apply plain_component, SanitizeFilename_plain.
Qed.
End pipeline.

(** ** Witnesses *)
Import SchemaModel RedisModel DriveModel AeadModel EffectsModel MimeModel.

Lemma parse_offset_minutes l off : parse_offset l = Some off → off mod 60 = 0.
Proof.
  unfold parse_offset. repeat (case_match; try done); try (by intros [= <-]); subst;
    (destruct (field 0 23 _); [|done]); cbn [mbind option_bind];
    (destruct (field 0 59 _); [|done]); cbn [mbind option_bind]; repeat case_decide; try done; intros [= <-];
    rewrite <- ?Z.mul_opp_l; apply Z.mod_mul; lia.
Qed.

Lemma parseRFC3339_minutes l t : parseRFC3339 l = Some t → t_off t mod 60 = 0.
Proof.
  unfold parseRFC3339. do 19 (destruct l as [|? l]; [done|]).
  repeat (match goal with |- context [field ?a ?b ?x] => destruct (field a b x); [|done]; cbn [mbind option_bind] end).
  case_decide; [|done]. destruct (parse_frac l) as [ns rest]. destruct (parse_offset rest) as [off|] eqn:E; [|done].
  intros [= <-]. by eapply parse_offset_minutes.
Qed.

Lemma model_dates d t : ParseDate d = Ok t → t_off t mod 60 = 0.
Proof.
  cbn [ParseDate mail_model]. destruct (parseRFC3339 _) as [t'|] eqn:E; [|done]. intros [= ->].
  by eapply parseRFC3339_minutes.
Qed.

Lemma plain_test_id : plain_id (ID upload_job).
Proof. split; [done|]. split; reflexivity. Qed.

Lemma jobs_isolated_witness :
  (∃ r i' s', run (calm_api test_api) (Fetch "/data" test_key upload_job) 0 signed_up = Some (r, i', s') ∧
     ∀ p, job_file "/data" "8" p → files s' !! p = files signed_up !! p) ∧
  (∃ r i' s', run (calm_api test_api) (Render "/data" upload_job) 0 signed_up = Some (r, i', s') ∧
     ∀ p, job_file "/data" "8" p → files s' !! p = files signed_up !! p).
Proof.
  apply (jobs_isolated (calm_api test_api) "/data" test_key upload_job "8").
  - apply plain_test_id.
  - split; [done|]. split; reflexivity.
  - done.
Defined.

(** A message with an attachment. *)
Definition mail (name : string) : string :=
  unlines ["From: Bob <bob@example.com>"; "Subject: Report"; "Content-Type: multipart/mixed; boundary=b"; EmptyString;
    "--b"; "Content-Type: text/plain"; EmptyString; "Hello"; "--b"; "Content-Type: application/pdf";
    "Content-Disposition: attachment; filename=" +:+ name; EmptyString; "CONTENT"; "--b--"].

Definition mail_api (name : string) (X : Type) (rq : api_req X) : result X :=
  match rq in @api_req _ X return result X with
  | NewService => Ok tt
  | TokenSource _ => Ok test_token
  | HistoryList _ _ _ _ => Ok test_history
  | MessagesList _ _ _ t => Ok (test_pages t)
  | MessagesGet _ _ _ => Ok (EncodeToString URLEncoding false (mail name))
  | GetProfile _ => Ok 7%N
  | RenderPost _ => Ok (200, "PDF", None)
  end.

Definition fetch_run (name : string) := run (calm_api (mail_api name)) (Fetch "/data" test_key upload_job) 0 signed_up.
Definition after {A} (r : option (A * nat * shared)) : shared := match r with Some (_, _, s) => s | None => signed_up end.
Definition render_run (name : string) :=
  run (calm_api (mail_api name)) (Render "/data" upload_job) 0 (after (fetch_run name)).

Definition stage_of (r : option (result string * nat * shared)) : option string :=
  match r with Some (Ok st, _, _) => Some st | _ => None end.

Lemma stage_of_run r st : stage_of r = Some st → ∃ i s, r = Some (Ok st, i, s).
Proof. destruct r as [ [ [ [st'|e] i] s]|]; cbn; [|done..]. intros [= ->]. by exists i, s. Qed.

Lemma after_run {A} (r : option (A * nat * shared)) a i s : r = Some (a, i, s) → after r = s.
Proof. by intros ->. Qed.

Lemma fetched_q1 : stage_of (fetch_run "q1.pdf") = Some "render".
Proof. vm_compute. reflexivity. Qed.
Lemma rendered_q1 : stage_of (render_run "q1.pdf") = Some "upload".
Proof. vm_compute. reflexivity. Qed.

Lemma pipeline_delivers_witness :
  ∃ stage1 j1 t1 stage2 j2 t2,
    run (calm_api (mail_api "q1.pdf")) (Fetch "/data" test_key upload_job) 0 signed_up = Some (Ok stage1, j1, t1) ∧
    run (calm_api (mail_api "q1.pdf")) (Render "/data" upload_job) 0 t1 = Some (Ok stage2, j2, t2) ∧
    ∃ gid client raw c' parsed pdf m,
    GmailMessageID upload_job = Some gid ∧
    returns (calm_api (mail_api "q1.pdf")) 0 j1 (FetchMessage client gid) (Ok raw, c') ∧
    parseMessage raw = Some (Ok parsed) ∧
    returns (calm_api (mail_api "q1.pdf")) 0 j2 (RenderHTML (buildHTMLWrapper parsed)) (Ok pdf) ∧
    meta_for test_config upload_job (files t2) m ∧ rm_Subject m = to_valid (pm_Subject parsed) ∧
    rm_FromEmail m = to_valid (pm_FromEmail parsed) ∧ t_ns (rm_ReceivedAt m) = received upload_job parsed ∧
    rm_AttachmentNames m = to_valid <$> names_of (Attachments parsed) ∧
    (Forall (λ n, to_valid n = n) (names_of (Attachments parsed)) →
       package test_config upload_job m (files t2) =
       ("email.pdf", pdf) :: ((λ n, (n, content_of n (Attachments parsed))) <$> names_of (Attachments parsed))).
Proof.
  destruct (stage_of_run _ _ fetched_q1) as (j1 & t1 & E1). destruct (stage_of_run _ _ rendered_q1) as (j2 & t2 & E2).
  unfold render_run in E2. rewrite (after_run _ _ _ _ E1) in E2. unfold fetch_run in E1.
  exists "render", j1, t1, "upload", j2, t2. split; [exact E1|]. split; [exact E2|].
  apply (pipeline_delivers (calm_api (mail_api "q1.pdf")) test_config test_key upload_job 0 signed_up "render" j1 t1
    0 t1 "upload" j2 t2 t2).
  - exact model_dates.
  - apply plain_test_id.
  - exact E1.
  - intros p _. reflexivity.
  - exact E2.
  - intros p _. reflexivity.
Defined.

(** ** Findings *)

(** A file name of 201 bytes whose 200th byte is in the middle of a rune. *)
Definition long_name : string := String.string_of_list_ascii (replicate 199 "a"%char) +:+ "é".

Lemma fetched_long : stage_of (fetch_run long_name) = Some "render".
Proof. vm_compute. reflexivity. Qed.
Lemma rendered_long : stage_of (render_run long_name) = Some "upload".
Proof. vm_compute. reflexivity. Qed.

(** The metadata on disk after the render stage. *)
Definition long_text : string := default EmptyString (files (after (render_run long_name)) !! "/data/meta/u7.json").
Definition long_meta : RenderMeta := match UnmarshalMeta long_text with Ok m => m | Err _ => test_meta end.

Lemma long_on_disk : files (after (render_run long_name)) !! "/data/meta/u7.json" = Some long_text.
Proof. vm_compute. reflexivity. Qed.
Lemma long_read : UnmarshalMeta long_text = Ok long_meta.
Proof. vm_compute. reflexivity. Qed.
Lemma long_listed : rm_AttachmentNames long_meta = [to_valid (SanitizeFilename long_name)].
Proof. vm_compute. reflexivity. Qed.
Lemma long_missing : files (after (render_run long_name)) !!
  Join ["/data"; "attachments"; "u7"; to_valid (SanitizeFilename long_name)] = None.
Proof. vm_compute. reflexivity. Qed.

(** The name an attachment gets on disk is cut at 200 bytes, in the middle
    of a rune if need be; the metadata, being JSON, name it with a replacement
    character instead.  The upload stage then looks for a file that is not
    there: the message is fetched and rendered, and every attempt to upload it
    fails, whatever the services do. *)
Theorem long_name_strands :
  ∃ i1 s1 i2 s2, fetch_run long_name = Some (Ok "render", i1, s1) ∧
    render_run long_name = Some (Ok "upload", i2, s2) ∧
    ∀ orc i s, files s = files s2 →
      ∃ e i' s', run orc (Upload test_config test_key upload_job) i s = Some (Err e, i', s').
Proof.
  destruct (stage_of_run _ _ fetched_long) as (i1 & s1 & E1). destruct (stage_of_run _ _ rendered_long) as (i2 & s2 & E2).
  exists i1, s1, i2, s2. split; [done|]. split; [done|]. intros orc i s Hs.
  destruct (run_total orc _ i s (Upload_total test_config test_key upload_job)) as ([st|e] & i' & s' & Hrun);
    [exfalso|by exists e, i', s'].
  rewrite <- (after_run _ _ _ _ E2) in Hs.
  destruct (run_Upload_read orc test_config test_key upload_job (with_default_time upload_job long_meta) i s st i' s'
    (to_valid (SanitizeFilename long_name))) as [d Hd]; [| |done|].
  - exists long_text, long_meta. rewrite Hs. split; [exact long_on_disk|]. split; [exact long_read|done].
  - unfold with_default_time. destruct (IsZero _); cbn [rm_AttachmentNames]; rewrite long_listed; apply list_elem_of_here.
  - rewrite Hs in Hd. enough (None = Some d) by done. rewrite <- long_missing. exact Hd.
Qed.
