(* ===== verification/Ratelimit.v ===== *)
(** * The rate limiter: internal/api/ratelimit.go

    A bucket's [tokens float64] are counted exactly, in nanoseconds of refill:
    one token is worth [interval], so a refill adds the elapsed time. *)
From S2P Require Import Prelude GoStrings Utf8 Paths.
Local Open Scope Z_scope.

Record bucketState := mk_bucketState { tokens : Z; lastSeen : Z }.

Record tokenBucket := mk_tokenBucket {
  buckets : gmap string bucketState;
  interval : Z;
  burst : Z
}.

Definition newTokenBucket (interval burst : Z) : tokenBucket := mk_tokenBucket ∅ interval burst.

Definition put (key : string) (b : bucketState) (t : tokenBucket) : tokenBucket :=
  mk_tokenBucket (<[key := b]> (buckets t)) (interval t) (burst t).

(** [Allow] at time [now]; the mutex makes a call atomic. *)
Definition Allow (t : tokenBucket) (key : string) (now : Z) : bool * tokenBucket :=
  match buckets t !! key with
  | None => (true, put key (mk_bucketState ((burst t - 1) * interval t) now) t)
  | Some b =>
      let elapsed := now - lastSeen b in
      let n := tokens b + elapsed in
      let n := if burst t * interval t <? n then burst t * interval t else n in
      if n <? interval t then (false, put key (mk_bucketState n now) t)
      else (true, put key (mk_bucketState (n - interval t) now) t)
  end.

(** ** clientIP *)

Record request := mk_request {
  cf_connecting_ip : string;
  x_forwarded_for : string;
  RemoteAddr : string
}.

Definition clientIP (r : request) : string :=
  if negb (bool_decide (cf_connecting_ip r = EmptyString)) then cf_connecting_ip r
  else if negb (bool_decide (x_forwarded_for r = EmptyString)) then
    match Cut "," (x_forwarded_for r) with
    | Some (first, _) => trim_space first
    | None => trim_space (x_forwarded_for r)
    end
  else default (RemoteAddr r) (before_last ":" (RemoteAddr r)).

(** ** Sequences of calls *)

Fixpoint Allow_all (t : tokenBucket) (calls : list (string * Z)) : list bool * tokenBucket :=
  match calls with
  | [] => ([], t)
  | (key, now) :: calls =>
      let '(ok, t) := Allow t key now in
      let '(oks, t) := Allow_all t calls in (ok :: oks, t)
  end.

(** The calls come in the order of the clock, which has reached [t0]. *)
Fixpoint in_order (t0 : Z) (calls : list (string * Z)) : Prop :=
  match calls with
  | [] => True
  | (_, now) :: calls => t0 ≤ now ∧ in_order now calls
  end.

(** How many calls with the key were allowed. *)
Fixpoint allowed (key : string) (calls : list (string * Z)) (oks : list bool) : Z :=
  match calls, oks with
  | (k, _) :: calls, ok :: oks =>
      (if bool_decide (k = key) && ok then 1 else 0) + allowed key calls oks
  | _, _ => 0
  end.

(** The buckets at time [now]: between none and [burst] tokens, not seen in
    the future. *)
Definition bucket_ok (t : tokenBucket) (now : Z) (b : bucketState) : Prop :=
  0 ≤ tokens b ≤ burst t * interval t ∧ lastSeen b ≤ now.

Definition limiter_ok (t : tokenBucket) (now : Z) : Prop :=
  0 < interval t ∧ 1 ≤ burst t ∧ ∀ key b, buckets t !! key = Some b → bucket_ok t now b.

(** What the key may still use at time [now]. *)
Definition credit (t : tokenBucket) (key : string) (now : Z) : Z :=
  match buckets t !! key with
  | None => burst t * interval t
  | Some b => Z.min (burst t * interval t) (tokens b + (now - lastSeen b))
  end.

Lemma Allow_spec t key now t0 :
  limiter_ok t t0 → t0 ≤ now →
  let '(ok, t') := Allow t key now in
  interval t' = interval t ∧ burst t' = burst t ∧ limiter_ok t' now ∧
  credit t' key now = credit t key now - (if ok then interval t else 0) ∧
  (ok = true ↔ interval t ≤ credit t key now) ∧
  ∀ k, k ≠ key → buckets t' !! k = buckets t !! k.
Proof.
  intros (Hi & Hb & Hok) Hnow. unfold Allow, credit. destruct (buckets t !! key) as [b|] eqn:Hk.
  - destruct (Hok key b Hk) as [Hn Hs].
    set (n := if burst t * interval t <? tokens b + (now - lastSeen b) then _ else _).
    assert (Hmin : n = Z.min (burst t * interval t) (tokens b + (now - lastSeen b))).
    { unfold n. destruct (Z.ltb_spec (burst t * interval t) (tokens b + (now - lastSeen b))); lia. }
    destruct (Z.ltb_spec n (interval t)) as [Hlt|Hge]; cbn [put buckets interval burst]; rewrite lookup_insert_eq;
      cbn [tokens lastSeen]; (split; [done|]); (split; [done|]);
      (split; [split; [done|]; split; [done|]; intros k b'; cbn [put buckets]; rewrite lookup_insert_Some;
         intros [ [<- <-]|[Hne Hk'] ]; [split; cbn [tokens lastSeen put burst interval]; lia|
         destruct (Hok k b' Hk'); split; [done|lia] ]|]);
      (split; [lia|]); (split; [split; [lia||done|intros; lia||done]|]);
      intros k Hne; by rewrite lookup_insert_ne.
  - cbn [put buckets interval burst]. rewrite lookup_insert_eq. cbn [tokens lastSeen].
    split; [done|]. split; [done|]. split; [|split; [nia|split; [split; [intros; nia|done]|] ] ].
    + split; [done|]. split; [done|]. intros k b'. cbn [put buckets]. rewrite lookup_insert_Some.
      intros [ [<- <-]|[Hne Hk'] ]; [split; cbn [tokens lastSeen put burst interval]; nia|].
      destruct (Hok k b' Hk'). split; [done|lia].
    + intros k Hne. by rewrite lookup_insert_ne.
Qed.

Lemma credit_mono t key t0 now :
  limiter_ok t t0 → t0 ≤ now → credit t key now ≤ credit t key t0 + (now - t0).
Proof. intros _ Hn. unfold credit. destruct (buckets t !! key); lia. Qed.

Lemma credit_le t key now : credit t key now ≤ burst t * interval t.
Proof. unfold credit. destruct (buckets t !! key); lia. Qed.

Lemma limiter_ok_later t t0 now : limiter_ok t t0 → t0 ≤ now → limiter_ok t now.
Proof.
  intros (Hi & Hb & Hok) Hn. split; [done|]. split; [done|]. intros k b Hk.
  destruct (Hok k b Hk). split; [done|lia].
Qed.

Lemma Allow_all_allowed t key calls t0 t1 :
  limiter_ok t t0 → in_order t0 calls → t0 ≤ t1 → Forall (λ c, c.2 ≤ t1) calls →
  interval t * allowed key calls (Allow_all t calls).1 ≤ credit t key t0 + (t1 - t0).
Proof.
  revert t t0. induction calls as [|[k now] calls IH]; intros t t0 Hok Hord Ht Hall.
  { cbn [Allow_all fst allowed]. unfold credit. destruct Hok as (Hi & Hb & Hok).
    destruct (buckets t !! key) as [b|] eqn:Hk; [|nia]. destruct (Hok _ _ Hk). nia. }
  destruct Hord as [Hnow Hord]. apply Forall_cons in Hall as [Hle Hall]. cbn [snd] in Hle.
  cbn [Allow_all]. pose proof (Allow_spec t k now t0 Hok Hnow) as H.
  destruct (Allow t k now) as [ok t']. destruct H as (Hi & Hb & Hok' & Hcr & _ & Hoth).
  specialize (IH t' now Hok' Hord Hle Hall). destruct (Allow_all t' calls) as [oks t'']. cbn [fst] in *.
  cbn [allowed]. rewrite Hi in IH. pose proof (credit_mono t key t0 now Hok Hnow).
  destruct (decide (k = key)) as [->|Hne].
  - rewrite bool_decide_eq_true_2 by done. cbn [andb]. destruct ok; lia.
  - rewrite bool_decide_eq_false_2 by done. cbn [andb].
    assert (credit t' key now = credit t key now) as Hc by (unfold credit; rewrite Hoth, Hi, Hb by done; done).
    lia.
Qed.

Lemma newTokenBucket_ok interval burst now :
  0 < interval → 1 ≤ burst → limiter_ok (newTokenBucket interval burst) now.
Proof. intros. split; [done|]. split; [done|]. intros k b. unfold newTokenBucket. cbn [buckets]. by rewrite lookup_empty. Qed.

Lemma in_order_app t0 pre seg : in_order t0 (pre ++ seg) →
  in_order t0 pre ∧ ∃ t1, t0 ≤ t1 ∧ in_order t1 seg ∧ Forall (λ c, c.2 ≤ t1) pre.
Proof.
  revert t0. induction pre as [|[k now] pre IH]; intros t0; simpl; [intros H; split; [done|by exists t0]|].
  intros [Hn H]. destruct (IH now H) as (Hp & t1 & Ht & Hs & Hall). split; [done|].
  exists t1. split; [lia|]. split; [done|]. by constructor.
Qed.

Lemma Allow_all_ok t calls t0 t1 :
  limiter_ok t t0 → in_order t0 calls → t0 ≤ t1 → Forall (λ c, c.2 ≤ t1) calls →
  let t' := (Allow_all t calls).2 in limiter_ok t' t1 ∧ interval t' = interval t ∧ burst t' = burst t.
Proof.
  revert t t0. induction calls as [|[k now] calls IH]; intros t t0 Hok Hord Ht Hall; cbv zeta.
  { split; [by eapply limiter_ok_later|done]. }
  destruct Hord as [Hnow Hord]. apply Forall_cons in Hall as [Hle Hall]. cbn [snd] in Hle. cbn [Allow_all].
  pose proof (Allow_spec t k now t0 Hok Hnow) as H.
  destruct (Allow t k now) as [ok t']. destruct H as (Hi & Hb & Hok' & _).
  specialize (IH t' now Hok' Hord Hle Hall). destruct (Allow_all t' calls) as [oks t'']. cbn [snd] in *.
  destruct IH as (? & ? & ?). split; [done|]. split; congruence.
Qed.

(** ** Properties *)

(** C39. The rate limit: whatever calls with whatever keys came before, within
    any stretch of time of length [t1 - t0] at most [burst] plus one per
    [interval] of the calls with one key are allowed. *)
Theorem Allow_window iv b pre seg key t t0 t1 :
  0 < iv → 1 ≤ b → in_order t (pre ++ seg) → Forall (λ c, t0 ≤ c.2 ≤ t1) seg → t0 ≤ t1 →
  let limiter := (Allow_all (newTokenBucket iv b) pre).2 in
  allowed key seg (Allow_all limiter seg).1 ≤ b + (t1 - t0) / iv.
Proof.
  intros Hiv Hb Hord Hseg Ht. cbv zeta. apply in_order_app in Hord as (Hpre & tm & Htm & Hs & Hall).
  destruct seg as [|[k now] seg].
  { cbn [Allow_all fst allowed]. pose proof (Z.div_pos (t1 - t0) iv). lia. }
  assert (Hok : limiter_ok (newTokenBucket iv b) t) by by apply newTokenBucket_ok.
  destruct (Allow_all_ok _ pre t tm Hok Hpre Htm Hall) as (Hok' & Hi & Hb'). cbn in Hi, Hb'.
  set (l := (Allow_all (newTokenBucket iv b) pre).2) in *. destruct Hs as [Hs0 Hs].
  assert (Hnow : t0 ≤ now ≤ t1) by (apply Forall_cons in Hseg as [? _]; done).
  pose proof (Allow_all_allowed l key ((k, now) :: seg) now t1) as H.
  rewrite Hi in H. pose proof (credit_le l key now) as Hc. rewrite Hi, Hb' in Hc.
  assert (Hbound : iv * allowed key ((k, now) :: seg) (Allow_all l ((k, now) :: seg)).1 ≤ b * iv + (t1 - t0)).
  { etrans; [apply H|lia]; [by eapply limiter_ok_later|by split|lia|].
    eapply Forall_impl; [exact Hseg|]. intros c Hc'. cbn in Hc'. lia. }
  replace (b + (t1 - t0) / iv) with ((b * iv + (t1 - t0)) / iv) by (rewrite Z.div_add_l; lia).
  apply Z.div_le_lower_bound; lia.
Qed.

(** No starvation: whatever happened before, a caller whose last call is
    at least one interval ago, or who is new, is let through; and calls with
    one key never change what another key may use. *)
Theorem Allow_waits iv b pre key t now :
  0 < iv → 1 ≤ b → in_order t (pre ++ [(key, now)]) →
  Forall (λ c, c.1 = key → c.2 + iv ≤ now) pre →
  let limiter := (Allow_all (newTokenBucket iv b) pre).2 in
  (Allow limiter key now).1 = true ∧
  ∀ key', key' ≠ key → buckets (Allow limiter key now).2 !! key' = buckets limiter !! key'.
Proof.
  intros Hiv Hb Hord Hwait. cbv zeta. apply in_order_app in Hord as (Hpre & tm & Htm & [Hs _] & Hall).
  assert (Hok : limiter_ok (newTokenBucket iv b) t) by by apply newTokenBucket_ok.
  destruct (Allow_all_ok _ pre t tm Hok Hpre Htm Hall) as (Hok' & Hi & Hb'). cbn in Hi, Hb'.
  assert (Hseen : ∀ bk, buckets (Allow_all (newTokenBucket iv b) pre).2 !! key = Some bk → lastSeen bk + iv ≤ now).
  { assert (Hgen : ∀ l calls, Forall (λ c : string * Z, c.1 = key → c.2 + iv ≤ now) calls →
      (∀ bk, buckets l !! key = Some bk → lastSeen bk + iv ≤ now) →
      ∀ bk, buckets (Allow_all l calls).2 !! key = Some bk → lastSeen bk + iv ≤ now);
      [|apply Hgen; [done|]; intros bk; unfold newTokenBucket; cbn [buckets]; by rewrite lookup_empty].
    intros l calls Hc. revert l. induction Hc as [|[k n] calls Hkn _ IH]; intros l Hl; [done|].
    cbn [Allow_all]. destruct (Allow l k n) as [ok l'] eqn:Ha.
    specialize (IH l'). destruct (Allow_all l' calls) as [oks l'']. apply IH. clear IH. intros bk.
    unfold Allow in Ha. destruct (buckets l !! k) as [b0|]; [case_match|]; injection Ha as <- <-;
      cbn [put buckets]; rewrite lookup_insert_Some; intros [ [-> <-]|[? ?] ]; simpl; auto. }
  pose proof (Allow_spec _ key now tm Hok' Hs) as H. set (l := (Allow_all _ pre).2) in *.
  destruct (Allow l key now) as [ok l']. destruct H as (_ & _ & _ & _ & Hallow & Hoth).
  split; [|exact Hoth]. apply Hallow. rewrite Hi. unfold credit. destruct Hok' as (_ & _ & Hbk).
  destruct (buckets l !! key) as [bk|] eqn:Hk; [|rewrite Hi, Hb'; nia].
  destruct (Hbk _ _ Hk) as [Hn _]. specialize (Hseen bk eq_refl). rewrite Hi, Hb'. nia.
Qed.

(** Without the proxy's header, the key of the limit is whatever the client
    writes into X-Forwarded-For: it can have a fresh bucket for every call. *)
Lemma clientIP_forged r s :
  cf_connecting_ip r = EmptyString → x_forwarded_for r = s → s ≠ EmptyString →
  contains_byte "," s = false → trim_space s = s → clientIP r = s.
Proof.
  intros Hcf Hx Hs Hc Ht. unfold clientIP. rewrite Hcf, Hx, bool_decide_eq_true_2 by done.
  rewrite bool_decide_eq_false_2 by done. cbn [negb]. by rewrite (proj2 (Cut_None _ _) Hc).
Qed.

(** ** Witnesses *)

Definition test_calls : list (string * Z) := [("ip1", 0); ("ip1", 10); ("ip2", 20); ("ip1", 30); ("ip1", 1000)].

Lemma Allow_window_witness :
  let limiter := (Allow_all (newTokenBucket 1000 2) []).2 in
  allowed "ip1" test_calls (Allow_all limiter test_calls).1 = 3 ∧ 3 ≤ 2 + (1000 - 0) / 1000 ∧
  allowed "ip1" test_calls (Allow_all limiter test_calls).1 ≤ 2 + (1000 - 0) / 1000.
Proof.
  split; [vm_compute; reflexivity|]. split; [vm_compute; discriminate|].
  apply (Allow_window 1000 2 [] test_calls "ip1" 0 0 1000).
  - lia.
  - lia.
  - simpl. lia.
  - repeat constructor; simpl; lia.
  - lia.
Defined.

Lemma Allow_waits_witness :
  let limiter := (Allow_all (newTokenBucket 1000 1) [("ip1", 0); ("ip1", 5)]).2 in
  (Allow limiter "ip1" 1005).1 = true ∧
  ∀ key', key' ≠ "ip1" → buckets (Allow limiter "ip1" 1005).2 !! key' = buckets limiter !! key'.
Proof.
  apply (Allow_waits 1000 1 [("ip1", 0); ("ip1", 5)] "ip1" 0 1005).
  - lia.
  - lia.
  - simpl. lia.
  - repeat constructor; simpl; lia.
Defined.
