(* ===== verification/Api.v ===== *)
(** * The HTTP API: internal/api

    The demo endpoints, the dashboard's JSON endpoints and the metrics
    collector.  A response is its status and the value its JSON body encodes;
    routes are in Server.v, headers other than Retry-After and the static page
    are left out. *)
From stdpp Require Import sorting.
From S2P Require Import Prelude Redis Schema GoStrings Services Effects Queue Store Worker Utf8 Paths Ratelimit.
Local Open Scope Z_scope.

Section api.
Context `{UL : UuidLib} `{PG : !PgServer} `{RS : RedisServer} `{DS : DriveServer}.

Record jobSummary := mk_jobSummary {
  js_ID : string; js_Stage : string; js_Status : string; js_Attempts : Z;
  js_LastError : string; js_GmailMessageID : string;
  js_CreatedAt : Z; js_CompletedAt : option Z
}.

Record statsResponse := mk_statsResponse {
  QueueDepths : gmap string Z;
  JobCounts : gmap string Z;
  AliveWorkers : list string;
  ServerTime : Z
}.

Inductive body :=
| BEnqueued (n : Z)
| BStats (s : statsResponse)
| BJobs (js : list jobSummary)
| BError (msg : string).

Record response := mk_response { code : Z; RetryAfter : option string; resp_body : body }.

Definition writeJSON (status : Z) (b : body) : response := mk_response status None b.
Definition writeJSONErr (status : Z) (msg : string) : response := writeJSON status (BError msg).
Definition retry_after (secs : string) (r : response) : response :=
  mk_response (code r) (Some secs) (resp_body r).

(** ** demo.go *)

(** FloodCooldown is read nowhere: [mountDemo] repeats its value. *)
Record demoConfig := mk_demoConfig { FloodCooldown : Z; BurstSize : Z; FloodSize : Z; SlowSleepMs : Z }.
Definition defaultDemoConfig : demoConfig := mk_demoConfig (60 * 1000000000) 100 1000 5000.

Definition synthStage : string := "test".

(** The two limiters are the state of the routes. *)
Record limits := mk_limits { rl : tokenBucket; floodGate : tokenBucket }.

Definition mountDemo : limits :=
  mk_limits (newTokenBucket 1000000000 5) (newTokenBucket (60 * 1000000000) 1).

Definition json_key (k : string) : string := String "034" (k +:+ String "034" ":").
Definition sleep_payload (ms : Z) : string := "{" +:+ json_key "sleepMs" +:+ pretty ms +:+ "}".
Definition flaky_payload : string :=
  "{" +:+ json_key "sleepMs" +:+ "100," +:+ json_key "failRate" +:+ "0.5}".

Definition synthetic_job (payload : string) : NewJob :=
  {| nj_Stage := synthStage; nj_Payload := Some payload; nj_UserID := None;
     nj_GmailMessageID := None; nj_IsSynthetic := true |}.

Fixpoint enqueueSynthetic (n : nat) (payload : string) (pushed : Z) : prog Z :=
  match n with
  | O => mret pushed
  | S n =>
      j ← EnqueueJob (synthetic_job payload);
      match j with
      | Err _ => enqueueSynthetic n payload pushed
      | Ok j =>
          r ← Push synthStage (uuid_String (ID j));
          match r with
          | Err _ => enqueueSynthetic n payload pushed
          | Ok _ => enqueueSynthetic n payload (pushed + 1)
          end
      end
  end.

(** A query parameter that must lie in 1 .. [hi]. *)
Definition size_param (v : string) (hi def : Z) : Z :=
  if bool_decide (v = EmptyString) then def
  else match Atoi v with
       | Some n => if (0 <? n) && (n <=? hi) then n else def
       | None => def
       end.

Inductive route := Burst (n_param : string) | Slow | Flaky | Flood.

Definition enqueued (n : Z) (payload : string) : prog response :=
  count ← enqueueSynthetic (Z.to_nat n) payload 0;
  mret (writeJSON 200 (BEnqueued count)).

Definition demo_handler (cfg : demoConfig) (rt : route) (st : limits) : prog (response * limits) :=
  match rt with
  | Burst v =>
      resp ← enqueued (size_param v 500 (BurstSize cfg)) (sleep_payload 25); mret (resp, st)
  | Slow => resp ← enqueued 1 (sleep_payload (SlowSleepMs cfg)); mret (resp, st)
  | Flaky => resp ← enqueued 1 flaky_payload; mret (resp, st)
  | Flood =>
      now ← call Now;
      let '(ok, gate) := Allow (floodGate st) "global" now in
      let st := mk_limits (rl st) gate in
      if negb ok then
        mret (retry_after "60" (writeJSONErr 429 "flood already fired in last 60s — cooldown in effect"), st)
      else resp ← enqueued (FloodSize cfg) (sleep_payload 250); mret (resp, st)
  end.

(** tokenBucket.rateLimit around a handler *)
Definition rateLimit (next : limits → prog (response * limits)) (r : request) (st : limits)
    : prog (response * limits) :=
  now ← call Now;
  let '(ok, b) := Allow (rl st) (clientIP r) now in
  let st := mk_limits b (floodGate st) in
  if negb ok then mret (retry_after "1" (writeJSONErr 429 "rate limit exceeded"), st)
  else next st.

Definition demo (rt : route) : request → limits → prog (response * limits) :=
  rateLimit (demo_handler defaultDemoConfig rt).

(** ** dashboard.go *)

Definition count_status (st : JobStatus) (db : DB) : Z :=
  Z.of_nat (length (filter (λ j, Status j = st) (seq_scan (pipeline_jobs db)))).

Definition all_statuses : list JobStatus := [StatusQueued; StatusRunning; StatusDone; StatusDead].

(** SELECT status, count( * ) FROM pipeline_jobs GROUP BY status: no row for
    a status without jobs. *)
Definition sql_counts (db : DB) : list (string * Z) :=
  filter (λ p, p.2 ≠ 0) ((λ st, (status_text st, count_status st db)) <$> all_statuses).

Definition set_all (m : gmap string Z) (l : list (string * Z)) : gmap string Z :=
  foldl (λ m p, <[p.1 := p.2]> m) m l.

Definition zero_counts (m : gmap string Z) : gmap string Z :=
  set_all m ((λ st, (status_text st, 0)) <$> all_statuses).

Definition jobCounts : prog (result (gmap string Z)) :=
  rows ← call (Sql (λ _ db, (Ok (sql_counts db), db)));
  match rows with
  | Err e => mret (Err e)
  | Ok rows => mret (Ok (set_all (zero_counts ∅) rows))
  end.

(** k[len(pre):] *)
Definition drop_prefix (pre k : string) : string :=
  String.substring (String.length pre) (String.length k - String.length pre) k.

Fixpoint alive_loop (fuel : nat) (workers : list string) (cursor : N) : prog (result (list string)) :=
  match fuel with
  | O => NoFuel
  | S fuel =>
      r ← call (cli_Scan cursor "heartbeat:*");
      match r with
      | Err e => mret (Err e)
      | Ok (keys, next) =>
          let workers := workers ++ (drop_prefix "heartbeat:" <$> keys) in
          if decide (next = 0%N) then mret (Ok workers)
          else alive_loop fuel workers next
      end
  end.

Definition aliveWorkers (fuel : nat) : prog (result (list string)) := alive_loop fuel [] 0%N.

Definition stages : list string := ["fetch"; "render"; "upload"; "test"].

Fixpoint depths (ss : list string) (m : gmap string Z) : prog (result (gmap string Z)) :=
  match ss with
  | [] => mret (Ok m)
  | stage :: ss =>
      n ← Depth stage;
      match n with
      | Err e => mret (Err e)
      | Ok n => depths ss (<[stage := n]> m)
      end
  end.

Definition stats (fuel : nat) : prog response :=
  now ← call Now;
  d ← depths stages ∅;
  match d with
  | Err e => mret (writeJSONErr 500 ("queue depth: " +:+ Error e))
  | Ok d =>
      counts ← jobCounts;
      match counts with
      | Err e => mret (writeJSONErr 500 ("job counts: " +:+ Error e))
      | Ok counts =>
          workers ← aliveWorkers fuel;
          match workers with
          | Err e => mret (writeJSONErr 500 ("alive workers: " +:+ Error e))
          | Ok workers => mret (writeJSON 200 (BStats (mk_statsResponse d counts workers now)))
          end
      end
  end.

Definition summary (j : Job) : jobSummary := {|
  js_ID := uuid_String (ID j); js_Stage := Stage j; js_Status := status_text (Status j);
  js_Attempts := Attempts j; js_LastError := default EmptyString (LastError j);
  js_GmailMessageID := default EmptyString (GmailMessageID j);
  js_CreatedAt := CreatedAt j; js_CompletedAt := CompletedAt j |}.

Definition newer_eq (a b : Job) : Prop := CreatedAt b ≤ CreatedAt a.
#[global] Instance newer_eq_dec a b : Decision (newer_eq a b).
Proof. unfold newer_eq. apply _. Defined.

(** ORDER BY created_at DESC LIMIT [limit] *)
Definition sql_recent (limit : Z) (db : DB) : list Job :=
  take (Z.to_nat limit) (merge_sort newer_eq (seq_scan (pipeline_jobs db))).

Definition summaries (js : list Job) : list jobSummary := summary <$> js.

Definition listRecentJobs (limit : Z) : prog (result (list jobSummary)) :=
  call (Sql (λ _ db, (Ok (summaries (sql_recent limit db)), db))).

Definition recentJobs (limit_param : string) : prog response :=
  jobs ← listRecentJobs (size_param limit_param 200 20);
  match jobs with
  | Err e => mret (writeJSONErr 500 ("recent jobs: " +:+ Error e))
  | Ok jobs => mret (writeJSON 200 (BJobs jobs))
  end.

(** ** metrics.go *)

Record gauges := mk_gauges {
  queueDepth : gmap string Z;
  jobCount : gmap string Z;
  aliveGauge : Z;
  lastPoll : Z;
  scrapeErrors : Z
}.

Definition Inc (g : gauges) : gauges :=
  mk_gauges (queueDepth g) (jobCount g) (aliveGauge g) (lastPoll g) (scrapeErrors g + 1).

Fixpoint refresh_depths (ss : list string) (g : gauges) : prog gauges :=
  match ss with
  | [] => mret g
  | stage :: ss =>
      n ← Depth stage;
      match n with
      | Err _ => refresh_depths ss (Inc g)
      | Ok n => refresh_depths ss (mk_gauges (<[stage := n]> (queueDepth g)) (jobCount g)
                  (aliveGauge g) (lastPoll g) (scrapeErrors g))
      end
  end.

Definition refresh_counts (g : gauges) : prog gauges :=
  rows ← call (Sql (λ _ db, (Ok (sql_counts db), db)));
  match rows with
  | Err _ => mret (Inc g)
  | Ok rows =>
      mret (mk_gauges (queueDepth g) (set_all (zero_counts (jobCount g)) rows) (aliveGauge g) (lastPoll g) (scrapeErrors g))
  end.

(** coalesce(extract(epoch from max(updated_at)), 0), in nanoseconds *)
Definition sql_last_poll (db : DB) : Z :=
  default 0 (foldr (λ p m, match m with Some t => Some (Z.max p.2.2 t) | None => Some p.2.2 end) None
    (map_to_list (gmail_sync_state db))).

Definition refresh_poll (g : gauges) : prog gauges :=
  t ← call (Sql (λ _ db, (Ok (sql_last_poll db), db)));
  match t with
  | Err _ => mret (Inc g)
  | Ok t => mret (mk_gauges (queueDepth g) (jobCount g) (aliveGauge g) t (scrapeErrors g))
  end.

(** The heartbeat scan: an error ends it, and what was counted is set. *)
Fixpoint refresh_alive (fuel : nat) (alive : Z) (cursor : N) (g : gauges) : prog gauges :=
  match fuel with
  | O => NoFuel
  | S fuel =>
      let set_alive n (g : gauges) :=
        mk_gauges (queueDepth g) (jobCount g) n (lastPoll g) (scrapeErrors g) in
      r ← call (cli_Scan cursor "heartbeat:*");
      match r with
      | Err _ => mret (set_alive alive (Inc g))
      | Ok (keys, next) =>
          let alive := alive + Z.of_nat (length keys) in
          if decide (next = 0%N) then mret (set_alive alive g)
          else refresh_alive fuel alive next g
      end
  end.

Definition refresh (fuel : nat) (g : gauges) : prog gauges :=
  g ← refresh_depths stages g;
  g ← refresh_counts g;
  g ← refresh_poll g;
  refresh_alive fuel 0 0%N g.

(** ** Lemmas: the demo endpoints, whatever fails *)

(** Up to [n] synthetic jobs of the test stage more; nothing else changed. *)
Record synth (n : nat) (s s' : shared) : Prop := {
  sy_old id j : pipeline_jobs (s_db s) !! id = Some j → pipeline_jobs (s_db s') !! id = Some j;
  sy_new id j : pipeline_jobs (s_db s') !! id = Some j → pipeline_jobs (s_db s) !! id = Some j ∨
    (IsSynthetic j = true ∧ Stage j = synthStage ∧ Status j = StatusQueued ∧ UserID j = None);
  sy_count : (size (pipeline_jobs (s_db s')) ≤ size (pipeline_jobs (s_db s)) + n)%nat;
  sy_tables : users (s_db s') = users (s_db s) ∧ oauth_tokens (s_db s') = oauth_tokens (s_db s) ∧
    gmail_sync_state (s_db s') = gmail_sync_state (s_db s);
  sy_queue : ∃ front, (length front ≤ n)%nat ∧
    rlist (s_redis s') (Queue.key synthStage) = front ++ rlist (s_redis s) (Queue.key synthStage);
  sy_others k : k ≠ Queue.key synthStage → rlist (s_redis s') k = rlist (s_redis s) k
}.

Lemma synth_refl n s s' : s_db s' = s_db s → s_redis s' = s_redis s → synth n s s'.
Proof. intros Hd Hr. constructor; rewrite ?Hd, ?Hr; auto; [lia|]. exists []. split; [simpl; lia|done]. Qed.

Lemma synth_trans n1 n2 s1 s2 s3 : synth n1 s1 s2 → synth n2 s2 s3 → synth (n1 + n2) s1 s3.
Proof.
  intros [O1 N1 C1 T1 (f1 & L1 & Q1) R1] [O2 N2 C2 T2 (f2 & L2 & Q2) R2].
  constructor; [auto| |lia|destruct T1 as (? & ? & ?), T2 as (? & ? & ?); split_and!; congruence| |].
  - intros id j Hj. destruct (N2 id j Hj) as [Hj2|?]; [auto|by right].
  - exists (f2 ++ f1). rewrite length_app. split; [lia|]. by rewrite Q2, Q1, app_assoc.
  - intros k Hk. by rewrite R2, R1.
Qed.

Lemma sql_enqueue_cases id nj p now db :
  (sql_enqueue id nj p now db).2 = db ∨
  ∃ j, pipeline_jobs db !! id = None ∧ IsSynthetic j = nj_IsSynthetic nj ∧ Stage j = nj_Stage nj ∧
    Status j = StatusQueued ∧ UserID j = nj_UserID nj ∧
    (sql_enqueue id nj p now db).2 = with_jobs (<[id := j]> (pipeline_jobs db)) db.
Proof.
  unfold sql_enqueue. cbv zeta. set (j := mk_Job _ _ _ _ _ _ _ _ _ _ _ _ _ _ _ _).
  destruct (decide (is_Some (pipeline_jobs db !! id))) as [|Hn]; [by left|].
  unfold put_job. destruct (decide _); [|by left]. destruct (user_ref_ok _ _); [|by left].
  right. exists j. split_and!; try done. by apply eq_None_not_Some.
Qed.

(** Creating the row. *)
Lemma synth_insert p id t s s1 :
  s_redis s1 = s_redis s →
  (s_db s1 = s_db s ∨ s_db s1 = (sql_enqueue id (synthetic_job p) (default "{}" (nj_Payload (synthetic_job p))) t (s_db s)).2) →
  synth 1 s s1 ∧ rlist (s_redis s1) (Queue.key synthStage) = rlist (s_redis s) (Queue.key synthStage).
Proof.
  intros Hr Hd. split; [|by rewrite Hr]. destruct Hd as [Hd|Hd]; [by apply synth_refl|].
  destruct (sql_enqueue_cases id (synthetic_job p) (default "{}" (nj_Payload (synthetic_job p))) t (s_db s))
    as [He|(j & Hid & Hy & Hs & Hq & Hu & He)]; rewrite He in Hd; [by apply synth_refl|].
  constructor; rewrite ?Hd, ?Hr; cbn [with_jobs pipeline_jobs users oauth_tokens gmail_sync_state]; try done.
  - intros id' j' Hj'. rewrite lookup_insert_ne; [done|]. intros <-. congruence.
  - intros id' j'. rewrite lookup_insert_Some. intros [ [<- <-]|[_ ?] ]; [right|by left]. by split_and!.
  - rewrite map_size_insert_None by done. lia.
  - exists []. split; [simpl; lia|done].
Qed.

Lemma run_EnqueueJob_synth orc p i s r i' s' :
  run orc (EnqueueJob (synthetic_job p)) i s = Some (r, i', s') →
  synth 1 s s' ∧ rlist (s_redis s') (Queue.key synthStage) = rlist (s_redis s) (Queue.key synthStage).
Proof.
  unfold EnqueueJob. rewrite run_bind, run_call. cbn [exec fst snd]. rewrite run_bind, run_call.
  set (id := o_uuid (orc i)). set (f := sql_enqueue _ _ _). set (s0 := elapse (orc i) s).
  pose proof (exec_Sql_cases (orc (S i)) f s0) as Hc. cbv zeta in Hc.
  destruct (exec (orc (S i)) (Sql f) s0) as [x s1]. cbn [fst snd]. destruct Hc as (_ & Hr & Hcases).
  intros H. assert (s' = s1) as ->.
  { destruct x as [j|e]; [by injection H|]. destruct e as [m|c m|m|m e|m e1 e2]; try (by injection H).
    match type of H with context [if ?b then _ else _] => destruct b end; by injection H. }
  apply (synth_insert p id (s_now s0 + Z.of_N (o_dt (orc (S i))))); [done|].
  destruct Hcases as [ [_ ?]|(msg & _ & [?|[_ ?] ])]; [by right|by left|by right].
Qed.

Lemma run_Push_synth orc id i s r i' s' :
  run orc (Push synthStage id) i s = Some (r, i', s') →
  s_db s' = s_db s ∧ (∀ k, k ≠ Queue.key synthStage → rlist (s_redis s') k = rlist (s_redis s) k) ∧
  ∃ front, (length front ≤ 1)%nat ∧
    rlist (s_redis s') (Queue.key synthStage) = front ++ rlist (s_redis s) (Queue.key synthStage).
Proof.
  intros H. assert (s_db s' = s_db s ∧ (s_redis s' = s_redis s ∨
    s_redis s' = LPush (Queue.key synthStage) id (s_redis s))) as [Hd Hr].
  { revert H. unfold Push. rewrite run_bind, run_call. unfold cli_LPush. cbn [fst snd exec].
    destruct (o_fault (orc i)); cbn [with_fault fst snd]; intros [= _ _ <-]; auto. }
  split; [done|]. destruct Hr as [-> | ->]; [split; [done|]; exists []; split; [simpl; lia|done]|]. split.
  - intros k Hk. rewrite rlist_LPush by apply key_list. by rewrite decide_False.
  - exists [id]. split; [simpl; lia|]. rewrite rlist_LPush by apply key_list. by rewrite decide_True.
Qed.

Lemma run_enqueueSynthetic orc n p c i s r i' s' :
  run orc (enqueueSynthetic n p c) i s = Some (r, i', s') →
  synth n s s' ∧ c ≤ r ≤ c + Z.of_nat n.
Proof.
  revert c i s. induction n as [|n IH]; intros c i s; cbn [enqueueSynthetic].
  { intros [= <- <- <-]. split; [by apply synth_refl|lia]. }
  rewrite run_bind. destruct (run orc (EnqueueJob _) i s) as [ [ [j i1] s1]|] eqn:Hj; [|done].
  apply run_EnqueueJob_synth in Hj as [Hs1 Hq1]. destruct j as [j|e].
  2: { intros [Hs Hr]%IH. split; [by apply (synth_trans 1 n s s1)|lia]. }
  rewrite run_bind. destruct (run orc (Push _ _) i1 s1) as [ [ [pr i2] s2]|] eqn:Hp; [|done].
  apply run_Push_synth in Hp as (Hd2 & Ho2 & f2 & Hl2 & Hq2).
  assert (Hs2 : synth 1 s s2).
  { destruct Hs1 as [O1 N1 C1 T1 _ R1]. constructor; rewrite ?Hd2; auto.
    - exists f2. by rewrite Hq2, Hq1.
    - intros k Hk. rewrite Ho2; auto. }
  destruct pr; intros [Hs Hr]%IH; (split; [by apply (synth_trans 1 n s s2)|lia]).
Qed.

Lemma synth_le n m s s' : (n ≤ m)%nat → synth n s s' → synth m s s'.
Proof. intros Hn [O N C T (f & L & Q) R]. constructor; auto; [lia|]. exists f. split; [lia|done]. Qed.

Lemma size_param_range v hi def : 0 < def → 0 < size_param v hi def ≤ Z.max hi def.
Proof.
  intros Hd. unfold size_param. destruct (bool_decide _); [lia|]. destruct (Atoi v) as [n|]; [|lia].
  destruct ((0 <? n) && (n <=? hi)) eqn:E; lia.
Qed.

Lemma size_param_valid v hi def m : Atoi v = Some m → 1 ≤ m ≤ hi → size_param v hi def = m.
Proof.
  intros Hm Hr. unfold size_param. rewrite Hm. destruct (bool_decide_reflect (v = EmptyString)) as [->|_].
  - by vm_compute in Hm.
  - destruct ((0 <? m) && (m <=? hi)) eqn:E; lia.
Qed.

Lemma size_param_default v hi def : (∀ m, Atoi v = Some m → ¬ 1 ≤ m ≤ hi) → size_param v hi def = def.
Proof.
  intros Hm. unfold size_param. destruct (bool_decide _); [done|]. destruct (Atoi v) as [m|]; [|done].
  specialize (Hm m eq_refl). destruct ((0 <? m) && (m <=? hi)) eqn:E; lia.
Qed.

Lemma EnqueueJob_total nj : total (EnqueueJob nj).
Proof.
  unfold EnqueueJob. apply total_bind; [done|intros id]. apply total_bind; [done|].
  intros [j|[m|c m|m|m e|m e1 e2] ]; try done. by destruct (_ && _).
Qed.

Lemma Push_total st id : total (Push st id).
Proof. unfold Push. apply total_bind; [done|]. by intros [?|?]. Qed.

Lemma enqueueSynthetic_total n p c : total (enqueueSynthetic n p c).
Proof.
  revert c. induction n as [|n IH]; intros c; cbn [enqueueSynthetic]; [done|].
  apply total_bind; [apply EnqueueJob_total|]. intros [j|e]; [|done].
  apply total_bind; [apply Push_total|]. by intros [?|?].
Qed.

Lemma enqueued_total n p : total (enqueued n p).
Proof. apply total_bind; [apply enqueueSynthetic_total|done]. Qed.

(** An answered request. *)
Definition demo_ok (s s' : shared) (resp : response) : Prop :=
  (code resp = 429 ∧ s_db s' = s_db s ∧ s_redis s' = s_redis s) ∨
  ∃ n, resp = writeJSON 200 (BEnqueued n) ∧ 0 ≤ n ≤ 1000.

Lemma run_enqueued orc n p i s resp i' s' :
  0 ≤ n ≤ 1000 → run orc (enqueued n p) i s = Some (resp, i', s') → synth 1000 s s' ∧ demo_ok s s' resp.
Proof.
  intros Hn. unfold enqueued. rewrite run_bind.
  destruct (run orc (enqueueSynthetic _ _ _) i s) as [ [ [c i1] s1]|] eqn:H; [|done].
  apply run_enqueueSynthetic in H as [Hs Hc]. intros [= <- <- <-]. split; [eapply synth_le, Hs; lia|].
  right. exists c. split; [done|lia].
Qed.

(** ** Lemmas: counting *)

Lemma set_all_counts m db st :
  set_all (zero_counts m) (sql_counts db) !! status_text st = Some (count_status st db).
Proof.
  unfold sql_counts, zero_counts, set_all, all_statuses.
  destruct st; cbn [fmap list_fmap status_text foldl fst snd]; rewrite !filter_cons; cbn [snd];
    repeat (destruct (decide (count_status _ db ≠ 0)) as [?|?%dec_stable]); cbn [foldl fst snd filter list_filter];
    rewrite ?lookup_insert_eq, ?lookup_insert_ne, ?lookup_insert_eq by done;
    repeat (rewrite lookup_insert_ne by done); rewrite ?lookup_insert_eq; congruence.
Qed.

Lemma count_all db :
  count_status StatusQueued db + count_status StatusRunning db + count_status StatusDone db +
  count_status StatusDead db = Z.of_nat (size (pipeline_jobs db)).
Proof.
  unfold count_status. replace (size (pipeline_jobs db)) with (length (seq_scan (pipeline_jobs db))).
  - induction (seq_scan (pipeline_jobs db)) as [|j l IH]; [done|]. rewrite !filter_cons. cbn [length].
    destruct (Status j); repeat (rewrite decide_True by done) || rewrite decide_False by done; simpl length; lia.
  - rewrite seq_scan_perm, length_fmap. apply length_map_to_list.
Qed.

(** ** Lemmas: readings when nothing fails *)

Section reliable.
Context (orc : nat → outcome) (Hrel : reliable orc).

Definition depth_of (s : shared) (stage : string) : Z :=
  Z.of_nat (length (rlist (s_redis s) (Queue.key stage))).

(** Reading changes nothing that can be observed. *)
Definition unchanged (s s' : shared) : Prop :=
  s_db s' = s_db s ∧ s_redis s' = s_redis s ∧ s_ext s' = s_ext s ∧ s_now s ≤ s_now s'.

Lemma unchanged_trans s1 s2 s3 : unchanged s1 s2 → unchanged s2 s3 → unchanged s1 s3.
Proof. intros (? & ? & ? & ?) (? & ? & ? & ?). split_and!; [congruence..|lia]. Qed.

Lemma unchanged_depth s s' st : unchanged s s' → depth_of s' st = depth_of s st.
Proof. intros (_ & Hr & _). unfold depth_of. by rewrite Hr. Qed.

Lemma run_Depth_same st i s :
  ∃ s', run orc (Depth st) i s = Some (Ok (depth_of s st), S i, s') ∧ unchanged s s'.
Proof.
  unfold Depth. rewrite run_bind, run_call. unfold cli_LLen. rewrite exec_Redis by apply Hrel.
  cbn [fst snd]. eexists. split; [done|]. repeat split; simpl; lia.
Qed.

Lemma run_depths ss m i s :
  ∃ m' i' s', run orc (depths ss m) i s = Some (Ok m', i', s') ∧ unchanged s s' ∧
    (∀ st, st ∈ ss → m' !! st = Some (depth_of s st)) ∧ ∀ st, st ∉ ss → m' !! st = m !! st.
Proof.
  revert m i s. induction ss as [|st ss IH]; intros m i s; cbn [depths].
  { eexists m, i, s. split; [done|]. split; [by repeat split|]. split; [by intros ? ?%elem_of_nil|done]. }
  rewrite run_bind. destruct (run_Depth_same st i s) as (s1 & -> & Hs1). cbv beta iota.
  destruct (IH (<[st := depth_of s st]> m) (S i) s1) as (m' & i' & s' & -> & Hs' & Hin & Hout).
  exists m', i', s'. split; [done|]. split; [by eapply unchanged_trans|]. split.
  - intros st' Hst'. destruct (decide (st' ∈ ss)) as [H|H].
    + by rewrite (Hin st' H), (unchanged_depth s s1).
    + rewrite (Hout st' H). apply elem_of_cons in Hst' as [->|?]; [by rewrite lookup_insert_eq|done].
  - intros st' [Hne H]%not_elem_of_cons. rewrite (Hout st' H). by rewrite lookup_insert_ne.
Qed.

(** The result of a heartbeat scan names only workers whose key existed at
    one of its calls. *)
Definition seen (s : shared) (k : string) : Prop :=
  String.prefix "heartbeat:" k = true ∧
  (rlist (s_redis s) k ≠ [] ∨ ∃ t, s_now s ≤ t ∧ is_Some (rstr (s_redis s) t k)).

Lemma seen_unchanged s s' k : unchanged s s' → seen s' k → seen s k.
Proof.
  intros (_ & Hr & _ & Ht) [Hp Hk]. split; [done|]. rewrite Hr in Hk.
  destruct Hk as [?|(t & ? & ?)]; [by left|right]. exists t. split; [lia|done].
Qed.

Lemma run_alive_loop i0 t0 fuel n out c r x db ks :
  scan_iter (λ j, Scan (clock orc i0 t0 (S j)) r) fuel n c "heartbeat:*" = Some ks →
  ∃ m, run orc (alive_loop fuel out c) (i0 + n) (mk_shared db r x (clock orc i0 t0 n)) =
    Some (Ok (out ++ (drop_prefix "heartbeat:" <$> ks)), (i0 + m)%nat, mk_shared db r x (clock orc i0 t0 m)).
Proof.
  revert n out c ks. induction fuel as [|fuel IH]; intros n out c ks H; [done|].
  rewrite scan_iter_S in H. cbn [alive_loop]. rewrite run_bind, run_call.
  unfold cli_Scan. rewrite exec_Redis by apply Hrel. cbn [fst snd s_now s_redis s_db s_ext].
  change (clock orc i0 t0 n + Z.of_N (o_dt (orc (i0 + n)%nat))) with (clock orc i0 t0 (S n)).
  destruct (Scan _ r c _) as [ks0 next]. case_decide as Hn.
  - injection H as <-. exists (S n). by rewrite Nat.add_succ_r.
  - destruct (scan_iter _ fuel _ _ _) as [ks'|] eqn:E; [|done]. injection H as <-.
    destruct (IH (S n) (out ++ (drop_prefix "heartbeat:" <$> ks0)) next ks' E) as [m Hm].
    exists m. rewrite Nat.add_succ_r in Hm. by rewrite Hm, fmap_app, <- app_assoc.
Qed.

Lemma run_refresh_alive i0 t0 fuel n out c r x db ks g :
  scan_iter (λ j, Scan (clock orc i0 t0 (S j)) r) fuel n c "heartbeat:*" = Some ks →
  ∃ m, run orc (refresh_alive fuel out c g) (i0 + n) (mk_shared db r x (clock orc i0 t0 n)) =
    Some (mk_gauges (queueDepth g) (jobCount g) (out + Z.of_nat (length ks)) (lastPoll g) (scrapeErrors g),
      (i0 + m)%nat, mk_shared db r x (clock orc i0 t0 m)).
Proof.
  revert n out c ks. induction fuel as [|fuel IH]; intros n out c ks H; [done|].
  rewrite scan_iter_S in H. cbn [refresh_alive]. rewrite run_bind, run_call.
  unfold cli_Scan. rewrite exec_Redis by apply Hrel. cbn [fst snd s_now s_redis s_db s_ext].
  change (clock orc i0 t0 n + Z.of_N (o_dt (orc (i0 + n)%nat))) with (clock orc i0 t0 (S n)).
  destruct (Scan _ r c _) as [ks0 next]. case_decide as Hn.
  - injection H as <-. exists (S n). by rewrite Nat.add_succ_r.
  - destruct (scan_iter _ fuel _ _ _) as [ks'|] eqn:E; [|done]. injection H as <-.
    destruct (IH (S n) (out + Z.of_nat (length ks0)) next ks' E) as [m Hm].
    exists m. rewrite Nat.add_succ_r in Hm. rewrite Hm, length_app, Nat2Z.inj_add, Z.add_assoc. done.
Qed.

Lemma scan_heartbeats i s : ∃ fuel0 ks,
  (∀ fuel, (fuel0 ≤ fuel)%nat →
     scan_iter (λ j, Scan (clock orc i (s_now s) (S j)) (s_redis s)) fuel 0 0%N "heartbeat:*" = Some ks) ∧
  Forall (seen s) ks.
Proof.
  destruct (Scan_complete (s_redis s) (λ j, clock orc i (s_now s) (S j)) "heartbeat:") as (f0 & ks & Hks & _ & Hsound);
    [done|intros j; apply clock_mono|].
  exists f0, ks. split; [intros fuel Hf; by eapply scan_iter_mono|].
  apply Forall_forall. intros k Hk. destruct (Hsound k Hk) as [Hp H]. split; [done|].
  destruct H as [?|[j Hj] ]; [by left|right]. eexists. split; [|exact Hj]. apply clock_ge.
Qed.

Lemma run_aliveWorkers i s : ∃ fuel0 ws, (∀ fuel, (fuel0 ≤ fuel)%nat → ∃ i' s',
    run orc (aliveWorkers fuel) i s = Some (Ok ws, i', s') ∧ unchanged s s') ∧
  ∀ w, w ∈ ws → ∃ k, w = drop_prefix "heartbeat:" k ∧ seen s k.
Proof.
  destruct (scan_heartbeats i s) as (f0 & ks & Hks & Hall). exists f0, (drop_prefix "heartbeat:" <$> ks). split.
  - intros fuel Hf. destruct s as [db r x t0].
    destruct (run_alive_loop i t0 fuel 0 [] 0%N r x db ks (Hks fuel Hf)) as [m Hm].
    rewrite Nat.add_0_r in Hm. eexists _, _. split; [exact Hm|]. repeat split. apply clock_ge.
  - intros w (k & -> & Hk)%list_elem_of_fmap. exists k. split; [done|]. rewrite Forall_forall in Hall. auto.
Qed.

Lemma run_refresh_depths ss g i s :
  ∃ m' i' s', run orc (refresh_depths ss g) i s =
      Some (mk_gauges m' (jobCount g) (aliveGauge g) (lastPoll g) (scrapeErrors g), i', s') ∧ unchanged s s' ∧
    (∀ st, st ∈ ss → m' !! st = Some (depth_of s st)) ∧ ∀ st, st ∉ ss → m' !! st = queueDepth g !! st.
Proof.
  revert g i s. induction ss as [|st ss IH]; intros g i s; cbn [refresh_depths].
  { exists (queueDepth g), i, s. split; [by destruct g|]. split; [by repeat split|].
    split; [by intros ? ?%elem_of_nil|done]. }
  rewrite run_bind. destruct (run_Depth_same st i s) as (s1 & -> & Hs1). cbv beta iota.
  destruct (IH (mk_gauges (<[st := depth_of s st]> (queueDepth g)) (jobCount g) (aliveGauge g) (lastPoll g) (scrapeErrors g))
    (S i) s1) as (m' & i' & s' & -> & Hs' & Hin & Hout).
  exists m', i', s'. split; [done|]. split; [by eapply unchanged_trans|]. split.
  - intros st' Hst'. destruct (decide (st' ∈ ss)) as [H|H].
    + by rewrite (Hin st' H), (unchanged_depth s s1).
    + rewrite (Hout st' H). apply elem_of_cons in Hst' as [->|?]; [cbn; by rewrite lookup_insert_eq|done].
  - intros st' [Hne H]%not_elem_of_cons. rewrite (Hout st' H). cbn. by rewrite lookup_insert_ne.
Qed.

End reliable.

(** ** Properties *)

(** C40. A demo request, whatever fails in it, adds at most a thousand queued
    synthetic jobs of the test stage, whose ids go to the test queue; every
    other row, table and list is untouched.  It answers 429 and does nothing,
    or 200 with a count between 0 and 1000. *)
Theorem demo_bounded orc rt r st i s :
  ∃ resp st' i' s', run orc (demo rt r st) i s = Some ((resp, st'), i', s') ∧
    synth 1000 s s' ∧ demo_ok s s' resp.
Proof.
  assert (Henq : ∀ n p (l : limits) i s, 0 ≤ n ≤ 1000 → ∃ resp i' s',
    run orc (resp ← enqueued n p; mret (resp, l)) i s = Some ((resp, l), i', s') ∧ synth 1000 s s' ∧ demo_ok s s' resp).
  { intros n p l i0 s0 Hn. destruct (run_total orc (enqueued n p) i0 s0 (enqueued_total n p)) as (resp & i' & s' & Hrun).
    exists resp, i', s'. rewrite run_bind, Hrun. split; [done|]. by eapply run_enqueued. }
  assert (Hlim : ∀ resp s', code resp = 429 → s_db s' = s_db s → s_redis s' = s_redis s →
    synth 1000 s s' ∧ demo_ok s s' resp) by (intros; split; [by apply synth_refl|by left]).
  unfold demo, rateLimit. rewrite run_bind, run_call. cbn [exec fst snd].
  destruct (Allow _ _ _) as [ok b]. destruct ok; cbn [negb].
  2: { eexists _, _, _, _. split; [done|]. by apply Hlim. }
  set (s1 := elapse (orc i) s). assert (Hs1 : ∀ s' resp, synth 1000 s1 s' ∧ demo_ok s1 s' resp →
    synth 1000 s s' ∧ demo_ok s s' resp) by (intros s' resp [ [] H]; split; [by constructor|exact H]).
  pose proof (size_param_range) as Hsize. destruct rt as [v| | |]; unfold demo_handler, defaultDemoConfig; cbn [BurstSize SlowSleepMs FloodSize].
  - destruct (Henq (size_param v 500 100) (sleep_payload 25) (mk_limits b (floodGate st)) (S i) s1)
      as (resp & i' & s' & -> & H); [specialize (Hsize v 500 100); lia|]. eexists _, _, _, _. split; [done|auto].
  - destruct (Henq 1 (sleep_payload 5000) (mk_limits b (floodGate st)) (S i) s1) as (resp & i' & s' & -> & H);
      [lia|]. eexists _, _, _, _. split; [done|auto].
  - destruct (Henq 1 flaky_payload (mk_limits b (floodGate st)) (S i) s1) as (resp & i' & s' & -> & H);
      [lia|]. eexists _, _, _, _. split; [done|auto].
  - rewrite run_bind, run_call. cbn [exec fst snd floodGate rl]. destruct (Allow _ "global" _) as [ok gate].
    destruct ok; cbn [negb]; [|eexists _, _, _, _; split; [done|by apply Hlim] ].
    destruct (Henq 1000 (sleep_payload 250) (mk_limits b gate) (S (S i)) (elapse (orc (S i)) s1))
      as (resp & i' & s' & -> & H); [lia|]. eexists _, _, _, _. split; [done|]. apply Hs1.
    destruct H as [ [] H]. split; [by constructor|exact H].
Qed.

(** The dashboard's figures: when nothing fails, the statistics are the
    lengths of the four stage queues and, for each of the four statuses, also
    those without jobs, the number of its rows, which add up to all rows; the
    workers listed have a heartbeat key; nothing is changed. *)
Theorem stats_exact orc i s : reliable orc →
  ∃ fuel0 st, ∀ fuel, (fuel0 ≤ fuel)%nat → ∃ i' s',
    run orc (stats fuel) i s = Some (writeJSON 200 (BStats st), i', s') ∧ unchanged s s' ∧
    (∀ stage, stage ∈ stages → QueueDepths st !! stage = Some (depth_of s stage)) ∧
    (∀ status, JobCounts st !! status_text status = Some (count_status status (s_db s))) ∧
    count_status StatusQueued (s_db s) + count_status StatusRunning (s_db s) + count_status StatusDone (s_db s)
      + count_status StatusDead (s_db s) = Z.of_nat (size (pipeline_jobs (s_db s))) ∧
    ∀ w, w ∈ AliveWorkers st → ∃ k, w = drop_prefix "heartbeat:" k ∧ seen s k.
Proof.
  intros Hrel. set (s1 := elapse (orc i) s).
  assert (Hs1 : unchanged s s1) by (repeat split; simpl; lia).
  destruct (run_depths orc Hrel stages ∅ (S i) s1) as (d & i2 & s2 & Hd & Hs2 & Hin & _).
  pose proof (unchanged_trans _ _ _ Hs1 Hs2) as Hu2.
  set (s3 := (exec (orc i2) (Sql (λ _ db, (Ok (sql_counts db), db))) s2).2).
  assert (Hu3 : unchanged s s3).
  { eapply unchanged_trans; [exact Hu2|]. unfold s3. rewrite exec_Sql by apply Hrel. repeat split; simpl; lia. }
  destruct (run_aliveWorkers orc Hrel (S i2) s3) as (f0 & ws & Hws & Hsound).
  exists f0, (mk_statsResponse d (set_all (zero_counts ∅) (sql_counts (s_db s))) ws (s_now s1)).
  intros fuel Hf. destruct (Hws fuel Hf) as (i' & s' & Hrun & Hu). exists i', s'.
  unfold stats. rewrite run_bind, run_call. cbn [exec fst snd]. fold s1. rewrite run_bind, Hd. cbv beta iota.
  unfold jobCounts. rewrite run_bind, run_bind, run_call. fold s3.
  replace (exec (orc i2) (Sql (λ _ db, (Ok (sql_counts db), db))) s2).1 with (Ok (sql_counts (s_db s)))
    by (rewrite exec_Sql by apply Hrel; cbn [fst]; by rewrite (proj1 Hu2)).
  rewrite run_ret. cbv beta iota. rewrite run_bind, Hrun. cbv beta iota. rewrite run_ret.
  split; [done|]. split; [by eapply unchanged_trans|]. cbn [QueueDepths JobCounts AliveWorkers].
  split; [|split; [intros; apply set_all_counts|split; [apply count_all|] ] ].
  - exact Hin.
  - intros w Hw. destruct (Hsound w Hw) as (k & -> & Hk). exists k.
    split; [done|]. by eapply seen_unchanged.
Qed.

(** The recent jobs: as many as the parameter asks for (twenty if it is
    missing, no number, or not in 1 .. 200), all of them if there are fewer,
    and no job left out is newer than one that is listed. *)
Theorem recentJobs_newest orc v i s : reliable orc →
  ∃ n js s', run orc (recentJobs v) i s = Some (writeJSON 200 (BJobs (summaries js)), S i, s') ∧
    1 ≤ n ≤ 200 ∧ (∀ m, Atoi v = Some m → 1 ≤ m ≤ 200 → n = m) ∧
    ((∀ m, Atoi v = Some m → ¬ 1 ≤ m ≤ 200) → n = 20) ∧
    Z.of_nat (length js) = Z.min n (Z.of_nat (size (pipeline_jobs (s_db s)))) ∧
    (∀ j, j ∈ js → ∃ id, pipeline_jobs (s_db s) !! id = Some j) ∧
    (∀ id j, pipeline_jobs (s_db s) !! id = Some j → j ∈ js ∨ ∀ j', j' ∈ js → CreatedAt j ≤ CreatedAt j').
Proof.
  intros Hrel. set (n := size_param v 200 20). pose proof (size_param_range v 200 20) as Hn. fold n in Hn.
  set (all := merge_sort newer_eq (seq_scan (pipeline_jobs (s_db s)))).
  assert (Hperm : all ≡ₚ (map_to_list (pipeline_jobs (s_db s))).*2).
  { unfold all. by rewrite merge_sort_Permutation, seq_scan_perm. }
  assert (Hsorted : StronglySorted newer_eq all).
  { apply StronglySorted_merge_sort; [|intros ? ?; unfold newer_eq; lia]. intros ? ? ?; unfold newer_eq; lia. }
  eexists n, (take (Z.to_nat n) all), _.
  unfold recentJobs, listRecentJobs. rewrite run_bind, run_call, exec_Sql by apply Hrel. cbn [fst snd]. fold n.
  split; [done|]. split; [lia|]. split; [intros m; by apply size_param_valid|].
  split; [apply size_param_default|].
  assert (Hlen : length all = size (pipeline_jobs (s_db s))).
  { rewrite Hperm, length_fmap. apply length_map_to_list. }
  split; [rewrite length_take, Hlen; lia|]. split.
  - intros j Hj%subseteq_take. rewrite Hperm in Hj. apply list_elem_of_fmap in Hj as ([id j'] & -> & Hj).
    exists id. by apply elem_of_map_to_list.
  - intros id j Hj. assert (Hin : j ∈ all).
    { rewrite Hperm. apply list_elem_of_fmap. exists (id, j). by rewrite elem_of_map_to_list. }
    rewrite <- (take_drop (Z.to_nat n) all) in Hin, Hsorted. apply elem_of_app in Hin as [?|Hd]; [by left|right].
    intros j' Hj'. clear -Hsorted Hd Hj'. induction (take (Z.to_nat n) all) as [|x l IH]; [by apply elem_of_nil in Hj'|].
    apply StronglySorted_inv in Hsorted as [Hs Hall]. apply elem_of_cons in Hj' as [->|?]; [|by apply IH].
    rewrite Forall_forall in Hall. apply (Hall j). apply elem_of_app. by right.
Qed.

(** A refresh of the metrics that meets no error leaves every queue gauge
    at its queue's length and every status gauge at the number of its rows,
    also where that dropped to zero, whatever the gauges showed before; the
    poll gauge is the newest cursor's time, no error is counted, and the
    worker gauge counts heartbeat keys that the scan met. *)
Theorem refresh_exact orc g i s : reliable orc →
  ∃ fuel0 g', ∀ fuel, (fuel0 ≤ fuel)%nat → ∃ i' s',
    run orc (refresh fuel g) i s = Some (g', i', s') ∧ unchanged s s' ∧
    (∀ stage, stage ∈ stages → queueDepth g' !! stage = Some (depth_of s stage)) ∧
    (∀ status, jobCount g' !! status_text status = Some (count_status status (s_db s))) ∧
    lastPoll g' = sql_last_poll (s_db s) ∧ scrapeErrors g' = scrapeErrors g ∧
    ∃ ks, aliveGauge g' = Z.of_nat (length ks) ∧ Forall (seen s) ks.
Proof.
  intros Hrel. destruct (run_refresh_depths orc Hrel stages g i s) as (d & i1 & s1 & Hd & Hu1 & Hin & _).
  assert (Hq : ∀ (X : Type) (f : DB → X) i s, run orc (call (Sql (λ _ db, (Ok (f db), db)))) i s =
    Some (Ok (f (s_db s)), S i, mk_shared (s_db s) (s_redis s) (s_ext s) (s_now s + Z.of_N (o_dt (orc i))))).
  { intros X f i0 s0. rewrite run_call, exec_Sql by apply Hrel. done. }
  set (s2 := mk_shared (s_db s1) (s_redis s1) (s_ext s1) (s_now s1 + Z.of_N (o_dt (orc i1)))).
  set (s3 := mk_shared (s_db s2) (s_redis s2) (s_ext s2) (s_now s2 + Z.of_N (o_dt (orc (S i1))))).
  assert (Hu3 : unchanged s s3).
  { eapply unchanged_trans; [exact Hu1|]. repeat split; simpl; lia. }
  destruct (scan_heartbeats orc (S (S i1)) s3) as (f0 & ks & Hks & Hall).
  exists f0, (mk_gauges d (set_all (zero_counts (jobCount g)) (sql_counts (s_db s)))
    (0 + Z.of_nat (length ks)) (sql_last_poll (s_db s)) (scrapeErrors g)).
  intros fuel Hf.
  destruct (run_refresh_alive orc Hrel (S (S i1)) (s_now s3) fuel 0 0 0%N (s_redis s3) (s_ext s3) (s_db s3) ks
    (mk_gauges d (set_all (zero_counts (jobCount g)) (sql_counts (s_db s))) (aliveGauge g)
       (sql_last_poll (s_db s)) (scrapeErrors g)) (Hks fuel Hf)) as [m Hm].
  rewrite Nat.add_0_r, (proj1 Hu3) in Hm. cbn [queueDepth jobCount lastPoll scrapeErrors] in Hm.
  eexists _, _. split; [|split; [|split_and!] ].
  - unfold refresh, refresh_counts, refresh_poll. rewrite run_bind, Hd. cbv beta iota.
    rewrite run_bind, run_bind, Hq. cbv beta iota. rewrite run_ret. cbv beta iota.
    rewrite run_bind, run_bind, Hq. cbv beta iota. rewrite run_ret. cbv beta iota.
    cbn [queueDepth jobCount lastPoll scrapeErrors aliveGauge s_db]. fold s2. fold s3.
    rewrite !(proj1 Hu1). exact Hm.
  - destruct Hu3 as (_ & Hr & Hx & Ht). split; [done|]. split; [exact Hr|]. split; [exact Hx|].
    eapply Z.le_trans; [exact Ht|]. apply (clock_ge orc (S (S i1)) (s_now s3) m).
  - exact Hin.
  - intros status. apply set_all_counts.
  - done.
  - done.
  - exists ks. split; [done|]. eapply Forall_impl; [exact Hall|]. intros k. by apply seen_unchanged.
Qed.

End api.

(** ** Witnesses *)
Import SchemaModel RedisModel DriveModel EffectsModel.

Definition no_gauges : gauges := mk_gauges ∅ {[ "dead" := 7 ]} 3 0 0.

Lemma stats_exact_witness :
  ∃ fuel0 st, ∀ fuel, (fuel0 ≤ fuel)%nat → ∃ i' s',
    run (calm (λ _, Ok EmptyString)) (stats fuel) 0 one_pushed = Some (writeJSON 200 (BStats st), i', s') ∧
    unchanged one_pushed s' ∧
    (∀ stage, stage ∈ stages → QueueDepths st !! stage = Some (depth_of one_pushed stage)) ∧
    (∀ status, JobCounts st !! status_text status = Some (count_status status (s_db one_pushed))) ∧
    count_status StatusQueued (s_db one_pushed) + count_status StatusRunning (s_db one_pushed) +
      count_status StatusDone (s_db one_pushed) + count_status StatusDead (s_db one_pushed)
      = Z.of_nat (size (pipeline_jobs (s_db one_pushed))) ∧
    ∀ w, w ∈ AliveWorkers st → ∃ k, w = drop_prefix "heartbeat:" k ∧ seen one_pushed k.
Proof. apply (stats_exact (calm (λ _, Ok EmptyString)) 0 one_pushed), calm_reliable. Defined.

Lemma recentJobs_newest_witness :
  ∃ n js s', run (calm (λ _, Ok EmptyString)) (recentJobs "25") 0 one_pushed =
      Some (writeJSON 200 (BJobs (summaries js)), 1%nat, s') ∧
    1 ≤ n ≤ 200 ∧ (∀ m, Atoi "25" = Some m → 1 ≤ m ≤ 200 → n = m) ∧
    ((∀ m, Atoi "25" = Some m → ¬ 1 ≤ m ≤ 200) → n = 20) ∧
    Z.of_nat (length js) = Z.min n (Z.of_nat (size (pipeline_jobs (s_db one_pushed)))) ∧
    (∀ j, j ∈ js → ∃ id, pipeline_jobs (s_db one_pushed) !! id = Some j) ∧
    (∀ id j, pipeline_jobs (s_db one_pushed) !! id = Some j →
       j ∈ js ∨ ∀ j', j' ∈ js → CreatedAt j ≤ CreatedAt j').
Proof. apply (recentJobs_newest (calm (λ _, Ok EmptyString)) "25" 0 one_pushed), calm_reliable. Defined.

Lemma refresh_exact_witness :
  ∃ fuel0 g', ∀ fuel, (fuel0 ≤ fuel)%nat → ∃ i' s',
    run (calm (λ _, Ok EmptyString)) (refresh fuel no_gauges) 0 one_pushed = Some (g', i', s') ∧
    unchanged one_pushed s' ∧
    (∀ stage, stage ∈ stages → queueDepth g' !! stage = Some (depth_of one_pushed stage)) ∧
    (∀ status, jobCount g' !! status_text status = Some (count_status status (s_db one_pushed))) ∧
    lastPoll g' = sql_last_poll (s_db one_pushed) ∧ scrapeErrors g' = scrapeErrors no_gauges ∧
    ∃ ks, aliveGauge g' = Z.of_nat (length ks) ∧ Forall (seen one_pushed) ks.
Proof. apply (refresh_exact (calm (λ _, Ok EmptyString)) no_gauges 0 one_pushed), calm_reliable. Defined.
