(* ===== verification/Noop.v ===== *)
(** * The test stage: internal/worker/handler.go

    [NoopHandler] sleeps and fails as the job's payload asks; the demo
    endpoints enqueue jobs for it.  float64 values are exact: an integer times
    a power of two, rounded as strconv.ParseFloat does. *)
From S2P Require Import Prelude Redis Schema GoStrings Utf8 Times Json Services Effects Queue Store Worker Ratelimit Api.
Local Open Scope Z_scope.

(** ** float64 *)

(** The double [m * 2^e]. *)
Record double := mk_double { mant : Z; expo : Z }.

(** The largest [l] with [2^l <= num/den], for positive numbers. *)
Definition floor_log2 (num den : Z) : Z :=
  let l := Z.log2 num - Z.log2 den in
  if num * 2 ^ Z.max (- l) 0 <? den * 2 ^ Z.max l 0 then l - 1 else l.

(** Round to nearest, ties to even. *)
Definition round_half_even (num den : Z) : Z :=
  let q := num / den in
  let r := num mod den in
  if (den <? 2 * r) || ((2 * r =? den) && Z.odd q) then q + 1 else q.

(** The double nearest to [num/den]; none if that is too large. *)
Definition nearest (num den : Z) : option double :=
  if num =? 0 then Some (mk_double 0 0) else
  let e := Z.max (floor_log2 num den - 52) (- 1074) in
  let m := round_half_even (num * 2 ^ Z.max (- e) 0) (den * 2 ^ Z.max e 0) in
  if (0 <=? e) && (2 ^ 1024 <=? m * 2 ^ e) then None else Some (mk_double m e).

(** strconv.ParseFloat of a JSON number *)
Definition digits_value (l : bytes) : Z := default 0 (num_from 0 l).

Definition parse_exp (l : bytes) : Z :=
  match l with
  | [] => 0
  | _ :: "-"%char :: ds => - digits_value ds
  | _ :: "+"%char :: ds => digits_value ds
  | _ :: ds => digits_value ds
  end.

Definition ParseFloat (lit : bytes) : option double :=
  let '(neg, l) := match lit with "-"%char :: l => (true, l) | _ => (false, lit) end in
  '(i, l) ← int_lit l;
  '(f, l) ← frac_lit l;
  let digits := i ++ tail f in
  let scale := parse_exp l - Z.of_nat (length (tail f)) in
  d ← nearest (digits_value digits * 10 ^ Z.max scale 0) (10 ^ Z.max (- scale) 0);
  Some (mk_double (if neg then - mant d else mant d) (expo d)).

(** x/2^53 < d, for an integer x *)
Definition below (x : Z) (d : double) : bool :=
  x * 2 ^ Z.max (- (expo d + 53)) 0 <? mant d * 2 ^ Z.max (expo d + 53) 0.

(** ** The payload *)

Record payload := mk_payload { SleepMs : Z; FailRate : double }.
Definition no_payload : payload := mk_payload 0 (mk_double 0 0).

(** A member of the object: a value that does not fit its field leaves the
    field as it is (json.Unmarshal goes on and reports it at the end). *)
Definition payload_member (p : payload) (kv : bytes * json) : payload :=
  let '(k, v) := kv in
  if matches_field "sleepMs" k then
    match v with
    | JNum lit => match Atoi (of_bytes lit) with Some n => mk_payload n (FailRate p) | None => p end
    | _ => p
    end
  else if matches_field "failRate" k then
    match v with
    | JNum lit => match ParseFloat lit with Some d => mk_payload (SleepMs p) d | None => p end
    | _ => p
    end
  else p.

(** json.Unmarshal with its error ignored *)
Definition read_payload (s : string) : payload :=
  if decide (s = EmptyString) then no_payload else
  match parse_json (to_bytes s) with
  | Some (JObj kvs) => foldl payload_member no_payload kvs
  | _ => no_payload
  end.

(** ** NoopHandler.Process *)

(** time.Duration(p.SleepMs) * time.Millisecond, in 64 bits *)
Definition wrap64 (z : Z) : Z := (z + 2 ^ 63) mod 2 ^ 64 - 2 ^ 63.
Definition sleep_ns (p : payload) : Z := wrap64 (SleepMs p * 1000000).

Definition errNoopFlaky : err := EText "synthetic flaky failure".

Section noop.
Context `{UL : UuidLib} `{PG : !PgServer} `{RS : RedisServer} `{DS : DriveServer}.

(** The select: the context is cancelled, or the timer of [sleep_ns] fires. *)
Definition sleep (ns : Z) : prog bool := call CtxDone.

Definition NoopHandler (job : Job) : prog (result string) :=
  let p := read_payload (Payload job) in
  cancelled ← (if 0 <? SleepMs p then sleep (sleep_ns p) else mret false);
  if cancelled : bool then mret (Err (ESentinel contextCanceled)) else
  if 0 <? mant (FailRate p) then
    x ← call Rand;
    if below (rand_num x) (FailRate p) then mret (Err errNoopFlaky) else mret (Ok EmptyString)
  else mret (Ok EmptyString).

(** ** Properties *)

Lemma NoopHandler_total job : total (NoopHandler job).
Proof. unfold NoopHandler, sleep. walk_prog. Qed.

Definition asks (X : Type) (c : cmd X) : Prop := match c with CtxDone | Rand => True | _ => False end.

Lemma NoopHandler_plain job : calls_only asks (NoopHandler job).
Proof. unfold NoopHandler, sleep. walk_prog. Qed.

(** Whatever the payload is, a test job ends, touches nothing but the clock,
    and fails in no other way than the two the payload can ask for; a payload
    that is no JSON object asks for nothing. *)
Theorem NoopHandler_outcome orc job i s :
  ∃ r i' s', run orc (NoopHandler job) i s = Some (r, i', s') ∧
    s_db s' = s_db s ∧ s_redis s' = s_redis s ∧ s_ext s' = s_ext s ∧
    (r = Ok EmptyString ∨
     (r = Err (ESentinel contextCanceled) ∧ 0 < SleepMs (read_payload (Payload job))) ∨
     (r = Err errNoopFlaky ∧ 0 < mant (FailRate (read_payload (Payload job))))) ∧
    ((∀ kvs, parse_json (to_bytes (Payload job)) ≠ Some (JObj kvs)) → r = Ok EmptyString).
Proof.
  destruct (run_total orc _ i s (NoopHandler_total job)) as (r & i' & s' & Hrun). exists r, i', s'. split; [done|].
  assert (Hs : s_db s' = s_db s ∧ s_redis s' = s_redis s ∧ s_ext s' = s_ext s).
  { apply (run_calls_only asks (λ s1, s_db s1 = s_db s ∧ s_redis s1 = s_redis s ∧ s_ext s1 = s_ext s))
      in Hrun; [done| |apply NoopHandler_plain|done]. intros X c o s1 Hc H. by destruct c. }
  do 2 (split; [apply Hs|]). split; [apply Hs|]. unfold NoopHandler, sleep in Hrun. split.
  - revert Hrun. set (p := read_payload (Payload job)). destruct (Z.ltb_spec 0 (SleepMs p)); rewrite run_bind, ?run_call, ?run_ret;
      cbn [exec fst snd]; try (destruct (o_ctx (orc i)); [intros [= <- _ _]; naive_solver|]);
      (destruct (Z.ltb_spec 0 (mant (FailRate p))); [|intros [= <- _ _]; auto]); rewrite run_bind, run_call; cbn [exec fst snd];
      destruct (below _ _); intros [= <- _ _]; auto.
  - intros Hno. assert (Hp : read_payload (Payload job) = no_payload).
    { unfold read_payload. case_decide; [done|]. destruct (parse_json _) as [v|]; [|done]. destruct v; try done. by destruct (Hno l). }
    rewrite Hp in Hrun. cbn [no_payload SleepMs FailRate mant Z.ltb Z.compare] in Hrun. by injection Hrun.
Qed.

(** The low bits that make the demo's flaky job fail: exactly half of them. *)
Lemma flaky_half x : below x (FailRate (read_payload flaky_payload)) = (x <? 2 ^ 52).
Proof.
  replace (FailRate (read_payload flaky_payload)) with (mk_double (2 ^ 52) (- 53)) by (vm_compute; reflexivity).
  unfold below. cbn [mant expo]. change (Z.max (- (- 53 + 53)) 0) with 0. change (Z.max (- 53 + 53) 0) with 0.
  by rewrite !Z.mul_1_r.
Qed.

(** The demo's jobs do what the buttons say: those of burst, slow and flood
    sleep 25, 5000 and 250 milliseconds and succeed unless they are cancelled,
    and a flaky one sleeps 100 milliseconds and then fails for exactly half of
    the 2^53 random numbers. *)
Theorem demo_jobs orc job i s :
  let p := read_payload (Payload job) in
  (∀ ms, ms ∈ [25; SlowSleepMs defaultDemoConfig; 250] → Payload job = sleep_payload ms →
     sleep_ns p = ms * 1000000 ∧ ∃ s', run orc (NoopHandler job) i s = Some
       (if o_ctx (orc i) then Err (ESentinel contextCanceled) else Ok EmptyString, S i, s')) ∧
  (Payload job = flaky_payload → sleep_ns p = 100000000 ∧ ∃ i' s', run orc (NoopHandler job) i s = Some
     (if o_ctx (orc i) then Err (ESentinel contextCanceled)
      else if rand_num (o_rand (orc (S i))) <? 2 ^ 52 then Err errNoopFlaky else Ok EmptyString, i', s')).
Proof.
  cbv zeta. split.
  - intros ms Hms Hp. assert (Hr : read_payload (Payload job) = mk_payload ms (mk_double 0 0) ∧ 0 < ms < 10000).
    { rewrite Hp. repeat (apply elem_of_cons in Hms as [->|Hms]; [split; [vm_compute; reflexivity|cbn; lia]|]).
      by apply elem_of_nil in Hms. }
    destruct Hr as [Hr Hlt]. unfold NoopHandler, sleep, sleep_ns, wrap64. rewrite Hr. cbn [SleepMs FailRate mant].
    split; [rewrite Z.mod_small; lia|]. rewrite (proj2 (Z.ltb_lt 0 ms)), run_bind, run_call by lia. cbn [exec fst snd].
    destruct (o_ctx (orc i)); by eexists.
  - intros Hp. rewrite Hp. split; [vm_compute; reflexivity|]. unfold NoopHandler, sleep. rewrite Hp.
    replace (SleepMs (read_payload flaky_payload)) with 100 by (vm_compute; reflexivity).
    replace (0 <? mant (FailRate (read_payload flaky_payload))) with true by (vm_compute; reflexivity).
    cbn [Z.ltb Z.compare]. rewrite run_bind, run_call. cbn [exec fst snd].
    destruct (o_ctx (orc i)); [by eexists _, _|]. rewrite run_bind, run_call. cbn [exec fst snd].
    rewrite flaky_half. destruct (_ <? _); by eexists _, _.
Qed.
End noop.
