(* ===== verification/Command.v ===== *)
(** * The commands: cmd/worker, cmd/scheduler, cmd/backfill, cmd/sweeper, cmd/api

    How the commands read flags and environment variables and put the
    components together.  [getenv] is os.Getenv; [services] tells whether
    the migrations ran and PostgreSQL and Redis were configured correctly.  A
    command either exits with a code or starts. *)
From S2P Require Import Prelude Redis Schema GoStrings Utf8 Calendar Times Json Meta Mime Base64 Services Effects Queue Store Worker Sweeper OAuth Gmail Scheduler Drive Fetch Render Upload Ratelimit Api Noop.
Local Open Scope Z_scope.

Inductive startup (A : Type) := Exit (code : Z) | Start (a : A).
Arguments Exit {A} code.
Arguments Start {A} a.

Definition and_then {A B} (x : startup A) (f : A → startup B) : startup B :=
  match x with Exit c => Exit c | Start a => f a end.

(** ** Environment variables *)

Section environment.
Variable getenv : string → string.

Definition envOr (k def : string) : string :=
  let v := getenv k in if decide (v = EmptyString) then def else v.

Definition mustEnv (k : string) : startup string :=
  let v := getenv k in if decide (v = EmptyString) then Exit 1 else Start v.

Definition envIntOr (k : string) (def : Z) : Z :=
  let v := getenv k in
  if decide (v = EmptyString) then def
  else match Atoi v with Some n => if 0 <? n then n else def | None => def end.

(** A number of seconds as a time.Duration, in 64 bits. *)
Definition seconds (n : Z) : Z := wrap64 (n * 1000000000).

Definition envDurationSec (k : string) (def : Z) : Z := seconds (envIntOr k def).

(** base64.StdEncoding.DecodeString and the length check. *)
Definition decode_key (keyB64 : string) : startup (list Byte.byte) :=
  match DecodeString StdEncoding true keyB64 with
  | None => Exit 1
  | Some s => let key := String.list_byte_of_string s in if decide (length key = 32%nat) then Start key else Exit 1
  end.

Definition loadGoogleCfgAndKey : startup (list Byte.byte) :=
  and_then (mustEnv "GOOGLE_OAUTH_CLIENT_ID") (λ _,
  and_then (mustEnv "GOOGLE_OAUTH_CLIENT_SECRET") (λ _,
  and_then (mustEnv "TOKEN_ENCRYPTION_KEY") decode_key)).

Lemma loadGoogleCfgAndKey_length key : loadGoogleCfgAndKey = Start key → length key = 32%nat.
Proof.
  unfold loadGoogleCfgAndKey. destruct (mustEnv _); [done|]. cbn [and_then].
  destruct (mustEnv _); [done|]. cbn [and_then]. destruct (mustEnv _); [done|]. cbn [and_then]. unfold decode_key.
  destruct (DecodeString _ _ _); [|done]. case_decide; [|done]. by intros [= <-].
Qed.

Section commands.
Context `{UL : UuidLib} `{PG : !PgServer} `{RS : RedisServer} `{DS : DriveServer} `{AE : AeadLib}
  `{ML : MailLib} `{TP : TimeParser}.
Variable services : bool.

(** ** cmd/worker *)

(** The switch over the stage. *)
Definition stage_handler (stage : string) : startup (Job → prog (result string)) :=
  let data := envOr "DATA_DIR" "/data" in
  if decide (stage = "test") then Start NoopHandler
  else if decide (stage = "fetch") then and_then loadGoogleCfgAndKey (λ key, Start (Fetch data key))
  else if decide (stage = "render") then Start (Render data)
  else if decide (stage = "upload") then
    and_then loadGoogleCfgAndKey (λ key,
      Start (Upload (mk_UploadConfig data (envOr "DRIVE_ROOT_FOLDER_ID" EmptyString) (envOr "DRIVE_ROOT_PATH" EmptyString)) key))
  else Exit 2.

Definition worker_config (stage workerID : string) : Worker.Config :=
  Worker.mk_Config stage workerID (envDurationSec "WORKER_POP_TIMEOUT_SEC" 30)
    (envDurationSec "WORKER_HEARTBEAT_TTL_SEC" 15) (envDurationSec "WORKER_HEARTBEAT_INTERVAL_SEC" 5).

Definition worker_main (stage workerID : string) : startup (Worker.Config * (Job → prog (result string))) :=
  if decide (stage = EmptyString) then Exit 2
  else if negb services then Exit 1
  else and_then (stage_handler stage) (λ h, Start (worker_config stage workerID, h)).

(** ** cmd/sweeper *)

Definition sweeper_main : startup Sweeper.Config :=
  if negb services then Exit 1
  else Start (Sweeper.New (Sweeper.mk_Config (5 * 1000000000) (seconds (envIntOr "STALE_QUEUED_THRESHOLD_SEC" 60)))).

(** ** cmd/scheduler *)

(** The token key and poll interval of the scheduler, and the backfill's
    configuration; both loops run. *)
Definition scheduler_main : startup (list Byte.byte * Z * BackfillConfig) :=
  and_then loadGoogleCfgAndKey (λ key,
    if negb services then Exit 1
    else Start (key, seconds (envIntOr "SCHEDULER_POLL_INTERVAL_SEC" 60),
      NewBackfill (mk_BackfillConfig key (seconds (envIntOr "BACKFILL_INTERVAL_SEC" 3600))
        (wrap64 (envIntOr "BACKFILL_WINDOW_HOURS" 24 * (3600 * 1000000000)))))).

(** ** cmd/backfill *)

(** time.Parse with the layout 2006-01-02 *)
Definition parse_date (l : bytes) : option Time :=
  match l with
  | [y1; y2; y3; y4; c1; o1; o2; c2; d1; d2] =>
      y ← field 0 9999 [y1; y2; y3; y4];
      m ← field 1 12 [o1; o2];
      d ← field 1 (month_days y m) [d1; d2];
      if decide (c1 = "-"%char ∧ c2 = "-"%char) then Some (UTC (days_of y m d * day_ns)) else None
  | _ => None
  end.

Definition parseDateFlag (v : string) : result Time :=
  if decide (v = EmptyString) then Ok zero_time
  else match parse_date (to_bytes v) with
       | Some t => Ok t
       | None => Err (EText ("parsing time " +:+ v))
       end.

(** A time that is not zero. *)
Definition given (t : Time) : option Z := if IsZero t then None else Some (t_ns t).

Definition backfill_config (email since before : string) (maxQueue : Z) : startup FullConfig :=
  if decide (email = EmptyString) then Exit 2 else
  match parseDateFlag since, parseDateFlag before with
  | Err _, _ | _, Err _ => Exit 2
  | Ok since, Ok before =>
      and_then loadGoogleCfgAndKey (λ key,
        if negb services then Exit 1
        else Start (mk_FullConfig key email (given since) (given before) maxQueue 0))
  end.

(** The exit code of a run. *)
Definition backfill_main (fuel : nat) (cfg : FullConfig) : prog Z :=
  '(_, err) ← RunFull fuel cfg;
  match err with
  | Err e => mret (if errors_Is e contextCanceled then 0 else 1)
  | Ok _ => mret 0
  end.

(** ** Stages *)

Definition next_stage (stage : string) : string :=
  if decide (stage = "fetch") then "render" else if decide (stage = "render") then "upload" else EmptyString.

(** What a handler of a stage answers. *)
Definition answers_next (stage : string) (r : result string) : Prop := ∀ st, r = Ok st → st = next_stage stage.

Lemma Fetch_results dataDir key job : results (answers_next "fetch") (Fetch dataDir key job).
Proof. unfold Fetch. walk_prog. by intros st [= <-]. Qed.

Lemma Render_results dataDir job : results (answers_next "render") (Render dataDir job).
Proof.
  unfold Render, render_parsed. walk_prog; by intros st [= <-].
Qed.

Lemma Upload_results cfg key job : results (answers_next "upload") (Upload cfg key job).
Proof. unfold Upload, upload_files. walk_prog; by intros st [= <-]. Qed.

Lemma Noop_results job : results (answers_next "test") (NoopHandler job).
Proof. unfold NoopHandler. walk_prog; by intros st [= <-]. Qed.

(** Every stage the worker command knows. *)
Definition known (stage : string) : Prop := stage ∈ ["test"; "fetch"; "render"; "upload"].

Lemma stage_handler_cases stage h : stage_handler stage = Start h →
  known stage ∧ ∀ job, total (h job) ∧ results (answers_next stage) (h job).
Proof.
  assert (Hload : ∀ (f : list Byte.byte → Job → prog (result string)),
    and_then loadGoogleCfgAndKey (λ key, Start (f key)) = Start h → ∃ key, h = f key).
  { intros f. destruct loadGoogleCfgAndKey as [c|key]; [done|]. intros [= <-]. by exists key. }
  unfold stage_handler, known. repeat case_decide; subst; try done.
  - intros [= <-]. split; [set_solver|]. intros job. split; [apply NoopHandler_total|apply Noop_results].
  - intros [key ->]%Hload. split; [set_solver|]. intros job. split; [apply Fetch_total|apply Fetch_results].
  - intros [= <-]. split; [set_solver|]. intros job. split; [apply Render_total|apply Render_results].
  - intros [key ->]%(Hload (λ key, Upload _ key)). split; [set_solver|]. intros job.
    split; [apply Upload_total|apply Upload_results].
Qed.

(** The stages form a chain that ends: a worker starts for the four stages
    the dashboard shows and no other; the handler of each returns whatever
    its services do, and when it succeeds the next stage it names is the next
    one of fetch, render, upload, or none. *)
Theorem stages_chain stage workerID :
  (∀ cfg h, worker_main stage workerID = Start (cfg, h) →
     stage ∈ Api.stages ∧ c_Stage cfg = stage ∧
     ∀ orc job i s, ∃ r i' s', run orc (h job) i s = Some (r, i', s') ∧
       ∀ st, r = Ok st → st = next_stage stage ∧ (st = EmptyString ∨ st ∈ Api.stages)) ∧
  (stage ∉ Api.stages → worker_main stage workerID = Exit (if decide (stage = EmptyString) then 2 else if services then 2 else 1)).
Proof.
  assert (Hk : ∀ st, known st ↔ st ∈ Api.stages) by (unfold known, Api.stages; set_solver).
  unfold worker_main. split.
  - intros cfg h. case_decide; [done|]. destruct services; [|done]. cbn [negb].
    destruct (stage_handler stage) as [c|h'] eqn:E; [done|]. intros [= <- ->].
    destruct (stage_handler_cases stage h E) as [Hst Hh]. split; [by apply Hk|]. split; [done|].
    intros orc job i s. destruct (Hh job) as [Ht Hr]. destruct (run_total orc (h job) i s Ht) as (r & i' & s' & Hrun).
    exists r, i', s'. split; [done|]. intros st Hok. pose proof (run_results _ _ _ _ _ _ _ _ Hr Hrun st Hok) as ->.
    split; [done|]. unfold next_stage. repeat case_decide; [right; set_solver..|by left].
  - intros Hno. case_decide; [done|]. destruct services; [|done]. cbn [negb]. unfold stage_handler.
    rewrite <- Hk in Hno. unfold known in Hno. repeat (case_decide; [set_solver|]). done.
Qed.

(** Whatever the variables hold, up to numbers that fit 64 bits as
    nanoseconds, the scheduler polls and backfills at positive intervals with
    a positive window: an invalid, negative or zero value, the 0 of the
    operations manual too, gives the default. *)
Theorem scheduler_intervals key poll bf :
  let fits k hi := ∀ n, Atoi (getenv k) = Some n → n ≤ hi in
  fits "SCHEDULER_POLL_INTERVAL_SEC" 9223372036 → fits "BACKFILL_INTERVAL_SEC" 9223372036 →
  fits "BACKFILL_WINDOW_HOURS" 2562047 → scheduler_main = Start (key, poll, bf) →
  0 < poll ∧ 0 < bf_Interval bf ∧ 0 < Window bf ∧
  (getenv "BACKFILL_INTERVAL_SEC" = "0" → bf_Interval bf = 3600 * 1000000000) ∧ length key = 32%nat.
Proof.
  cbv zeta. intros H1 H2 H3. unfold scheduler_main. destruct loadGoogleCfgAndKey as [c|key'] eqn:E; [done|].
  cbn [and_then]. destruct services; [|done]. cbn [negb]. intros [= <- <- <-].
  assert (Hint : ∀ k def hi, 0 < def ≤ hi → (∀ n, Atoi (getenv k) = Some n → n ≤ hi) → 0 < envIntOr k def ≤ hi).
  { intros k def hi Hd H. unfold envIntOr. case_decide; [done|]. destruct (Atoi _) as [n|]; [|done].
    destruct (Z.ltb_spec 0 n); [|done]. split; [done|by apply H]. }
  assert (Hw : ∀ z, 0 < z < 2 ^ 63 → wrap64 z = z) by (intros z Hz; unfold wrap64; rewrite Z.mod_small; lia).
  pose proof (Hint _ 60 9223372036 ltac:(lia) H1). pose proof (Hint _ 3600 9223372036 ltac:(lia) H2).
  pose proof (Hint _ 24 2562047 ltac:(lia) H3).
  unfold seconds, NewBackfill. cbn [bf_Interval Window]. rewrite !Hw by lia.
  split; [lia|]. split; [lia|]. split; [destruct (_ =? 0); lia|]. split.
  - intros Hzero. unfold envIntOr. rewrite Hzero. reflexivity.
  - by apply loadGoogleCfgAndKey_length.
Qed.
End commands.
End environment.

(** ** Dates on the command line *)

Definition date_text (d : Z) : string :=
  let '(y, m, day) := civil d in of_bytes (Times.digits 4 y ++ "-"%char :: Times.digits 2 m ++ "-"%char :: Times.digits 2 day).

(** A date is read as the beginning of that day; the flags accept every day
    of the years 0 to 9999. *)
Theorem parseDateFlag_day d : 0 ≤ (civil d).1.1 ≤ 9999 → parseDateFlag (date_text d) = Ok (UTC (d * day_ns)).
Proof.
  unfold date_text, parseDateFlag. pose proof (days_of_civil d) as Hd. destruct (civil d) as [ [y m] day].
  cbn [fst]. intros Hy. destruct Hd as (Hdays & Hm & Hday). pose proof (month_days_le y m).
  assert (F1 := field_digits 4 y 0 9999 ltac:(simpl; lia) ltac:(lia)).
  assert (F2 := field_digits 2 m 1 12 ltac:(simpl; lia) ltac:(lia)).
  assert (F3 := field_digits 2 day 1 (month_days y m) ltac:(simpl; lia) ltac:(lia)).
  cbn [Times.digits app] in *. rewrite decide_False by done. rewrite String.list_ascii_of_string_of_list_ascii.
  cbn [parse_date]. rewrite F1. cbn [mbind option_bind]. rewrite F2. cbn [mbind option_bind]. rewrite F3.
  cbn [mbind option_bind]. rewrite decide_True by done. by rewrite Hdays.
Qed.

(** ** Witnesses *)

(** 32 bytes 0x2a in base64 *)
Definition test_key64 : string := EncodeToString StdEncoding true (String.string_of_list_byte test_key).

Definition test_env (k : string) : string :=
  if decide (k = "TOKEN_ENCRYPTION_KEY") then test_key64
  else if decide (k = "BACKFILL_INTERVAL_SEC") then "0"
  else if decide (k = "GOOGLE_OAUTH_CLIENT_ID" ∨ k = "GOOGLE_OAUTH_CLIENT_SECRET") then "x" else EmptyString.

Definition test_scheduler := scheduler_main test_env true.

Lemma test_scheduler_starts : test_scheduler =
  Start (test_key, 60000000000, mk_BackfillConfig test_key 3600000000000 86400000000000).
Proof. vm_compute. reflexivity. Qed.

Lemma scheduler_intervals_witness :
  0 < 60000000000 ∧ 0 < bf_Interval (mk_BackfillConfig test_key 3600000000000 86400000000000) ∧
  0 < Window (mk_BackfillConfig test_key 3600000000000 86400000000000) ∧
  (test_env "BACKFILL_INTERVAL_SEC" = "0" →
     bf_Interval (mk_BackfillConfig test_key 3600000000000 86400000000000) = 3600 * 1000000000) ∧
  length test_key = 32%nat.
Proof.
  apply (scheduler_intervals test_env true).
  - intros n Hn. by vm_compute in Hn.
  - intros n Hn. vm_compute in Hn. injection Hn as <-. lia.
  - intros n Hn. by vm_compute in Hn.
  - exact test_scheduler_starts.
Defined.

(** A number of seconds that does not fit 64 bits as nanoseconds. *)
Lemma duration_overflow : envDurationSec (λ _, "9223372037") "WORKER_POP_TIMEOUT_SEC" 30 < 0.
Proof. vm_compute. reflexivity. Qed.
