(* ===== verification/Server.v ===== *)
(** * The API server: internal/api/server.go and handlers.go, cmd/api

    The routing table, the two endpoints that need no services, the metrics
    loop, and how cmd/api decides what to expose. *)
From S2P Require Import Prelude Redis Schema GoStrings Utf8 Json Meta Services Effects Queue Store Worker Ratelimit Api Noop Command.
Local Open Scope Z_scope.

(** ** handlers.go *)

Record http_response := mk_http { status : Z; content_type : option string; payload_text : string }.

Definition healthz : http_response := mk_http 200 None "ok".

(** json.Marshal of versionPayload *)
Definition version_text (version commit : string) : bytes :=
  "{"%char :: key_text "version" ++ Json.quoted (to_bytes version) ++
  ","%char :: key_text "commit" ++ Json.quoted (to_bytes commit) ++ ["}"%char].

Definition versionHandler (version commit : string) : http_response :=
  mk_http 200 (Some "application/json") (of_bytes (version_text version commit)).

(** ** server.go *)

Inductive endpoint := EHealthz | EVersion | EIndex | EStats | ERecentJobs | EDemo (button : string) | EMetrics.

#[global] Instance endpoint_eq_dec : EqDecision endpoint.
Proof. solve_decision. Defined.

(** api.Config: the version, and which of Store, Queue and Redis are set. *)
Record Config := mk_Config { Version : string; Commit : string; Store_ : bool; Queue_ : bool; Redis_ : bool }.

Definition demo_routes : list (string * string * endpoint) :=
  (λ b, ("POST", "/api/demo/" +:+ b, EDemo b)) <$> ["burst"; "slow"; "flaky"; "flood"].

(** The routes, by method and path; Prometheus' own collectors are left out. *)
Definition NewRouter (cfg : Config) : list (string * string * endpoint) :=
  [("GET", "/healthz", EHealthz); ("GET", "/version", EVersion)] ++
  (if Store_ cfg && Queue_ cfg && Redis_ cfg then
     [("GET", "/", EIndex); ("GET", "/api/stats", EStats); ("GET", "/api/jobs/recent", ERecentJobs)] ++
     demo_routes ++ [("GET", "/metrics", EMetrics)]
   else []).

(** What the router calls for a request. *)
Definition lookup_route (cfg : Config) (method path : string) : option endpoint :=
  snd <$> head (filter (λ r, r.1 = (method, path)) (NewRouter cfg)).

(** ** metrics.go: start *)

Section metrics.
Context `{UL : UuidLib} `{PG : !PgServer} `{RS : RedisServer} `{DS : DriveServer}.

Definition newMetricsCollector : gauges := mk_gauges ∅ ∅ 0 0 0.

(** The goroutine: once at the start, then at every tick. *)
Fixpoint collect (turns fuel : nat) (g : gauges) : prog gauges :=
  match turns with
  | O => NoFuel
  | S turns =>
      stop ← call CtxDone;
      if stop : bool then mret g else
      g ← refresh fuel g;
      collect turns fuel g
  end.

Definition start (turns fuel : nat) : prog gauges :=
  g ← refresh fuel newMetricsCollector;
  collect turns fuel g.
End metrics.

(** ** cmd/api: main.go *)

(** [services]: the migrations ran and both services were configured. *)
Definition api_main (getenv : string → string) (services : bool) (version commit : string) : startup Config :=
  let dsn := envOr getenv "DATABASE_URL" EmptyString in
  let redisURL := envOr getenv "REDIS_URL" EmptyString in
  if decide (dsn ≠ EmptyString ∧ redisURL ≠ EmptyString) then
    if negb services then Exit 1 else Start (mk_Config version commit true true true)
  else Start (mk_Config version commit false false false).

(** ** Properties *)

(** The probes are always there, everything that reads the services exactly if
    both are configured, and nothing else: a configured server answers the
    dashboard's pages and the four buttons, a bare one only /healthz and
    /version, and a server that cannot reach its services does not start. *)
Theorem api_routes getenv services version commit :
  let configured := getenv "DATABASE_URL" ≠ EmptyString ∧ getenv "REDIS_URL" ≠ EmptyString in
  (api_main getenv services version commit = Exit 1 ↔ configured ∧ services = false) ∧
  ∀ cfg, api_main getenv services version commit = Start cfg →
    lookup_route cfg "GET" "/healthz" = Some EHealthz ∧ lookup_route cfg "GET" "/version" = Some EVersion ∧
    (∀ e, e ∉ [EHealthz; EVersion] → (∃ m p, lookup_route cfg m p = Some e) →
       configured ∧ e ∈ [EIndex; EStats; ERecentJobs; EMetrics; EDemo "burst"; EDemo "slow"; EDemo "flaky"; EDemo "flood"]) ∧
    (configured → ∀ e, e ∈ [EIndex; EStats; ERecentJobs; EMetrics; EDemo "burst"; EDemo "slow"; EDemo "flaky"; EDemo "flood"] →
       ∃ m p, lookup_route cfg m p = Some e).
Proof.
  cbv zeta. unfold api_main, envOr.
  assert (Henv : ∀ k, (if decide (getenv k = EmptyString) then EmptyString else getenv k) = getenv k).
  { intros k. case_decide; by subst. }
  rewrite !Henv. case_decide as Hc.
  - split; [destruct services; cbn; naive_solver|]. intros cfg. destruct services; [|done]. cbn [negb]. intros [= <-].
    split; [reflexivity|]. split; [reflexivity|]. split.
    + intros e He (m & p & Hl). split; [done|]. unfold lookup_route in Hl.
      destruct (head _) as [ [mp e']|] eqn:Eh; [|done]. cbn in Hl. injection Hl as ->.
      apply head_Some_elem_of, list_elem_of_filter in Eh as [_ Hin]. clear -He Hin.
      assert (Hin' : e ∈ (NewRouter (mk_Config version commit true true true)).*2).
      { by apply (list_elem_of_fmap_2 snd _ _ Hin). }
      cbn in Hin'. set_solver.
    + intros _ e He. repeat (apply elem_of_cons in He as [->|He]); [..|by apply elem_of_nil in He].
      * by exists "GET", "/".
      * by exists "GET", "/api/stats".
      * by exists "GET", "/api/jobs/recent".
      * by exists "GET", "/metrics".
      * by exists "POST", "/api/demo/burst".
      * by exists "POST", "/api/demo/slow".
      * by exists "POST", "/api/demo/flaky".
      * by exists "POST", "/api/demo/flood".
  - split; [split; [done|naive_solver]|]. intros cfg [= <-]. split; [reflexivity|]. split; [reflexivity|]. split; [|done].
    intros e He (m & p & Hl). exfalso. unfold lookup_route in Hl. destruct (head _) as [ [mp e']|] eqn:Eh; [|done].
    cbn in Hl. injection Hl as ->. apply head_Some_elem_of, list_elem_of_filter in Eh as [_ Hin].
    cbn in Hin. set_solver.
Qed.

(** The version endpoint's body is a JSON object from which version and commit
    are read back (up to bytes that are not UTF-8). *)
Theorem version_readable version commit :
  parse_json (to_bytes (payload_text (versionHandler version commit))) =
    Some (JObj [(to_bytes "version", JStr (quote (to_bytes version))); (to_bytes "commit", JStr (quote (to_bytes commit)))]) ∧
  unquote (quote (to_bytes version)) = encode (runes (to_bytes version)) ∧
  unquote (quote (to_bytes commit)) = encode (runes (to_bytes commit)).
Proof.
  split; [|split; apply unquote_quote]. cbn [versionHandler payload_text]. rewrite String.list_ascii_of_string_of_list_ascii.
  unfold parse_json. assert (∃ d, maxNestingDepth = S d) as [d ->] by (exists (Z.to_nat 9999); unfold maxNestingDepth; lia).
  unfold version_text. change (key_text "version" ++ ?l) with (dquote :: tail (key_text "version") ++ l).
  rewrite value_object. change (dquote :: tail (key_text "version") ++ ?l) with (key_text "version" ++ l).
  set (fuel := length _). assert (∃ k, fuel = S (S k)) as [k ->] by (eexists; reflexivity).
  erewrite members_comma; [|repeat constructor|apply value_quoted].
  erewrite members_last; [|repeat constructor|apply value_quoted]. reflexivity.
Qed.
