(* ===== verification/Background.v ===== *)
(** * What the programs around the workers do to a job

    The sweeper, the scheduler, the backfills, the API server and account
    setup add jobs at the first stage of a pipeline and requeue jobs where
    they are; they move no job to another stage, complete none, and touch
    neither files, Drives nor the folder cache.  [background] states this of
    two shared states, [harmless] of a call; the lemmas walk the programs. *)
From S2P Require Import Prelude Redis Schema GoStrings Services Effects Queue Store Worker Sweeper OAuth Gmail Scheduler Drive Ratelimit Api Noop Server.
Local Open Scope Z_scope.

Create HintDb background.

Section background.
Context `{UL : UuidLib} `{PG : !PgServer} `{RS : RedisServer} `{DS : DriveServer} `{AE : AeadLib}.

Definition jobs (s : shared) : gmap uuid Job := pipeline_jobs (s_db s).

(** The same piece of work, at the same stage, not completed in between. *)
Record same_task (j j' : Job) : Prop := {
  task_ID : ID j' = ID j;
  task_UserID : UserID j' = UserID j;
  task_Message : GmailMessageID j' = GmailMessageID j;
  task_CreatedAt : CreatedAt j' = CreatedAt j;
  task_Stage : Stage j' = Stage j;
  task_Done : Status j' = StatusDone → Status j = StatusDone
}.

Definition first_stage (st : string) : Prop := st = "fetch" ∨ st = "test".

(** A row that was not there before. *)
Record entering (m : gmap uuid Job) (id : uuid) (j : Job) : Prop := {
  ent_new : m !! id = None;
  ent_ID : ID j = id;
  ent_Stage : first_stage (Stage j);
  ent_Done : Status j ≠ StatusDone
}.

Record rows_kept (m m' : gmap uuid Job) : Prop := {
  kept_rows id : is_Some (m !! id) → is_Some (m' !! id);
  kept_or_new id j' : m' !! id = Some j' → (∃ j, m !! id = Some j ∧ same_task j j') ∨ entering m id j'
}.

(** Files, Drives and the folder cache are as they were. *)
Record same_world (s s' : shared) : Prop := {
  same_ext : s_ext s' = s_ext s;
  same_now : s_now s ≤ s_now s';
  same_cache u path t : s_now s' ≤ t →
    rstr (s_redis s') t (cache_key u path) = rstr (s_redis s) t (cache_key u path)
}.

Record background (s s' : shared) : Prop := {
  bg_world : same_world s s';
  bg_rows : rows_kept (jobs s) (jobs s')
}.

#[export] Instance same_task_refl : Reflexive same_task.
Proof. by intros j. Qed.

#[export] Instance same_task_trans : Transitive same_task.
Proof. intros j1 j2 j3 [] []. constructor; try congruence. auto. Qed.

#[export] Instance rows_kept_refl : Reflexive rows_kept.
Proof. intros m. split; [done|]. intros id j Hj. left. by exists j. Qed.

#[export] Instance rows_kept_trans : Transitive rows_kept.
Proof.
  intros m1 m2 m3 [D12 H12] [D23 H23]. split; [auto|]. intros id j3 H3.
  destruct (H23 id j3 H3) as [(j2 & H2 & S23)|[Hn Hid Hst Hd] ].
  - destruct (H12 id j2 H2) as [(j1 & H1 & S12)|[Hn Hid Hst Hd] ].
    + left. exists j1. split; [done|by etrans].
    + right. destruct S23. constructor; try congruence; auto.
  - right. constructor; [|done..]. destruct (m1 !! id) as [j1|] eqn:E; [|done].
    destruct (D12 id) as [j2 Hj2]; [by eexists|]. congruence.
Qed.

#[export] Instance same_world_refl : Reflexive same_world.
Proof. by intros s. Qed.

#[export] Instance same_world_trans : Transitive same_world.
Proof.
  intros s1 s2 s3 [E12 N12 C12] [E23 N23 C23]. constructor; [congruence|lia|].
  intros u path t Ht. rewrite C23 by done. apply C12. lia.
Qed.

#[export] Instance background_refl : Reflexive background.
Proof. by intros s. Qed.

#[export] Instance background_trans : Transitive background.
Proof. intros s1 s2 s3 [W12 R12] [W23 R23]. split; by etrans. Qed.

(** ** Calls *)

Definition harmless (X : Type) (c : cmd X) : Prop := ∀ o s, background s (exec o c s).2.

(** A program that makes only such calls. *)
Lemma run_background {A} orc (p : prog A) i s a i' s' :
  calls_only harmless p → run orc p i s = Some (a, i', s') → background s s'.
Proof.
  intros Hp. apply (run_calls_only harmless (background s)); [|done|done].
  intros X c o s1 Hc H. etrans; [exact H|apply Hc].
Qed.

Lemma background_elapse o s : background s (elapse o s).
Proof. split; [|done]. constructor; cbn; try done. lia. Qed.

Lemma harmless_Sql {X} (f : Z → DB → result X * DB) :
  (∀ t db, rows_kept (pipeline_jobs db) (pipeline_jobs (f t db).2)) → harmless _ (Sql f).
Proof.
  intros Hf o s. etrans; [apply (background_elapse o)|]. cbn [exec]. set (s1 := elapse o s).
  specialize (Hf (s_now s1) (s_db s1)). destruct (f _ _) as [x d]. cbn [snd] in Hf.
  destruct (o_fault o); cbn [with_fault snd]; (split; [constructor|]); by cbn.
Qed.

Lemma harmless_Redis {X} (f : Z → rstate → result X * rstate) :
  (∀ t r t' u path, t ≤ t' → rstr (f t r).2 t' (cache_key u path) = rstr r t' (cache_key u path)) →
  harmless _ (Redis f).
Proof.
  intros Hf o s. etrans; [apply (background_elapse o)|]. cbn [exec]. set (s1 := elapse o s).
  specialize (Hf (s_now s1) (s_redis s1)). destruct (f _ _) as [x d]. cbn [snd] in Hf.
  destruct (o_fault o); cbn [with_fault snd]; (split; [constructor|]); cbn; done || (intros; by apply Hf).
Qed.

(** Calls that may change rows in any way. *)
Definition worldly (X : Type) (c : cmd X) : Prop := ∀ o s, same_world s (exec o c s).2.

Lemma run_worldly {A} orc (p : prog A) i s a i' s' :
  calls_only worldly p → run orc p i s = Some (a, i', s') → same_world s s'.
Proof.
  intros Hp. apply (run_calls_only worldly (same_world s)); [|done|done].
  intros X c o s1 Hc H. etrans; [exact H|apply Hc].
Qed.

Lemma harmless_worldly X (c : cmd X) : harmless X c → worldly X c.
Proof. intros H o s. apply H. Qed.

Lemma worldly_Sql {X} (f : Z → DB → result X * DB) : worldly _ (Sql f).
Proof.
  intros o s. etrans; [apply (background_elapse o)|]. cbn [exec]. destruct (f _ _) as [x d].
  by destruct (o_fault o).
Qed.

Definition plain_call (X : Type) (c : cmd X) : Prop :=
  match c with Redis _ | Sql _ | Ext _ => False | _ => True end.

Lemma harmless_plain X (c : cmd X) : plain_call X c → harmless X c.
Proof.
  intros Hc o s. etrans; [apply (background_elapse o)|]. destruct c; try done; cbn; try done.
  by destruct (o_fault o).
Qed.

(** Statements *)

Lemma rows_kept_insert m id j' :
  entering m id j' ∨ (∃ j, m !! id = Some j ∧ same_task j j') → rows_kept m (<[id := j']> m).
Proof.
  intros H. split; intros id'; destruct (decide (id' = id)) as [->|Hne];
    rewrite ?lookup_insert_eq, ?lookup_insert_ne by done; eauto.
  - intros ? [= <-]. tauto.
  - intros j2 Hj2. left. by exists j2.
Qed.

Lemma rows_kept_update id where_ f db :
  (∀ j j', f j = Ok j' → same_task j j') → rows_kept (pipeline_jobs db) (pipeline_jobs (sql_update id where_ f db).2).
Proof.
  intros Hf. destruct (sql_update_cases id where_ f db) as [(j & j' & Hj & _ & Hfj & _ & ->)|[_ ->] ]; [|done].
  cbn. apply rows_kept_insert. right. exists j. auto.
Qed.

Lemma rows_kept_enqueue id nj payload t db :
  first_stage (nj_Stage nj) → rows_kept (pipeline_jobs db) (pipeline_jobs (sql_enqueue id nj payload t db).2).
Proof.
  intros Hst. unfold sql_enqueue. case_decide as Hn; [done|]. destruct (put_job _ _ _) as [db'|e] eqn:Hp; [|done].
  destruct (user_ref_ok _ _); [|done]. apply put_job_Ok in Hp as [_ ->]. cbn. apply eq_None_not_Some in Hn.
  apply rows_kept_insert. left. by constructor.
Qed.

(** Redis commands on lists and heartbeats *)

Lemma harmless_LPush st v : harmless _ (cli_LPush (key st) v).
Proof. apply harmless_Redis. intros. apply rstr_LPush, key_list. Qed.

Lemma harmless_LMove src dst a b : list_key src → list_key dst → harmless _ (cli_LMove src dst a b).
Proof.
  intros Hs Hd. apply harmless_Redis. intros t r t' u path _. pose proof (rstr_LMove r src dst a b t' (cache_key u path) Hs Hd).
  by destruct (LMove _ _ _ _ _) as [ [?|] ?].
Qed.

Lemma harmless_LRem st w n v : harmless _ (cli_LRem (processingKey st w) n v).
Proof. apply harmless_Redis. intros. apply rstr_LRem, processingKey_list. Qed.

Lemma cache_not_heartbeat u path w : cache_key u path ≠ heartbeatKey w.
Proof. done. Qed.

Lemma harmless_heartbeat w v ttl : 0 < ttl → harmless _ (cli_Set (heartbeatKey w) v ttl).
Proof.
  intros Httl. apply harmless_Redis. intros t r t' u path Ht. cbn [snd].
  rewrite rstr_SetKey; [by rewrite decide_False|left|done|done]. apply prefix_spec. by eexists.
Qed.

(** ** Programs *)

Abbreviation safe p := (calls_only harmless p).

Lemma safe_BlockingPop st w tmo : safe (BlockingPop st w tmo).
Proof. split; [apply harmless_LMove; [apply key_list|apply processingKey_list]|]. walk_prog. Qed.

Lemma safe_Ack st w id : safe (Ack st w id).
Proof. split; [apply harmless_LRem|]. walk_prog. Qed.

Lemma safe_Heartbeat w ttl : 0 < ttl → safe (Heartbeat w ttl).
Proof. intros H. split; [by apply harmless_plain|]. intros t. split; [by apply harmless_heartbeat|]. walk_prog. Qed.

Lemma safe_update {X} id where_ f (g : result Z → prog X) :
  (∀ t j j', f t j = Ok j' → same_task j j') → (∀ r, safe (g r)) →
  safe (r ← call (Sql (λ t, sql_update id where_ (f t))); g r).
Proof.
  intros Hf Hg. apply calls_only_bind; [|done]. split; [|done]. apply harmless_Sql. intros t db. apply rows_kept_update, Hf.
Qed.

Lemma safe_ClaimJob id w : safe (ClaimJob id w).
Proof. apply safe_update; [|walk_prog]. by intros t j j' [= <-]. Qed.

Lemma safe_MarkFailed id msg next : safe (MarkFailed id msg next).
Proof.
  apply safe_update; [|done]. intros t j j'. unfold failed_row. destruct (_ >? _); [done|]. intros [= <-].
  constructor; cbn; try done. by destruct (_ >=? _).
Qed.

(** *** The interface of the programs beside workers and sweeper *)

(** What such programs call: they ask, read the tables and Redis, push ids,
    and write new jobs, tokens, cursors and users.  Whatever holds of these
    calls holds of all calls of the programs below. *)
Class Visitor (P : ∀ X, cmd X → Prop) : Prop := {
  visit_plain X (c : cmd X) : plain_call X c → P X c;
  visit_select X (f : Z → DB → result X) : P _ (Sql (λ t db, (f t db, db)));
  visit_ask X (f : Z → rstate → result X) : P _ (Redis (λ t r, (f t r, r)));
  visit_push st v : P _ (cli_LPush (key st) v);
  visit_enqueue id nj payload : first_stage (nj_Stage nj) → P _ (Sql (sql_enqueue id nj payload));
  visit_token t : P _ (Sql (sql_save_token t));
  visit_cursor u h : P _ (Sql (sql_set_sync u h));
  visit_user id email : P _ (Sql (sql_create_user id email))
}.

Lemma harmless_others {X} (f : Z → DB → result X * DB) :
  (∀ t db, pipeline_jobs (f t db).2 = pipeline_jobs db) → harmless _ (Sql f).
Proof. intros Hf. apply harmless_Sql. intros t db. by rewrite Hf. Qed.

#[export] Instance visitor_harmless : Visitor harmless.
Proof.
  constructor.
  - apply harmless_plain.
  - intros X f. by apply harmless_Sql.
  - intros X f. by apply harmless_Redis.
  - apply harmless_LPush.
  - intros id nj payload Hst. apply harmless_Sql. intros. by apply rows_kept_enqueue.
  - intros t. apply harmless_others. intros ? db. unfold sql_save_token. by destruct (user_ref_ok _ _).
  - intros u h. apply harmless_others. intros ? db. unfold sql_set_sync. by destruct (user_ref_ok _ _).
  - intros id email. apply harmless_others. intros ? db. unfold sql_create_user. by repeat case_decide.
Qed.

Section visitor.
Context (P : ∀ X, cmd X → Prop) `{V : !Visitor P}.
Abbreviation visits p := (calls_only P p).

Lemma visits_plain {X} (c : cmd X) : plain_call X c → visits (call c).
Proof. intros H. split; [by apply visit_plain|done]. Qed.

Lemma visits_reads {X} (f : Z → DB → result X) : visits (call (Sql (λ t db, (f t db, db)))).
Proof. split; [apply visit_select|done]. Qed.

Lemma visits_asks {X} (f : Z → rstate → result X) : visits (call (Redis (λ t r, (f t r, r)))).
Proof. split; [apply visit_ask|done]. Qed.

Lemma visits_Scan c pat : visits (call (cli_Scan c pat)).
Proof. apply visits_asks. Qed.
Lemma visits_LLen k : visits (call (cli_LLen k)).
Proof. apply visits_asks. Qed.
Lemma visits_Exists k : visits (call (cli_Exists k)).
Proof. apply visits_asks. Qed.

Lemma visits_Push st id : visits (Push st id).
Proof. split; [apply visit_push|]. walk_prog. Qed.

Lemma visits_EnqueueJob nj : first_stage (nj_Stage nj) → visits (EnqueueJob nj).
Proof. intros H. split; [by apply visit_plain|]. intros id. split; [by apply visit_enqueue|walk_prog]. Qed.

Lemma visits_save t : visits (SaveOAuthToken t).
Proof. split; [apply visit_token|walk_prog]. Qed.

Lemma visits_cursor u h : visits (SetGmailSyncState u h).
Proof. split; [apply visit_cursor|walk_prog]. Qed.

Lemma visits_user email : visits (CreateUser email).
Proof. split; [by apply visit_plain|]. intros id. split; [apply visit_user|walk_prog]. Qed.
End visitor.
End background.

#[export] Hint Resolve visits_reads visits_Scan visits_LLen visits_Exists visits_Push visits_EnqueueJob visits_save visits_cursor visits_user : background.
#[export] Hint Resolve safe_BlockingPop safe_Ack safe_Heartbeat safe_ClaimJob safe_MarkFailed : background.
#[export] Hint Extern 2 (first_stage _) => (by left) || (by right) : background.
#[export] Hint Extern 3 (calls_only _ (call ?c)) => (apply visits_plain; [apply _|exact I]) : background.
#[export] Hint Extern 1 (Visitor _) => apply _ : background.

(** Walk through a program whose operations are known to be harmless. *)
Ltac walk_safe :=
  repeat first
    [ done
    | progress intros
    | solve [auto 3 with background nocore]
    | apply calls_only_bind
    | match goal with |- context [match ?x with _ => _ end] => destruct x end ].

(** ** The sweeper *)

Section sweeper.
Context `{UL : UuidLib} `{PG : !PgServer} `{RS : RedisServer} `{DS : DriveServer}.
Abbreviation safe p := (calls_only harmless p).

Lemma safe_reclaim_loop fuel st w n : safe (reclaim_loop fuel st w n).
Proof.
  revert n. induction fuel as [|fuel IH]; intros n; cbn [reclaim_loop]; [done|]. split; [|walk_safe; apply IH].
  apply harmless_LMove; [apply processingKey_list|apply key_list].
Qed.

Lemma safe_list_processing fuel out c : safe (list_processing_loop fuel out c).
Proof. revert out c. induction fuel as [|fuel IH]; intros out c; cbn [list_processing_loop]; walk_safe. Qed.

Lemma safe_reclaim_refs fuel refs : safe (reclaim_refs fuel refs).
Proof. induction refs as [|ref refs IH]; cbn [reclaim_refs]; unfold IsWorkerAlive; walk_safe; apply safe_reclaim_loop. Qed.

Lemma safe_revive js : safe (revive_jobs js).
Proof. induction js as [|j js IH]; cbn [revive_jobs]; unfold IsWorkerAlive; walk_safe. Qed.

Lemma safe_push_jobs js : safe (push_jobs js).
Proof. induction js as [|j js IH]; cbn [push_jobs]; walk_safe. Qed.

Lemma safe_SweepOnce fuel cfg : safe (SweepOnce fuel cfg).
Proof.
  unfold SweepOnce, reclaimProcessing, reviveOrphans, promoteDelayed, repushStale, ListProcessing, ListRunningJobs,
    ListReadyRetryJobs, ListStaleQueuedJobs.
  walk_safe; first [apply safe_list_processing|apply safe_reclaim_refs|apply safe_revive|apply safe_push_jobs].
Qed.

End sweeper.

(** ** The other programs *)

Section programs.
Context `{UL : UuidLib} `{PG : !PgServer} `{RS : RedisServer} `{DS : DriveServer} `{AE : AeadLib}.
Context (P : ∀ X, cmd X → Prop) `{V : !Visitor P}.
Abbreviation visits p := (calls_only P p).

Lemma visits_SaveToken u key p tok : visits (SaveToken u key p tok).
Proof. unfold SaveToken, read_nonce. walk_safe. Qed.

Lemma visits_source c : visits (source c).
Proof. unfold source, savingSource_Token. walk_safe; apply visits_SaveToken. Qed.

Lemma visits_Do {X} c (rq : api_req X) : visits (Do c rq).
Proof. unfold Do. walk_safe; apply visits_source. Qed.

Lemma visits_connect svc u key : visits (connect svc u key).
Proof. unfold connect, LoadToken, GetOAuthToken. walk_safe. Qed.

(** ** The scheduler and the backfills *)

Lemma visits_poll_enqueue u ids : visits (poll_enqueue u ids).
Proof. induction ids as [|gid ids IH]; cbn [poll_enqueue]; walk_safe. Qed.

Lemma visits_pollUser key u : visits (pollUser key u).
Proof.
  unfold pollUser, GetGmailSyncState, fetchInitialHistoryID, Gmail.New, LatestMessageIDs.
  walk_safe; first [apply visits_connect|apply visits_Do|apply visits_poll_enqueue].
Qed.

Lemma visits_for_users f : (∀ u, visits (f u)) → visits (for_users f).
Proof.
  intros Hf. unfold for_users, ListUsers. assert (∀ us, visits (each_user f us)).
  { intros us. induction us as [|u us IH]; cbn [each_user]; walk_safe. }
  walk_safe; auto.
Qed.

Lemma visits_backfill_enqueue u ids n : visits (backfill_enqueue u ids n).
Proof. revert n. induction ids as [|gid ids IH]; intros n; cbn [backfill_enqueue]; unfold HasJobForMessage; walk_safe. Qed.

Lemma visits_list_recent fuel c q ids tok : visits (list_recent_loop fuel c q ids tok).
Proof. revert c ids tok. induction fuel as [|fuel IH]; intros c ids tok; cbn [list_recent_loop]; walk_safe; apply visits_Do. Qed.

Lemma visits_runUser fuel cfg u : visits (runUser fuel cfg u).
Proof.
  unfold runUser, Gmail.New, ListRecent.
  walk_safe; first [apply visits_connect|apply visits_list_recent|apply visits_backfill_enqueue].
Qed.

Lemma visits_wait fuel d : visits (waitForQueueDepth fuel d).
Proof. induction fuel as [|fuel IH]; cbn [waitForQueueDepth]; unfold Depth; walk_safe. Qed.

Lemma visits_full_page fuel d u n ids : visits (full_page fuel d u n ids).
Proof.
  unfold full_page. apply calls_only_bind; [apply visits_wait|]. intros [?|?]; [|done].
  revert n. induction ids as [|gid ids IH]; intros n; cbn [enqueue_page]; unfold enqueueOne, HasJobForMessage; walk_safe.
Qed.

Lemma visits_RunFull fuel cfg : visits (RunFull fuel cfg).
Proof.
  unfold RunFull, GetUserByEmail, Gmail.New, ListAllPages. cbv zeta.
  assert (H : ∀ k c q tok (page : Z * Z → list string → prog ((Z * Z) * result unit)) a, (∀ a ids, visits (page a ids)) →
    visits (all_pages_loop k c q tok page a)).
  { intros k. induction k as [|k IH]; intros c q tok page a Hp; cbn [all_pages_loop]; walk_safe;
      first [apply visits_Do|apply Hp|by apply IH]. }
  walk_safe; first [apply visits_connect|apply H; intros; apply visits_full_page].
Qed.

(** ** The API server *)

Lemma visits_enqueueSynthetic n payload k : visits (enqueueSynthetic n payload k).
Proof. revert k. induction n as [|n IH]; intros k; cbn [enqueueSynthetic]; walk_safe. Qed.

Lemma visits_demo rt r st : visits (demo rt r st).
Proof.
  assert (He : ∀ n payload, visits (enqueued n payload)) by (intros; apply calls_only_bind; [apply visits_enqueueSynthetic|done]).
  assert (Hr : ∀ n payload (st : limits), visits (resp ← enqueued n payload; mret (resp, st))) by (intros; apply calls_only_bind; [apply He|done]).
  unfold demo, rateLimit. apply calls_only_bind; [by auto with background|]. intros t. destruct (Allow _ _ _) as [ok b].
  destruct ok; [|done]. cbn [negb]. destruct rt; try apply Hr.
  apply calls_only_bind; [by auto with background|]. intros t'. destruct (Allow _ _ _) as [ok b'].
  destruct ok; [apply Hr|done].
Qed.

Lemma visits_stats fuel : visits (stats fuel).
Proof.
  assert (Hd : ∀ ss m, visits (depths ss m)) by (intros ss; induction ss as [|st ss IH]; intros m; cbn [depths]; unfold Depth; walk_safe).
  assert (Ha : ∀ k ws c, visits (alive_loop k ws c)) by (intros k; induction k as [|k IH]; intros ws c; cbn [alive_loop]; walk_safe).
  unfold stats, jobCounts, aliveWorkers. generalize stages as ss. intros ss. walk_safe; first [apply Hd|apply Ha].
Qed.

Lemma visits_recentJobs v : visits (recentJobs v).
Proof. unfold recentJobs, listRecentJobs. walk_safe. Qed.

Lemma visits_refresh fuel g : visits (refresh fuel g).
Proof.
  assert (Hd : ∀ ss g, visits (refresh_depths ss g)) by (intros ss; induction ss as [|st ss IH]; intros g'; cbn [refresh_depths]; unfold Depth; walk_safe).
  assert (Ha : ∀ k n c g, visits (refresh_alive k n c g)) by (intros k; induction k as [|k IH]; intros n c g'; cbn [refresh_alive]; cbv zeta; walk_safe).
  unfold refresh, refresh_counts, refresh_poll. generalize stages as ss. intros ss. walk_safe; first [apply Hd|apply Ha].
Qed.

(** ** Account setup *)

Lemma visits_setup email key tok : visits (setup_account email key tok).
Proof. unfold setup_account, GetUserByEmail. walk_safe; apply visits_SaveToken. Qed.

End programs.

(** ** Properties *)

Section turns.
Context `{UL : UuidLib} `{PG : !PgServer} `{RS : RedisServer} `{DS : DriveServer} `{AE : AeadLib}.

(** One turn of a program beside workers and sweeper. *)
Inductive visit : ∀ A, prog A → Prop :=
| visit_poll key : visit _ (PollOnce key)
| visit_backfill fuel cfg : visit _ (RunOnce fuel cfg)
| visit_import fuel cfg : visit _ (RunFull fuel cfg)
| visit_demo rt r st : visit _ (demo rt r st)
| visit_stats fuel : visit _ (stats fuel)
| visit_recent v : visit _ (recentJobs v)
| visit_metrics fuel g : visit _ (refresh fuel g)
| visit_setup email key tok : visit _ (setup_account email key tok).

Lemma visit_calls P `{V : !Visitor P} A (p : prog A) : visit A p → calls_only P p.
Proof.
  destruct 1; [apply visits_for_users, visits_pollUser|apply visits_for_users, visits_runUser|apply visits_RunFull
    |apply visits_demo|apply visits_stats|apply visits_recentJobs|apply visits_refresh|apply visits_setup]; apply _.
Qed.

(** One turn of the programs beside the workers' handlers. *)
Inductive around : ∀ A, prog A → Prop :=
| around_sweep fuel cfg : around _ (SweepOnce fuel cfg)
| around_heartbeat w ttl : 0 < ttl → around _ (Heartbeat w ttl)
| around_visit A p : visit A p → around A p.

Lemma around_safe A (p : prog A) : around A p → calls_only harmless p.
Proof. destruct 1; [apply safe_SweepOnce|by apply safe_Heartbeat|by apply (visit_calls harmless)]. Qed.

(** C14. Whatever fails, one turn of a program beside the workers leaves files,
    Drives and the folder cache alone, removes no job, and changes a job only
    where it is: the job keeps its message, its stage and its time, and is not
    completed; what it adds are incomplete jobs at a first stage. *)
Theorem work_is_workers A (p : prog A) orc i s a i' s' :
  around A p → run orc p i s = Some (a, i', s') → background s s'.
Proof. intros Hp. by apply run_background, around_safe. Qed.
End turns.

(** ** Witness *)
Import SchemaModel RedisModel DriveModel AeadModel EffectsModel.

Lemma work_is_workers_witness :
  ∃ a i' s', run (calm (λ _, Ok EmptyString)) (SweepOnce 5 (Sweeper.New (Sweeper.mk_Config 0 0))) 0 signed_up = Some (a, i', s') ∧ background signed_up s'.
Proof.
  eexists _, _, _. split; [reflexivity|].
  eapply (work_is_workers _ (SweepOnce 5 (Sweeper.New (Sweeper.mk_Config 0 0))) (calm (λ _, Ok EmptyString)) 0 signed_up).
  - constructor.
  - reflexivity.
Defined.
