(* ===== verification/Clients.v ===== *)
(** * The programs beside workers and sweeper as clients of the system

    System.v admits any client whose calls are [client_call]s.  Here: the
    scheduler's polls, the backfills, the API server's endpoints, the metrics
    and account setup are such clients, one turn after the other. *)
From S2P Require Import Prelude Redis Schema GoStrings Services Effects Queue Store Worker Sweeper Concurrency System OAuth Gmail Scheduler Drive Ratelimit Api Noop Server Background.
Local Open Scope Z_scope.

Section clients.
Context `{UL : UuidLib} `{PG : !PgServer} `{RS : RedisServer} `{DS : DriveServer} `{AE : AeadLib}.

#[export] Instance visitor_client : Visitor client_call.
Proof.
  constructor.
  - by intros X [].
  - done.
  - by intros X f t r t' w.
  - intros st v. apply hb_frame_LPush, key_list.
  - intros id nj payload _ t db. apply gentle_enqueue.
  - intros tok t db. apply gentle_others; [|apply (exec_stmt_ok (SSaveToken tok))].
    unfold sql_save_token. by destruct (user_ref_ok _ _).
  - intros u h t db. apply gentle_others; [|apply (exec_stmt_ok (SSetSync u h))].
    unfold sql_set_sync. by destruct (user_ref_ok _ _).
  - intros id email t db. apply gentle_others; [|apply (exec_stmt_ok (SCreateUser id email))].
    unfold sql_create_user. by repeat case_decide.
Qed.

(** A request to the API server, an import or an account setup; the
    scheduler's two loops; the loop of the metrics. *)
Inductive client : ∀ A, prog A → Prop :=
| client_visit A (p : prog A) : visit A p → client A p
| client_scheduler fuel key : client _ (Scheduler.Run fuel key)
| client_backfill turns fuel cfg : client _ (RunBackfill turns fuel cfg)
| client_metrics turns fuel : client _ (start turns fuel).

Section calls.
Context (P : ∀ X, cmd X → Prop) `{V : !Visitor P}.

Lemma ticks_calls fuel once : calls_only P once → calls_only P (ticks fuel once).
Proof.
  intros H. induction fuel as [|fuel IH]; cbn [ticks]; [done|]. apply calls_only_bind; [by apply (visits_plain P)|].
  intros [|]; [done|]. by apply calls_only_bind.
Qed.

Lemma client_calls A (p : prog A) : client A p → calls_only P p.
Proof.
  destruct 1 as [A p Hp|fuel key|turns fuel cfg|turns fuel].
  - by apply (visit_calls P).
  - assert (H : calls_only P (PollOnce key)) by (apply (visit_calls P); constructor).
    apply calls_only_bind; [done|]. intros ?. by apply ticks_calls.
  - assert (H : calls_only P (RunOnce fuel cfg)) by (apply (visit_calls P); constructor).
    unfold RunBackfill. destruct (_ <=? _); [done|]. apply calls_only_bind; [done|]. intros ?. by apply ticks_calls.
  - assert (H : ∀ g, calls_only P (refresh fuel g)) by (intros; apply (visit_calls P); constructor).
    unfold start. apply calls_only_bind; [done|]. intros g. revert g.
    induction turns as [|turns IH]; intros g; cbn [collect]; [done|]. apply calls_only_bind; [by apply (visits_plain P)|].
    intros [|]; [done|]. apply calls_only_bind; [done|]. intros ?. apply IH.
Qed.
End calls.

Lemma forget_calls (P : ∀ X, cmd X → Prop) `{V : !Visitor P} A (p : prog A) :
  client A p → calls_only P (forget p).
Proof. intros H. apply calls_only_bind; [by apply client_calls|done]. Qed.
End clients.
