(* ===== verification/Placement.v ===== *)
(** * Where a message is at each stage

    [placed] relates a job's row to the files and the Drive: what is on disk
    at the render and the upload stage, and on Drive when the job is done, in
    terms of what Gmail and the renderer answered ([evidence]).  [deploy_ok]
    is the invariant of a deployment built from it, and [delivered] what it
    says of a job that is done. *)
From S2P Require Import Prelude Redis Schema GoStrings Utf8 Calendar Times Json Meta Paths Base64 Mime Html Services Effects Files Disk Queue Store Worker OAuth Gmail Drive Fetch Render Upload Forest Names Pipeline Noop Command Background.
Local Open Scope Z_scope.

Section placement.
Context `{UL : UuidLib} `{PG : !PgServer} `{RS : RedisServer} `{DS : DriveServer} `{AE : AeadLib}
  `{ML : MailLib} `{TP : TimeParser}.
Variables (getenv : string → string).

(** What the workers read from the environment; [stage_handler] uses these. *)
Definition data_dir : string := envOr getenv "DATA_DIR" "/data".
Definition upload_config : UploadConfig :=
  mk_UploadConfig data_dir (envOr getenv "DRIVE_ROOT_FOLDER_ID" EmptyString) (envOr getenv "DRIVE_ROOT_PATH" EmptyString).

(** time.Parse and net/mail give offsets in whole minutes. *)
Hypothesis dates : ∀ d t, ParseDate d = Ok t → t_off t mod 60 = 0.

(** The configured root folder. *)
Hypothesis root_id : drive_id_ok (root_of upload_config).
Hypothesis root_path : RootPath upload_config ≠ EmptyString → Forall folder_name (root_folders (RootPath upload_config)).

(** A row's identifiers can be used in file names and cache keys. *)
Record plain_job (id : uuid) (j : Job) : Prop := {
  pj_ID : ID j = id;
  pj_plain : plain_id id;
  pj_user u : UserID j = Some u → contains_byte ":" (uuid_String u) = false
}.

(** ** What Gmail and the renderer answered *)

(** Which bytes Gmail gave for a user's message, and which PDF the renderer
    made of a page. *)
Record evidence := mk_evidence {
  ev_fetched : uuid → string → string → Prop;
  ev_rendered : string → string → Prop
}.

Record more (e e' : evidence) : Prop := {
  more_fetched u gid raw : ev_fetched e u gid raw → ev_fetched e' u gid raw;
  more_rendered html pdf : ev_rendered e html pdf → ev_rendered e' html pdf
}.

#[export] Instance more_refl : Reflexive more.
Proof. by intros e. Qed.

(** ** The invariant *)

(** The message of a job, as the stages read it. *)
Record message (e : evidence) (j : Job) (u : uuid) (parsed : ParsedMessage) (pdf : string) (m : RenderMeta) : Prop := {
  msg_user : UserID j = Some u;
  msg_raw : ∃ gid raw, GmailMessageID j = Some gid ∧ ev_fetched e u gid raw ∧ parseMessage raw = Some (Ok parsed);
  msg_pdf : ev_rendered e (buildHTMLWrapper parsed) pdf;
  msg_subject : rm_Subject m = to_valid (pm_Subject parsed);
  msg_from : rm_FromEmail m = to_valid (pm_FromEmail parsed);
  msg_received : t_ns (rm_ReceivedAt m) = received j parsed;
  msg_names : rm_AttachmentNames m = to_valid <$> names_of (Attachments parsed)
}.

Definition has_mail (e : evidence) (F : gmap string string) (j : Job) : Prop :=
  ∃ u gid raw, UserID j = Some u ∧ GmailMessageID j = Some gid ∧ ev_fetched e u gid raw ∧
    F !! path_of data_dir (ID j) Mime = Some raw.

Definition packed (e : evidence) (F : gmap string string) (j : Job) : Prop :=
  ∃ u parsed pdf m, message e j u parsed pdf m ∧ meta_for upload_config j F m ∧
    F !! path_of data_dir (ID j) Pdf = Some pdf ∧
    ∀ n, n ∈ names_of (Attachments parsed) →
      F !! path_of data_dir (ID j) (Attached n) = Some (content_of n (Attachments parsed)).

(** There is a file of every name in the message's folder. *)
Definition filed (e : evidence) (d : uuid → dstate) (j : Job) : Prop :=
  ∃ u parsed pdf m, message e j u parsed pdf m ∧ complete upload_config m (d u).

Record placed (e : evidence) (F : gmap string string) (d : uuid → dstate) (j : Job) : Prop := {
  at_render : Stage j = "render" → has_mail e F j;
  at_upload : Stage j = "upload" → packed e F j;
  at_end : Stage j = "upload" → Status j = StatusDone → filed e d j
}.

(** The file has the name and the content of the message's PDF, or of one of
    its attachments. *)
Definition of_message (parsed : ParsedMessage) (pdf : string) (f : dfile) : Prop :=
  (f_name f = "email.pdf" ∧ f_content f = pdf) ∨
  ∃ n, n ∈ names_of (Attachments parsed) ∧ f_name f = to_valid n ∧
    (to_valid n = n → f_content f = content_of n (Attachments parsed)).

(** A folder on the way to one of the user's own messages, or a file of such a
    message in the message's folder. *)
Definition from_mail (e : evidence) (d : dstate) (u : uuid) (f : dfile) : Prop :=
  (∃ j parsed pdf m ns n rest, message e j u parsed pdf m ∧ folders_of upload_config m = ns ++ n :: rest ∧
     chain d (root_of upload_config) ns (f_parent f) ∧ f_name f = n ∧ f_mime f = folderMime ∧ f_content f = EmptyString) ∨
  (∃ j parsed pdf m, message e j u parsed pdf m ∧ chain d (root_of upload_config) (folders_of upload_config m) (f_parent f) ∧
     of_message parsed pdf f).

(** [d0] is what was on the Drives in the beginning. *)
Record deploy_ok (d0 : uuid → dstate) (e : evidence) (s : shared) : Prop := {
  dk_jobs id j : jobs s !! id = Some j → plain_job id j;
  dk_ready u : contains_byte ":" (uuid_String u) = false → ready u (root_of upload_config) s;
  dk_placed id j : jobs s !! id = Some j → placed e (files s) (drives s) j;
  dk_drives u f : f ∈ d_files (drives s u) → f ∈ d_files (d0 u) ∨ from_mail e (drives s u) u f;
  dk_forest u : forest (root_of upload_config) (drives s u)
}.

(** ** Delivery *)

(** The file is the PDF or an attachment of the user's message [gid], whose
    folder has the path [path]. *)
Definition file_of (e : evidence) (u : uuid) (gid : string) (path : list string) (f : dfile) : Prop :=
  ∃ j parsed pdf m, message e j u parsed pdf m ∧ GmailMessageID j = Some gid ∧ folders_of upload_config m = path ∧
    of_message parsed pdf f.

(** The message of the job is on its user's Drive: its folder is there, and
    holds, for the PDF and every attachment, a file of that name, which is
    this message's own, with its content, unless the name was taken: by a file
    that was there in the beginning, or by one of another message of the user
    with the same folder (the handler keeps what it finds). *)
Definition delivered (d0 : uuid → dstate) (e : evidence) (d : uuid → dstate) (j : Job) : Prop :=
  ∃ u gid parsed pdf m folder, message e j u parsed pdf m ∧ GmailMessageID j = Some gid ∧
    let path := folders_of upload_config m in
    chain (d u) (root_of upload_config) path folder ∧
    ∀ name, name ∈ "email.pdf" :: rm_AttachmentNames m → ∃ f, f ∈ named name folder (d u) ∧
      (file_of e u gid path f ∨ f ∈ d_files (d0 u) ∨ ∃ gid', gid' ≠ gid ∧ file_of e u gid' path f).

Lemma filed_delivered d0 e d j : (∀ u, forest (root_of upload_config) (d u)) →
  (∀ u f, f ∈ d_files (d u) → f ∈ d_files (d0 u) ∨ from_mail e (d u) u f) → filed e d j → delivered d0 e d j.
Proof.
  intros Hfo Hdr (u & parsed & pdf & m & Hm & folder & Hc & Hall). pose proof (msg_raw _ _ _ _ _ _ Hm) as (gid & _ & Hg & _).
  exists u, gid, parsed, pdf, m, folder. do 2 (split; [done|]). cbv zeta. split; [done|]. intros name Hn.
  rewrite Forall_forall in Hall. specialize (Hall name Hn). destruct (named name folder (d u)) as [|f l] eqn:E; [done|].
  exists f. split; [by left|]. assert (Hf : f ∈ named name folder (d u)) by (rewrite E; by left).
  apply elem_of_named in Hf as (Hf & Hname & Hparent). specialize (Hfo u).
  destruct (Hdr u f Hf) as [?|[(j' & p' & pdf' & m' & ns & n & rest & _ & Hfs & Hc' & _)|(j' & p' & pdf' & m' & Hm' & Hc' & Hof)] ];
    [by right; left| |]; rewrite Hparent in Hc'; pose proof (chain_path _ _ _ _ _ Hfo Hc' Hc) as Heq.
  - by destruct (on_the_way _ _ _ _ _ _ Hfs Heq).
  - pose proof (msg_raw _ _ _ _ _ _ Hm') as (gid' & _ & Hg' & _).
    assert (H : file_of e u gid' (folders_of upload_config m) f) by (by exists j', p', pdf', m').
    destruct (decide (gid' = gid)) as [->|Hne]; [by left|]. right. right. by exists gid'.
Qed.

Lemma deploy_delivered d0 e s id j :
  deploy_ok d0 e s → jobs s !! id = Some j → Stage j = "upload" → Status j = StatusDone → delivered d0 e (drives s) j.
Proof. intros [_ _ Hp Hdr Hfo] Hj Hst Hd. apply filed_delivered; [done..|]. by apply (Hp id j Hj). Qed.

(** ** What it depends on *)

Record same_message (j j' : Job) : Prop := {
  sm_ID : ID j' = ID j; sm_user : UserID j' = UserID j;
  sm_gid : GmailMessageID j' = GmailMessageID j; sm_created : CreatedAt j' = CreatedAt j
}.

Lemma same_task_message j j' : same_task j j' → same_message j j'.
Proof. by intros []. Qed.

Lemma message_mono e e' j j' u parsed pdf m :
  more e e' → same_message j j' → message e j u parsed pdf m → message e' j' u parsed pdf m.
Proof.
  intros Hl [_ Hu Hg Hc] [Mu (gid & raw & Mg & Mf & Mp) Mr Ms Mf' Mt Mn]. constructor; try congruence.
  - exists gid, raw. split; [congruence|]. split; [by eapply more_fetched|done].
  - by eapply more_rendered.
  - rewrite Mt. unfold received. by rewrite Hc.
Qed.

Lemma from_mail_mono e e' d d' u f : more e e' → grows d d' → from_mail e d u f → from_mail e' d' u f.
Proof.
  intros Hl Hg [(j & parsed & pdf & m & ns & n & rest & Hm & Hfs & Hc & H)|(j & parsed & pdf & m & Hm & Hc & H)]; [left|right].
  - exists j, parsed, pdf, m, ns, n, rest. split; [by eapply message_mono|]. split; [done|]. split; [by eapply chain_grows|done].
  - exists j, parsed, pdf, m. split; [by eapply message_mono|]. split; [by eapply chain_grows|done].
Qed.

Lemma complete_grows cfg m d d' : grows d d' → complete cfg m d → complete cfg m d'.
Proof.
  intros Hg (fo & Hc & Hall). exists fo. split; [by eapply chain_grows|]. eapply Forall_impl; [exact Hall|].
  intros n Hn. cbn beta in *. destruct (named n fo d) as [|f fs] eqn:E; [done|].
  assert (Hf : f ∈ named n fo d) by (rewrite E; apply list_elem_of_here). unfold named in *.
  apply list_elem_of_filter in Hf as [Hf Hin]. intros Hnil.
  apply (filter_nil_not_elem_of (λ f, f_name f = n ∧ f_parent f = fo) (d_files d') f) in Hnil; [|done]. by apply Hnil, Hg.
Qed.

Lemma meta_for_same j j' F F' m : same_message j j' →
  F' !! path_of data_dir (ID j) Meta = F !! path_of data_dir (ID j) Meta →
  meta_for upload_config j F m → meta_for upload_config j' F' m.
Proof.
  intros [HI _ _ Hc] HF (mb & m0 & Hmb & Hj & ->). exists mb, m0. split; [|split; [done|] ].
  - rewrite HI. change (F' !! path_of data_dir (ID j) Meta = Some mb). rewrite HF. exact Hmb.
  - unfold with_default_time. by rewrite Hc.
Qed.

Definition files_of_job (j : Job) (F F' : gmap string string) : Prop :=
  ∀ p, job_file data_dir (ID j) p → F' !! p = F !! p.

Lemma has_mail_mono e e' F F' j j' :
  more e e' → same_message j j' → files_of_job j F F' → has_mail e F j → has_mail e' F' j'.
Proof.
  intros Hl Hs HF (u & gid & raw & Hu & Hg & Hf & Hp). destruct Hs as [HI Hu' Hg' _].
  exists u, gid, raw. split; [congruence|]. split; [congruence|]. split; [by eapply more_fetched|].
  rewrite HI, HF by by exists Mime. done.
Qed.

Lemma packed_mono e e' F F' j j' :
  more e e' → same_message j j' → files_of_job j F F' → packed e F j → packed e' F' j'.
Proof.
  intros Hl Hs HF (u & parsed & pdf & m & Hm & Hmeta & Hpdf & Hatt). exists u, parsed, pdf, m.
  split; [by eapply message_mono|]. split; [eapply meta_for_same; [done| |done]; apply HF; by exists Meta|].
  rewrite (sm_ID _ _ Hs). split; [by rewrite HF by by exists Pdf|]. intros n Hn. rewrite HF; [by apply Hatt|].
  exists (Attached n). split; [|done]. apply list_elem_of_fmap in Hn as (b & -> & _).
  apply plain_component, SanitizeFilename_plain.
Qed.

Lemma filed_mono e e' d d' j j' :
  more e e' → same_message j j' → (∀ u, UserID j = Some u → grows (d u) (d' u)) → filed e d j → filed e' d' j'.
Proof.
  intros Hl Hs Hg (u & parsed & pdf & m & Hm & Hc). exists u, parsed, pdf, m.
  split; [by eapply message_mono|]. eapply complete_grows; [|done]. apply Hg, Hm.
Qed.

Lemma placed_mono e e' F F' d d' j j' :
  more e e' → same_task j j' → files_of_job j F F' → (∀ u, UserID j = Some u → grows (d u) (d' u)) →
  placed e F d j → placed e' F' d' j'.
Proof.
  intros Hl Ht HF Hd [Hr Hu He]. pose proof (same_task_message _ _ Ht) as Hs. destruct Ht as [_ _ _ _ Hst Hdone].
  constructor; rewrite Hst.
  - intros H. eapply has_mail_mono; eauto.
  - intros H. eapply packed_mono; eauto.
  - intros H H'. eapply filed_mono; eauto.
Qed.

(** A job that is at neither of the later stages. *)
Lemma placed_first e F d j : Stage j ≠ "render" → Stage j ≠ "upload" → placed e F d j.
Proof. intros H1 H2. by constructor. Qed.

Lemma ready_world u root s s' : same_world s s' → ready u root s → ready u root s'.
Proof.
  intros [Hx Hn Hc] [Hids Hcache]. assert (Hd : drives s' = drives s) by (unfold drives; by rewrite Hx).
  split; [by rewrite Hd|]. intros t names id Ht Hne Hco. rewrite Hc by done. rewrite Hd. apply Hcache; [lia|done..].
Qed.

Lemma deploy_ok_background d0 e s s' :
  deploy_ok d0 e s → background s s' → (∀ id j, entering (jobs s) id j → jobs s' !! id = Some j → plain_job id j) →
  deploy_ok d0 e s'.
Proof.
  intros [Hj Hr Hp Hdr Hfo] [Hw Hrows] Hnew.
  assert (Hx : files s' = files s ∧ drives s' = drives s) by (unfold files, drives; by rewrite (same_ext _ _ Hw)).
  destruct Hx as [Hf Hd]. constructor.
  - intros id j' Hj'. destruct (kept_or_new _ _ Hrows id j' Hj') as [(j & Hj0 & [HI Hu _ _ _ _])|He]; [|by eapply Hnew].
    destruct (Hj id j Hj0) as [H1 H2 H3]. constructor; [congruence|done|]. intros u. rewrite Hu. apply H3.
  - intros u Hu. eapply ready_world; [done|by apply Hr].
  - intros id j' Hj'. rewrite Hf, Hd. destruct (kept_or_new _ _ Hrows id j' Hj') as [(j & Hj0 & Ht)|[_ _ Hst _] ].
    + eapply placed_mono; [done|exact Ht|done|by intros u _ f|by eapply Hp].
    + apply placed_first; destruct Hst as [-> | ->]; done.
  - rewrite Hd. exact Hdr.
  - rewrite Hd. exact Hfo.
Qed.

(** Rows that stay at the stage and are not completed. *)
Lemma placed_failed e F d j j' : same_message j j' → Stage j' = Stage j → Status j' ≠ StatusDone →
  placed e F d j → placed e F d j'.
Proof.
  intros [] Hst Hd. apply placed_mono; [done| |done|by intros u _ f]. by constructor.
Qed.

Lemma ready_kept u root s s' :
  drives s' = drives s → s_redis s' = s_redis s → s_now s ≤ s_now s' → ready u root s → ready u root s'.
Proof.
  intros Hd Hr Hn [Hids Hc]. split; [by rewrite Hd|]. eapply cache_ok_later; [done..|]. rewrite Hd. by intros f.
Qed.

Lemma cache_key_user u v p1 p2 : contains_byte ":" (uuid_String u) = false → contains_byte ":" (uuid_String v) = false →
  cache_key u p1 = cache_key v p2 → u = v.
Proof.
  unfold cache_key. intros Hu Hv H%sapp_inj_l. apply (f_equal (Cut ":")) in H.
  rewrite !(Cut_app_sep ":") in H by done. apply uuid_String_inj. congruence.
Qed.

(** No sender's address holds a slash or backslash. *)
Definition senders (e : evidence) : Prop := ∀ u gid raw parsed,
  ev_fetched e u gid raw → parseMessage raw = Some (Ok parsed) → no_slash (pm_FromEmail parsed).

Lemma senders_mono e e' : more e e' → senders e' → senders e.
Proof. intros Hl H u gid raw parsed Hf. eapply H. by eapply more_fetched. Qed.

Lemma message_plain e j u parsed pdf m :
  senders e → message e j u parsed pdf m → plain_meta upload_config m.
Proof.
  intros Hs [_ (gid & raw & _ & Hf & Hp) _ _ Hfrom _ Hnames]. destruct (Hs u gid raw parsed Hf Hp) as [H1 H2]. split.
  - unfold folders_of. apply Forall_app. split; [case_decide; [constructor|by apply root_path]|].
    apply Forall_app. split; [apply Date_folders|]. apply Forall_singleton, Email_folder. rewrite Hfrom.
    split; by apply to_valid_byte.
  - rewrite Hnames. apply Forall_forall. intros n (n' & -> & Hn)%list_elem_of_fmap. apply to_valid_byte; [done|].
    apply list_elem_of_fmap in Hn as (a & -> & _). by apply SanitizeFilename_plain.
Qed.

Lemma package_of_message e job u parsed pdf m F name content :
  message e job u parsed pdf m → F !! path_of data_dir (ID job) Pdf = Some pdf →
  (∀ n, n ∈ names_of (Attachments parsed) →
     F !! path_of data_dir (ID job) (Attached n) = Some (content_of n (Attachments parsed))) →
  (name, content) ∈ package upload_config job m F →
  ∀ f, f_name f = name → f_content f = content → of_message parsed pdf f.
Proof.
  intros Hm Hpdf Hatt Hpk f <- <-. revert Hpk. unfold package. rewrite elem_of_app. unfold path_of in *. cbn [comps] in *. intros [Hin|Hin].
  - cbn [DataDir upload_config] in Hin. rewrite Hpdf in Hin. apply list_elem_of_singleton in Hin as [= ? ?]. by left.
  - right. apply list_elem_of_In, in_flat_map in Hin as (n' & Hn' & Hin). apply list_elem_of_In in Hn', Hin.
    rewrite (msg_names _ _ _ _ _ _ Hm) in Hn'. apply list_elem_of_fmap in Hn' as (n & -> & Hn).
    cbn [DataDir upload_config] in Hin. revert Hin. case_match eqn:E; [|by intros ?%elem_of_nil].
    intros [= -> Hco]%list_elem_of_singleton. exists n. do 2 (split; [done|]). intros Hv. rewrite Hco. rewrite Hv in E.
    rewrite Hatt in E by done. congruence.
Qed.

(** The handlers of the stages. *)
Lemma stage_handler_is stage h : stage_handler getenv stage = Start h →
  (stage = "test" ∧ h = NoopHandler) ∨ (stage = "fetch" ∧ ∃ key, h = Fetch data_dir key) ∨
  (stage = "render" ∧ h = Render data_dir) ∨ (stage = "upload" ∧ ∃ key, h = Upload upload_config key).
Proof.
  unfold stage_handler. repeat case_decide; try done.
  - intros [= <-]. by left.
  - destruct (loadGoogleCfgAndKey getenv) as [?|key]; [done|]. intros [= <-]. right. left. split; [done|by exists key].
  - intros [= <-]. by right; right; left.
  - destruct (loadGoogleCfgAndKey getenv) as [?|key]; [done|]. intros [= <-]. right. right. right.
    split; [done|by exists key].
Qed.

(** Where it may start: all jobs are new, their identifiers are plain, the
    folder cache is right, and Drive has given its files ids of their own. *)
Record starts (s : shared) : Prop := {
  start_jobs id j : jobs s !! id = Some j → plain_job id j ∧ first_stage (Stage j);
  start_ready u : contains_byte ":" (uuid_String u) = false → ready u (root_of upload_config) s;
  start_forest u : forest (root_of upload_config) (drives s u)
}.

End placement.
