(* ===== verification/Serve.v ===== *)
(** * A worker process: internal/worker/worker.go with its stage's handler

    Worker.v leaves the handler to the environment; here the question
    [Handle] is answered by the handler's own program, as
    [cfg.Handler.Process] is called in ProcessOne.  [turned] says what one turn
    of such a worker does. *)
From S2P Require Import Prelude Redis Schema GoStrings Services Effects Meta Files Disk Queue Store Worker OAuth Gmail Drive Mime Fetch Render Upload Noop Command Background.
Local Open Scope Z_scope.

Section serve.
Context `{UL : UuidLib} `{PG : !PgServer} `{RS : RedisServer} `{DS : DriveServer}.
Variable h : Job → prog (result string).

Fixpoint serve {A} (p : prog A) : prog A :=
  match p with
  | Ret a => Ret a
  | @Vis _ _ _ _ X c k =>
      match c in cmd X return (X → prog A) → prog A with
      | Handle j => λ k, h j ≫= k
      | c => λ k, Vis c k
      end (λ x, serve (k x))
  | NoFuel => NoFuel
  end.

(** ** Laws *)

Lemma run_serve_bind {A B} orc (p : prog A) (f : A → prog B) i s :
  run orc (serve (p ≫= f)) i s =
  match run orc (serve p) i s with
  | Some (a, i', s') => run orc (serve (f a)) i' s'
  | None => None
  end.
Proof.
  unfold mbind, prog_bind. revert i s. induction p as [a|X c k IH|]; intros i s; [done| |done].
  destruct c; cbn [bind serve]; try (cbn [run]; destruct (exec _ _ _); apply IH).
  rewrite !run_bind. destruct (run orc (h j) i s) as [ [ [r i1] s1]|]; [apply IH|done].
Qed.

Definition no_handle (X : Type) (c : cmd X) : Prop := match c with Handle _ => False | _ => True end.

Lemma run_serve_plain {A} orc (p : prog A) i s : calls_only no_handle p → run orc (serve p) i s = run orc p i s.
Proof.
  revert i s. induction p as [a|X c k IH|]; intros i s; [done| |done]. intros [Hc Hk].
  destruct c; cbn [serve run]; try done; destruct (exec _ _ _); by apply IH.
Qed.

Lemma run_serve_handle orc j i s : run orc (serve (call (Handle j))) i s = run orc (h j) i s.
Proof. cbn [call serve]. rewrite run_bind. by destruct (run orc (h j) i s) as [ [ [r i1] s1]|]. Qed.
End serve.

(** Calls that leave the queues and all tables but the stored tokens alone. *)
Definition keeps_queues `{UL : UuidLib} `{RS : RedisServer} `{DS : DriveServer} (X : Type) (c : cmd X) : Prop :=
  match c with
  | Sql f => ∀ t db, same_but_tokens db (f t db).2
  | Redis f => ∀ t r k, rlist (f t r).2 k = rlist r k
  | _ => True
  end.

Definition same_queues `{UL : UuidLib} `{RS : RedisServer} `{DS : DriveServer} (s s' : shared) : Prop :=
  same_but_tokens (s_db s) (s_db s') ∧ ∀ k, rlist (s_redis s') k = rlist (s_redis s) k.

Lemma run_keeps_queues `{UL : UuidLib} `{RS : RedisServer} `{DS : DriveServer} {A} orc (p : prog A) i s a i' s' :
  calls_only keeps_queues p → run orc p i s = Some (a, i', s') → same_queues s s'.
Proof.
  intros Hp. apply (run_calls_only keeps_queues (same_queues s)); [|done|done].
  intros X c o s1 Hc [ (H1 & H2 & H3) Hl]. unfold same_queues, same_but_tokens in *.
  destruct c as [Y f|Y f| | | | |j|Y f|Y rq]; simpl; try done; destruct (o_fault o); simpl; try done; try (by destruct (f _ _)).
  - specialize (Hc (s_now s1 + Z.of_N (o_dt o)) (s_redis s1)). destruct (f _ _). cbn in *. split; [done|]. intros k. by rewrite Hc.
  - specialize (Hc (s_now s1 + Z.of_N (o_dt o)) (s_redis s1)). destruct (f _ _). cbn in *. split; [done|]. intros k. by rewrite Hc.
  - destruct (Hc (s_now s1 + Z.of_N (o_dt o)) (s_db s1)) as (? & ? & ?). destruct (f _ _). cbn in *. split; [split_and!; congruence|done].
  - destruct (Hc (s_now s1 + Z.of_N (o_dt o)) (s_db s1)) as (? & ? & ?). destruct (f _ _). cbn in *. split; [split_and!; congruence|done].
Qed.

Lemma run_keeps_jobs `{UL : UuidLib} `{RS : RedisServer} `{DS : DriveServer} {A} orc (p : prog A) i s a i' s' :
  calls_only keeps_queues p → run orc p i s = Some (a, i', s') → jobs s' = jobs s.
Proof. intros Hp Hrun. by destruct (run_keeps_queues _ _ _ _ _ _ _ Hp Hrun) as [ (? & _) _]. Qed.

(** ** One turn *)

Section turn.
Context `{UL : UuidLib} `{PG : !PgServer} `{RS : RedisServer} `{DS : DriveServer}.
Variables (h : Job → prog (result string)) (orc : nat → outcome) (cfg : Worker.Config).

(** The background's changes, without new jobs. *)
Definition idle (s s' : shared) : Prop := background s s' ∧ ∀ id, jobs s !! id = None → jobs s' !! id = None.

Lemma idle_refl s : idle s s.
Proof. by split. Qed.

Lemma idle_trans s1 s2 s3 : idle s1 s2 → idle s2 s3 → idle s1 s3.
Proof. intros [B12 N12] [B23 N23]. split; [by etrans|auto]. Qed.

(** What became of the popped text: nothing happened to the job, if there is
    one (it may be left claimed); or it was claimed, the handler ran on it,
    and the row was settled as the handler's result says. *)
Inductive worked (lo hi : nat) (raw : string) (e : result unit) (s s' : shared) : Prop :=
| worked_not : idle s s' → worked lo hi raw e s s'
| worked_job id j t i1 s1 r i2 s2 :
    (lo ≤ i1)%nat → (i2 ≤ hi)%nat → uuid_Parse raw = Ok id → jobs s !! id = Some j → Status j = StatusQueued →
    same_world s s1 → s_db s1 = with_jobs (<[id := claim_row (c_WorkerID cfg) t j]> (jobs s)) (s_db s) →
    run orc (h (claim_row (c_WorkerID cfg) t j)) i1 s1 = Some (r, i2, s2) →
    same_world s2 s' → settle_ok id r (claim_row (c_WorkerID cfg) t j) e s2 s' →
    worked lo hi raw e s s'.

(** The turn took the text from the stage's queue. *)
Definition turned (lo hi : nat) (e : result unit) (s s' : shared) : Prop :=
  idle s s' ∨ ∃ raw, raw ∈ rlist (s_redis s) (key (c_Stage cfg)) ∧ worked lo hi raw e s s'.

Lemma same_rows s s' : same_world s s' → s_db s' = s_db s → idle s s'.
Proof. intros H Hd. split; [split; [done|]|]; unfold jobs; by rewrite Hd. Qed.

Lemma idle_claim s s' id t j : same_world s s' → jobs s !! id = Some j → Status j = StatusQueued →
  s_db s' = with_jobs (<[id := claim_row (c_WorkerID cfg) t j]> (jobs s)) (s_db s) → idle s s'.
Proof.
  intros Hw Hj Hq Hd. unfold idle, jobs in *. rewrite Hd. split; [split; [done|]|].
  - unfold jobs. rewrite Hd. apply rows_kept_insert. right. by exists j.
  - intros id' Hn. cbn. rewrite lookup_insert_ne; [done|congruence].
Qed.

Lemma worked_after lo hi lo' hi' raw e s0 s s' s1 :
  (lo' ≤ lo)%nat → (hi ≤ hi')%nat → same_world s0 s → s_db s = s_db s0 → worked lo hi raw e s s' →
  same_world s' s1 → s_db s1 = s_db s' → worked lo' hi' raw e s0 s1.
Proof.
  intros Hlo Hhi Hw0 Hd0 Hwk Hw1 Hd1.
  destruct Hwk as [Hb|id j t i1 s2 r i2 s3 Hi1 Hi2 Hp Hj Hq Hw Hd Hrun Hw' Hs].
  - apply worked_not. eapply idle_trans; [by apply same_rows|]. eapply idle_trans; [exact Hb|by apply same_rows].
  - unfold jobs in *. rewrite Hd0 in *.
    refine (worked_job _ _ _ _ _ _ id j t i1 s2 r i2 s3 _ _ Hp Hj Hq _ Hd Hrun _ _); [lia|lia|by etrans|by etrans|].
    unfold settle_ok in *. by rewrite Hd1.
Qed.

Hypothesis h_total : ∀ job, total (h job).
Hypothesis h_jobs : ∀ job, calls_only keeps_queues (h job).

Lemma BlockingPop_plain st w tmo : calls_only no_handle (BlockingPop st w tmo).
Proof. unfold BlockingPop. walk_prog. Qed.
Lemma Ack_plain st w id : calls_only no_handle (Ack st w id).
Proof. unfold Ack. walk_prog. Qed.

Lemma take_right l l' x : take_side RIGHT l = Some (l', x) → x ∈ l.
Proof. cbn [take_side]. intros H. apply unsnoc_Some in H as ->. apply elem_of_app. right. apply list_elem_of_here. Qed.

Lemma run_BlockingPop_in st w tmo i s raw i' s' :
  run orc (BlockingPop st w tmo) i s = Some (Ok raw, i', s') → raw ∈ rlist (s_redis s) (key st).
Proof.
  unfold BlockingPop, cli_BLMove, cli_LMove. rewrite run_bind, run_call. cbn [exec]. set (s1 := elapse _ s).
  destruct (take_side RIGHT (rlist (s_redis s1) (key st))) as [ [l x]|] eqn:E.
  - destruct (LMove_Some (s_redis s1) (key st) (processingKey st w) RIGHT LEFT l x) as [H1 _];
      [apply key_list|apply processingKey_list|done|done|].
    destruct (LMove _ _ _ _ _) as [ [y|] r]; [|done]. cbn [fst] in H1. injection H1 as ->.
    apply take_right in E. destruct (o_fault (orc i)); cbn [with_fault fst snd]; try done. by intros [= <- _ _].
  - rewrite (LMove_empty (s_redis s1) (key st) (processingKey st w) RIGHT LEFT);
      [|apply key_list|apply processingKey_list|done].
    destruct (o_fault (orc i)); cbn [with_fault fst snd]; try done.
Qed.

Lemma settle_worldly jobID r job : calls_only worldly (match r with
  | Err e => settle_failed jobID job e
  | Ok st => if decide (st = EmptyString) then settle_done jobID else settle_advance jobID st end).
Proof.
  assert (Hs : ∀ X (f : Z → DB → result X * DB), calls_only worldly (call (Sql f))) by (intros; split; [apply worldly_Sql|done]).
  assert (Hp : ∀ st id, calls_only worldly (Push st id)).
  { intros. eapply calls_only_impl; [apply harmless_worldly|apply (visits_Push harmless)]. }
  assert (Ha : ∀ X (c : cmd X), plain_call X c → calls_only worldly (call c)).
  { intros X c Hc. split; [|done]. by apply harmless_worldly, harmless_plain. }
  destruct r as [st|e]; [case_decide|]; unfold settle_done, settle_advance, settle_failed, MarkDone, AdvanceJob, MarkFailed;
    walk_prog; auto; by apply Ha.
Qed.

Lemma settle_plain jobID r job : calls_only no_handle (match r with
  | Err e => settle_failed jobID job e
  | Ok st => if decide (st = EmptyString) then settle_done jobID else settle_advance jobID st end).
Proof.
  destruct r as [st|e]; [case_decide|]; unfold settle_done, settle_advance, settle_failed, MarkDone, AdvanceJob, MarkFailed, Push;
    walk_prog.
Qed.

(** The row is settled. *)
Lemma run_settle jobID r job i s : jobs s !! jobID = Some job →
  ∃ e i' s', run orc (match r with
    | Err e => settle_failed jobID job e
    | Ok st => if decide (st = EmptyString) then settle_done jobID else settle_advance jobID st end) i s = Some (e, i', s') ∧
    settle_ok jobID r job e.2 s s'.
Proof.
  intros Hj. destruct r as [st|e]; [case_decide as Hst|].
  - destruct (run_settle_done orc jobID job s Hj i) as (e & s' & H1 & H2 & _). subst st. by exists e, (S i), s'.
  - destruct (run_settle_advance orc jobID job s Hj st i Hst) as (e & i' & s' & H1 & H2 & _). by exists e, i', s'.
  - destruct (run_settle_failed orc jobID job s Hj e i) as (e' & i' & s' & H1 & H2 & _). by exists e', i', s'.
Qed.

(** The handler, and the settling of the row. *)
Lemma run_serve_process_job jobID job i s :
  jobs s !! jobID = Some job →
  ∃ r i1 s1 e i' s', run orc (h job) i s = Some (r, i1, s1) ∧
    run orc (serve h (process_job jobID job)) i s = Some (e, i', s') ∧ (i1 ≤ i')%nat ∧
    same_world s1 s' ∧ settle_ok jobID r job e.2 s1 s'.
Proof.
  intros Hj. destruct (run_total orc (h job) i s (h_total job)) as (r & i1 & s1 & Hrun).
  pose proof (run_keeps_jobs _ _ _ _ _ _ _ (h_jobs job) Hrun) as Hk. rewrite <- Hk in Hj.
  exists r, i1, s1. unfold process_job. rewrite run_serve_bind, run_serve_handle, Hrun. cbv beta iota.
  pose proof (settle_worldly jobID r job) as Hw. rewrite run_serve_plain by apply settle_plain.
  destruct (run_settle jobID r job i1 s1 Hj) as (e & i' & s' & H1 & H2). exists e, i', s'. do 2 (split; [done|]). split; [by eapply run_mono|]. split; [|done]. by eapply run_worldly.
Qed.

Lemma ClaimJob_plain id w : calls_only no_handle (ClaimJob id w).
Proof. unfold ClaimJob. walk_prog. Qed.
Lemma GetJob_plain id : calls_only no_handle (GetJob id).
Proof. unfold GetJob. walk_prog. Qed.

Lemma safe_GetJob id : calls_only harmless (GetJob id).
Proof. unfold GetJob. walk_safe. Qed.

(** Behind the claim. *)
Lemma run_serve_claimed raw id j t i s0 s :
  uuid_Parse raw = Ok id → jobs s0 !! id = Some j → Status j = StatusQueued → same_world s0 s →
  s_db s = with_jobs (<[id := claim_row (c_WorkerID cfg) t j]> (jobs s0)) (s_db s0) →
  ∃ e i' s', run orc (serve h (g ← GetJob id;
    match g with
    | Err e => mret (true, Err (EWrap2 "get" e (ESentinel errPostClaim)))
    | Ok job => process_job id job
    end)) i s = Some (e, i', s') ∧ worked i i' raw e.2 s0 s'.
Proof.
  intros Hp Hj Hq Hw Hd. set (jc := claim_row _ t j) in *.
  assert (Hjc : jobs s !! id = Some jc) by (unfold jobs; rewrite Hd; apply lookup_insert_eq).
  rewrite run_serve_bind, run_serve_plain by apply GetJob_plain.
  destruct (run_GetJob orc id i s) as (g & s1 & Hg & _ & Hd1 & Hc). rewrite Hg.
  apply run_background in Hg; [|apply safe_GetJob]. destruct (Hc jc Hjc) as [->|[msg ->] ].
  - assert (Hj1 : jobs s1 !! id = Some jc) by (unfold jobs; by rewrite Hd1).
    destruct (run_serve_process_job id jc (S i) s1 Hj1) as (r & i1 & s2 & e & i' & s' & Hrun & Hs & Hi' & Hw2 & Hok).
    exists e, i', s'. split; [done|]. rewrite <- Hd1 in Hd.
    refine (worked_job _ _ _ _ _ _ id j t (S i) s1 r i1 s2 _ Hi' Hp Hj Hq _ Hd Hrun Hw2 Hok); [lia|]. etrans; [exact Hw|apply Hg].
  - eexists _, _, s1. split; [done|]. apply worked_not. eapply (idle_claim _ _ id t j); [|done|done|by rewrite Hd1].
    etrans; [exact Hw|apply Hg].
Qed.

Lemma run_serve_popped raw i s :
  ∃ e i' s', run orc (serve h (process_popped cfg raw)) i s = Some (e, i', s') ∧ worked i i' raw e.2 s s'.
Proof.
  unfold process_popped. destruct (uuid_Parse raw) as [id|pe] eqn:Hp; [|by eexists _, i, s; split; [|by apply worked_not, idle_refl] ].
  rewrite run_serve_bind, run_serve_plain by apply ClaimJob_plain.
  destruct (run_ClaimJob orc id (c_WorkerID cfg) i s) as (r & s1 & Hrun & _ & Hc). rewrite Hrun.
  apply run_background in Hrun as Hb; [|apply safe_ClaimJob].
  destruct Hc as [ [-> (t & j & j' & Hj & Hf & Hd)]|[ [-> Hd]|(ce & -> & Hd)] ].
  - destruct (is_status StatusQueued j) eqn:Hq; [|done]. injection Hf as <-. apply is_status_true in Hq.
    destruct (run_serve_claimed raw id j t (S i) s s1 Hp Hj Hq) as (e & i' & s' & -> & Hwk); [apply Hb|done|].
    exists e, i', s'. split; [done|]. eapply (worked_after (S i) i'); [lia|done|done|done|exact Hwk|done|done].
  - eexists _, _, s1. split; [done|]. apply worked_not, same_rows; [apply Hb|done].
  - assert (Hi : idle s s1).
    { destruct Hd as [Hd|[(t & j & j' & Hj & Hf & Hd) _] ]; [apply same_rows; [apply Hb|done]|].
      destruct (is_status StatusQueued j) eqn:Hq; [|done]. injection Hf as <-. apply is_status_true in Hq.
      eapply idle_claim; [apply Hb|done..]. }
    destruct (errors_Is _ _); eexists _, _, s1; (split; [done|]); by apply worked_not.
Qed.

Lemma run_serve_ProcessOne i s :
  ∃ b e i' s', run orc (serve h (ProcessOne cfg)) i s = Some ((b, e), i', s') ∧ turned i i' e s s'.
Proof.
  unfold ProcessOne. rewrite run_serve_bind, run_serve_plain by apply BlockingPop_plain.
  destruct (run_BlockingPop_db orc (c_Stage cfg) (c_WorkerID cfg) (PopTimeout cfg) i s) as (r & s1 & Hrun & Hd1).
  rewrite Hrun. apply run_background in Hrun as Hb; [|apply safe_BlockingPop]. destruct r as [raw|pe].
  - apply run_BlockingPop_in in Hrun. rewrite run_serve_bind.
    destruct (run_serve_popped raw (S i) s1) as ([b e] & i2 & s2 & -> & Hwk).
    rewrite run_serve_bind, run_serve_plain by apply Ack_plain.
    destruct (run_Ack_db orc (c_Stage cfg) (c_WorkerID cfg) raw i2 s2) as (a & s3 & Ha & Hd3). rewrite Ha.
    apply run_background in Ha as Hb3; [|apply safe_Ack].
    exists b, e, (S i2), s3. split; [done|]. right. exists raw. split; [done|].
    eapply (worked_after (S i) i2); [lia|lia|apply Hb|done|exact Hwk|apply Hb3|done].
  - destruct (errors_Is pe ErrEmpty); eexists _, _, _, s1; (split; [done|]); left; (apply same_rows; [apply Hb|done]).
Qed.
End turn.

(** ** The handlers *)

Section handlers.
Context `{UL : UuidLib} `{PG : !PgServer} `{RS : RedisServer} `{DS : DriveServer} `{AE : AeadLib}
  `{ML : MailLib} `{TP : TimeParser}.

Abbreviation aside p := (calls_only keeps_queues p).

Lemma save_token_aside t : aside (call (Sql (sql_save_token t))).
Proof. split; [|done]. intros now db. unfold sql_save_token. by destruct (user_ref_ok _ _). Qed.

Lemma source_aside c : aside (source c).
Proof. unfold source, savingSource_Token, SaveToken, read_nonce, SaveOAuthToken. walk_prog; apply save_token_aside. Qed.

Lemma connect_aside svc u key : aside (connect svc u key).
Proof. unfold connect, LoadToken, GetOAuthToken. walk_prog. Qed.

Lemma WriteFile_aside p data : aside (WriteFile p data).
Proof. apply calls_only_bind; [by split|]. intros [?|?]; [by split|done]. Qed.

Lemma Fetch_aside dataDir key job : aside (Fetch dataDir key job).
Proof.
  unfold Fetch, Gmail.New, FetchMessage, Do. walk_prog; first [by split|apply connect_aside|apply save_token_aside|apply WriteFile_aside].
Qed.

Lemma Render_aside dataDir job : aside (Render dataDir job).
Proof.
  assert (Hw : ∀ dir l names, aside (write_attachments dir l names)).
  { intros dir l. induction l as [|a l IH]; intros names; cbn [write_attachments]; walk_prog; apply WriteFile_aside. }
  unfold Render. apply calls_only_bind; [by split|]. intros [raw|e]; [|done].
  destruct (parseMessage raw) as [ [parsed|e]|]; [|done|done]. unfold render_parsed, save_attachments, save_in, RenderHTML.
  walk_prog; first [by split|apply Hw|apply WriteFile_aside].
Qed.

Lemma DoDrive_aside {X} c (f : dstate → X * dstate) : aside (DoDrive c f).
Proof. unfold DoDrive. walk_prog; first [by split|apply save_token_aside]. Qed.

Lemma find_or_create_aside c q name parent mime content e1 e2 : aside (find_or_create c q name parent mime content e1 e2).
Proof.
  unfold find_or_create. apply calls_only_bind; [apply DoDrive_aside|]. intros [ [ [|? ?]|?] ?]; try done.
  apply calls_only_bind; [apply DoDrive_aside|]. by intros [ [?|?] ?].
Qed.

Lemma Set_aside u path id ttl : aside (Set_ u path id ttl).
Proof. unfold Set_. apply calls_only_bind; [|walk_prog]. split; [|done]. intros t r k. apply rlist_SetKey, cache_key_string. Qed.

Lemma ensure_chain_aside fs u c p parent : aside (ensure_chain u c fs p parent).
Proof.
  revert c p parent. induction fs as [|f fs IH]; intros c p parent; cbn [ensure_chain]; [done|].
  apply calls_only_bind; [unfold Drive.Get; walk_prog|]. intros [ [id|]|e]; [apply IH|..];
    (apply calls_only_bind; [apply find_or_create_aside|]); intros [ [id|e'] c']; try done;
    (apply calls_only_bind; [apply Set_aside|]); intros ?; apply IH.
Qed.

Lemma Upload_aside cfg key job : aside (Upload cfg key job).
Proof.
  assert (Ha : ∀ names c dir id p, aside (upload_attachments c dir id p names)).
  { intros names. induction names as [|n names IH]; intros c dir id p; cbn [upload_attachments]; [done|].
    apply calls_only_bind; [by split|]. intros [d|e]; [|done]. apply calls_only_bind; [apply find_or_create_aside|].
    intros [ [?|?] ?]; [apply IH|done]. }
  unfold Upload. destruct (UserID job) as [u|]; [|done]. apply calls_only_bind; [by split|]. intros [b|e]; [|done].
  destruct (UnmarshalMeta b) as [m|e]; [|done]. cbv zeta. apply calls_only_bind; [apply connect_aside|]. intros [c|e]; [|done].
  apply calls_only_bind; [apply ensure_chain_aside|]. intros [ [p|e] c']; [|done]. unfold upload_files.
  apply calls_only_bind; [by split|]. intros [d|e]; [|done]. apply calls_only_bind; [apply find_or_create_aside|].
  intros [ [?|?] ?]; [|done]. apply calls_only_bind; [apply Ha|]. by intros [?|?].
Qed.

Lemma Noop_aside job : aside (NoopHandler job).
Proof. unfold NoopHandler, sleep. walk_prog. Qed.

(** ** Deployed workers *)

Section deployed.
Variables (getenv : string → string) (services : bool).

Lemma worker_handler stage w cfg h : worker_main getenv services stage w = Start (cfg, h) →
  c_Stage cfg = stage ∧ c_WorkerID cfg = w ∧ stage_handler getenv stage = Start h ∧
  ∀ job, total (h job) ∧ aside (h job) ∧ results (answers_next stage) (h job).
Proof.
  unfold worker_main. case_decide; [done|]. destruct services; [|done]. cbn [negb].
  destruct (stage_handler getenv stage) as [c|h'] eqn:E; [done|]. intros [= <- ->]. do 3 (split; [done|]).
  intros job. destruct (stage_handler_cases getenv stage h E) as [_ Hh]. destruct (Hh job) as [Ht Hr].
  split; [done|]. split; [|done]. revert E. unfold stage_handler.
  repeat case_decide; try done; intros E.
  - injection E as <-. apply Noop_aside.
  - destruct (loadGoogleCfgAndKey getenv) as [?|key]; [done|]. injection E as <-. apply Fetch_aside.
  - injection E as <-. apply Render_aside.
  - destruct (loadGoogleCfgAndKey getenv) as [?|key]; [done|]. injection E as <-. apply Upload_aside.
Qed.

Lemma worker_ttl stage w cfg h : worker_main getenv services stage w = Start (cfg, h) →
  HeartbeatTTL cfg = envDurationSec getenv "WORKER_HEARTBEAT_TTL_SEC" 15.
Proof.
  unfold worker_main. case_decide; [done|]. destruct services; [|done]. cbn [negb].
  destruct (stage_handler getenv stage) as [c|h']; [done|]. by intros [= <- _].
Qed.
End deployed.
End handlers.
