(* ===== verification/Answered.v ===== *)
(** * A worker with its handler refines one whose handler is answered

    Worker.v takes what a stage handler answers from the oracle; Serve.v puts
    the handler's own calls in place of the question.  [asked] is the question a
    run puts to the handler, and [turn_refines] relates the two: up to the
    question they are the same run, and from there on the served worker does
    what [ProcessOne] does when it is told the handler's answer. *)
From S2P Require Import Prelude Redis Schema GoStrings Services Effects Meta Files Disk Queue Store Worker OAuth Gmail Drive Mime Fetch Render Upload Noop Command Background Serve.
Local Open Scope Z_scope.

Section asked.
Context `{UL : UuidLib} `{PG : !PgServer} `{RS : RedisServer} `{DS : DriveServer}.

(** The first question to the handler: the job, the number of the call, the
    state it is asked in, and what is done with the answer. *)
Fixpoint asked {A} (orc : nat → outcome) (p : prog A) (i : nat) (s : shared)
    : option (Job * nat * shared * (result string → prog A)) :=
  match p with
  | Ret _ => None
  | @Vis _ _ _ _ X c k =>
      match c in cmd X return (X → prog A) → X * shared → option (Job * nat * shared * (result string → prog A)) with
      | Handle j => λ k _, Some (j, i, s, k)
      | _ => λ k x, asked orc (k x.1) (S i) x.2
      end k (exec (orc i) c s)
  | NoFuel => None
  end.

Lemma asked_plain {A} orc (p : prog A) i s : calls_only no_handle p → asked orc p i s = None.
Proof.
  revert i s. induction p as [a|X c k IH|]; intros i s; [done| |done]. intros [Hc Hk].
  destruct c; cbn [asked]; try done; by apply IH.
Qed.

Lemma asked_bind {A B} orc (p : prog A) (f : A → prog B) i s :
  calls_only no_handle p → asked orc (p ≫= f) i s =
  match run orc p i s with Some (a, i', s') => asked orc (f a) i' s' | None => None end.
Proof.
  unfold mbind, prog_bind. revert i s. induction p as [a|X c k IH|]; intros i s; [done| |done]. intros [Hc Hk].
  destruct c; cbn [bind asked run]; try done; rewrite IH by apply Hk; by destruct (exec _ _ _).
Qed.

Lemma asked_then {A B} orc (p : prog A) (f : A → prog B) i s j i1 s1 k :
  asked orc p i s = Some (j, i1, s1, k) → asked orc (p ≫= f) i s = Some (j, i1, s1, λ r, k r ≫= f).
Proof.
  unfold mbind, prog_bind. revert i s. induction p as [a|X c g IH|]; intros i s; [done| |done].
  destruct c; cbn [bind asked]; try apply IH. by intros [= <- <- <- <-].
Qed.

Lemma asked_of {A B} orc (p : prog A) (f : A → prog B) i s : (∀ a, calls_only no_handle (f a)) →
  asked orc p i s = None → asked orc (p ≫= f) i s = None.
Proof.
  unfold mbind, prog_bind. intros Hf. revert i s. induction p as [a|X c k IH|]; intros i s; cbn [bind]; [|destruct c; cbn [asked]; done || apply IH|done].
  intros _. by apply asked_plain.
Qed.

(** Without a question, the handler does not matter. *)
Lemma run_unasked {A} h orc (p : prog A) i s : asked orc p i s = None → run orc (serve h p) i s = run orc p i s.
Proof.
  revert i s. induction p as [a|X c k IH|]; intros i s; [done| |done].
  destruct c; cbn [asked serve run]; try done; intros H; apply IH in H; by destruct (exec _ _ _).
Qed.

(** The served run answers the question with the handler's own run. *)
Lemma run_asked_serve {A} h orc (p : prog A) i s j i1 s1 k :
  asked orc p i s = Some (j, i1, s1, k) →
  run orc (serve h p) i s = match run orc (h j) i1 s1 with Some (r, i2, s2) => run orc (serve h (k r)) i2 s2 | None => None end.
Proof.
  revert i s. induction p as [a|X c g IH|]; intros i s; [done| |done].
  destruct c; cbn [asked serve run]; try (intros H; apply IH in H; by destruct (exec _ _ _)).
  intros [= <- <- <- <-]. rewrite run_bind. by destruct (run orc (h j0) i s) as [ [ [? ?] ?]|].
Qed.

(** The plain run, with the oracle's answer; only what came before matters. *)
Lemma run_asked {A} orc orc' (p : prog A) i s j i1 s1 k :
  asked orc p i s = Some (j, i1, s1, k) → (∀ n, (i ≤ n < i1)%nat → orc' n = orc n) →
  run orc' p i s = run orc' (k (o_handler (orc' i1) j)) (S i1) (elapse (orc' i1) s1).
Proof.
  assert (Hle : ∀ B (q : prog B) i s j i1 s1 k, asked orc q i s = Some (j, i1, s1, k) → (i ≤ i1)%nat).
  { clear. intros B q. induction q as [a|X c g IH|]; intros i s j i1 s1 k; [done| |done].
    destruct c; cbn [asked]; try (intros H; apply IH in H; lia). by intros [= _ <- _ _]. }
  revert i s. induction p as [a|X c g IH|]; intros i s; [done| |done].
  destruct c; cbn [asked]; try (intros H Hext; pose proof (Hle _ _ _ _ _ _ _ _ H); cbn [run]; rewrite (Hext i) by lia;
    apply IH in H; [by destruct (exec _ _ _)|intros n Hn; apply Hext; lia]).
  by intros [= <- <- <- <-] _.
Qed.

(** ** What a run cannot see *)

(** The call's answer and effect depend on the clock, the queues and the tables
    but the stored tokens only. *)
Definition blind (X : Type) (c : cmd X) : Prop :=
  match c with
  | Sql f => ∀ t d1 d2, same_but_tokens d1 d2 → (f t d1).1 = (f t d2).1 ∧ same_but_tokens (f t d1).2 (f t d2).2
  | Redis f => ∀ t r1 r2, (∀ k, rlist r2 k = rlist r1 k) →
      (f t r1).1 = (f t r2).1 ∧ ∀ k, rlist (f t r2).2 k = rlist (f t r1).2 k
  | Ext _ | Handle _ => False
  | _ => True
  end.

(** The states agree in what such calls see. *)
Definition alike (s1 s2 : shared) : Prop := same_queues s1 s2 ∧ s_now s2 = s_now s1.

Lemma exec_blind X (c : cmd X) o s1 s2 : blind X c → alike s1 s2 →
  (exec o c s1).1 = (exec o c s2).1 ∧ alike (exec o c s1).2 (exec o c s2).2 ∧ s_ext (exec o c s1).2 = s_ext s1.
Proof.
  intros Hc [ [Hd Hr] Hn]. destruct c as [Y f|Y f| | | | |j|Y f|Y rq]; cbn in Hc; try done; cbn.
  - rewrite Hn. specialize (Hc (s_now s1 + Z.of_N (o_dt o)) (s_redis s1) (s_redis s2) Hr).
    destruct (f _ (s_redis s1)), (f _ (s_redis s2)); cbn in *. destruct Hc as [-> Hc].
    destruct (o_fault o); cbn; by (split; [|split; [split; [split|cbn; congruence]|] ]).
  - rewrite Hn. specialize (Hc (s_now s1 + Z.of_N (o_dt o)) (s_db s1) (s_db s2) Hd).
    destruct (f _ (s_db s1)), (f _ (s_db s2)); cbn in *. destruct Hc as [-> Hc].
    destruct (o_fault o); cbn; by (split; [|split; [split; [split|cbn; congruence]|] ]).
  - rewrite Hn. by split; [|split; [split; [split|cbn; congruence]|] ].
  - by split; [|split; [split; [split|cbn; congruence]|] ].
  - by split; [|split; [split; [split|cbn; congruence]|] ].
  - by split; [|split; [split; [split|cbn; congruence]|] ].
  - destruct (o_fault o); cbn; by (split; [|split; [split; [split|cbn; congruence]|] ]).
Qed.

(** Under an oracle that is moved by some calls, from a state that is alike. *)
Lemma run_blind {A} orc orc' (p : prog A) i1 i2 s1 s2 a i' s' :
  calls_only blind p → (∀ n, orc' (i2 + n)%nat = orc (i1 + n)%nat) → alike s1 s2 →
  run orc p i1 s1 = Some (a, i', s') → ∃ n s'', run orc' p i2 s2 = Some (a, n, s'') ∧ alike s' s'' ∧ s_ext s' = s_ext s1.
Proof.
  revert i1 i2 s1 s2. induction p as [b|X c k IH|]; intros i1 i2 s1 s2; [|intros [Hc Hk]|done].
  - intros _ _ Hs [= <- <- <-]. by exists i2, s2.
  - intros Ho Hs. cbn [run]. pose proof (Ho 0%nat) as H0. rewrite !Nat.add_0_r in H0. rewrite H0.
    destruct (exec_blind X c (orc i1) s1 s2 Hc Hs) as (Hx & Hs' & He).
    destruct (exec (orc i1) c s1) as [x t1], (exec (orc i1) c s2) as [y t2]. cbn [fst snd] in *. subst y. intros Hrun.
    rewrite <- He. eapply IH; [apply Hk| |exact Hs'|exact Hrun].
    intros n. pose proof (Ho (S n)) as H. by rewrite !Nat.add_succ_r in H.
Qed.

Lemma blind_update id where_ f : blind _ (Sql (λ t, sql_update id where_ (f t))).
Proof.
  intros t d1 d2 H. pose proof H as (Hj & Hu & Hg). unfold sql_update. rewrite Hj.
  destruct (pipeline_jobs d1 !! id) as [j|]; [|by split]. destruct (where_ j); [|by split].
  destruct (f t j) as [j'|]; [|by split]. unfold put_job. rewrite Hj. by case_decide.
Qed.

Lemma blind_LPush st v : blind _ (cli_LPush (key st) v).
Proof. intros t r1 r2 H. split; [done|]. intros k. cbn. rewrite !rlist_LPush by apply key_list. by rewrite !H. Qed.

Lemma blind_LRem st w v : blind _ (cli_LRem (processingKey st w) 1 v).
Proof. intros t r1 r2 H. split; [done|]. intros k. cbn. rewrite !rlist_LRem by apply processingKey_list. by rewrite !H. Qed.

(** ** From the answer on *)

(** What ProcessOne does with the handler's answer: it settles the row and
    takes the id off the processing list. *)
Definition on_answer (cfg : Worker.Config) (raw : string) (id : uuid) (jc : Job) (r : result string) : prog (bool * result unit) :=
  res ← match r with
    | Err e => settle_failed id jc e
    | Ok st => if decide (st = EmptyString) then settle_done id else settle_advance id st
    end;
  _ ← Ack (c_Stage cfg) (c_WorkerID cfg) raw;
  mret res.

Lemma on_answer_blind cfg raw id jc r : calls_only blind (on_answer cfg raw id jc r).
Proof.
  assert (Hu : ∀ where_ f, calls_only blind (call (Sql (λ t, sql_update id where_ (f t)))))
    by (intros; split; [apply blind_update|done]).
  unfold on_answer. apply calls_only_bind.
  - destruct r as [st|e]; [case_decide|]; unfold settle_done, settle_advance, settle_failed, MarkDone, AdvanceJob, MarkFailed, Push.
    + walk_prog. apply (Hu (λ _, true) (λ t j, Ok (done_row t j))).
    + walk_prog; [apply (Hu (is_status StatusRunning) (λ t j, Ok (advance_row st t j)))|split; [apply blind_LPush|done] ].
    + walk_prog. apply (Hu (λ _, true) (failed_row _ _)).
  - intros res. unfold Ack. walk_prog. split; [apply blind_LRem|done].
Qed.

Lemma on_answer_plain cfg raw id jc r : calls_only no_handle (on_answer cfg raw id jc r).
Proof.
  unfold on_answer. apply calls_only_bind; [apply settle_plain|]. intros res.
  apply calls_only_bind; [apply Ack_plain|done].
Qed.

(** It returns, and the row is settled. *)
Lemma run_on_answer orc cfg raw id jc r i s : jobs s !! id = Some jc →
  ∃ e i' s', run orc (on_answer cfg raw id jc r) i s = Some (e, i', s') ∧ settle_ok id r jc e.2 s s'.
Proof.
  intros Hj. unfold on_answer. rewrite run_bind.
  destruct (run_settle orc id r jc i s Hj) as (e & i1 & s1 & -> & H2). rewrite run_bind.
  destruct (run_Ack_db orc (c_Stage cfg) (c_WorkerID cfg) raw i1 s1) as (a & s2 & -> & Hd).
  exists e, (S i1), s2. split; [done|]. unfold settle_ok in *. by rewrite Hd.
Qed.

(** ** Up to the question *)

Section turn.
Variables (orc : nat → outcome) (cfg : Worker.Config).
Abbreviation w := (c_WorkerID cfg).

(** A turn that does not come to the handler leaves all rows as they are, or a
    claimed row behind an error. *)
Definition unasked (e : result unit) (s s' : shared) : Prop :=
  s_ext s' = s_ext s ∧ (s_db s' = s_db s ∨ ∃ id j t, jobs s !! id = Some j ∧ Status j = StatusQueued ∧
    s_db s' = with_jobs (<[id := claim_row w t j]> (jobs s)) (s_db s) ∧ is_ok e = false).

(** The handler is asked about the row of the popped id, which was queued and
    has just been claimed. *)
Definition asks (raw : string) (id : uuid) (jc : Job) (s s1 : shared) : Prop :=
  s_ext s1 = s_ext s ∧ uuid_Parse raw = Ok id ∧ ∃ j t, jobs s !! id = Some j ∧ Status j = StatusQueued ∧
    jc = claim_row w t j ∧ s_db s1 = with_jobs (<[id := jc]> (jobs s)) (s_db s).

Lemma claim_step_row id db db' : claim_step id w db db' →
  ∃ j t, pipeline_jobs db !! id = Some j ∧ Status j = StatusQueued ∧ db' = with_jobs (<[id := claim_row w t j]> (pipeline_jobs db)) db.
Proof.
  intros (t & j & j' & Hj & Hf & ->). destruct (is_status StatusQueued j) eqn:Hq; [|done]. injection Hf as <-.
  apply is_status_true in Hq. by exists j, t.
Qed.

Lemma same_ext_run {A} (p : prog A) i s a i' s' : calls_only harmless p → run orc p i s = Some (a, i', s') → s_ext s' = s_ext s.
Proof. intros Hp Hrun. apply run_background in Hrun; [|done]. apply Hrun. Qed.

Lemma asked_popped raw i s :
  match asked orc (process_popped cfg raw) i s with
  | None => ∃ e i' s', run orc (process_popped cfg raw) i s = Some (e, i', s') ∧ unasked e.2 s s'
  | Some (jc, i1, s1, k) => ∃ id, asks raw id jc s s1 ∧ ∀ r, (res ← k r; _ ← Ack (c_Stage cfg) w raw; mret res) = on_answer cfg raw id jc r
  end.
Proof.
  unfold process_popped. destruct (uuid_Parse raw) as [id|pe] eqn:Hp; [|by eexists _, i, s; split; [|split; [|left] ] ].
  rewrite asked_bind, run_bind by apply ClaimJob_plain.
  destruct (run_ClaimJob orc id w i s) as (r & s1 & Hrun & _ & Hc). rewrite Hrun.
  pose proof (same_ext_run _ _ _ _ _ _ (safe_ClaimJob id w) Hrun) as Hx.
  destruct Hc as [ [-> (j & t & Hj & Hq & Hd)%claim_step_row]|[ [-> Hd]|(ce & -> & Hd)] ].
  - rewrite asked_bind, run_bind by apply GetJob_plain.
    destruct (run_GetJob orc id (S i) s1) as (g & s2 & Hg & _ & Hd2 & Hrow). rewrite Hg.
    pose proof (same_ext_run _ _ _ _ _ _ (safe_GetJob id) Hg) as Hx2.
    destruct (Hrow (claim_row w t j)) as [->|[msg ->] ]; [rewrite Hd; apply lookup_insert_eq| |].
    + exists id. split; [|done]. split; [congruence|]. split; [done|]. exists j, t. by rewrite Hd2.
    + eexists _, _, s2. split; [done|]. split; [congruence|right]. exists id, j, t. by rewrite Hd2.
  - by eexists _, _, s1; split; [|split; [|left] ].
  - assert (He : s_db s1 = s_db s ∨ errors_Is (EWrap "claim" ce) ErrJobNotClaimable = false)
      by (destruct Hd as [Hd|(_ & msg & -> & _)]; [by left|by right]).
    destruct (errors_Is _ _); eexists _, _, s1; (split; [done|]); (split; [done|]); [left; by destruct He|].
    destruct Hd as [Hd|[ (j & t & Hj & Hq & Hd)%claim_step_row _] ]; [by left|right]. by exists id, j, t.
Qed.

Lemma asked_ProcessOne i s :
  match asked orc (ProcessOne cfg) i s with
  | None => ∃ e i' s', run orc (ProcessOne cfg) i s = Some (e, i', s') ∧ unasked e.2 s s'
  | Some (jc, i1, s1, k) => ∃ raw id, raw ∈ rlist (s_redis s) (key (c_Stage cfg)) ∧ asks raw id jc s s1 ∧
      ∀ r, k r = on_answer cfg raw id jc r
  end.
Proof.
  unfold ProcessOne. rewrite asked_bind, run_bind by apply BlockingPop_plain.
  destruct (run_BlockingPop_db orc (c_Stage cfg) w (PopTimeout cfg) i s) as (r & s1 & Hrun & Hd1). rewrite Hrun.
  pose proof (same_ext_run _ _ _ _ _ _ (safe_BlockingPop _ _ _) Hrun) as Hx. destruct r as [raw|pe].
  - apply run_BlockingPop_in in Hrun. pose proof (asked_popped raw (S i) s1) as H.
    destruct (asked orc (process_popped cfg raw) (S i) s1) as [ [ [ [jc i1] s2] k]|] eqn:Ha.
    + rewrite (asked_then _ _ _ _ _ _ _ _ _ Ha). destruct H as (id & (Hx2 & Hp & Hj) & Hk). exists raw, id.
      split; [done|]. split; [|done]. split; [congruence|]. split; [done|]. unfold jobs in *. by rewrite Hd1 in Hj.
    + assert (Hn : asked orc (res ← process_popped cfg raw; _ ← Ack (c_Stage cfg) w raw; mret res) (S i) s1 = None).
      { apply asked_of; [|done]. intros res. apply calls_only_bind; [apply Ack_plain|done]. }
      rewrite Hn, run_bind. destruct H as (e & i2 & s2 & -> & Hx2 & He). rewrite run_bind.
      destruct (run_Ack_db orc (c_Stage cfg) w raw i2 s2) as (a & s3 & HA & Hd3). rewrite HA.
      pose proof (same_ext_run _ _ _ _ _ _ (safe_Ack _ _ _) HA) as Hx3. exists e, (S i2), s3. split; [done|].
      split; [congruence|]. unfold jobs in *. by rewrite Hd3, <- Hd1.
  - destruct (errors_Is pe ErrEmpty); eexists _, _, s1; (split; [done|]); (split; [done|by left]).
Qed.

(** When nothing fails, the oldest id, if it is of a queued job, leads to the
    question. *)
Lemma ProcessOne_asks i s l raw id j :
  reliable orc → db_ok (s_db s) → rlist (s_redis s) (key (c_Stage cfg)) = l ++ [raw] →
  uuid_Parse raw = Ok id → jobs s !! id = Some j → Status j = StatusQueued → is_Some (asked orc (ProcessOne cfg) i s).
Proof.
  intros Hrel Hok Hq Hp Hj Hst. unfold ProcessOne. rewrite asked_bind by apply BlockingPop_plain.
  destruct (run_BlockingPop orc Hrel (c_Stage cfg) w (PopTimeout cfg) i s) as (s1 & (Hd & _) & Hr).
  rewrite Hq, unsnoc_app in Hr. destruct Hr as (-> & _).
  assert (Ha : is_Some (asked orc (process_popped cfg raw) (S i) s1)).
  { unfold process_popped. rewrite Hp, asked_bind by apply ClaimJob_plain. unfold jobs in Hj. rewrite <- Hd in Hok, Hj.
    destruct (run_ClaimJob_ok orc Hrel id w (S i) s1 j Hok Hj Hst) as (t & _ & ->).
    rewrite asked_bind by apply GetJob_plain. set (s2 := mk_shared _ _ _ _).
    destruct (run_GetJob_ok orc Hrel id (S (S i)) s2 (claim_row w t j)) as (t2 & _ & ->); [apply lookup_insert_eq|]. by eexists. }
  destruct Ha as [ [ [ [jc i1] s2] k] Ha]. rewrite (asked_then _ _ _ _ _ _ _ _ _ Ha). by eexists.
Qed.
End turn.
End asked.

Section deployed.
Context `{UL : UuidLib} `{PG : !PgServer} `{RS : RedisServer} `{DS : DriveServer} `{AE : AeadLib}
  `{ML : MailLib} `{TP : TimeParser}.

(** The oracle of the answered worker: up to the question at call [q] it is
    [orc]; the answer [r] takes [dt]; what comes then is what [orc] decides
    from the [next]-th call on. *)
Definition spliced (orc : nat → outcome) (q : nat) (r : result string) (dt : Z) (next n : nat) : outcome :=
  if decide (n < q)%nat then orc n
  else if decide (n = q) then
    {| o_fault := NoFault; o_dt := Z.to_N dt; o_uuid := o_uuid (orc q); o_rand := o_rand (orc q); o_ctx := o_ctx (orc q);
       o_handler := λ _, r; o_api := o_api (orc q) |}
  else orc (next + (n - S q))%nat.

Lemma spliced_before orc q r dt next n : (n < q)%nat → spliced orc q r dt next n = orc n.
Proof. intros H. unfold spliced. by rewrite decide_True. Qed.

Lemma spliced_at orc q r dt next : o_handler (spliced orc q r dt next q) = (λ _, r) ∧ o_dt (spliced orc q r dt next q) = Z.to_N dt.
Proof. unfold spliced. rewrite decide_False by lia. by rewrite decide_True. Qed.

Lemma spliced_after orc q r dt next n : spliced orc q r dt next (S q + n) = orc (next + n)%nat.
Proof. unfold spliced. rewrite !decide_False by lia. f_equal. lia. Qed.

(** What a turn of the served worker does once the handler has been asked about
    [jc], in the state [s1] at call [q]: the handler runs on that row; the
    turn settles the row as the handler's answer says; and the answered worker
    takes the same turn, if it is told what the handler answers: it returns the
    same, and leaves the same queues and the same tables but for the stored
    tokens, while the files and the Drives are as the handler left them. *)
Definition handles_job (h : Job → prog (result string)) (orc : nat → outcome) (cfg : Worker.Config) (i : nat)
    (s : shared) (e : bool * result unit) (s' : shared) (jc : Job) (q : nat) (s1 : shared) : Prop :=
  ∃ raw id r next s2 n s'', raw ∈ rlist (s_redis s) (key (c_Stage cfg)) ∧ asks cfg raw id jc s s1 ∧
    run orc (h jc) q s1 = Some (r, next, s2) ∧ jobs s2 = jobs s1 ∧
    settle_ok id r jc e.2 s2 s' ∧ s_ext s' = s_ext s2 ∧
    run (spliced orc q r (s_now s2 - s_now s1) next) (ProcessOne cfg) i s = Some (e, n, s'') ∧ alike s' s''.

Lemma run_answered_turn h orc cfg i s jc q s1 k :
  total (h jc) → calls_only keeps_queues (h jc) → asked orc (ProcessOne cfg) i s = Some (jc, q, s1, k) →
  ∃ e i' s', run orc (serve h (ProcessOne cfg)) i s = Some (e, i', s') ∧ handles_job h orc cfg i s e s' jc q s1.
Proof.
  intros Htot Hkeep Ha. pose proof (asked_ProcessOne orc cfg i s) as H. rewrite Ha in H.
  destruct H as (raw & id & Hraw & Hasks & Hk). destruct (run_total orc (h jc) q s1 Htot) as (r & next & s2 & Hh).
  pose proof (run_keeps_jobs _ _ _ _ _ _ _ Hkeep Hh) as Hj2. pose proof (run_keeps_queues _ _ _ _ _ _ _ Hkeep Hh) as Hsame.
  pose proof (run_now _ _ _ _ _ _ _ Hh) as Hnow.
  assert (Hjc : jobs s2 !! id = Some jc).
  { rewrite Hj2. destruct Hasks as (_ & _ & j & t & _ & _ & _ & Hd). unfold jobs. rewrite Hd. apply lookup_insert_eq. }
  destruct (run_on_answer orc cfg raw id jc r next s2 Hjc) as (e & i' & s' & Hrun & Hset).
  exists e, i', s'. rewrite (run_asked_serve h _ _ _ _ _ _ _ _ Ha), Hh, Hk, run_serve_plain by apply on_answer_plain.
  split; [exact Hrun|]. set (orc' := spliced orc q r (s_now s2 - s_now s1) next).
  pose proof (spliced_at orc q r (s_now s2 - s_now s1) next) as [Hr Hdt]. fold orc' in Hr, Hdt.
  assert (Hal : alike s2 (elapse (orc' q) s1)).
  { destruct Hsame as [ (H1 & H2 & H3) H4]. split; [|cbn; rewrite Hdt; lia]. split; [by split_and!|]. intros k0. by rewrite H4. }
  destruct (run_blind orc orc' _ next (S q) _ _ _ _ _ (on_answer_blind cfg raw id jc r) (spliced_after _ _ _ _ _) Hal Hrun)
    as (n & s'' & Hrun' & Hal' & Hx).
  exists raw, id, r, next, s2, n, s''. do 4 (split; [done|]). split; [done|]. split; [done|]. split; [|done].
  fold orc'. rewrite (run_asked orc orc' _ _ _ _ _ _ _ Ha) by (intros m Hm; apply spliced_before; lia). by rewrite Hr, Hk.
Qed.

(** C10. The worker of any stage, with the handler's own calls in place of the
    answer ProcessOne was told, refines the answered worker.  Whatever fails,
    its turn returns.  Either ProcessOne does not come to ask the handler: then
    the turn is the very run of ProcessOne, and all rows stay as they are, or
    one queued row is claimed and the turn ends with an error.  Or it asks about
    the row of an id from the stage's queue, which was queued and which it has
    just claimed: then the stage's handler runs on this row, and the turn does
    what ProcessOne does when it is told what the handler answers
    ([handles_job]).  If nothing fails and the oldest id on the queue is that
    of a queued job, the handler is asked. *)
Theorem turn_refines getenv services stage w cfg h orc i s :
  worker_main getenv services stage w = Start (cfg, h) →
  ∃ e i' s', run orc (serve h (ProcessOne cfg)) i s = Some (e, i', s') ∧
    match asked orc (ProcessOne cfg) i s with
    | None => run orc (ProcessOne cfg) i s = Some (e, i', s') ∧ unasked cfg e.2 s s'
    | Some (jc, q, s1, _) => handles_job h orc cfg i s e s' jc q s1
    end ∧
    (∀ l raw id j, reliable orc → db_ok (s_db s) → rlist (s_redis s) (key stage) = l ++ [raw] →
      uuid_Parse raw = Ok id → jobs s !! id = Some j → Status j = StatusQueued → is_Some (asked orc (ProcessOne cfg) i s)).
Proof.
  intros (Hst & _ & _ & Hh)%worker_handler. rewrite <- Hst.
  destruct (asked orc (ProcessOne cfg) i s) as [ [ [ [jc q] s1] k]|] eqn:Ha.
  - destruct (Hh jc) as (Htot & Hkeep & _). destruct (run_answered_turn h orc cfg i s jc q s1 k Htot Hkeep Ha) as (e & i' & s' & Hrun & H).
    exists e, i', s'. by split_and!.
  - pose proof (asked_ProcessOne orc cfg i s) as H. rewrite Ha in H. destruct H as (e & i' & s' & Hrun & Hu).
    exists e, i', s'. rewrite run_unasked by done. split; [done|]. split; [done|]. intros l raw id j. rewrite <- Ha. apply ProcessOne_asks.
Qed.
End deployed.

(** ** Witness *)
Import SchemaModel RedisModel DriveModel AeadModel EffectsModel MimeModel.

Definition at_render : Job :=
  @mk_Job uuid_model "7" (Some "u") (Some "m1") "render" StatusQueued "{}" false None 0 8 None 0 None None 0 0.

Definition to_render : shared :=
  mk_shared (with_jobs {[ "7" := at_render ]} (s_db signed_up)) (lpush "queue:render" (uuid_String (ID at_render)) RedisModel.empty) no_ext 0.

Lemma turn_refines_witness : ∃ cfg h, worker_main test_env true "render" "w" = Start (cfg, h) ∧
  ∃ e i' s', run (calm (λ _, Ok EmptyString)) (serve h (ProcessOne cfg)) 0 to_render = Some (e, i', s') ∧
    match asked (calm (λ _, Ok EmptyString)) (ProcessOne cfg) 0 to_render with
    | None => False
    | Some (jc, q, s1, _) => handles_job h (calm (λ _, Ok EmptyString)) cfg 0 to_render e s' jc q s1
    end.
Proof.
  eexists _, _. split; [reflexivity|].
  destruct (turn_refines test_env true "render" "w" _ _ (calm (λ _, Ok EmptyString)) 0 to_render eq_refl) as (e & i' & s' & Hrun & H & _).
  exists e, i', s'. split; [exact Hrun|]. exact H.
Defined.
