(* ===== verification/Deploy.v ===== *)
(** * The deployed pipeline

    Workers of all stages, one turn after the other in any order, between
    turns of everything else: whatever fails, a job that is done has its
    message in its user's Drive. *)
From S2P Require Import Prelude Redis Schema GoStrings Utf8 Calendar Times Json Meta Paths Base64 Mime Html Services Effects Files Disk Queue Store Worker OAuth Gmail Drive Fetch Render Upload Forest Names Pipeline Noop Command Background Placement Serve.
Local Open Scope Z_scope.

Section deploy.
Context `{UL : UuidLib} `{PG : !PgServer} `{RS : RedisServer} `{DS : DriveServer} `{AE : AeadLib}
  `{ML : MailLib} `{TP : TimeParser}.
Variables (getenv : string → string) (services : bool).
Abbreviation data_dir := (data_dir getenv).
Abbreviation upload_config := (upload_config getenv).
Abbreviation has_mail := (has_mail getenv).
Abbreviation packed := (packed getenv).
Abbreviation filed := (filed getenv).
Abbreviation delivered := (delivered getenv).
Abbreviation from_mail := (from_mail getenv).
Abbreviation root := (root_of upload_config).
Abbreviation placed := (placed getenv).
Abbreviation deploy_ok := (deploy_ok getenv).
Abbreviation starts := (starts getenv).

(** time.Parse and net/mail give offsets in whole minutes. *)
Hypothesis dates : ∀ d t, ParseDate d = Ok t → t_off t mod 60 = 0.

(** The configured root folder. *)
Hypothesis root_id : drive_id_ok (root_of upload_config).
Hypothesis root_path : RootPath upload_config ≠ EmptyString → Forall folder_name (root_folders (RootPath upload_config)).

(** ** Histories *)

(** The turns of the workers so far: the outcomes of their calls and the
    numbers of the first call and behind the last one. *)
Definition history : Type := list ((nat → outcome) * nat * nat).

(** In one of the turns Gmail gave this text for the user's message. *)
Definition fetched_in (l : history) (u : uuid) (gid raw : string) : Prop :=
  ∃ orc lo hi key client c', (orc, lo, hi) ∈ l ∧ returns orc lo hi (Gmail.New u key) (Ok client) ∧
    returns orc lo hi (FetchMessage client gid) (Ok raw, c').

(** In one of the turns the renderer answered the page with the PDF. *)
Definition rendered_in (l : history) (html pdf : string) : Prop :=
  ∃ orc lo hi, (orc, lo, hi) ∈ l ∧ returns orc lo hi (RenderHTML html) (Ok pdf).

Definition seen (l : history) : evidence := mk_evidence (fetched_in l) (rendered_in l).

Lemma seen_more l l' : l ⊆ l' → more (seen l) (seen l').
Proof.
  intros Hl. constructor; cbn.
  - intros u gid raw (orc & lo & hi & key & c & c' & Hin & H). exists orc, lo, hi, key, c, c'. split; [by apply Hl|done].
  - intros html pdf (orc & lo & hi & Hin & H). exists orc, lo, hi. split; [by apply Hl|done].
Qed.

(** The stage's queue only holds ids of jobs at that stage, or not queued.
    ProcessOne does not check this, and the sweeper's pass over the stale jobs
    can break it; Redelivery.v does without it. *)
Definition on_stage (stage : string) (s : shared) : Prop :=
  ∀ raw id j, raw ∈ rlist (s_redis s) (key stage) → uuid_Parse raw = Ok id → jobs s !! id = Some j →
    Status j = StatusQueued → Stage j = stage.

(** Turns of workers that worker_main started, whatever their calls meet,
    and in between what [background] allows. *)
Inductive deployed : history → shared → shared → Prop :=
| dep_start s : deployed [] s s
| dep_turn l s0 s stage w cfg h orc i b e i' s' :
    deployed l s0 s → worker_main getenv services stage w = Start (cfg, h) → on_stage stage s →
    run orc (serve h (ProcessOne cfg)) i s = Some ((b, e), i', s') → deployed ((orc, i, i') :: l) s0 s'
| dep_around l s0 s s' :
    deployed l s0 s → background s s' → (∀ id j, entering (jobs s) id j → jobs s' !! id = Some j → plain_job id j) →
    deployed l s0 s'.

(** ** The handlers *)

(** What a handler's run leaves: the files of the other jobs, the other
    accounts' Drives, and the folder cache. *)
Record touched (l : history) (job : Job) (s s' : shared) : Prop := {
  tc_files id' : plain_id id' → id' ≠ ID job → ∀ p, job_file data_dir id' p → files s' !! p = files s !! p;
  tc_grows u : grows (drives s u) (drives s' u);
  tc_added u f : f ∈ d_files (drives s' u) → f ∈ d_files (drives s u) ∨ from_mail (seen l) (drives s' u) u f;
  tc_forest : (∀ u, forest root (drives s u)) → ∀ u, forest root (drives s' u);
  tc_ready u : contains_byte ":" (uuid_String u) = false → ready u (root_of upload_config) s'
}.

(** And the settled job in its place. *)
Record handled (l : history) (job : Job) (r : result string) (s s' : shared) : Prop := {
  hd_touched : touched l job s s';
  hd_self : placed (seen l) (files s') (drives s') job;
  hd_settled j' : settled r job j' → placed (seen l) (files s') (drives s') j'
}.

(** A settled row is the job's, at the stage the answer names. *)
Lemma settled_cases r j j' : settled r j j' → same_message j j' ∧
  ((∃ e, r = Err e) ∧ Stage j' = Stage j ∧ Status j' ≠ StatusDone ∨
   (∃ st, r = Ok st ∧ st ≠ EmptyString ∧ Stage j' = st ∧ Status j' = StatusQueued) ∨
   r = Ok EmptyString ∧ Stage j' = Stage j).
Proof.
  intros [he t x t' j1 -> Hf|st t -> Hst|t ->].
  - unfold failed_row in Hf. destruct (_ >? _); [done|]. injection Hf as <-. split; [done|]. left.
    split; [by eexists|]. split; [done|]. cbn. by destruct (_ >=? _).
  - split; [done|]. right. left. by exists st.
  - split; [done|]. by right; right.
Qed.

Lemma Fetch_not_redis dataDir key job : calls_only not_redis (Fetch dataDir key job).
Proof.
  unfold Fetch, WriteFile. destruct (UserID job) as [u|]; [|done]. destruct (GmailMessageID job) as [gid|]; [|done].
  apply calls_only_bind; [apply (calls_only_impl _ _ _ quiet_not_redis), connect_quiet|]. intros [c|e]; [|done].
  apply calls_only_bind; [apply (calls_only_impl _ _ _ quiet_not_redis), FetchMessage_quiet|]. intros [ [raw|e] c']; [|done].
  walk_prog.
Qed.

Lemma Render_not_redis dataDir job : calls_only not_redis (Render dataDir job).
Proof.
  assert (Hw : ∀ dir l names, calls_only not_redis (write_attachments dir l names)).
  { intros dir l. induction l as [|a l IH]; intros names; cbn [write_attachments]; unfold WriteFile; walk_prog. }
  unfold Render. apply calls_only_bind; [by split|]. intros [raw|e]; [|done].
  destruct (parseMessage raw) as [ [parsed|e]|]; [|done|done]. unfold render_parsed, save_attachments, save_in, RenderHTML, WriteFile.
  walk_prog; apply Hw.
Qed.

(** Runs that leave Redis alone and write only files of their job. *)
Lemma touched_writes l job s s' W :
  drives s' = drives s → s_redis s' = s_redis s → s_now s ≤ s_now s' →
  plain_id (ID job) → (∀ p, W p → job_file data_dir (ID job) p) → keeps W (files s) (files s') →
  (∀ u, contains_byte ":" (uuid_String u) = false → ready u (root_of upload_config) s) →
  touched l job s s'.
Proof.
  intros Hd Hr Hn Hid HW Hk Hready. constructor.
  - intros id' Hid' Hne. exact (kept_other data_dir (ID job) id' W (files s) (files s') Hid Hid' Hne HW Hk).
  - intros u f. by rewrite Hd.
  - intros u f. rewrite Hd. by left.
  - by rewrite Hd.
  - intros u Hu. eapply ready_kept; [done..|]. by apply Hready.
Qed.

Lemma handled_writes l job r s s' W :
  drives s' = drives s → s_redis s' = s_redis s → s_now s ≤ s_now s' →
  plain_id (ID job) → (∀ p, W p → job_file data_dir (ID job) p) → keeps W (files s) (files s') →
  (∀ u, contains_byte ":" (uuid_String u) = false → ready u (root_of upload_config) s) →
  placed (seen l) (files s') (drives s') job →
  (∀ st j', r = Ok st → same_message job j' → Stage j' = (if decide (st = EmptyString) then Stage job else st) →
     (st ≠ EmptyString → Status j' = StatusQueued) →
     placed (seen l) (files s') (drives s') j') →
  handled l job r s s'.
Proof.
  intros Hd Hr Hn Hid HW Hk Hready Hself Hok. constructor; [by eapply touched_writes|done|].
  intros j' (Hs & [(_ & Hst & Hdone)|[(st & Hst & Hne & HS & Hq)|[Hst HS] ] ])%settled_cases.
  - by eapply placed_failed.
  - eapply Hok; [done..| |done]. by rewrite decide_False.
  - eapply Hok; [done..| |done]. by rewrite decide_True.
Qed.

Lemma handled_fetch l lo hi orc key job i s r i' s' :
  (lo ≤ i)%nat → (i' ≤ hi)%nat → plain_id (ID job) → Stage job = "fetch" →
  (∀ u, contains_byte ":" (uuid_String u) = false → ready u (root_of upload_config) s) →
  run orc (Fetch data_dir key job) i s = Some (r, i', s') → handled ((orc, lo, hi) :: l) job r s s'.
Proof.
  intros Hlo Hhi Hid Hst Hready Hrun.
  destruct (writes_Fetch orc data_dir key job lo hi i s r i' s' Hlo Hhi Hrun) as (Hd & Hk & HG).
  eapply handled_writes; [done|by eapply run_not_redis; [apply Fetch_not_redis|]|by eapply run_now|done| |exact Hk|done| |].
  - intros p ->. by apply eml_job_file.
  - by apply placed_first; rewrite Hst.
  - intros st j' Hr Hs HS Hq. destruct (HG st Hr) as (-> & u & gid & client & raw & c' & Hu & Hg & Hc & Hf & HF).
    rewrite decide_False in HS by done. destruct Hs as [HI Hu' Hg' _]. constructor; rewrite HS; [|done|done].
    intros _. exists u, gid, raw. split; [congruence|]. split; [congruence|]. split.
    + exists orc, lo, hi, key, client, c'. split; [apply list_elem_of_here|done].
    + rewrite HI, HF, (eml_path_of _ _ Hid). apply lookup_insert_eq.
Qed.

(** What a successful render leaves of a message Gmail gave. *)
Lemma rendered_packed l lo hi orc job u gid raw st F F' :
  plain_id (ID job) → UserID job = Some u → GmailMessageID job = Some gid → fetched_in ((orc, lo, hi) :: l) u gid raw →
  rendered orc lo hi data_dir job raw st F F' → packed (seen ((orc, lo, hi) :: l)) F' job.
Proof.
  intros Hid Hu Hg Hf Hren.
  destruct (rendered_package orc lo hi upload_config job raw st _ _ dates Hid Hren)
    as (parsed & pdf & m & Hp & Hpdf & Hm & Hsub & Hfrom & Hns & Hnames & Hfp & Hfa).
  exists u, parsed, pdf, m. split; [|done]. constructor; try done.
  - by exists gid, raw.
  - exists orc, lo, hi. split; [apply list_elem_of_here|done].
Qed.

Lemma handled_render l lo hi orc job i s r i' s' :
  (lo ≤ i)%nat → (i' ≤ hi)%nat → plain_id (ID job) → Stage job = "render" → Status job ≠ StatusDone →
  has_mail (seen l) (files s) job →
  (∀ u, contains_byte ":" (uuid_String u) = false → ready u (root_of upload_config) s) →
  run orc (Render data_dir job) i s = Some (r, i', s') → handled ((orc, lo, hi) :: l) job r s s'.
Proof.
  intros Hlo Hhi Hid Hst Hnd (u & gid & raw & Hu & Hg & Hf & Hraw) Hready Hrun.
  destruct (writes_Render orc data_dir job lo hi i s r i' s' Hlo Hhi Hrun) as (Hd & Hk & HG).
  assert (Hl : l ⊆ (orc, lo, hi) :: l) by (intros x; by right).
  eapply handled_writes; [done|by eapply run_not_redis; [apply Render_not_redis|]|by eapply run_now|done| |exact Hk|done| |].
  - intros p. by apply rendered_job_file.
  - constructor; rewrite Hst; [|done|done]. intros _. exists u, gid, raw. do 2 (split; [done|]).
    split; [by eapply more_fetched, Hf; apply seen_more|]. rewrite Hk; [done|]. intros (k & Hp & Hne & Heq)%(rendered_other _ _ _ Hid).
    by apply path_of_inj in Heq as [_ <-].
  - intros st j' Hr Hs HS Hq. destruct (HG st Hr) as (raw' & Hraw' & Hren).
    assert (raw' = raw) as ->.
    { change (files s !! path_of data_dir (ID job) Mime = Some raw') in Hraw'. congruence. }
    assert (st = "upload") as -> by apply Hren. rewrite decide_False in HS by done.
    assert (Hpk : packed (seen ((orc, lo, hi) :: l)) (files s') job).
    { eapply rendered_packed; [done|exact Hu|exact Hg| |exact Hren]. exact (more_fetched _ _ (seen_more _ _ Hl) _ _ _ Hf). }
    constructor; rewrite HS; [done| |].
    + intros _. by apply (packed_mono getenv (seen ((orc, lo, hi) :: l)) _ (files s') _ job).
    + intros _ Hdone. rewrite Hq in Hdone; done.
Qed.

(** The upload stage of a user's job sets no cache keys but the user's. *)
Definition caches_of (u : uuid) (X : Type) (c : cmd X) : Prop :=
  match c with
  | Redis f => ∀ t r t' k, t ≤ t' → (∀ path, k ≠ cache_key u path) → rstr (f t r).2 t' k = rstr r t' k
  | _ => True
  end.

Lemma not_redis_caches u X (c : cmd X) : not_redis X c → caches_of u X c.
Proof. by destruct c. Qed.

Lemma run_caches {A} u orc (p : prog A) i s a i' s' t k :
  calls_only (caches_of u) p → run orc p i s = Some (a, i', s') → s_now s' ≤ t → (∀ path, k ≠ cache_key u path) →
  rstr (s_redis s') t k = rstr (s_redis s) t k.
Proof.
  intros Hp Hrun Ht Hk. revert t Ht.
  apply (run_calls_only (caches_of u) (λ s1, ∀ t, s_now s1 ≤ t → rstr (s_redis s1) t k = rstr (s_redis s) t k)
    orc p i s a i' s'); [|done|done|done].
  intros X c o s1 Hc Hs t. rewrite exec_now. intros Ht. rewrite <- (Hs t) by lia.
  destruct c as [Y f|Y f| | | | |j|Y f|Y rq]; simpl; try done; destruct (o_fault o); simpl; try done;
    try (by destruct (f _ _)); specialize (Hc (s_now s1 + Z.of_N (o_dt o)) (s_redis s1) t k ltac:(lia) Hk);
    by destruct (f _ _).
Qed.

Lemma ensure_chain_caches fs u c p parent : calls_only (caches_of u) (ensure_chain u c fs p parent).
Proof.
  revert c p parent. induction fs as [|f fs IH]; intros c p parent; cbn [ensure_chain]; [done|].
  assert (Hset : ∀ path id, calls_only (caches_of u) (Set_ u path id cache_ttl)).
  { intros path id. apply calls_only_bind; [|walk_prog]. split; [|done]. intros t r t' k Ht Hk. cbn [snd].
    rewrite rstr_SetKey by (done || apply cache_key_string). by rewrite decide_False. }
  apply calls_only_bind; [apply calls_only_bind; [by split|walk_prog]|]. intros [ [id|]|e]; [apply IH|..];
    (apply calls_only_bind; [apply (calls_only_impl _ _ _ (not_redis_caches u)), find_or_create_not_redis|]);
    intros [ [id|e'] c']; try done; (apply calls_only_bind; [apply Hset|]); intros ?; apply IH.
Qed.

Lemma Upload_caches cfg key job u : UserID job = Some u → calls_only (caches_of u) (Upload cfg key job).
Proof.
  intros Hu. assert (Hc : ∀ c p n ct d, calls_only (caches_of u) (Drive.Upload c p n ct d)).
  { intros. apply (calls_only_impl _ _ _ (not_redis_caches u)), find_or_create_not_redis. }
  assert (Ha : ∀ names c dir id p, calls_only (caches_of u) (upload_attachments c dir id p names)).
  { intros names. induction names as [|n names IH]; intros c dir id p; cbn [upload_attachments]; [done|].
    apply calls_only_bind; [by split|]. intros [d|e]; [|done]. apply calls_only_bind; [apply Hc|].
    intros [ [?|?] ?]; [apply IH|done]. }
  unfold Upload. rewrite Hu. apply calls_only_bind; [by split|]. intros [b|e]; [|done].
  destruct (UnmarshalMeta b) as [m|e]; [|done]. cbv zeta.
  apply calls_only_bind; [apply (calls_only_impl quiet); [by intros X []|apply connect_quiet]|]. intros [c|e]; [|done].
  apply calls_only_bind; [apply ensure_chain_caches|]. intros [ [p|e] c']; [|done]. unfold upload_files.
  apply calls_only_bind; [by split|]. intros [d|e]; [|done]. apply calls_only_bind; [apply Hc|].
  intros [ [?|?] ?]; [|done]. apply calls_only_bind; [apply Ha|]. by intros [?|?].
Qed.

Lemma touched_upload l l' orc key job i s r i' s' :
  l ⊆ l' → plain_job (ID job) job → senders (seen l) → packed (seen l) (files s) job →
  (∀ u, contains_byte ":" (uuid_String u) = false → ready u (root_of upload_config) s) →
  run orc (Upload upload_config key job) i s = Some (r, i', s') →
  touched l' job s s' ∧ files s' = files s ∧
  ∀ st, r = Ok st → st = EmptyString ∧ filed (seen l') (drives s') job.
Proof.
  intros Hl [_ Hid Huser] Hsend Hpk Hready Hrun.
  pose proof Hpk as (u & parsed & pdf & m & Hm & Hmeta & Hpdf & Hatt). pose proof (msg_user _ _ _ _ _ _ Hm) as Hu.
  pose proof (Huser u Hu) as Hcol.
  destruct (run_Upload_stage orc upload_config key job u m i s r i' s' Hu Hmeta (message_plain getenv root_path _ _ _ _ _ _ Hsend Hm)
    root_id (Hready u Hcol) Hrun) as (Hstep & Hok & _).
  pose proof (step_files _ _ _ _ _ _ Hstep) as HF. split; [constructor|split; [exact HF|] ].
  - intros id' _ _ p _. by rewrite HF.
  - intros v. destruct (decide (v = u)) as [->|Hv]; [apply Hstep|]. rewrite (st_else _ _ _ _ _ _ Hstep) by done. by intros f.
  - intros v f. destruct (decide (v = u)) as [->|Hv]; [|rewrite (st_else _ _ _ _ _ _ Hstep) by done; by left].
    assert (Hm' : message (seen l') job u parsed pdf m) by (by eapply message_mono; [apply seen_more, Hl|..]).
    intros [?|[ (ns & n & rest & Hfs & Hc & Hf)|[Hc Hin] ] ]%(st_added _ _ _ _ _ _ Hstep); [by left|right; left|right; right].
    + by exists job, parsed, pdf, m, ns, n, rest.
    + exists job, parsed, pdf, m. do 2 (split; [done|]). by eapply package_of_message.
  - eapply run_forest; [apply Upload_forest|exact Hrun].
  - intros v Hvc. destruct (decide (v = u)) as [->|Hv]; [apply Hstep|]. destruct (Hready v Hvc) as [Hids Hcache].
    split; [by rewrite (st_else _ _ _ _ _ _ Hstep)|]. intros t names id Ht Hne Hco.
    rewrite (st_else _ _ _ _ _ _ Hstep) by done. pose proof (run_now _ _ _ _ _ _ _ Hrun) as Hn.
    erewrite run_caches; [|by apply Upload_caches|exact Hrun|done|by intros path ?%cache_key_user].
    apply Hcache; [lia|done..].
  - intros st Hr. destruct (Hok st Hr) as [-> Hc]. split; [done|]. exists u, parsed, pdf, m. split; [|done].
    by eapply message_mono; [apply seen_more, Hl|..].
Qed.

Lemma handled_upload l l' orc key job i s r i' s' :
  l ⊆ l' → plain_job (ID job) job → Stage job = "upload" → Status job ≠ StatusDone → senders (seen l) → packed (seen l) (files s) job →
  (∀ u, contains_byte ":" (uuid_String u) = false → ready u (root_of upload_config) s) →
  run orc (Upload upload_config key job) i s = Some (r, i', s') → handled l' job r s s'.
Proof.
  intros Hl Hplain Hst Hnd Hsend Hpk Hready Hrun.
  destruct (touched_upload l l' orc key job i s r i' s' Hl Hplain Hsend Hpk Hready Hrun) as (Ht & HF & Hok).
  assert (Hself : packed (seen l') (files s') job) by (rewrite HF; by apply (packed_mono getenv (seen l) _ (files s) _ job); [apply seen_more|..]).
  constructor; [exact Ht|by constructor; [rewrite Hst| |]|].
  intros j' (Hs & [(_ & Hst' & Hdone)|[(st & Hr & Hne & _)|[Hr Hst'] ] ])%settled_cases.
  - eapply placed_failed; [done..|]. by constructor; [rewrite Hst| |].
  - by destruct (Hok st Hr) as [-> _].
  - constructor; rewrite Hst', Hst; [done| |]; intros _.
    + by apply (packed_mono getenv (seen l') _ (files s') _ job).
    + intros _. destruct (Hok _ Hr) as [_ Hc]. eapply filed_mono; [done|exact Hs|by intros u _ f|exact Hc].
Qed.

Lemma handled_noop l job orc i s r i' s' :
  plain_id (ID job) → Stage job = "test" → results (answers_next "test") (NoopHandler job) →
  (∀ u, contains_byte ":" (uuid_String u) = false → ready u (root_of upload_config) s) →
  run orc (NoopHandler job) i s = Some (r, i', s') → handled l job r s s'.
Proof.
  intros Hid Hst Hres Hready Hrun. assert (Hq : calls_only quiet (NoopHandler job)).
  { eapply calls_only_impl; [|apply NoopHandler_plain]. by intros X []. }
  destruct (run_quiet _ _ _ _ _ _ _ Hq Hrun) as [Hx Hr].
  assert (Hd : drives s' = drives s ∧ files s' = files s) by (unfold drives, files; by rewrite Hx). destruct Hd as [Hd HF].
  eapply (handled_writes _ _ _ _ _ (λ _, False)); [done|done|by eapply run_now|done|done|by rewrite HF|done| |].
  - by apply placed_first; rewrite Hst.
  - intros st j' Hst' _ HS _. pose proof (run_results _ _ _ _ _ _ _ _ Hres Hrun st Hst') as ->.
    change (Stage j' = Stage job) in HS. by apply placed_first; rewrite HS, Hst.
Qed.

(** ** A turn *)

(** A stage's handler on a job at that stage. *)
Lemma handled_turn d0 l lo hi orc stage h job i s r i' s' :
  (lo ≤ i)%nat → (i' ≤ hi)%nat → stage_handler getenv stage = Start h → (∀ j, results (answers_next stage) (h j)) →
  deploy_ok d0 (seen l) s → senders (seen ((orc, lo, hi) :: l)) → jobs s !! ID job = Some job → Stage job = stage → Status job = StatusRunning →
  run orc (h job) i s = Some (r, i', s') → handled ((orc, lo, hi) :: l) job r s s'.
Proof.
  intros Hlo Hhi Hh Hres [Hj Hr Hp _ _] Hsend Hjob Hst Hrunning Hrun. pose proof (Hj _ _ Hjob) as Hplain.
  pose proof (Hp _ _ Hjob) as [Prend Pup _]. pose proof (pj_plain _ _ Hplain) as Hid.
  assert (Hl : l ⊆ (orc, lo, hi) :: l) by (intros x; by right).
  assert (Hnd : Status job ≠ StatusDone) by (by rewrite Hrunning).
  destruct (stage_handler_is getenv stage h Hh) as [ [Hs ->]|[ [Hs [key ->] ]|[ [Hs ->]|[Hs [key ->] ] ] ] ]; rewrite Hs in Hst.
  - rewrite Hs in Hres. by eapply handled_noop.
  - by eapply handled_fetch.
  - by eapply handled_render; [..|exact (Prend Hst)|exact Hr|exact Hrun].
  - eapply handled_upload; [exact Hl|..|exact (Pup Hst)|exact Hr|exact Hrun]; try done. by eapply senders_mono, Hsend; apply seen_more.
Qed.

Lemma deploy_ok_settled d0 l l' id jc r e s1 s2 s' :
  l ⊆ l' → deploy_ok d0 (seen l) s1 → jobs s1 !! id = Some jc → jobs s2 = jobs s1 → handled l' jc r s1 s2 →
  same_world s2 s' → settle_ok id r jc e s2 s' → deploy_ok d0 (seen l') s'.
Proof.
  intros Hl [Hj Hr Hp Hdr Hfo] Hjc Hjobs [ [Hfiles Hgrow Hadd Hforest Hready] Hself Hset] Hw Hsettle.
  assert (Hx : files s' = files s2 ∧ drives s' = drives s2) by (unfold files, drives; by rewrite (same_ext _ _ Hw)).
  destruct Hx as [Hf Hd]. pose proof (Hj _ _ Hjc) as Hplain. pose proof (pj_ID _ _ Hplain) as HID.
  assert (Hrows : ∃ j1, jobs s' = <[id := j1]> (jobs s1) ∧ same_message jc j1 ∧ placed (seen l') (files s2) (drives s2) j1).
  { unfold settle_ok in Hsettle. unfold jobs in *. destruct Hsettle as [ [Hdb _]|(j1 & Hj1 & Hdb)].
    - exists jc. rewrite Hdb, Hjobs, insert_id by done. by split.
    - exists j1. rewrite Hdb. cbn. rewrite Hjobs. split; [done|]. split; [by eapply settled_cases|by apply Hset]. }
  destruct Hrows as (j1 & Hrows & Hsame & Hpl). constructor.
  - intros id' j'. rewrite Hrows. intros [ [<- <-]|[_ ?] ]%lookup_insert_Some; [|by apply Hj].
    destruct Hplain as [_ H2 H3], Hsame as [HI HU _ _]. constructor; [congruence|done|]. rewrite HU. exact H3.
  - intros u Hu. eapply ready_world; [exact Hw|by apply Hready].
  - intros id' j'. rewrite Hrows, Hf, Hd. intros [ [<- <-]|[Hne Hj'] ]%lookup_insert_Some; [done|].
    pose proof (Hj _ _ Hj') as [HI Hid _].
    eapply (placed_mono getenv (seen l) (seen l') (files s1) _ (drives s1) _ j' j'); [by apply seen_more|done| |by intros u _; apply Hgrow|by eapply Hp].
    unfold files_of_job. rewrite HI. apply Hfiles; [done|congruence].
  - intros u f. rewrite Hd. intros [ [?|?]%Hdr|?]%Hadd; [by left|right|by right].
    eapply from_mail_mono; [apply seen_more, Hl|apply Hgrow|done].
  - rewrite Hd. by apply Hforest.
Qed.

Lemma deploy_ok_turn d0 l s stage w cfg h orc i i' e s' :
  deploy_ok d0 (seen l) s → senders (seen ((orc, i, i') :: l)) → worker_main getenv services stage w = Start (cfg, h) → on_stage stage s →
  turned h orc cfg i i' e s s' → deploy_ok d0 (seen ((orc, i, i') :: l)) s'.
Proof.
  intros Hok Hsend Hw Hon Ht. assert (Hl : l ⊆ (orc, i, i') :: l) by (intros x; by right).
  assert (Hbg : ∀ s1, idle s s1 → deploy_ok d0 (seen ((orc, i, i') :: l)) s1 ∧ deploy_ok d0 (seen l) s1).
  { intros s1 [Hb Hn]. assert (H : deploy_ok d0 (seen l) s1).
    { eapply deploy_ok_background; [done..|]. intros id j [Hnone _ _ _] Hj. apply Hn in Hnone. congruence. }
    split; [|done]. destruct H as [H1 H2 H3 H4 H5]. constructor; [done..| | |done].
    2: { intros u f [?|?]%H4; [by left|right]. by eapply from_mail_mono; [apply seen_more, Hl|by intros ?|]. }
    intros id j Hj. eapply (placed_mono getenv (seen l)); [by apply seen_more|done|done|by intros u _ f|by eapply H3]. }
  destruct (worker_handler _ _ _ _ _ _ Hw) as (Hcs & _ & Hh & Hprops).
  destruct Ht as [Hb|(raw & Hraw & Hwork)]; [by apply Hbg|]. rewrite Hcs in Hraw.
  destruct Hwork as [Hb|id j t i1 s1 r i2 s2 Hlo Hhi Hp Hj Hq Hws Hd Hrun Hw2 Hset]; [by apply Hbg|].
  assert (Hi : idle s s1) by (by eapply (idle_claim cfg)). apply Hbg in Hi as [_ Hok1].
  set (jc := claim_row _ t j) in *. assert (Hjc : jobs s1 !! id = Some jc) by (unfold jobs; rewrite Hd; apply lookup_insert_eq).
  assert (HID : ID jc = id) by apply (pj_ID _ _ (dk_jobs _ _ _ _ Hok1 _ _ Hjc)).
  assert (Hjobs : jobs s2 = jobs s1) by (eapply run_keeps_jobs; [apply Hprops|exact Hrun]).
  eapply (deploy_ok_settled d0 l _ id jc r e s1 s2); [done|done|done|done| |done|done].
  eapply (handled_turn d0 l i i' orc stage h jc i1 s1 r i2 s2); try done; [intros; apply Hprops|by rewrite HID|].
  by apply (Hon raw id j).
Qed.

Lemma deployed_ok l s0 s : deployed l s0 s → senders (seen l) → starts s0 → deploy_ok (drives s0) (seen l) s.
Proof.
  intros H. induction H as [s|l s0 s stage w cfg h orc i b e i' s' _ IH Hw Hon Hrun|l s0 s s' _ IH Hb Hn]; intros Hsend Hs.
  - destruct Hs as [Hj Hr Hfo]. constructor; [|done| |by left|done].
    + intros id j H. by apply (Hj id).
    + intros id j H. apply placed_first; destruct (Hj id j H) as [_ [-> | ->] ]; done.
  - eapply deploy_ok_turn; [apply IH; [|done]; eapply senders_mono; [|exact Hsend]; apply seen_more; intros x; by right|done..|].
    destruct (worker_handler _ _ _ _ _ _ Hw) as (_ & _ & _ & Hh).
    destruct (run_serve_ProcessOne h orc cfg (λ j, proj1 (Hh j)) (λ j, proj1 (proj2 (Hh j))) i s) as (b' & e' & i2 & s2 & Hrun' & Ht).
    rewrite Hrun in Hrun'. by injection Hrun' as <- <- <- <-.
  - eapply deploy_ok_background; [by apply IH|done|done].
Qed.

(** ** Properties *)

(** C4. A job at the upload stage that is done has been delivered: in some turn
    Gmail gave the message of the job, in some turn the renderer answered the
    page of that very message with a PDF, and the message's folder is on the
    user's Drive, named by the message's time, subject and sender, and holds a file for
    the PDF and one for every attachment.  Each is this message's own, with its
    content, unless the name was taken by a file that was there from the start
    or by another message of the user with the same folder.  Calls may fail as
    they like, and the turns of the workers and of the other programs alternate
    as they like, under one assumption on the turns: a worker that takes a turn
    finds only ids of its own stage, or of jobs that are not queued, on its
    queue ([on_stage]; a sweep under load can break it, and Redelivery.v does
    without it).  Senders have no slash in their address. *)
Theorem done_is_delivered l s0 s id j :
  deployed l s0 s → senders (seen l) → starts s0 → jobs s !! id = Some j → Stage j = "upload" → Status j = StatusDone →
  delivered (drives s0) (seen l) (drives s) j.
Proof.
  intros H Hs H0 Hj Hst Hd. apply deploy_delivered with (id := id); [by eapply deployed_ok|done..].
Qed.

(** A user's Drive receives nothing but folders and the user's own mail: every
    other file that was not there in the beginning is the PDF of a message of
    a job of this user, as the renderer made it from what Gmail gave for this
    user, or an attachment of such a message with its content. *)
Theorem drive_is_own l s0 s u f :
  deployed l s0 s → senders (seen l) → starts s0 → f ∈ d_files (drives s u) → f ∈ d_files (drives s0 u) ∨ from_mail (seen l) (drives s u) u f.
Proof. intros H Hs H0. eapply dk_drives. by eapply deployed_ok. Qed.
End deploy.

(** ** Witnesses: one message through the three workers *)
Import SchemaModel RedisModel DriveModel AeadModel EffectsModel MimeModel.

Definition new_mail : Job :=
  @mk_Job uuid_model "7" (Some "u") (Some "m1") "fetch" StatusQueued "{}" false None 0 8 None 0 None None 0 0.

Definition test_start : shared :=
  mk_shared (with_jobs {[ "7" := new_mail ]} (s_db signed_up)) (lpush "queue:fetch" (uuid_String (ID new_mail)) RedisModel.empty) no_ext 0.

Definition test_oracle : nat → outcome := calm_api (mail_api "q1.pdf").

Definition test_worker (stage : string) : startup (Worker.Config * (Job → prog (result string))) :=
  worker_main test_env true stage "w".

(** A turn of the stage's worker. *)
Definition turn (stage : string) (s : shared) : shared :=
  match test_worker stage with
  | Start (cfg, h) => after (run test_oracle (serve h (ProcessOne cfg)) 0 s)
  | Exit _ => s
  end.

Definition turns : shared := turn "upload" (turn "render" (turn "fetch" test_start)).

Definition row_is (stage : string) (st : JobStatus) (s : shared) : bool :=
  match pipeline_jobs (s_db s) !! "7" with
  | Some j => bool_decide (Stage j = stage) && bool_decide (Status j = st)
  | None => false
  end.

Lemma test_turns : row_is "upload" StatusDone turns = true.
Proof. vm_compute. reflexivity. Qed.

Definition on_stage_bool (stage : string) (s : shared) : bool :=
  forallb (λ raw, match uuid_Parse raw with
    | Ok id => match jobs s !! id with
               | Some j => negb (bool_decide (Status j = StatusQueued)) || bool_decide (Stage j = stage)
               | None => true
               end
    | Err _ => true
    end) (rlist (s_redis s) (key stage)).

Lemma on_stage_spec stage s : on_stage_bool stage s = true → on_stage stage s.
Proof.
  unfold on_stage_bool. rewrite forallb_forall. intros H raw id j Hraw Hp Hj Hq. apply list_elem_of_In in Hraw.
  specialize (H raw Hraw). cbv beta in H. rewrite Hp, Hj, bool_decide_eq_true_2 in H by done. by apply bool_decide_eq_true in H.
Qed.

Definition starts_up {A} (x : startup A) : bool := match x with Start _ => true | Exit _ => false end.

Lemma turn_deployed l s0 s stage :
  deployed test_env true l s0 s → starts_up (test_worker stage) = true → on_stage_bool stage s = true →
  ∃ hi, deployed test_env true ((test_oracle, 0%nat, hi) :: l) s0 (turn stage s).
Proof.
  intros Hd Hw Hon%on_stage_spec. unfold turn, test_worker in *.
  destruct (worker_main test_env true stage "w") as [c|[cfg h] ] eqn:E; [done|].
  destruct (worker_handler _ _ _ _ _ _ E) as (_ & _ & _ & Hh).
  destruct (run_serve_ProcessOne h test_oracle cfg (λ j, proj1 (Hh j)) (λ j, proj1 (proj2 (Hh j))) 0 s)
    as (b & e & hi & s' & Hrun & _).
  exists hi. rewrite (after_run _ _ _ _ Hrun). by eapply dep_turn.
Qed.

(** Google and the renderer answer as in [test_oracle], whatever else fails. *)
Definition mails (orc : nat → outcome) : Prop := ∀ k X (rq : api_req X), o_api (orc k) X rq = mail_api "q1.pdf" X rq.

Lemma test_raw orc client gid i s raw c' i' s' : mails orc →
  run orc (FetchMessage client gid) i s = Some ((Ok raw, c'), i', s') → raw = mail "q1.pdf".
Proof.
  intros Ho. unfold FetchMessage, Do. rewrite run_bind, run_bind.
  destruct (run orc (source client) i s) as [ [ [ [ [tok|e] c1] i1] s1]|]; [|by intros [=]..].
  cbv beta iota. rewrite run_bind, run_call.
  assert (H : ∀ x, (exec (orc i1) (Api (MessagesGet (userID client) gid "raw")) s1).1 = Ok x →
    x = EncodeToString URLEncoding false (mail "q1.pdf")).
  { intros x. cbn [exec]. rewrite Ho. destruct (o_fault (orc i1)); cbn; congruence. }
  destruct (exec (orc i1) _ s1) as [ [x|e] s2]; cbn [fst snd] in *; rewrite run_ret; cbv beta iota; [|by intros [=] ].
  rewrite (H x eq_refl).
  assert (DecodeString URLEncoding false (EncodeToString URLEncoding false (mail "q1.pdf")) = Some (mail "q1.pdf")) as ->
    by (vm_compute; reflexivity).
  by intros [= <-].
Qed.

Lemma fetched_mail l u gid raw : Forall (λ x, mails x.1.1) l → fetched_in l u gid raw → raw = mail "q1.pdf".
Proof.
  intros Hl (orc & lo & hi & key & client & c' & Hin & _ & (i & s & i' & s' & _ & _ & Hrun)).
  rewrite Forall_forall in Hl. exact (test_raw _ _ _ _ _ _ _ _ _ (Hl _ Hin) Hrun).
Qed.

Lemma test_senders l : Forall (λ x, mails x.1.1) l → senders (seen l).
Proof.
  intros Hl u gid raw parsed ->%(fetched_mail l) Hp; [|done].
  assert (Hc : match parseMessage (mail "q1.pdf") with
    | Some (Ok p) => bool_decide (contains_byte "/" (pm_FromEmail p) = false ∧ contains_byte "\" (pm_FromEmail p) = false)
    | _ => true end = true) by (vm_compute; reflexivity).
  rewrite Hp in Hc. by apply bool_decide_eq_true in Hc.
Qed.

Lemma test_starts : starts test_env test_start.
Proof.
  split.
  - intros id j. unfold jobs, test_start. cbn. rewrite lookup_singleton_Some. intros [<- <-]. split; [|by left].
    constructor; [done|split; [done|split; reflexivity]|by intros ? [= <-] ].
  - intros u _. split; [by intros f ?%elem_of_nil|]. intros t names id _ _ _. cbn. unfold get_str. cbn. by rewrite lookup_empty.
  - intros u. by apply forest_empty.
Qed.

Lemma test_deployed : ∃ l, deployed test_env true l test_start turns ∧ senders (seen l).
Proof.
  destruct (turn_deployed [] test_start test_start "fetch") as [h1 H1]; [constructor|vm_compute; reflexivity..|].
  destruct (turn_deployed _ _ _ "render" H1) as [h2 H2]; [vm_compute; reflexivity..|].
  destruct (turn_deployed _ _ _ "upload" H2) as [h3 H3]; [vm_compute; reflexivity..|].
  eexists. split; [exact H3|]. apply test_senders. by repeat constructor.
Qed.

Lemma row_is_spec stage st s : row_is stage st s = true →
  ∃ j, jobs s !! "7" = Some j ∧ Stage j = stage ∧ Status j = st.
Proof.
  unfold row_is, jobs. case_match; [|done]. intros [H1%bool_decide_eq_true H2%bool_decide_eq_true]%andb_true_iff. by eexists.
Qed.

Lemma done_is_delivered_witness :
  ∃ l j, deployed test_env true l test_start turns ∧ jobs turns !! "7" = Some j ∧
    delivered test_env (drives test_start) (seen l) (drives turns) j.
Proof.
  destruct test_deployed as (l & H & Hs). destruct (row_is_spec _ _ _ test_turns) as (j & Hj & Hst & Hd).
  exists l, j. split; [exact H|]. split; [exact Hj|].
  apply (done_is_delivered test_env true model_dates) with (s0 := test_start) (id := "7").
  - reflexivity.
  - intros Hr. by destruct Hr.
  - exact H.
  - exact Hs.
  - exact test_starts.
  - exact Hj.
  - exact Hst.
  - exact Hd.
Defined.

Definition stored_pdf (s : shared) : option dfile := head (filter (λ f, f_name f = "email.pdf") (d_files (drives s "u"))).

Lemma test_stored : ∃ f, f ∈ d_files (drives turns "u") ∧ f_name f = "email.pdf".
Proof.
  assert (H : bool_decide (is_Some (stored_pdf turns)) = true) by (vm_compute; reflexivity).
  apply bool_decide_eq_true in H as [f Hf]. unfold stored_pdf in Hf. apply head_Some_elem_of, list_elem_of_filter in Hf as [? ?].
  by exists f.
Qed.

Lemma drive_is_own_witness :
  ∃ l f, deployed test_env true l test_start turns ∧ f_name f = "email.pdf" ∧
    (f ∈ d_files (drives test_start "u") ∨ from_mail test_env (seen l) (drives turns "u") "u" f).
Proof.
  destruct test_deployed as (l & H & Hs). destruct test_stored as (f & Hf & Hn). exists l, f.
  split; [exact H|]. split; [exact Hn|].
  apply (drive_is_own test_env true model_dates) with (s := turns).
  - reflexivity.
  - intros Hr. by destruct Hr.
  - exact H.
  - exact Hs.
  - exact test_starts.
  - exact Hf.
Defined.

(** The id is on the queue twice, as after the sweeper pushed it again. *)
Definition doubled : shared :=
  set_redis (lpush "queue:fetch" (uuid_String (ID new_mail)) (s_redis test_start)) test_start.

(** A second push of an id is not always harmless: when the stage is done
    before the second copy is popped, the job waits for its next stage with
    the status the claim asks for, so the worker of the old stage claims it,
    runs its handler again, and moves the job back: here fetch and render are
    done and the job waits for upload, and the fetch worker's next turn sends
    it to render once more. *)
Theorem stale_id_repeats_stage :
  let s := turn "render" (turn "fetch" doubled) in
  row_is "upload" StatusQueued s = true ∧ row_is "render" StatusQueued (turn "fetch" s) = true.
Proof. cbv zeta. split; vm_compute; reflexivity. Qed.
