(* ===== verification/Interleave.v ===== *)
(** * Handlers among other processes

    Rely-guarantee reasoning for the real handlers: between any two calls of
    a handler the other processes of System.v take steps.  [mine R] is the
    assertion of a worker in its handler: while its heartbeat lives, the row is
    the one it claimed and [R] holds of the files and the Drives.  The rules
    follow Disk.v, call by call. *)
From S2P Require Import Prelude Redis Schema GoStrings Utf8 Calendar Times Json Meta Paths Base64 Mime Html Services Effects Files Disk Queue Store Worker Sweeper Concurrency System OAuth Gmail Scheduler Drive Fetch Render Upload Forest Pipeline Background Placement Serve.
Local Open Scope Z_scope.

(** The margin of the timing assumption, the environment variables, the stage
    of each worker, what Gmail and the renderer may answer, and what was on
    the Drives. *)
Class Setting `{UL : UuidLib} `{DS : DriveServer} := mk_Setting {
  set_margin : Z;
  set_env : string → string;
  set_stage : string → string;
  set_evidence : evidence;
  set_drives : uuid → dstate;
  set_margin_ok : 0 ≤ set_margin
}.

Section interleave.
Context `{UL : UuidLib} `{PG : !PgServer} `{RS : RedisServer} `{DS : DriveServer} `{AE : AeadLib}
  `{ML : MailLib} `{TP : TimeParser} `{ST : !Setting}.

Abbreviation margin := set_margin.
Abbreviation getenv := set_env.
Abbreviation stage_of := set_stage.
Abbreviation e := set_evidence.
Abbreviation d0 := set_drives.
Abbreviation margin_ok := set_margin_ok.
Abbreviation dir := (data_dir getenv).
Abbreviation root := (root_of (upload_config getenv)).
Abbreviation fires := (fire track).
Abbreviation files_of g := (files (g_sh g)).
Abbreviation drives_of g := (drives (g_sh g)).

(** ** The environment *)

Definition answered (X : Type) (rq : api_req X) : result X → Prop :=
  match rq in @api_req _ Y return result Y → Prop with
  | MessagesGet u gid _ => λ x, ∀ text raw, x = Ok text → decoded text = Some raw → ev_fetched e u gid raw
  | RenderPost html => λ x, ∀ code pdf, x = Ok (code, pdf, None) → Z.quot code 100 = 2 → ev_rendered e html pdf
  | _ => λ _, True
  end.

(** The steps that are considered: timely ones, in which the remote services
    answer as [e] records, a row that a worker newly holds is at the worker's
    stage, and new rows have plain identifiers.  The third is an assumption
    about the program, not its environment: ClaimJob has no condition on the
    stage, and the pass of the sweeper over the stale jobs may leave an id on
    the queue of a stage the job has left.  [redelivery_corrupts] in
    Redelivery.v shows what happens then. *)
Record ordinary (p : pid) (X : Type) (c : cmd X) (o : outcome) (g : gst ghost) : Prop := {
  od_timely : timely margin p X c o g;
  od_answers Y (rq : api_req Y) : answered Y rq (o_api o Y rq);
  od_stage w id j : pipeline_jobs (g_db (fires p c o g)) !! id = Some j → Status j = StatusRunning →
    WorkerID j = Some w → held id w (g_db g) ∨ Stage j = stage_of w;
  od_new id j : entering (jobs (g_sh g)) id j → jobs (g_sh (fires p c o g)) !! id = Some j → plain_job id j
}.

(** ** Invariant and guarantee *)

Record inv (g : gst ghost) : Prop := {
  in_ok : deploy_ok getenv d0 e (g_sh g);
  in_stage id w j : pipeline_jobs (g_db g) !! id = Some j → Status j = StatusRunning →
    WorkerID j = Some w → Stage j = stage_of w
}.

(** Besides what System.v demands: the invariant, Drives only grow, and a
    job's files are written only by the worker that holds it. *)
Record extra (p : pid) (g g' : gst ghost) : Prop := {
  ex_inv : inv g → inv g';
  ex_grows u : grows (drives_of g u) (drives_of g' u);
  ex_files id q : plain_id id → job_file dir id q →
    files_of g' !! q = files_of g !! q ∨ ∃ w, p = PWorker w ∧ held id w (g_db g)
}.

Definition respects (p : pid) (g g' : gst ghost) : Prop := guar margin p g g' ∧ extra p g g'.

Abbreviation judged := (rg track ordinary (λ _ _ _ _, True) respects).
Abbreviation steady_for := (stable respects).

(** A proof about the programs of System.v carries over. *)
Lemma rg_lift {A} p (pr : prog A) P Q :
  rg track (timely margin) handler_pre (guar margin) p pr P Q →
  calls_only (λ X c, ∀ o g, ordinary p X c o g → extra p g (fires p c o g)) pr → judged p pr P Q.
Proof.
  revert P. induction pr as [a|X c k IH|]; intros P; [done| |done]. cbn [rg calls_only]. intros H [Hc Hk] g o Hg Ho.
  destruct (H g o Hg (od_timely _ _ _ _ _ Ho)) as (_ & Hgu & P' & HP' & Hst & Hrg).
  split; [done|]. split; [split; [done|by apply Hc]|]. exists P'. split; [done|]. split; [|by apply IH].
  intros q g1 g2 Hne HP1 [Hg1 _]. by eapply Hst.
Qed.

Lemma stable_inv p : steady_for p inv.
Proof. intros q g g' _ Hi [_ Hx]. by apply Hx. Qed.

Lemma stable_and p P Q : steady_for p P → steady_for p Q → steady_for p (λ g, P g ∧ Q g).
Proof. intros HP HQ q g g' Hne [H1 H2] Hg. split; [by eapply HP|by eapply HQ]. Qed.

(** The invariant can be carried along. *)
Lemma rg_with_inv {A} p (pr : prog A) P Q :
  judged p pr P Q → judged p pr (λ g, P g ∧ inv g) (λ a g, Q a g ∧ inv g).
Proof.
  revert P. induction pr as [a|X c k IH|]; intros P; cbn [rg]; [| |done].
  - intros H g [Hg Hi]. split; [by apply H|done].
  - intros H g o [Hg Hi] Ho. destruct (H g o Hg Ho) as (_ & Hgu & P' & HP' & Hst & Hrg).
    split; [done|]. split; [done|]. exists (λ g, P' g ∧ inv g). split; [split; [done|by apply Hgu]|].
    split; [by apply stable_and; [|apply stable_inv]|by apply IH].
Qed.

Lemma rg_exists {T A} p (pr : prog A) (P : T → gst ghost → Prop) Q :
  (∀ x, judged p pr (P x) Q) → judged p pr (λ g, ∃ x, P x g) Q.
Proof.
  intros H. destruct pr as [a|X c k|]; cbn [rg] in *; [| |done].
  - intros g [x Hx]. by eapply H.
  - intros g o [x Hx]. by apply (H x).
Qed.

Lemma rg_pure {A} p (pr : prog A) (φ : Prop) P Q :
  (φ → judged p pr P Q) → judged p pr (λ g, φ ∧ P g) Q.
Proof.
  intros H. destruct pr as [a|X c k|]; cbn [rg] in *; [| |done].
  - intros g [Hx ?]. by apply (H Hx).
  - intros g o [Hx ?]. by apply (H Hx).
Qed.

(** What every result satisfies. *)
Lemma rg_results {A} p (pr : prog A) (Φ : A → Prop) P Q :
  results Φ pr → judged p pr P Q → judged p pr P (λ a g, Φ a ∧ Q a g).
Proof.
  revert P. induction pr as [a|X c k IH|]; intros P; cbn [rg results]; [by auto| |done].
  intros Hr H g o Hg Ho. destruct (H g o Hg Ho) as (? & ? & P' & ? & ? & ?). do 2 (split; [done|]).
  exists P'. do 2 (split; [done|]). by apply IH.
Qed.

(** ** Steps of everything beside the handlers *)

Lemma fire_sh p X (c : cmd X) o (g : gst ghost) : g_sh (fires p c o g) = (exec o c (g_sh g)).2.
Proof. done. Qed.

Lemma extra_harmless p X (c : cmd X) o g : harmless X c → ordinary p X c o g → extra p g (fires p c o g).
Proof.
  intros Hc Ho. pose proof (Hc o (g_sh g)) as Hb. rewrite <- (fire_sh p) in Hb. set (g' := fires p c o g) in *.
  pose proof (bg_world _ _ Hb) as Hw. assert (Hx : files_of g' = files_of g ∧ drives_of g' = drives_of g)
    by (unfold files, drives; by rewrite (same_ext _ _ Hw)). destruct Hx as [Hf Hd].
  constructor.
  - intros [Hok Hst]. split.
    + eapply deploy_ok_background; [exact Hok|exact Hb|]. intros id j. apply Ho.
    + intros id w j Hj Hr Hwk. destruct (od_stage _ _ _ _ _ Ho w id j Hj Hr Hwk) as [(j1 & Hj1 & Hr1 & Hw1)|?]; [|done].
      destruct (kept_or_new _ _ (bg_rows _ _ Hb) id j Hj) as [(j2 & Hj2 & Ht)|[Hn _ _ _] ].
      * change (pipeline_jobs (g_db g) !! id = Some j2) in Hj2. assert (j2 = j1) as -> by congruence.
        rewrite (task_Stage _ _ Ht). by eapply Hst.
      * change (pipeline_jobs (g_db g) !! id = None) in Hn. congruence.
  - intros u f. by rewrite Hd.
  - intros id q _ _. left. by rewrite Hf.
Qed.

Lemma rg_harmless {A} p (pr : prog A) P Q :
  rg track (timely margin) handler_pre (guar margin) p pr P Q → calls_only harmless pr → judged p pr P Q.
Proof.
  intros H Hc. apply rg_lift; [done|]. eapply calls_only_impl; [|exact Hc]. intros X c Hh o g. by apply extra_harmless.
Qed.
End interleave.

(** ** A worker in its handler *)

(** The worker and the row it claimed. *)
Class Claimed `{UL : UuidLib} := mk_Claimed {
  cl_worker : string;
  cl_id : uuid;
  cl_job : Job;
  j_running : Status cl_job = StatusRunning;
  j_worker : WorkerID cl_job = Some cl_worker;
  j_plain : plain_job cl_id cl_job
}.

Section mine.
Context `{UL : UuidLib} `{PG : !PgServer} `{RS : RedisServer} `{DS : DriveServer} `{AE : AeadLib}
  `{ML : MailLib} `{TP : TimeParser} `{ST : !Setting} `{CL : !Claimed}.

Abbreviation margin := set_margin.
Abbreviation getenv := set_env.
Abbreviation stage_of := set_stage.
Abbreviation e := set_evidence.
Abbreviation d0 := set_drives.
Abbreviation margin_ok := set_margin_ok.
Abbreviation w := cl_worker.
Abbreviation id := cl_id.
Abbreviation j := cl_job.

Abbreviation dir := (data_dir getenv).
Abbreviation root := (root_of (upload_config getenv)).
Abbreviation fires := (fire track).
Abbreviation files_of g := (files (g_sh g)).
Abbreviation drives_of g := (drives (g_sh g)).
Abbreviation judged := (rg track ordinary (λ _ _ _ _, True) respects).
Abbreviation placed := (placed getenv e).

Definition has_row (db : DB) : Prop := pipeline_jobs db !! id = Some j.

Lemma has_row_held db : has_row db → held id w db.
Proof. intros H. exists j. split; [done|]. split; [apply j_running|apply j_worker]. Qed.

(** What a handler knows of the files and the Drives; others may write other
    jobs' files, and add to the Drives. *)
Definition facts : Type := gmap string string → (uuid → dstate) → Prop.

Definition steady (R : facts) : Prop := ∀ F F' d d',
  (∀ q, job_file dir id q → F' !! q = F !! q) → (∀ u, grows (d u) (d' u)) → R F d → R F' d'.

Definition based (g : gst ghost) : Prop := in_loop w g ∧ inv g.

Definition mine (R : facts) (g : gst ghost) : Prop :=
  based g ∧ (has_row (g_db g) ∧ R (files_of g) (drives_of g) ∨ ¬ alive (g_redis g) (g_now g) w).

(** What another process's step leaves of a row that is held. *)
Lemma respects_row p g g' : p ≠ PWorker w → in_loop w g → respects p g g' → has_row (g_db g) →
  has_row (g_db g') ∨ ¬ alive (g_redis g') (g_now g') w.
Proof.
  intros Hne [Hok Hw] [ [Hc Hg] _] Hrow. pose proof (has_row_held _ Hrow) as Hh. unfold has_row.
  assert (Hs : same_row id (g_db g) (g_db g') ∨ ¬ alive (g_redis g') (g_now g') w).
  { destruct p as [w'|w'| |n].
    - left. eapply (ac_held _ _ _ _ Hg); [|done]. congruence.
    - left. unfold same_row. by rewrite (proj2 Hg).
    - by apply Hg.
    - left. by eapply Hg. }
  destruct Hs as [Hs|?]; [left|by right]. unfold same_row in Hs. by rewrite Hs.
Qed.

Lemma respects_dead p g g' : p ≠ PWorker w → in_loop w g → respects p g g' →
  ¬ alive (g_redis g) (g_now g) w → ¬ alive (g_redis g') (g_now g') w.
Proof.
  intros Hne [Hok Hw] [ [Hc Hg] _] Hd. destruct p as [w'|w'| |n].
  - by eapply (dead_acts margin _ _ _ _ margin_ok).
  - destruct Hg as [Hg _]. by eapply (dead_acts margin _ _ _ _ margin_ok).
  - destruct Hg as [Hhb _]. rewrite (Hhb _ w) by done. eapply alive_later, Hd. apply Hc.
  - destruct Hg as [Hhb _]. rewrite (Hhb _ w) by done. eapply alive_later, Hd. apply Hc.
Qed.

Lemma respects_facts p g g' R : p ≠ PWorker w → steady R → respects p g g' → has_row (g_db g) →
  R (files_of g) (drives_of g) → R (files_of g') (drives_of g').
Proof.
  intros Hne HR [_ Hx] Hrow. apply HR; [|apply Hx]. intros q Hq.
  destruct (ex_files _ _ _ Hx id q (pj_plain _ _ j_plain) Hq) as [?|(w' & -> & Hh)]; [done|].
  rewrite (held_inj id w w' (g_db g)) in Hne; [done|by apply has_row_held|done].
Qed.

Lemma stable_based : stable respects (PWorker w) based.
Proof.
  intros q g g' Hne [Hl Hi] Hg. split; [|by eapply stable_inv].
  eapply (stable_in_loop margin); [exact Hne|exact Hl|apply Hg].
Qed.

Lemma stable_mine R : steady R → stable respects (PWorker w) (mine R).
Proof.
  intros HR q g g' Hne [Hb H] Hg. split; [by eapply stable_based|]. destruct Hb as [Hl _].
  destruct H as [ [Hrow HRg]|Hd]; [|right; by eapply respects_dead].
  destruct (respects_row q g g') as [?|?]; [done..| |by right]. left. split; [done|]. by eapply respects_facts.
Qed.

(** A worker whose heartbeat has lapsed makes no call. *)
Lemma dead_silent X (c : cmd X) o g : in_loop w g → ordinary (PWorker w) X c o g → alive (g_redis g) (g_now g) w.
Proof.
  intros [_ Hw] Ho. destruct (od_timely _ _ _ _ _ Ho) as [?|Ha]; [done|]. eapply alive_back, Ha.
  pose proof margin_ok. lia.
Qed.

Lemma mine_cases {A} (pr : prog A) R (Q : A → facts) :
  judged (PWorker w) pr (λ g, based g ∧ has_row (g_db g) ∧ R (files_of g) (drives_of g)) (λ a, mine (Q a)) →
  judged (PWorker w) pr (mine R) (λ a, mine (Q a)).
Proof.
  intros H. destruct pr as [a|X c k|]; cbn [rg] in *; [| |done].
  - intros g [Hb [ [Hrow HR]|Hd] ]; [by apply H|]. split; [done|by right].
  - intros g o [Hb [ [Hrow HR]|Hd] ] Ho; [by apply H|]. destruct Hd. apply (dead_silent _ _ _ _ (proj1 Hb) Ho).
Qed.

Lemma mine_exists {T A} (pr : prog A) (R : T → facts) (Q : A → facts) :
  (∀ x, judged (PWorker w) pr (mine (R x)) (λ a, mine (Q a))) →
  judged (PWorker w) pr (mine (λ F d, ∃ x, R x F d)) (λ a, mine (Q a)).
Proof.
  intros H. apply mine_cases. eapply rg_pre; [|exact (rg_exists _ _ _ _ H)]. cbn beta.
  intros g (Hb & Hrow & x & Hx). exists x. split; [done|by left].
Qed.

Lemma mine_pure {A} (pr : prog A) (φ : Prop) (R : facts) (Q : A → facts) :
  (φ → judged (PWorker w) pr (mine R) (λ a, mine (Q a))) →
  judged (PWorker w) pr (mine (λ F d, φ ∧ R F d)) (λ a, mine (Q a)).
Proof.
  intros H. apply mine_cases. eapply rg_pre; [|exact (rg_pure _ _ _ _ _ H)]. cbn beta.
  intros g (Hb & Hrow & Hφ & HR). split; [done|]. split; [done|by left].
Qed.

Lemma mine_pre {A} (pr : prog A) (R R' : facts) Q :
  (∀ F d, R F d → R' F d) → judged (PWorker w) pr (mine R') Q → judged (PWorker w) pr (mine R) Q.
Proof. intros H. apply rg_pre. intros g [Hb [ [? ?]|?] ]; (split; [done|]); [left|right]; auto. Qed.

Lemma mine_post {A} (pr : prog A) P (Q Q' : A → facts) :
  (∀ a F d, Q a F d → Q' a F d) → judged (PWorker w) pr P (λ a, mine (Q a)) → judged (PWorker w) pr P (λ a, mine (Q' a)).
Proof. intros H. apply rg_post. intros a g [Hb [ [? ?]|?] ]; (split; [done|]); [left|right]; auto. Qed.

Lemma mine_ret {A} (a : A) (R : facts) (Q : A → facts) :
  (∀ F d, R F d → Q a F d) → judged (PWorker w) (mret a) (mine R) (λ a, mine (Q a)).
Proof. intros H. apply rg_ret. intros g [Hb [ [? ?]|?] ]; (split; [done|]); [left|right]; auto. Qed.

Lemma mine_bind {A B} (pr : prog A) (f : A → prog B) (R : facts) (Q : A → facts) Q' :
  judged (PWorker w) pr (mine R) (λ a, mine (Q a)) → (∀ a, judged (PWorker w) (f a) (mine (Q a)) Q') →
  judged (PWorker w) (pr ≫= f) (mine R) Q'.
Proof. intros H Hf. by eapply rg_bind. Qed.

(** ** One call *)

(** Rows and heartbeats stay as they are. *)
Record aside_db (g g' : gst ghost) : Prop := {
  as_jobs : pipeline_jobs (g_db g') = pipeline_jobs (g_db g);
  as_ok : db_ok (g_db g) → db_ok (g_db g');
  as_hb : hb_same g g'
}.

Lemma aside_guar X (c : cmd X) o g :
  in_loop w g → timely margin (PWorker w) X c o g → aside_db g (fires (PWorker w) c o g) →
  guar margin (PWorker w) g (fires (PWorker w) c o g).
Proof.
  intros [Hok Hw] Ht [Hj Hdb Hhb]. set (g' := fires (PWorker w) c o g) in *.
  assert (Hnow : g_now g' = g_now g + Z.of_N (o_dt o)) by apply fire_now.
  assert (Hgh : started (g_gh g') = started (g_gh g) ∧ sweep_start (g_gh g') = sweep_start (g_gh g)).
  { unfold g', fire. cbn [g_gh track]. destruct c; try done. cbn. split; [|done]. set_solver. }
  destruct Hgh as [Hst Hsw]. destruct Hok as [H1 H2 H3].
  assert (Hok' : sys_ok g').
  { constructor; [by apply Hdb| |rewrite Hsw; lia]. intros id' w'. unfold held. rewrite Hj, Hst. apply H2. }
  split; [constructor; [lia|done|by rewrite Hst|by rewrite Hj]|]. constructor.
  - rewrite Hnow. exact Ht.
  - done.
  - intros t w' Ht' _. by apply Hhb.
  - intros t [Ht' _] Ha. by apply Hhb.
  - intros id' w' _ _. unfold same_row. by rewrite Hj.
Qed.

(** What one call of the handler may do. *)
Record handles (g g' : gst ghost) : Prop := {
  ha_aside : aside_db g g';
  ha_files id' q : plain_id id' → id' ≠ id → job_file dir id' q → files_of g' !! q = files_of g !! q;
  ha_grows u : grows (drives_of g u) (drives_of g' u);
  ha_placed : placed (files_of g') (drives_of g') j;
  ha_added u f : f ∈ d_files (drives_of g' u) → f ∈ d_files (drives_of g u) ∨ from_mail getenv e (drives_of g' u) u f;
  ha_forest : (∀ u, forest root (drives_of g u)) → ∀ u, forest root (drives_of g' u);
  ha_ready u : contains_byte ":" (uuid_String u) = false → ready u root (g_sh g')
}.

Lemma handles_inv g g' : inv g → has_row (g_db g) → handles g g' → inv g'.
Proof.
  intros [ [Hjobs Hready Hplaced Hdr Hfo] Hst] Hrow [ [Hj _ _] Hf Hg Hp Ha Hfo' Hr].
  assert (Hjs : jobs (g_sh g') = jobs (g_sh g)) by exact Hj.
  split; [constructor|].
  - intros id' j'. rewrite Hjs. apply Hjobs.
  - exact Hr.
  - intros id' j'. rewrite Hjs. intros Hj'. destruct (decide (id' = id)) as [->|Hne].
    + assert (j' = j) as ->; [|done]. unfold has_row in Hrow. change (pipeline_jobs (g_db g) !! id = Some j') in Hj'. congruence.
    + pose proof (Hjobs _ _ Hj') as [HI Hid _].
      eapply (placed_mono getenv e e (files_of g) _ (drives_of g)); [done|done| |by intros u _|by eapply Hplaced].
      unfold files_of_job. rewrite HI. intros q Hq. by apply (Hf id' q).
  - intros u f [ [?|?]%Hdr|?]%Ha; [by left|right|by right]. by eapply (from_mail_mono getenv e e).
  - by apply Hfo'.
  - intros id' w' j'. rewrite Hj. apply Hst.
Qed.

Lemma handles_respects X (c : cmd X) o g :
  in_loop w g → has_row (g_db g) → ordinary (PWorker w) X c o g → handles g (fires (PWorker w) c o g) →
  respects (PWorker w) g (fires (PWorker w) c o g).
Proof.
  intros Hl Hrow Ho Hh. split; [apply aside_guar; [done|apply Ho|apply Hh]|]. constructor.
  - intros Hi. by eapply handles_inv.
  - apply Hh.
  - intros id' q Hid Hq. destruct (decide (id' = id)) as [->|Hne].
    + right. exists w. split; [done|by apply has_row_held].
    + left. by eapply ha_files.
Qed.

Lemma mine_step {X} (c : cmd X) R (Q : X → facts) :
  (∀ x, steady (Q x)) →
  (∀ o g, inv g → has_row (g_db g) → R (files_of g) (drives_of g) → ordinary (PWorker w) X c o g →
     let g' := fires (PWorker w) c o g in
     handles g g' ∧ Q (exec o c (g_sh g)).1 (files_of g') (drives_of g')) →
  judged (PWorker w) (call c) (mine R) (λ x, mine (Q x)).
Proof.
  intros HQ Hstep. apply mine_cases, rg_call; [intros x; by apply stable_mine|].
  intros g o (Hb & Hrow & HR) Ho. destruct Hb as [Hl Hi]. destruct (Hstep o g Hi Hrow HR Ho) as [Hh HQx].
  pose proof (handles_respects X c o g Hl Hrow Ho Hh) as Hresp. split; [done|]. split; [done|]. split.
  - split; [|by eapply handles_inv]. destruct Hl as [Hok Hw], Hresp as [ [ [] _] _]. split; [auto|set_solver].
  - left. split; [|done]. unfold has_row. by rewrite (as_jobs _ _ (ha_aside _ _ Hh)).
Qed.

(** A call that changes neither the disk, the Drives nor the cache. *)
Lemma handles_same g g' :
  inv g → has_row (g_db g) → aside_db g g' → s_ext (g_sh g') = s_ext (g_sh g) → g_now g ≤ g_now g' →
  (∀ t u path, g_now g' ≤ t → rstr (g_redis g') t (cache_key u path) = rstr (g_redis g) t (cache_key u path)) →
  handles g g'.
Proof.
  intros [ [_ Hready Hplaced _ _] _] Hrow Ha Hx Hn Hc.
  assert (Hf : files_of g' = files_of g ∧ drives_of g' = drives_of g) by (unfold files, drives; by rewrite Hx).
  destruct Hf as [Hf Hd]. constructor; [done|by rewrite Hf|by intros u f; rewrite Hd| |intros u f; rewrite Hd; by left|by rewrite Hd|].
  - rewrite Hf, Hd. by apply (Hplaced id).
  - intros u Hu. eapply ready_world; [|by apply Hready]. constructor; [done|done|]. intros. by apply Hc.
Qed.

(** ** Calls of the clients *)

Definition light (X : Type) (c : cmd X) : Prop :=
  match c with
  | Sql f => ∀ t db, same_but_tokens db (f t db).2
  | Redis _ | Ext _ | Handle _ => False
  | _ => True
  end.

Lemma light_fire X (c : cmd X) o g : light X c →
  let g' := fires (PWorker w) c o g in
  aside_db g g' ∧ s_ext (g_sh g') = s_ext (g_sh g) ∧ g_redis g' = g_redis g.
Proof.
  intros Hc. cbv zeta. set (g' := fires (PWorker w) c o g).
  assert (H : same_but_tokens (g_db g) (g_db g') ∧ s_ext (g_sh g') = s_ext (g_sh g) ∧ g_redis g' = g_redis g).
  { unfold g', g_db, g_redis, fire. cbn [g_sh]. destruct c; try done; cbn.
    - specialize (Hc (s_now (g_sh g) + Z.of_N (o_dt o)) (s_db (g_sh g))).
      destruct (o_fault o); cbn; try done; by destruct (f _ _).
    - by destruct (o_fault o). }
  destruct H as (Hdb & Hx & Hr). split; [|done]. constructor.
  - apply Hdb.
  - by apply same_but_tokens_ok.
  - intros t w' _. by rewrite Hr.
Qed.

Definition answer_ok (X : Type) (c : cmd X) : X → Prop :=
  match c in cmd Y return Y → Prop with Api rq => answered _ rq | _ => λ _, True end.

(** What every result satisfies if the remote services answer as recorded. *)
Fixpoint honest {A} (Φ : A → Prop) (p : prog A) : Prop :=
  match p with
  | Ret a => Φ a
  | @Vis _ _ _ _ X c k => ∀ x, answer_ok X c x → honest Φ (k x)
  | NoFuel => True
  end.

Lemma honest_bind {A B} (Φ : A → Prop) (Ψ : B → Prop) (p : prog A) (f : A → prog B) :
  honest Φ p → (∀ a, Φ a → honest Ψ (f a)) → honest Ψ (p ≫= f).
Proof. unfold mbind, prog_bind. intros Hp Hf. induction p as [a|X c k IH|]; simpl in *; auto. Qed.

Lemma answer_ok_exec p X (c : cmd X) o g : ordinary p X c o g → answer_ok X c (exec o c (g_sh g)).1.
Proof.
  intros Ho. destruct c; try done. cbn. pose proof (od_answers _ _ _ _ _ Ho _ rq) as H. revert H.
  destruct (o_fault o); cbn; [done|..]; intros _; by destruct rq.
Qed.

Lemma mine_light {A} (p : prog A) (Φ : A → Prop) (R : facts) :
  calls_only light p → honest Φ p → steady R → judged (PWorker w) p (mine R) (λ a, mine (λ F d, Φ a ∧ R F d)).
Proof.
  intros Hp HΦ HR. induction p as [a|X c k IH|]; [|destruct Hp as [Hc Hk]|done].
  - apply (mine_ret a R (λ a F d, Φ a ∧ R F d)). cbn in HΦ. auto.
  - change (Vis c k) with (call c ≫= k). eapply (mine_bind _ _ _ (λ x F d, answer_ok X c x ∧ R F d)).
    + apply mine_step.
      * intros x F F' d d' HF Hd [? ?]. split; [done|]. by eapply HR.
      * intros o g Hi Hrow HRg Ho. destruct (light_fire X c o g Hc) as (Ha & Hx & Hr).
        pose proof (fire_now (PWorker w) c o g) as Hn. pose proof (answer_ok_exec _ _ _ _ _ Ho) as Hans. cbv zeta.
        set (g' := fires (PWorker w) c o g) in *. split.
        -- apply handles_same; [done..|lia|]. intros t u path _. by rewrite Hr.
        -- split; [done|]. unfold files, drives in *. by rewrite Hx.
    + intros x. apply (mine_pure _ _ _ (λ a F d, Φ a ∧ R F d)). intros Hx. apply IH; [apply Hk|by apply HΦ].
Qed.

(** ** Programs that work on the job's files *)

Definition agrees (F0 F : gmap string string) : Prop := ∀ q, job_file dir id q → F !! q = F0 !! q.

Definition done_as {A} (G : A → gmap string string → gmap string string → Prop) (F0 : gmap string string)
    (r : result A) : facts := λ F _, ∀ a, r = Ok a → ∃ F1, G a F0 F1 ∧ agrees F1 F.

(** The counterpart of [writes] in Disk.v: of the job's files, the program
    makes [F1] out of [F0] with [G a F0 F1] when it succeeds with [a]. *)
Definition does {A} (p : prog (result A)) (G : A → gmap string string → gmap string string → Prop) : Prop :=
  ∀ F0, judged (PWorker w) p (mine (λ F _, agrees F0 F)) (λ r, mine (done_as G F0 r)).

Lemma agrees_refl F : agrees F F.
Proof. done. Qed.

Lemma steady_agrees F0 : steady (λ F _, agrees F0 F).
Proof. intros F F' d d' HF _ H q Hq. by rewrite HF, H. Qed.

Lemma steady_done {A} G F0 (r : result A) : steady (done_as G F0 r).
Proof.
  intros F F' d d' HF Hd H a Ha. destruct (H a Ha) as (F1 & HG & H1). exists F1. split; [done|].
  by eapply steady_agrees.
Qed.

Lemma agrees_insert F0 F q x : agrees F0 F → agrees (<[q := x]> F0) (<[q := x]> F).
Proof.
  intros H q' Hq'. destruct (decide (q' = q)) as [->|?]; [by rewrite !lookup_insert_eq|].
  rewrite !lookup_insert_ne by done. by apply H.
Qed.

Lemma does_conseq {A} (p : prog (result A)) (G G' : A → _ → _ → Prop) :
  does p G → (∀ a F F', G a F F' → G' a F F') → does p G'.
Proof.
  intros H HG F0. eapply mine_post; [|apply H]. intros r F d HQ a Ha. destruct (HQ a Ha) as (F1 & ? & ?). eauto.
Qed.

Lemma does_ok {A} (a : A) (G : A → _ → _ → Prop) : (∀ F, G a F F) → does (mret (Ok a)) G.
Proof. intros HG F0. apply mine_ret. intros F d HF a' [= <-]. by exists F0. Qed.

Lemma does_err {A} er (G : A → _ → _ → Prop) : does (mret (Err er)) G.
Proof. intros F0. by apply mine_ret. Qed.

Lemma does_then {A B} (a : A) (f : prog (result B)) (G1 : A → _ → _ → Prop) (G2 : B → _ → _ → Prop) F0 :
  does f G2 →
  judged (PWorker w) f (mine (done_as G1 F0 (Ok a)))
    (λ r, mine (done_as (λ b F F', ∃ F1, G1 a F F1 ∧ G2 b F1 F') F0 r)).
Proof.
  intros Hf. eapply (mine_pre _ _ (λ F d, ∃ F1, G1 a F0 F1 ∧ agrees F1 F)).
  { intros F d H. destruct (H a eq_refl) as (F1 & ? & ?). by exists F1. }
  apply (mine_exists _ _ (λ r, done_as _ F0 r)). intros F1.
  apply (mine_pure _ _ _ (λ r, done_as _ F0 r)). intros HG. eapply mine_post; [|apply Hf].
  intros r F d H b Hb. destruct (H b Hb) as (F2 & ? & ?). exists F2. eauto.
Qed.

Lemma does_bind {A B} (p : prog (result A)) (f : A → prog (result B)) (h : err → err)
    (G1 : A → _ → _ → Prop) (G2 : A → B → _ → _ → Prop) :
  does p G1 → (∀ a, does (f a) (G2 a)) →
  does (r ← p; match r with Ok a => f a | Err er => mret (Err (h er)) end)
    (λ b F F', ∃ a F1, G1 a F F1 ∧ G2 a b F1 F').
Proof.
  intros Hp Hf F0. eapply mine_bind; [apply Hp|]. intros [a|er]; [|by apply mine_ret].
  eapply mine_post; [|by apply does_then, Hf]. cbn beta. intros r F d H b Hb. destruct (H b Hb) as (F2 & ? & ?). eauto.
Qed.

Lemma does_bind_light {A B} (p : prog (result A)) (f : A → prog (result B)) (h : err → err) (Φ : A → Prop)
    (G2 : A → B → _ → _ → Prop) :
  calls_only light p → honest (λ r, ∀ a, r = Ok a → Φ a) p → (∀ a, Φ a → does (f a) (G2 a)) →
  does (r ← p; match r with Ok a => f a | Err er => mret (Err (h er)) end)
    (λ b F F', ∃ a, Φ a ∧ G2 a b F F').
Proof.
  intros Hp HΦ Hf F0. eapply mine_bind; [apply (mine_light _ _ _ Hp HΦ), steady_agrees|].
  intros [a|er]; [|by apply mine_ret]. apply (mine_pure _ _ _ (λ r, done_as _ F0 r)). intros Ha. specialize (Ha a eq_refl).
  eapply mine_post; [|by apply Hf]. intros r F d H b Hb. destruct (H b Hb) as (F2 & ? & ?). exists F2. eauto.
Qed.

(** The clients return themselves with the result. *)
Lemma does_bind_client {A B C} (p : prog (result A * C)) (f : A → prog (result B)) (h : err → err) (Φ : A → Prop)
    (G2 : A → B → _ → _ → Prop) :
  calls_only light p → honest (λ x, ∀ a, x.1 = Ok a → Φ a) p → (∀ a, Φ a → does (f a) (G2 a)) →
  does ('(r, _) ← p; match r with Ok a => f a | Err er => mret (Err (h er)) end)
    (λ b F F', ∃ a, Φ a ∧ G2 a b F F').
Proof.
  intros Hp HΦ Hf F0. eapply mine_bind; [apply (mine_light _ _ _ Hp HΦ), steady_agrees|].
  intros [ [a|er] c]; cbn [fst]; [|by apply mine_ret]. apply (mine_pure _ _ _ (λ r, done_as _ F0 r)). intros Ha.
  specialize (Ha a eq_refl). eapply mine_post; [|by apply Hf]. intros r F d H b Hb. destruct (H b Hb) as (F2 & ? & ?).
  exists F2. eauto.
Qed.

(** ** Disk calls *)

Section disk.
Variable W : string → Prop.
Hypothesis W_job : ∀ q, W q → job_file dir id q.
Hypothesis W_placed : ∀ F F' d, keeps W F F' → placed F d j → placed F' d j.

Lemma handles_disk {X} (f : Z → outside → result X * outside) o g :
  (∀ t x, o_drive (f t x).2 = o_drive x ∧ keeps W (o_files x) (o_files (f t x).2)) →
  inv g → has_row (g_db g) → handles g (fires (PWorker w) (Ext f) o g).
Proof.
  intros Hf [ [_ Hready Hplaced _ _] _] Hrow. pose proof (fire_now (PWorker w) (Ext f) o g) as Hn.
  set (g' := fires (PWorker w) (Ext f) o g) in *.
  assert (H : g_db g' = g_db g ∧ g_redis g' = g_redis g ∧ drives_of g' = drives_of g ∧ keeps W (files_of g) (files_of g')).
  { unfold g', g_db, g_redis, fire, drives, files. cbn [g_sh exec].
    destruct (Hf (s_now (elapse o (g_sh g))) (s_ext (g_sh g))) as [H1 H2].
    cbn [elapse set_now s_ext] in *. destruct (f _ _) as [x y]. cbn [snd] in *. by destruct (o_fault o). }
  destruct H as (Hdb & Hr & Hd & HF). constructor.
  - constructor; [by rewrite Hdb|by rewrite Hdb|]. intros t w' _. by rewrite Hr.
  - intros id' q Hid Hne Hq. by apply (kept_other dir id id' W (files_of g) (files_of g') (pj_plain _ _ j_plain) Hid Hne W_job HF).
  - intros u f'. by rewrite Hd.
  - rewrite Hd. eapply W_placed; [exact HF|]. by apply (Hplaced id).
  - intros u f'. rewrite Hd. by left.
  - by rewrite Hd.
  - intros u Hu. eapply ready_kept; [exact Hd|exact Hr|change (g_now g ≤ g_now g'); lia|by apply Hready].
Qed.

Lemma does_ext {X} (f : Z → outside → result X * outside) (G : X → _ → _ → Prop) :
  (∀ t x, o_drive (f t x).2 = o_drive x ∧ keeps W (o_files x) (o_files (f t x).2)) →
  (∀ t x F0 a, agrees F0 (o_files x) → (f t x).1 = Ok a → ∃ F1, G a F0 F1 ∧ agrees F1 (o_files (f t x).2)) →
  does (call (Ext f)) G.
Proof.
  intros Hf HG F0. apply mine_step; [intros x; apply steady_done|]. intros o g Hi Hrow HR Ho. cbv zeta.
  split; [by apply handles_disk|]. intros a. unfold files, fire. cbn [g_sh exec].
  specialize (HG (s_now (elapse o (g_sh g))) (s_ext (g_sh g)) F0 a HR).
  cbn [elapse set_now s_ext] in *. destruct (f _ _) as [x y]. cbn [fst snd] in *.
  destruct (o_fault o); [exact HG|done..].
Qed.

Lemma does_MkdirAll q : does (call (MkdirAll q)) (λ _ F F', F' = F).
Proof.
  apply does_ext.
  - intros t x. by case_decide.
  - intros t x F0 a HF _. exists F0. split; [done|]. by case_decide.
Qed.

Lemma does_ReadFile q : job_file dir id q → does (call (ReadFile q)) (λ data F F', F' = F ∧ F !! q = Some data).
Proof.
  intros Hq. apply does_ext.
  - intros t x. by destruct (o_files x !! q).
  - intros t x F0 a HF. destruct (o_files x !! q) as [data|] eqn:E; [|done]. intros [= <-].
    exists F0. split; [|done]. split; [done|]. by rewrite <- HF.
Qed.

Lemma does_WriteFile q data : W q → does (WriteFile q data) (λ _ F F', F' = <[q := data]> F).
Proof.
  intros Hq. unfold WriteFile. eapply does_conseq.
  - eapply (does_bind _ _ (λ er, er) (λ _ F F', F' = <[q := EmptyString]> F) (λ _ _ F F', F' = <[q := data]> F)).
    + apply does_ext.
      * intros t x. repeat case_decide; (split; [done|]); done || (cbn; auto).
      * intros t x F0 a HF. repeat case_decide; try done; intros _; eexists; (split; [done|]); by apply agrees_insert.
    + intros _. apply does_ext.
      * intros t x. split; [done|]. cbn. auto.
      * intros t x F0 a HF _. eexists. split; [done|]. by apply agrees_insert.
  - intros [] F F' (_ & F1 & -> & ->). apply insert_insert_eq.
Qed.
End disk.
End mine.
