(* ===== verification/Stages.v ===== *)
(** * The stages' handlers among other processes

    What Fetch.v, Render.v and Upload.v show of a handler that runs alone,
    here of a handler between whose calls all other processes take steps. *)
From S2P Require Import Prelude Redis Schema GoStrings Utf8 Calendar Times Json Meta Paths Base64 Mime Html Services Effects Files Disk Queue Store Worker Sweeper Concurrency System OAuth Gmail Scheduler Drive Fetch Render Upload Forest Names Pipeline Noop Command Background Placement Serve Interleave.
Local Open Scope Z_scope.

Section stages.
Context `{UL : UuidLib} `{PG : !PgServer} `{RS : RedisServer} `{DS : DriveServer} `{AE : AeadLib}
  `{ML : MailLib} `{TP : TimeParser} `{ST : !Setting} `{CL : !Claimed}.

Abbreviation dir := (data_dir set_env).
Abbreviation cfg := (upload_config set_env).
Abbreviation e := set_evidence.
Abbreviation w := cl_worker.
Abbreviation id := cl_id.
Abbreviation j := cl_job.
Abbreviation judged := (rg track ordinary (λ _ _ _ _, True) respects).
Abbreviation placed := (placed set_env e).
Abbreviation packed := (packed set_env e).

(** time.Parse and net/mail give offsets in whole minutes. *)
Hypothesis dates : ∀ d t, ParseDate d = Ok t → t_off t mod 60 = 0.

Lemma job_id : ID j = id.
Proof. apply (pj_ID _ _ j_plain). Qed.

Lemma id_plain : plain_id id.
Proof. apply (pj_plain _ _ j_plain). Qed.

(** ** What a handler must establish: the row as its answer settles it is in
    its place. *)
Definition finished (r : result string) : facts := λ F d, ∀ st j', r = Ok st → same_message j j' →
  Stage j' = (if decide (st = EmptyString) then Stage j else st) → (st ≠ EmptyString → Status j' = StatusQueued) →
  placed F d j'.

Lemma steady_placed j' : same_message j j' → steady (λ F d, placed F d j').
Proof.
  intros Hs F F' d d' HF Hd. apply (placed_mono set_env e e); [done|done| |by intros u _].
  intros q Hq. apply HF. by rewrite <- job_id, <- (sm_ID _ _ Hs).
Qed.

Lemma steady_finished r : steady (finished r).
Proof. intros F F' d d' HF Hd H st j' Hr Hs HS Hq. eapply (steady_placed j' Hs); [done|done|by eapply H]. Qed.

(** In the beginning the row is in its place. *)
Lemma mine_start {A} (p : prog A) Q :
  judged (PWorker w) p (mine (λ F d, placed F d j)) Q → judged (PWorker w) p (mine (λ _ _, True)) Q.
Proof.
  apply rg_pre. intros g [ [Hl Hi] [ [Hrow _]|Hd] ]; (split; [done|]); [left|by right]. split; [done|].
  by apply (dk_placed _ _ _ _ (in_ok _ Hi) id).
Qed.

(** Handlers that work on files, with what they need of them. *)
Lemma does_finished (p : prog (result string)) (I : gmap string string → Prop) G :
  (∀ F d, placed F d j → I F) →
  does p G → (∀ F0 F r st, I F0 → r = Ok st → G st F0 F → ∀ F' d, agrees F F' → finished r F' d) →
  judged (PWorker w) p (mine (λ _ _, True)) (λ r, mine (finished r)).
Proof.
  intros HI Hp HG. apply mine_start. eapply (mine_pre _ _ (λ F d, ∃ F0, I F0 ∧ agrees F0 F)).
  { intros F d H. exists F. split; [by eapply HI|done]. }
  apply (mine_exists _ _ finished). intros F0. apply (mine_pure _ _ _ finished). intros HF0.
  eapply mine_post; [|apply Hp]. intros [st|er] F d H; [|by intros ?]. destruct (H st eq_refl) as (F1 & HG1 & Ha).
  by eapply HG.
Qed.

(** ** Clients *)

Lemma source_light c : calls_only light (source c).
Proof. unfold source, savingSource_Token, SaveToken, read_nonce, SaveOAuthToken. walk_prog; apply save_token_aside. Qed.

Lemma connect_light svc u key : calls_only light (connect svc u key).
Proof. unfold connect, LoadToken, GetOAuthToken. walk_prog. Qed.

Lemma Do_light {X} c (rq : api_req X) : calls_only light (Do c rq).
Proof. unfold Do. apply calls_only_bind; [apply source_light|]. by intros [ [tok|er] c']. Qed.

Lemma FetchMessage_light c gid : calls_only light (FetchMessage c gid).
Proof. unfold FetchMessage. apply calls_only_bind; [apply Do_light|]. intros [ [x|er] c']; [|done]. walk_prog. Qed.

Lemma honest_results {A} (Φ : A → Prop) (p : prog A) : results Φ p → honest Φ p.
Proof. induction p as [a|X c k IH|]; simpl; auto. Qed.

Lemma honest_any {A} (Φ : A → Prop) (p : prog A) : (∀ a, Φ a) → honest Φ p.
Proof. intros H. induction p as [a|X c k IH|]; simpl; auto. Qed.

(** The client keeps its account. *)
Lemma source_user c : results (λ x, userID x.2 = userID c) (source c).
Proof. unfold source. apply results_bind. by intros [? ?]. Qed.

Lemma honest_Do {X} c (rq : api_req X) : honest (λ x, userID x.2 = userID c ∧ answered X rq x.1) (Do c rq).
Proof.
  unfold Do. eapply honest_bind; [apply honest_results, source_user|]. intros [ [tok|er] c'] Hu; cbn [snd] in Hu.
  - intros x Hx. by split.
  - split; [done|]. by destruct rq.
Qed.

Lemma honest_FetchMessage c gid :
  honest (λ x, ∀ raw, x.1 = Ok raw → ev_fetched e (userID c) gid raw) (FetchMessage c gid).
Proof.
  unfold FetchMessage. eapply honest_bind; [apply honest_Do|]. intros [ [text|er] c'] [Hu Ha]; [|done].
  cbn [fst snd] in *. specialize (Ha text). unfold decoded in Ha.
  destruct (DecodeString URLEncoding false text) as [b|]; [intros raw [= <-]; by apply Ha|].
  destruct (DecodeString URLEncoding true text) as [b|]; [intros raw [= <-]; by apply Ha|done].
Qed.

Lemma connect_user svc u key : results (λ r, ∀ c, r = Ok c → userID c = u) (connect svc u key).
Proof. unfold connect. apply results_bind. intros [tok|er]; [|done]. apply results_bind. by intros [?|er] ? [= <-]. Qed.

(** ** Fetch *)

Lemma does_Fetch key : Stage j = "fetch" →
  does (Fetch dir key j) (λ st F F', st = "render" ∧ ∃ u gid raw, UserID j = Some u ∧ GmailMessageID j = Some gid ∧
    ev_fetched e u gid raw ∧ F' = <[eml_path dir id := raw]> F).
Proof.
  intros Hst. unfold Fetch. destruct (UserID j) as [u|] eqn:Hu; [|apply does_err].
  destruct (GmailMessageID j) as [gid|] eqn:Hg; [|apply does_err]. rewrite job_id.
  set (W := λ q, q = eml_path dir id).
  assert (HW : ∀ q, W q → job_file dir id q) by (intros q ->; apply eml_job_file, id_plain).
  assert (HP : ∀ F F' d, keeps W F F' → placed F d j → placed F' d j) by (intros; by apply placed_first; rewrite Hst).
  eapply does_conseq.
  - apply does_bind_light; [apply connect_light|apply honest_results, connect_user|]. intros c Hc.
    apply does_bind_client; [apply FetchMessage_light|apply honest_FetchMessage|]. intros raw _.
    apply does_bind; [by eapply does_MkdirAll|]. intros ?.
    apply does_bind; [by eapply does_WriteFile|]. intros ?.
    apply (does_ok _ (λ st F F', st = "render" ∧ F' = F)). done.
  - cbn beta. intros st F F' (c & Hc & raw & Hraw & ? & F1 & -> & ? & F2 & -> & -> & ->). split; [done|].
    exists u, gid, raw. by rewrite <- Hc.
Qed.

Lemma judged_Fetch key : Stage j = "fetch" →
  judged (PWorker w) (Fetch dir key j) (mine (λ _ _, True)) (λ r, mine (finished r)).
Proof.
  intros Hst. apply (does_finished _ (λ _, True) _ ltac:(done) (does_Fetch key Hst)).
  intros F0 F r st _ -> (-> & u & gid & raw & Hu & Hg & Hf & ->) F' d Ha st' j' [= <-] Hs HS Hq.
  rewrite decide_False in HS by done. destruct Hs as [HI Hu' Hg' _]. constructor; rewrite HS; [|done|done]. intros _.
  exists u, gid, raw. split; [congruence|]. split; [congruence|]. split; [done|].
  rewrite HI, job_id, Ha by (exists Mime; done). rewrite (eml_path_of _ _ id_plain). apply lookup_insert_eq.
Qed.

(** ** The test stage *)

Lemma judged_Noop : Stage j = "test" → results (answers_next "test") (NoopHandler j) →
  judged (PWorker w) (NoopHandler j) (mine (λ _ _, True)) (λ r, mine (finished r)).
Proof.
  intros Hst Hres. eapply mine_post; [|apply (mine_light _ (answers_next "test") (λ _ _, True)); [|apply honest_results, Hres|done] ].
  - intros r F d [Hr _] st j' Hok _ HS _. rewrite (Hr st Hok) in HS. change (Stage j' = Stage j) in HS.
    by apply placed_first; rewrite HS, Hst.
  - eapply calls_only_impl; [|apply NoopHandler_plain]. by intros X [].
Qed.

(** ** Render *)

Lemma RenderHTML_light html : calls_only light (RenderHTML html).
Proof. unfold RenderHTML. walk_prog. Qed.

Lemma honest_RenderHTML html : honest (λ r, ∀ pdf, r = Ok pdf → ev_rendered e html pdf) (RenderHTML html).
Proof.
  intros [ [ [code body] [er|] ]|er] Hx; cbn; try done; destruct (Z.eqb_spec (Z.quot code 100) 2) as [Hc|]; try done.
  intros pdf [= <-]. by apply (Hx code).
Qed.

Section render.
Hypothesis stage : Stage j = "render".
Abbreviation W := (rendered_file dir id).

Lemma render_job q : W q → job_file dir id q.
Proof. apply rendered_job_file, id_plain. Qed.

Lemma render_placed F F' d : keeps W F F' → placed F d j → placed F' d j.
Proof.
  intros Hk [Hr _ _]. constructor; rewrite stage; [|done|done]. intros _.
  destruct (Hr stage) as (u & gid & raw & Hu & Hg & Hf & Hp). exists u, gid, raw. do 3 (split; [done|]).
  rewrite Hk; [done|]. rewrite job_id. intros (k & Hk' & Hne & Heq)%(rendered_other _ _ _ id_plain).
  apply path_of_inj in Heq as [_ <-]; done || apply id_plain.
Qed.

Lemma does_attachments l names :
  does (write_attachments (attach_dir dir id) l names)
    (λ names' F F', names' = names ++ names_of l ∧ F' = put_attachments (attach_dir dir id) l F).
Proof.
  revert names. induction l as [|a l IH]; intros names; cbn [write_attachments].
  - apply does_ok. intros F. by rewrite app_nil_r.
  - eapply does_conseq.
    + apply does_bind; [|intros ?; apply IH]. apply (does_WriteFile W render_job render_placed). right; right.
      eexists. split; [apply SanitizeFilename_plain|done].
    + intros names' F F' (_ & F1 & -> & -> & ->). by rewrite <- app_assoc.
Qed.

Lemma does_save_attachments l :
  does (save_attachments (attach_dir dir id) l)
    (λ names F F', names = names_of l ∧ F' = put_attachments (attach_dir dir id) l F).
Proof.
  destruct l as [|a l]; [exact (does_attachments [] [])|]. unfold save_attachments. eapply does_conseq.
  - apply does_bind; [apply (does_MkdirAll W render_job render_placed)|]. intros ?. apply (does_attachments (a :: l) []).
  - by intros names F F' (_ & F1 & -> & ?).
Qed.

Lemma does_save_in d what file data : W (Join [d; file]) →
  does (save_in d what file data) (λ _ F F', F' = <[Join [d; file] := data]> F).
Proof.
  intros HW. unfold save_in. eapply does_conseq.
  - apply does_bind; [apply (does_MkdirAll W render_job render_placed)|]. intros ?.
    apply does_bind; [by apply (does_WriteFile W render_job render_placed)|]. intros ?.
    by apply (does_ok _ (λ _ F F', F' = F)).
  - by intros ? F F' (? & F1 & -> & ? & F2 & -> & ->).
Qed.

(** What the stage wrote for a message. *)
Definition has_rendered (parsed : ParsedMessage) (st : string) (F F' : gmap string string) : Prop :=
  st = "upload" ∧ ∃ pdf meta, ev_rendered e (buildHTMLWrapper parsed) pdf ∧
    MarshalMeta (meta_of j parsed (names_of (Attachments parsed))) = Ok meta ∧
    F' = <[meta_path dir id := meta]> (<[pdf_path dir id := pdf]>
           (put_attachments (attach_dir dir id) (Attachments parsed) F)).

Lemma does_render_parsed parsed : does (render_parsed dir j parsed) (has_rendered parsed).
Proof.
  unfold render_parsed. rewrite job_id. eapply does_conseq.
  - apply (does_bind _ _ (λ er, er)); [apply does_save_attachments|]. intros names.
    apply does_bind_light; [apply RenderHTML_light|apply honest_RenderHTML|]. intros pdf _.
    apply (does_bind _ _ (λ er, er)); [apply does_save_in; by left|]. intros ?.
    destruct (MarshalMeta _) as [metaB|er] eqn:Hm;
      [|apply (does_err _ (λ st F F', ∃ metaB, MarshalMeta (meta_of j parsed names) = Ok metaB ∧
          st = "upload" ∧ F' = <[meta_path dir id := metaB]> F))].
    eapply does_conseq; [apply (does_bind _ _ (λ er, er)); [apply does_save_in; by right; left|]|].
    + intros ?. by apply (does_ok _ (λ st F F', st = "upload" ∧ F' = F)).
    + cbn beta. intros st F F' (? & F1 & -> & -> & ->). by exists metaB.
  - cbn beta. intros st F F' (names & F1 & [-> ->] & pdf & Hpdf & ? & F3 & -> & metaB & Hm & -> & ->).
    split; [done|]. by exists pdf, metaB.
Qed.

Lemma does_Render :
  does (Render dir j) (λ st F F', ∃ raw parsed, F !! path_of dir id Mime = Some raw ∧
    parseMessage raw = Some (Ok parsed) ∧ has_rendered parsed st F F').
Proof.
  unfold Render. rewrite job_id. eapply does_conseq.
  - eapply does_bind; [apply (does_ReadFile W render_job render_placed); by exists Mime|]. intros raw.
    destruct (parseMessage raw) as [ [parsed|er]|] eqn:Hp; [| |by intros F0].
    + eapply (does_conseq _ _ (λ st F F', ∃ parsed, parseMessage raw = Some (Ok parsed) ∧ has_rendered parsed st F F')).
      * apply does_render_parsed.
      * intros st F F' H. by exists parsed.
    + apply (does_err _ (λ st F F', ∃ parsed, parseMessage raw = Some (Ok parsed) ∧ has_rendered parsed st F F')).
  - cbn beta. intros st F F' (raw & F1 & [-> Hraw] & parsed & Hp & H). by exists raw, parsed.
Qed.

Lemma judged_Render : judged (PWorker w) (Render dir j) (mine (λ _ _, True)) (λ r, mine (finished r)).
Proof.
  eapply (does_finished _ (λ F, has_mail set_env e F j) _); [|apply does_Render|].
  { intros F d [Hr _ _]. by apply Hr. }
  intros F0 F r st (u & gid & raw & Hu & Hg & Hf & Hraw) -> (raw' & parsed & Hraw' & Hp & -> & pdf & meta & Hpdf & Hm & ->)
    F' d Ha st' j' [= <-] Hs HS Hq. rewrite job_id in Hraw. assert (raw' = raw) as -> by congruence.
  destruct (written_package cfg j raw parsed pdf meta F0 dates) as (m & Hmeta & Hsub & Hfrom & Hns & Hnames & Hfp & Hfa);
    [rewrite job_id; apply id_plain|done|done|]. change (DataDir cfg) with dir in *. rewrite job_id in *.
  rewrite decide_False in HS by done. constructor; rewrite HS; [done| |intros _ Hd; by rewrite Hq in Hd].
  intros _. eapply (packed_mono set_env e e _ F' j j'); [done|done| |].
  - intros q Hq'. apply Ha. by rewrite <- job_id.
  - exists u, parsed, pdf, m. split; [|rewrite job_id; by split].
    constructor; try done. by exists gid, raw.
Qed.
End render.
End stages.
