(* ===== verification/Uploading.v ===== *)
(** * The upload stage among other processes

    Several workers may look for and create the same folders at once, so there
    may be two of a name; but what a worker was told of the Drive stays true,
    since nobody removes anything. *)
From S2P Require Import Prelude Redis Schema GoStrings Utf8 Calendar Times Json Meta Paths Base64 Mime Html Services Effects Files Disk Queue Store Worker Sweeper Concurrency System OAuth Gmail Scheduler Drive Fetch Render Upload Forest Names Pipeline Noop Command Background Placement Serve Interleave Stages.
Local Open Scope Z_scope.

Section uploading.
Context `{UL : UuidLib} `{PG : !PgServer} `{RS : RedisServer} `{DS : DriveServer} `{AE : AeadLib}
  `{ML : MailLib} `{TP : TimeParser} `{ST : !Setting} `{CL : !Claimed}.

Abbreviation dir := (data_dir set_env).
Abbreviation cfg := (upload_config set_env).
Abbreviation root := (root_of cfg).
Abbreviation e := set_evidence.
Abbreviation w := cl_worker.
Abbreviation id := cl_id.
Abbreviation j := cl_job.
Abbreviation judged := (rg track ordinary (λ _ _ _ _, True) respects).
Abbreviation fires := (fire track).
Abbreviation files_of g := (files (g_sh g)).
Abbreviation drives_of g := (drives (g_sh g)).

Hypothesis root_id : drive_id_ok root.

(** The job's user. *)
Variable u : uuid.
Hypothesis user : UserID j = Some u.

Lemma user_plain : contains_byte ":" (uuid_String u) = false.
Proof. by apply (pj_user _ _ j_plain). Qed.

Lemma mine_inv {A} (p : prog A) (R R' : facts) Q :
  (∀ g, inv g → R (files_of g) (drives_of g) → R' (files_of g) (drives_of g)) →
  judged (PWorker w) p (mine R') Q → judged (PWorker w) p (mine R) Q.
Proof. intros H. apply rg_pre. intros g [ [Hl Hi] [ [? ?]|?] ]; (split; [done|]); [left|right]; auto. Qed.

(** ** Drive *)

Definition put (d : uuid → dstate) (x : dstate) : uuid → dstate := λ v, if decide (v = u) then x else d v.

Lemma put_user d x : put d x u = x.
Proof. unfold put. by rewrite decide_True. Qed.

Lemma grows_put d x : grows (d u) x → ∀ v, grows (d v) (put d x v).
Proof. intros H v. unfold put. case_decide as Hv; [by rewrite Hv|by intros f]. Qed.

(** A call on Drive that only adds files of the user's mail, where it belongs. *)
Record adds {X} (f : dstate → X * dstate) (d : dstate) : Prop := {
  ad_grows : grows d (f d).2;
  ad_forest : forest root d → forest root (f d).2;
  ad_mail x : x ∈ d_files (f d).2 → x ∈ d_files d ∨ (from_mail set_env e (f d).2 u x ∧ drive_id_ok (f_id x))
}.

Lemma adds_list q d : adds (λ d, (FilesList q d, d)) d.
Proof. split; [by intros f|done|by left]. Qed.

Lemma adds_create name parent mime content d :
  (∀ i, from_mail set_env e d u (mk_dfile i name parent mime content)) → adds (FilesCreate name parent mime content) d.
Proof.
  intros Hmail. pose proof (forest_FilesCreate root name parent mime content d) as Hfo.
  destruct (create_cons name parent mime content d) as (i & d' & E & Hi & _ & Hp). rewrite E in Hfo.
  assert (Hg : grows d d') by (intros f Hf; rewrite Hp; by right).
  split; rewrite E; cbn [snd] in *; [done|done|]. intros f. rewrite Hp, elem_of_cons. intros [->|?]; [right|by left].
  split; [by eapply (from_mail_mono set_env e e)|done].
Qed.

Lemma drive_fire {X} (f : dstate → X * dstate) o (g : gst ghost) :
  let g' := fires (PWorker w) (on_drive u f) o g in
  let x := (exec o (on_drive u f) (g_sh g)).1 in
  g_db g' = g_db g ∧ g_redis g' = g_redis g ∧ files_of g' = files_of g ∧
  ((is_ok x = false ∧ drives_of g' = drives_of g) ∨
   ((x = Ok (f (drives_of g u)).1 ∨ is_ok x = false) ∧ drives_of g' = put (drives_of g) (f (drives_of g u)).2)).
Proof.
  cbv zeta. unfold g_db, g_redis, fire, drives, files, put. cbn [g_sh exec on_drive].
  cbn [elapse set_now s_ext]. destruct (f (o_drive (s_ext (g_sh g)) u)) as [y d].
  destruct (o_fault o); cbn; do 3 (split; [done|]); [right|left|right]; auto.
Qed.

Lemma handles_drive {X} (f : dstate → X * dstate) o g :
  adds f (drives_of g u) → inv g → has_row (g_db g) → handles g (fires (PWorker w) (on_drive u f) o g).
Proof.
  intros [Hgrow Hforest Hadd] [ [_ Hready Hplaced _ _] _] Hrow. destruct (drive_fire f o g) as (Hdb & Hr & HF & Hd).
  pose proof (fire_now (PWorker w) (on_drive u f) o g) as Hn.
  set (g' := fires (PWorker w) (on_drive u f) o g) in *.
  assert (Hg : ∀ v, grows (drives_of g v) (drives_of g' v)).
  { destruct Hd as [ [_ ->]|[_ ->] ]; [by intros v x|by apply grows_put]. }
  assert (Ha : ∀ v x, x ∈ d_files (drives_of g' v) → x ∈ d_files (drives_of g v) ∨ from_mail set_env e (drives_of g' v) v x ∧ drive_id_ok (f_id x)).
  { destruct Hd as [ [_ ->]|[_ ->] ]; [by left|]. intros v x. unfold put. case_decide as Hv; [|by left]. subst v. apply Hadd. }
  constructor; [| |exact Hg| | | |].
  - constructor; [by rewrite Hdb|by rewrite Hdb|]. intros t w' _. by rewrite Hr.
  - intros id' q _ _ _. by rewrite HF.
  - rewrite HF. eapply (placed_mono set_env e e _ _ (drives_of g) _ j j); [done|done|done|by intros v _|by apply (Hplaced id)].
  - intros v x [?|[? _] ]%Ha; [by left|by right].
  - intros Hfo v. destruct Hd as [ [_ ->]|[_ ->] ]; [done|]. unfold put. case_decide; [by apply Hforest|done].
  - intros v Hv. destruct (Hready v Hv) as [Hids Hc]. split.
    + intros x [?|[_ ?] ]%Ha; [by apply Hids|done].
    + eapply cache_ok_later; [exact Hc|exact Hr|change (g_now g ≤ g_now g'); lia|apply Hg].
Qed.

Lemma mine_drive {X} (f : dstate → X * dstate) R (Q : result X → facts) :
  (∀ F d, R F d → adds f (d u)) → (∀ x, steady (Q x)) → (∀ er F d, R F d → Q (Err er) F d) →
  (∀ F d, R F d → Q (Ok (f (d u)).1) F (put d (f (d u)).2)) →
  judged (PWorker w) (call (on_drive u f)) (mine R) (λ x, mine (Q x)).
Proof.
  intros Hf HQ Herr Hok. apply mine_step; [done|]. intros o g Hi Hrow HR Ho. cbv zeta.
  specialize (Hf _ _ HR). split; [by apply handles_drive|]. destruct (drive_fire f o g) as (_ & _ & -> & Hd).
  assert (He : ∀ x, is_ok x = false → Q x (files_of g) (drives_of g)) by (intros [?|er] ?; [done|by apply Herr]).
  destruct Hd as [ [Hx ->]|[ [->|Hx] ->] ]; [by apply He|by apply Hok|].
  eapply HQ; [done|apply grows_put; apply Hf|by apply He].
Qed.

Lemma mine_DoDrive {X} c (f : dstate → X * dstate) R (Q : result X → facts) :
  userID c = u → steady R → (∀ F d, R F d → adds f (d u)) → (∀ x, steady (Q x)) → (∀ er F d, R F d → Q (Err er) F d) →
  (∀ F d, R F d → Q (Ok (f (d u)).1) F (put d (f (d u)).2)) →
  judged (PWorker w) (DoDrive c f) (mine R) (λ x, mine (λ F d, userID x.2 = u ∧ Q x.1 F d)).
Proof.
  intros Hu HR Hf HQ Herr Hok. unfold DoDrive.
  eapply mine_bind; [apply (mine_light _ _ _ (source_light c) (honest_results _ _ (source_user c)) HR)|].
  intros [tok c']; cbn [snd]. apply (mine_pure _ _ _ (λ x F d, userID x.2 = u ∧ Q x.1 F d)). intros Hu'.
  destruct tok as [tok|er]; [|apply mine_ret; intros F d H; split; [cbn; congruence|by apply Herr] ].
  rewrite Hu', Hu. eapply mine_bind; [by apply (mine_drive f R Q)|]. intros x. apply mine_ret.
  intros F d H. split; [cbn; congruence|done].
Qed.

Lemma steady_grows R F d d' : steady R → (∀ v, grows (d v) (d' v)) → R F d → R F d'.
Proof. intros HR Hg. by apply HR. Qed.

(** Look for a file, create it if there is none.  Others may do the same in
    between; what is returned is one of what was looked for. *)
Lemma mine_find c q name parent mime content e1 e2 (found : dstate → dfile → Prop) R :
  userID c = u → steady R → (∀ d d' f, grows d d' → found d f → found d' f) →
  (∀ d i, i ∈ FilesList q d → ∃ f, found d f ∧ f_id f = i) →
  (∀ d f, f ∈ d_files d → f_name f = name → f_parent f = parent → f_mime f = mime → found d f) →
  (∀ F d i, R F d → from_mail set_env e (d u) u (mk_dfile i name parent mime content)) →
  judged (PWorker w) (find_or_create c q name parent mime content e1 e2) (mine R)
    (λ x, mine (λ F d, userID x.2 = u ∧ R F d ∧ ∀ i, x.1 = Ok i → ∃ f, found (d u) f ∧ f_id f = i)).
Proof.
  intros Hu HR Hmono Hlist Hnew Hmail. set (ok := λ i (F : gmap string string) (d : uuid → dstate), ∃ f, found (d u) f ∧ f_id f = i).
  assert (Hok : ∀ i, steady (ok i)) by (intros i F F' d d' _ Hg (f & Hf & Hi); exists f; split; [by eapply Hmono|done]).
  unfold find_or_create. eapply mine_bind.
  { apply (mine_DoDrive c _ R (λ x F d, R F d ∧ ∀ ids i, x = Ok ids → i ∈ ids → ok i F d)); [done|done| | | |].
    - intros F d _. apply adds_list.
    - intros x F F' d d' HF Hg [H1 H2]. split; [by eapply HR|]. intros. eapply Hok; [done..|by eapply H2].
    - done.
    - intros F d H. split; [eapply steady_grows; [done|apply grows_put; by intros f|done]|]. intros ids i [= <-] Hi.
      unfold ok. rewrite put_user. by eapply Hlist. }
  intros [ [ [|i ids]|er] c1]; cbn [fst snd]; apply (mine_pure _ _ _ (λ x F d, userID x.2 = u ∧ R F d ∧ ∀ i, x.1 = Ok i → ok i F d)); intros Hu1.
  - eapply (mine_pre _ _ R); [by intros F d [? _]|]. eapply mine_bind.
    + apply (mine_DoDrive c1 _ R (λ x F d, R F d ∧ ∀ i, x = Ok i → ok i F d)); [done|done| | | |].
      * intros F d H. apply adds_create. intros i. by eapply Hmail.
      * intros x F F' d d' HF Hg [H1 H2]. split; [by eapply HR|]. intros. eapply Hok; [done..|by eapply H2].
      * done.
      * intros F d H. destruct (create_cons name parent mime content (d u)) as (i & d' & -> & _ & _ & Hp). cbn [fst snd]. split.
        -- eapply steady_grows; [done|apply grows_put; intros f Hf; rewrite Hp; by right|done].
        -- intros i' [= <-]. eexists. rewrite put_user. split; [eapply Hnew; [rewrite Hp; apply list_elem_of_here|done..]|done].
    + intros [ [i|er] c2]; cbn [fst snd]; apply mine_ret; intros F d (? & ? & H); (split; [done|split; [done|] ]); cbn; [intros ? [= <-]; by apply H|done].
  - apply mine_ret. intros F d [? H]. split; [done|split; [done|] ]. cbn. intros ? [= <-]. eapply H; [done|apply list_elem_of_here].
  - apply mine_ret. intros F d [? H]. by split.
Qed.

(** What is found of a name. *)
Lemma mine_EnsureFolder c parent n R :
  userID c = u → steady R → drive_id_ok parent → contains_byte "\" n = false →
  (∀ F d i, R F d → from_mail set_env e (d u) u (mk_dfile i n parent folderMime EmptyString)) →
  judged (PWorker w) (EnsureFolder c parent n) (mine R)
    (λ x, mine (λ F d, userID x.2 = u ∧ R F d ∧ ∀ i, x.1 = Ok i → ∃ f, f ∈ folders_named n parent (d u) ∧ f_id f = i)).
Proof.
  intros Hu HR Hp Hn Hmail. pose proof (escape_quote n Hn) as Hq.
  apply (mine_find c _ n parent folderMime EmptyString _ _ (λ d f, f ∈ folders_named n parent d)); [done|done| | | |done].
  - intros d d' f Hg. rewrite !elem_of_folders. intros [? ?]. split; [by apply Hg|done].
  - intros d i. rewrite Hq. intros (f & Hf & ? & ? & ? & ?)%(proj1 (FilesList_folder d n parent Hp)). exists f. by rewrite elem_of_folders.
  - intros d f ? ? ? ?. by rewrite elem_of_folders.
Qed.

Lemma mine_Upload c parent n mime content R :
  userID c = u → steady R → drive_id_ok parent → contains_byte "\" n = false →
  (∀ F d i, R F d → from_mail set_env e (d u) u (mk_dfile i n parent mime content)) →
  judged (PWorker w) (Drive.Upload c parent n mime content) (mine R)
    (λ x, mine (λ F d, userID x.2 = u ∧ R F d ∧ ∀ i, x.1 = Ok i → named n parent (d u) ≠ [])).
Proof.
  intros Hu HR Hp Hn Hmail. pose proof (escape_quote n Hn) as Hq.
  eapply mine_post; [|apply (mine_find c _ n parent mime content _ _ (λ d f, f ∈ named n parent d)); [done|done| | | |done] ].
  - intros [r c'] F d (? & ? & H). split; [done|]. split; [done|]. intros i Hi Hnil. destruct (H i Hi) as (f & Hf & _).
    cbn beta in Hf. rewrite Hnil in Hf. by apply elem_of_nil in Hf.
  - intros d d' f Hg. rewrite !elem_of_named. intros [? ?]. split; [by apply Hg|done].
  - intros d i. rewrite Hq. intros (f & Hf & ? & ? & ?)%(proj1 (FilesList_file d n parent Hp)). exists f. by rewrite elem_of_named.
  - intros d f ? ? ? _. by rewrite elem_of_named.
Qed.

(** ** The folder cache *)

Lemma redis_fire {X} (f : Z → rstate → result X * rstate) o (g : gst ghost) :
  let g' := fires (PWorker w) (Redis f) o g in
  let x := (exec o (Redis f) (g_sh g)).1 in
  g_db g' = g_db g ∧ s_ext (g_sh g') = s_ext (g_sh g) ∧ g_now g ≤ g_now g' ∧
  (x = (f (g_now g') (g_redis g)).1 ∨ is_ok x = false) ∧
  (g_redis g' = g_redis g ∨ g_redis g' = (f (g_now g') (g_redis g)).2).
Proof.
  cbv zeta. pose proof (fire_now (PWorker w) (Redis f) o g) as Hn. rewrite Hn. revert Hn.
  unfold g_db, g_redis, g_now, fire. cbn [g_sh exec elapse set_now s_now s_db s_ext s_redis]. intros _.
  destruct (f (s_now (g_sh g) + Z.of_N (o_dt o)) (s_redis (g_sh g))) as [x r].
  destruct (o_fault o); cbn; (split; [done|split; [done|split; [lia|] ] ]); auto.
Qed.

Lemma mine_Get names R :
  steady R → names ≠ [] → Forall component names →
  judged (PWorker w) (Drive.Get u (join_comps names)) (mine R)
    (λ x, mine (λ F d, R F d ∧ ∀ i, x = Ok (Some i) → chain (d u) root names i)).
Proof.
  intros HR Hne Hc. unfold Drive.Get.
  eapply (mine_bind _ _ _ (λ x F d, R F d ∧ ∀ i, x = Ok i → chain (d u) root names i)).
  - apply mine_step.
    + intros x F F' d d' HF Hg [H1 H2]. split; [by eapply HR|]. intros i Hi. eapply chain_grows; [apply Hg|auto].
    + intros o g Hi Hrow HRg Ho. cbv zeta. unfold cli_Get. set (f := λ t r, _).
      destruct (redis_fire f o g) as (Hdb & Hx & Hn & Hans & Hr). cbv zeta in *.
      set (g' := fires (PWorker w) (Redis f) o g) in *.
      assert (Hr' : g_redis g' = g_redis g) by (by destruct Hr). split.
      * apply handles_same; [done..| |done|done|by intros; rewrite Hr'].
        constructor; [by rewrite Hdb|by rewrite Hdb|]. intros t w' _. by rewrite Hr'.
      * assert (Hsame : files_of g' = files_of g ∧ drives_of g' = drives_of g) by (unfold files, drives; by rewrite Hx).
        destruct Hsame as [-> ->]. split; [done|]. intros i Hx'. destruct Hans as [Hans|Hans]; [|by rewrite Hx' in Hans].
        rewrite Hx' in Hans. unfold f in Hans. cbn [fst] in Hans.
        destruct (rstr (g_redis g) (g_now g') (cache_key u (join_comps names))) as [v|] eqn:E; [|done].
        injection Hans as ->. destruct (dk_ready _ _ _ _ (in_ok _ Hi) u user_plain) as [_ Hcache].
        by apply (Hcache (g_now g')).
  - intros [i|er]; [|case_match]; apply mine_ret; intros F d [? Hch]; (split; [done|]); [intros ? [= <-]; auto|done..].
Qed.

Lemma handles_Set names i o g :
  inv g → has_row (g_db g) → names ≠ [] → Forall component names → chain (drives_of g u) root names i →
  handles g (fires (PWorker w) (cli_Set (cache_key u (join_comps names)) i cache_ttl) o g).
Proof.
  intros [ [_ Hready Hplaced _ _] _] Hrow Hne Hc Hch. unfold cli_Set. set (f := λ t r, _).
  destruct (redis_fire f o g) as (Hdb & Hx & Hn & _ & Hr). cbv zeta in *. set (g' := fires (PWorker w) (Redis f) o g) in *.
  assert (Hf : files_of g' = files_of g ∧ drives_of g' = drives_of g) by (unfold files, drives; by rewrite Hx).
  destruct Hf as [Hf Hd]. constructor; [|by rewrite Hf|by intros v x; rewrite Hd| |intros v x; rewrite Hd; by left|by rewrite Hd|].
  - constructor; [by rewrite Hdb|by rewrite Hdb|]. intros t w' Ht. destruct Hr as [->| ->]; [done|]. unfold f, alive. cbn [snd].
    rewrite rlist_SetKey by apply cache_key_string. rewrite rstr_SetKey by (done || apply cache_key_string).
    by rewrite !decide_False by (apply not_eq_sym, cache_not_heartbeat).
  - rewrite Hf, Hd. by apply (Hplaced id).
  - intros v Hv. destruct Hr as [Hr|Hr]; [by eapply ready_kept, Hready|].
    destruct (decide (v = u)) as [->|Hne']; destruct (Hready _ Hv) as [Hids Hcache].
    + split; [by rewrite Hd|]. by eapply (cache_ok_set u root (g_sh g) (g_sh g') names i cache_ttl).
    + split; [by rewrite Hd|]. intros t ns i' Ht Hns Hcs. change (s_redis (g_sh g')) with (g_redis g'). rewrite Hr.
      unfold f. cbn [snd]. rewrite rstr_SetKey by (done || apply cache_key_string). rewrite decide_False.
      * rewrite Hd. apply Hcache; [|done..]. change (g_now g ≤ t). change (g_now g' ≤ t) in Ht. lia.
      * intros Hk%cache_key_user; [done..|apply user_plain].
Qed.

Lemma mine_Set names i R :
  steady R → names ≠ [] → Forall component names →
  judged (PWorker w) (Set_ u (join_comps names) i cache_ttl) (mine (λ F d, R F d ∧ chain (d u) root names i))
    (λ _, mine (λ F d, R F d ∧ chain (d u) root names i)).
Proof.
  intros HR Hne Hc. unfold Set_. set (R' := (λ F d, R F d ∧ chain (d u) root names i) : facts).
  assert (HR' : steady R').
  { intros F F' d d' HF Hg [H1 H2]. split; [by eapply HR|]. eapply chain_grows; [apply Hg|done]. }
  eapply (mine_bind _ _ _ (λ _, R')); [|by intros [?|?]; apply mine_ret].
  apply mine_step; [done|]. intros o g Hi Hrow HRg Ho. cbv zeta. split; [by apply handles_Set; [..|apply HRg]|].
  pose proof (redis_fire (λ t r, (Ok tt, SetKey t (cache_key u (join_comps names)) i cache_ttl r)) o g) as (_ & Hx & _).
  unfold files, drives in *. unfold cli_Set. rewrite Hx. exact HRg.
Qed.

(** ** The folders *)

Lemma mine_parent {A} (pr : prog A) names parent R Q :
  (drive_id_ok parent → judged (PWorker w) pr (mine (λ F d, R F d ∧ chain (d u) root names parent)) (λ a, mine (Q a))) →
  judged (PWorker w) pr (mine (λ F d, R F d ∧ chain (d u) root names parent)) (λ a, mine (Q a)).
Proof.
  intros H. eapply (mine_inv _ _ (λ F d, drive_id_ok parent ∧ R F d ∧ chain (d u) root names parent)).
  - intros g Hi [? Hch]. split; [|done]. destruct (dk_ready _ _ _ _ (in_ok _ Hi) u user_plain) as [Hids _].
    by eapply chain_id_ok.
  - by apply mine_pure.
Qed.

Lemma mine_ensure_chain parsed pdf m folders dn c parent R :
  message e j u parsed pdf m → dn ++ folders = folders_of cfg m →
  Forall folder_name (dn ++ folders) → userID c = u → steady R →
  judged (PWorker w) (ensure_chain u c folders (join_comps dn) parent) (mine (λ F d, R F d ∧ chain (d u) root dn parent))
    (λ x, mine (λ F d, userID x.2 = u ∧ R F d ∧ ∀ i, x.1 = Ok i → chain (d u) root (dn ++ folders) i)).
Proof.
  intros Hm. revert dn c parent. induction folders as [|f folders IH]; intros dn c parent Hway Hall Hu HR; cbn [ensure_chain].
  { rewrite app_nil_r. apply mine_ret. intros F d [? ?]. split; [done|split; [done|] ]. by intros i [= <-]. }
  assert (Hcomp : Forall component (dn ++ [f])).
  { apply Forall_app in Hall as [H1 [H2 _]%Forall_cons]. apply Forall_app. split; [eapply Forall_impl; [exact H1|by intros ? [? _] ]|].
    apply Forall_singleton, H2. }
  assert (Hne : dn ++ [f] ≠ []) by (by destruct dn).
  assert (Hbs : contains_byte "\" f = false) by (apply Forall_app in Hall as [_ [ [_ ?] _]%Forall_cons]; done).
  rewrite path_so_far by done. rewrite (app_assoc dn [f] folders : dn ++ f :: folders = _) in *.
  assert (Hnext : ∀ c i, userID c = u →
    judged (PWorker w) (ensure_chain u c folders (join_comps (dn ++ [f])) i) (mine (λ F d, R F d ∧ chain (d u) root (dn ++ [f]) i))
      (λ x, mine (λ F d, userID x.2 = u ∧ R F d ∧ ∀ i, x.1 = Ok i → chain (d u) root ((dn ++ [f]) ++ folders) i)))
    by (intros; by apply IH).
  set (R1 := (λ F d, R F d ∧ chain (d u) root dn parent) : facts).
  assert (HR1 : steady R1).
  { intros F F' d d' HF Hg [H1 H2]. split; [by eapply HR|]. eapply chain_grows; [apply Hg|done]. }
  assert (Hmiss : judged (PWorker w)
    ('(folderID, c) ← EnsureFolder c parent f;
     match folderID with
     | Err e => mret (Err (EWrap ("ensure folder " +:+ f) e), c)
     | Ok folderID => _ ← Set_ u (join_comps (dn ++ [f])) folderID cache_ttl; ensure_chain u c folders (join_comps (dn ++ [f])) folderID
     end) (mine R1) (λ x, mine (λ F d, userID x.2 = u ∧ R F d ∧ ∀ i, x.1 = Ok i → chain (d u) root ((dn ++ [f]) ++ folders) i))).
  { apply mine_parent. intros Hp. eapply mine_bind.
    { apply mine_EnsureFolder; [done..|]. intros F d i [_ Hch]. left.
      exists j, parsed, pdf, m, dn, f, folders. by rewrite <- Hway, <- app_assoc. }
    intros [r c1]; cbn [fst snd].
    apply (mine_pure _ _ _ (λ x F d, userID x.2 = u ∧ R F d ∧ ∀ i, x.1 = Ok i → chain (d u) root ((dn ++ [f]) ++ folders) i)).
    intros Hu1. destruct r as [i|er]; [|apply mine_ret; intros F d [ [? _] _]; by split].
    eapply (mine_pre _ _ (λ F d, R F d ∧ chain (d u) root (dn ++ [f]) i)).
    - intros F d [ [? Hch] Hi]. split; [done|]. destruct (Hi i eq_refl) as (x & Hx & Hid). rewrite <- Hid. by eapply chain_snoc.
    - eapply mine_bind; [apply mine_Set; [done|exact Hne|done]|]. intros ?. by apply Hnext. }
  eapply mine_bind; [apply (mine_Get (dn ++ [f]) R1); [done|exact Hne|done]|].
  intros [ [i|]|er]; [|eapply mine_pre; [|exact Hmiss]; by intros F d [? _]..].
  eapply mine_pre; [|by apply Hnext]. intros F d [ [? _] Hi]. split; [done|auto].
Qed.

(** ** The files *)

(** What is read is on the disk. *)
Lemma mine_ReadFile q R (Φ : string → Prop) :
  steady R → (∀ F d data, R F d → F !! q = Some data → Φ data) →
  judged (PWorker w) (call (ReadFile q)) (mine R) (λ x, mine (λ F d, (∀ data, x = Ok data → Φ data) ∧ R F d)).
Proof.
  intros HR HΦ. apply mine_step; [intros x F F' d d' HF Hg [H1 H2]; split; [done|by eapply HR]|].
  intros o g Hi Hrow HRg Ho. unfold ReadFile. set (f := λ (_ : Z) (x : outside), _). cbv zeta.
  assert (Hf : ∀ t x, (f t x).2 = x) by (intros t x; unfold f; by destruct (o_files x !! q)).
  assert (Hx : s_ext (g_sh (fires (PWorker w) (Ext f) o g)) = s_ext (g_sh g)).
  { unfold fire. cbn [g_sh exec elapse set_now s_now s_ext]. specialize (Hf (s_now (g_sh g) + Z.of_N (o_dt o)) (s_ext (g_sh g))).
    destruct (f _ _) as [a y]. cbn [snd] in Hf. subst y. by destruct (o_fault o). }
  split.
  - apply (handles_disk (λ _, False)); [done|by intros F F' d HF Hp; eapply placed_mono; [..|exact Hp]; [done|done|intros ? _; apply HF; tauto|by intros v _ y]| |done|done].
    intros t x. rewrite Hf. split; [done|by intros ? _].
  - unfold files, drives in *. rewrite Hx. split; [|done]. intros data.
    cbn [exec elapse set_now s_now s_ext]. unfold f. destruct (o_files (s_ext (g_sh g)) !! q) as [data'|] eqn:E;
      destruct (o_fault o); cbn; try done. intros [= <-]. by eapply HΦ.
Qed.

Section package.
Variables (parsed : ParsedMessage) (pdf : string) (m : RenderMeta).
Hypothesis msg : message e j u parsed pdf m.
Hypothesis plain : plain_meta cfg m.
Abbreviation all := (folders_of cfg m).

(** The job's files, and what is in the message's folder. *)
Definition boxed : facts := λ F _,
  meta_for cfg j F m ∧ F !! path_of dir (ID j) Pdf = Some pdf ∧
  ∀ n, n ∈ names_of (Attachments parsed) → F !! path_of dir (ID j) (Attached n) = Some (content_of n (Attachments parsed)).

Definition stored (parent : string) (names : list string) : facts := λ F d,
  boxed F d ∧ chain (d u) root all parent ∧ Forall (λ n, named n parent (d u) ≠ []) names.

Lemma steady_boxed : steady boxed.
Proof.
  intros F F' d d' HF _ (H1 & H2 & H3).
  assert (HF' : ∀ q, job_file dir (ID j) q → F' !! q = F !! q) by (rewrite job_id; exact HF).
  split_and!.
  - eapply (meta_for_same set_env j j F F' m); [done| |done]. apply HF'. by exists Meta.
  - rewrite HF'; [done|by exists Pdf].
  - intros n Hn. rewrite HF'; [by apply H3|]. exists (Attached n). split; [|done].
    apply list_elem_of_fmap in Hn as (b & -> & _). apply plain_component, SanitizeFilename_plain.
Qed.

Lemma steady_stored parent names : steady (stored parent names).
Proof.
  intros F F' d d' HF Hg (H1 & H2 & H3). split; [by eapply steady_boxed|]. split; [by eapply chain_grows|].
  eapply Forall_impl; [exact H3|]. intros n. by apply named_grows.
Qed.

(** The content belongs to the message under that name. *)
Definition ours (name content : string) : Prop :=
  ∀ i parent mime, of_message parsed pdf (mk_dfile i name parent mime content).

Lemma boxed_ours F d name content : boxed F d → (name, content) ∈ package cfg j m F → ours name content.
Proof.
  intros (_ & H2 & H3) Hin i parent mime. by eapply (package_of_message set_env).
Qed.

(** One file of the package. *)
Lemma mine_put c parent names name mime content :
  userID c = u → contains_byte "\" name = false → ours name content →
  judged (PWorker w) (Drive.Upload c parent name mime content) (mine (stored parent names))
    (λ x, mine (λ F d, userID x.2 = u ∧ stored parent (if is_ok x.1 then names ++ [name] else names) F d)).
Proof.
  intros Hu Hn Hmail.
  eapply (mine_pre _ _ (λ F d, (boxed F d ∧ Forall (λ n, named n parent (d u) ≠ []) names) ∧ chain (d u) root all parent)).
  { intros F d (? & ? & ?). by split_and!. }
  apply mine_parent. intros Hp. eapply mine_pre, mine_post; [| |apply (mine_Upload c parent name mime content (stored parent names)); [done|apply steady_stored|done|done|] ].
  - intros F d [ [? ?] ?]. by split_and!.
  - intros [r c'] F d (Hu' & (H1 & H2 & H3) & H). split; [done|]. split; [done|]. split; [done|]. destruct r as [i|er]; [|done].
    apply Forall_app. split; [done|]. apply Forall_singleton. by eapply H.
  - intros F d i (_ & Hch & _). right. exists j, parsed, pdf, m. split; [done|]. split; [exact Hch|apply Hmail].
Qed.

Lemma mine_attachments names c parent done_ :
  userID c = u → names ⊆ rm_AttachmentNames m →
  judged (PWorker w) (upload_attachments c dir (ID j) parent names) (mine (stored parent done_))
    (λ r, mine (stored parent (if is_ok r then done_ ++ names else done_))).
Proof.
  revert c done_. induction names as [|n names IH]; intros c done_ Hu Hnames; cbn [upload_attachments].
  { apply mine_ret. cbn. by rewrite app_nil_r. }
  assert (Hn : n ∈ rm_AttachmentNames m) by (apply Hnames, list_elem_of_here).
  assert (Hbs : contains_byte "\" n = false) by (destruct plain as [_ Hp]; rewrite Forall_forall in Hp; by apply Hp).
  assert (Hweak : ∀ l F d, stored parent (done_ ++ l) F d → stored parent done_ F d).
  { intros l F d (H1 & H2 & [H3 _]%Forall_app). by split_and!. }
  eapply mine_bind; [apply (mine_ReadFile _ _ (λ data, ours n data)); [apply steady_stored|] |].
  - intros F d data [Hb _] HF. eapply boxed_ours; [exact Hb|]. apply elem_of_app. right.
    apply list_elem_of_In, in_flat_map. exists n. split; [by apply list_elem_of_In|]. change (DataDir cfg) with dir. rewrite HF. by left.
  - intros x. apply (mine_pure _ _ _ (λ r, stored parent (if is_ok r then done_ ++ n :: names else done_))). intros Hx.
    destruct x as [data|er]; [|by apply mine_ret]. eapply mine_bind; [by apply mine_put, Hx|]. intros [r c']; cbn [fst snd].
    apply (mine_pure _ _ _ (λ r, stored parent (if is_ok r then done_ ++ n :: names else done_))). intros Hu'.
    destruct r as [i|er]; cbn [is_ok]; [|by apply mine_ret]. eapply mine_post; [|apply IH; [done|set_solver] ].
    intros [ ?|er] F d; cbn [is_ok]; [by rewrite <- app_assoc|apply Hweak].
Qed.

Lemma mine_upload_files c parent :
  userID c = u →
  judged (PWorker w) (upload_files cfg j c parent (rm_AttachmentNames m)) (mine (stored parent []))
    (λ r, mine (λ F d, boxed F d ∧ ∀ st, r = Ok st → st = EmptyString ∧ complete cfg m (d u))).
Proof.
  intros Hu. unfold upload_files.
  eapply mine_bind; [apply (mine_ReadFile _ _ (λ data, ours "email.pdf" data)); [apply steady_stored|] |].
  - intros F d data [Hb _] HF. eapply boxed_ours; [exact Hb|]. apply elem_of_app. left. rewrite HF.
    apply list_elem_of_here.
  - intros x. apply (mine_pure _ _ _ (λ r F d, boxed F d ∧ ∀ st, r = Ok st → st = EmptyString ∧ complete cfg m (d u))). intros Hx.
    destruct x as [data|er]; [|apply mine_ret; by intros F d [? _] ]. eapply mine_bind; [by apply mine_put, Hx|]. intros [r c']; cbn [fst snd].
    apply (mine_pure _ _ _ (λ r F d, boxed F d ∧ ∀ st, r = Ok st → st = EmptyString ∧ complete cfg m (d u))). intros Hu'.
    destruct r as [i|er]; cbn [is_ok app]; [|apply mine_ret; by intros F d [? _] ].
    eapply mine_bind; [by apply mine_attachments|]. intros [ ?|er]; apply mine_ret; intros F d (Hb & Hc & Hall); (split; [done|]); [|done].
    intros st [= <-]. split; [done|]. by exists parent.
Qed.

Lemma mine_Upload_stage key :
  judged (PWorker w) (Upload.Upload cfg key j) (mine boxed)
    (λ r, mine (λ F d, boxed F d ∧ ∀ st, r = Ok st → st = EmptyString ∧ complete cfg m (d u))).
Proof.
  set (Q := (λ r F d, boxed F d ∧ ∀ st, r = Ok st → st = EmptyString ∧ complete cfg m (d u)) : result string → facts).
  assert (Herr : ∀ er, judged (PWorker w) (mret (Err er)) (mine boxed) (λ r, mine (Q r))) by (intros; by apply mine_ret).
  unfold Upload.Upload. rewrite user.
  eapply mine_bind; [apply (mine_ReadFile _ _ (λ data, ∃ m0, UnmarshalMeta data = Ok m0 ∧ m = with_default_time j m0)); [apply steady_boxed|] |].
  { intros F d data [ (metaB & m0 & HF & Hm & ->) _] HF'. exists m0. split; [|done]. change (DataDir cfg) with dir in *. congruence. }
  intros [metaB|er]; apply (mine_pure _ _ _ Q); intros Hx; [|apply Herr]. destruct (Hx _ eq_refl) as (m0 & -> & Hm). cbv zeta. rewrite <- Hm.
  eapply mine_bind; [apply (mine_light _ _ boxed (connect_light _ _ _) (honest_results _ _ (connect_user _ u _))), steady_boxed|].
  intros [c|er]; apply (mine_pure _ _ _ Q); intros Hc; [|apply Herr].
  eapply mine_bind.
  { eapply mine_pre; [|apply (mine_ensure_chain parsed pdf m all [] c root boxed); [done|done|apply plain|by apply Hc|apply steady_boxed] ]. by intros F d H. }
  intros [ [parent|er] c']; cbn [fst snd]; apply (mine_pure _ _ _ Q); intros Hc'; [|eapply mine_pre, Herr; by intros F d [? _] ].
  eapply mine_pre; [|by apply mine_upload_files]. intros F d [Hb Hch]. split; [done|]. split; [by apply Hch|done].
Qed.
End package.
End uploading.

(** ** The handler *)

Section handler.
Context `{UL : UuidLib} `{PG : !PgServer} `{RS : RedisServer} `{DS : DriveServer} `{AE : AeadLib}
  `{ML : MailLib} `{TP : TimeParser} `{ST : !Setting} `{CL : !Claimed}.

Abbreviation cfg := (upload_config set_env).
Abbreviation judged := (rg track ordinary (λ _ _ _ _, True) respects).

Hypothesis root_id : drive_id_ok (root_of cfg).
Hypothesis root_path : RootPath cfg ≠ EmptyString → Forall folder_name (root_folders (RootPath cfg)).
Hypothesis from : senders set_evidence.

Lemma judged_Upload key : Stage cl_job = "upload" →
  judged (PWorker cl_worker) (Upload.Upload cfg key cl_job) (mine (λ _ _, True)) (λ r, mine (finished r)).
Proof.
  intros Hst. apply mine_start.
  eapply (mine_pre _ _ (λ F d, ∃ u parsed pdf m, message set_evidence cl_job u parsed pdf m ∧ boxed parsed pdf m F d)).
  { intros F d [_ H _]. by apply H. }
  do 4 (apply (mine_exists _ _ finished); intros ?). rename x into u, x0 into parsed, x1 into pdf, x2 into m.
  apply (mine_pure _ _ _ finished). intros Hm. pose proof (msg_user _ _ _ _ _ _ Hm) as Hu.
  eapply mine_post; [|apply (mine_Upload_stage root_id u Hu parsed pdf m Hm); by eapply message_plain].
  intros r F d [Hb Hok] st j' Hr Hs HS _. destruct (Hok st Hr) as [-> Hc]. rewrite decide_True in HS by done.
  constructor; rewrite HS, Hst; [done| |]; intros _.
  - apply (packed_mono set_env set_evidence _ F _ cl_job); [done|done|done|]. by exists u, parsed, pdf, m.
  - intros _. exists u, parsed, pdf, m. split; [by eapply message_mono|done].
Qed.
End handler.
