(* ===== verification/Live.v ===== *)
(** * The deployed system, call by call

    All workers with the handlers of their stages, their heartbeats, the
    sweeper and the submitting programs run at once; between any two calls of
    one the others take steps.  [live_inv] is what holds throughout. *)
From S2P Require Import Prelude Redis Schema GoStrings Utf8 Calendar Times Json Meta Paths Base64 Mime Html Services Effects Files Disk Queue Store Worker Sweeper Concurrency System OAuth Gmail Scheduler Drive Fetch Render Upload Forest Names Pipeline Ratelimit Api Noop Command Server Background Clients Placement Serve Deploy Interleave Stages Uploading.
Local Open Scope Z_scope.

(** ** Programs with a handler in them *)

Section served.
Context `{UL : UuidLib} `{PG : !PgServer} `{RS : RedisServer} `{DS : DriveServer} `{AE : AeadLib}
  `{ML : MailLib} `{TP : TimeParser} `{ST : !Setting}.
Variable h : Job → prog (result string).
Abbreviation judged := (rg track ordinary (λ _ _ _ _, True) respects).

Lemma rg_bind_map {A B C} p (a : prog A) (b : A → prog B) (b' : A → prog C) P Q Q' :
  (∀ x P, judged p (b x) P Q → judged p (b' x) P Q') → judged p (a ≫= b) P Q → judged p (a ≫= b') P Q'.
Proof.
  intros H. unfold mbind, prog_bind. revert P. induction a as [x|X c k IH|]; intros P; cbn [bind rg]; [apply H| |done].
  intros Hrg g o Hg Ho. destruct (Hrg g o Hg Ho) as (? & ? & P' & ? & ? & ?). do 2 (split; [done|]).
  exists P'. do 2 (split; [done|]). by apply IH.
Qed.

Lemma serve_bind {A B} p (pr : prog A) (f : A → prog B) P Q Q' :
  judged p (serve h pr) P Q → (∀ a, judged p (serve h (f a)) (Q a) Q') → judged p (serve h (pr ≫= f)) P Q'.
Proof.
  intros H Hf. revert P H. unfold mbind, prog_bind. induction pr as [a|X c k IH|]; intros P H; [eapply rg_pre; [exact H|apply Hf]| |done].
  destruct c; cbn [bind serve] in *.
  7: { eapply rg_bind_map; [|exact H]. intros x P'. apply IH. }
  all: intros g o' Hg Ho; destruct (H g o' Hg Ho) as (? & ? & P' & ? & ? & ?); do 2 (split; [done|]);
    exists P'; do 2 (split; [done|]); by apply IH.
Qed.

Lemma serve_plain {A} p (pr : prog A) P Q :
  calls_only no_handle pr → judged p pr P Q → judged p (serve h pr) P Q.
Proof.
  revert P. induction pr as [a|X c k IH|]; intros P; [done| |done]. intros [Hc Hk] H.
  destruct c; cbn [serve]; try done; intros g o' Hg Ho; destruct (H g o' Hg Ho) as (? & ? & P' & ? & ? & ?);
    do 2 (split; [done|]); exists P'; do 2 (split; [done|]); by apply IH.
Qed.

Lemma serve_handle p j P Q : judged p (h j) P Q → judged p (serve h (call (Handle j))) P Q.
Proof. intros H. cbn [call serve]. eapply rg_bind; [exact H|]. by intros x g. Qed.
End served.

(** ** A worker *)

Section worker.
Context `{UL : UuidLib} `{PG : !PgServer} `{RS : RedisServer} `{DS : DriveServer} `{AE : AeadLib}
  `{ML : MailLib} `{TP : TimeParser} `{ST : !Setting}.
Abbreviation judged := (rg track ordinary (λ _ _ _ _, True) respects).

Variables (cfg : Worker.Config).
Abbreviation w := (c_WorkerID cfg).

(** Between two calls outside its handler. *)
Definition idling (g : gst ghost) : Prop := in_loop w g ∧ inv g.

Lemma stable_idling : stable respects (PWorker w) idling.
Proof.
  intros q g g' Hne [Hl Hi] Hg. split; [|by eapply stable_inv].
  eapply (stable_in_loop set_margin); [exact Hne|exact Hl|apply Hg].
Qed.

(** What the programs of System.v do there. *)
Lemma idling_harmless {A} (pr : prog A) :
  rg track (timely set_margin) handler_pre (guar set_margin) (PWorker w) pr (in_loop w) (λ _, in_loop w) →
  calls_only harmless pr → judged (PWorker w) pr idling (λ _, idling).
Proof. intros H Hc. apply rg_with_inv. by apply rg_harmless. Qed.

(** *** The claimed row *)

Record claimed (id : uuid) (j : Job) : Prop := {
  cd_running : Status j = StatusRunning;
  cd_worker : WorkerID j = Some w;
  cd_plain : plain_job id j;
  cd_stage : Stage j = set_stage w
}.

Definition the_claimed id j (H : claimed id j) : Claimed :=
  mk_Claimed _ w id j (cd_running _ _ H) (cd_worker _ _ H) (cd_plain _ _ H).

(** What the worker knows after it read the row. *)
Definition has_job (id : uuid) (j : Job) (g : gst ghost) : Prop :=
  claimed id j ∧ idling g ∧ (pipeline_jobs (g_db g) !! id = Some j ∨ ¬ alive (g_redis g) (g_now g) w).

Lemma stable_has_job id j : stable respects (PWorker w) (has_job id j).
Proof.
  intros q g g' Hne (Hc & Hi & H) Hg. split; [done|].
  assert (Hm : mine (CL := the_claimed id j Hc) (λ _ _, True) g) by (split; [exact Hi|]; destruct H; [left|right]; auto).
  pose proof (stable_mine (CL := the_claimed id j Hc) (λ _ _, True)) as Hs.
  destruct (Hs ltac:(by intros ? ?) q g g' Hne Hm Hg) as [Hb Hr]. split; [exact Hb|].
  destruct Hr as [ [Hr _]|Hr]; [left|right]; exact Hr.
Qed.

Lemma judged_ClaimJob id :
  judged (PWorker w) (ClaimJob id w) idling
    (λ r g, match r with Ok _ => holding w id g ∧ inv g | Err _ => idling g end).
Proof.
  eapply rg_post; [|apply (rg_with_inv _ _ (in_loop w) (λ r, match r with Ok _ => holding w id | Err _ => in_loop w end)), rg_harmless; [exact (prove_ClaimJob set_margin set_margin_ok cfg id)|apply safe_ClaimJob] ].
  intros [u|e] g [H Hi]; by split.
Qed.

Lemma judged_GetJob id :
  judged (PWorker w) (GetJob id) (λ g, holding w id g ∧ inv g)
    (λ r g, match r with Ok j => has_job id j g | Err _ => idling g end).
Proof.
  unfold GetJob. set (Q := λ (r : result Job) g, match r with Ok j => has_job id j g | Err _ => idling g end).
  eapply (rg_call_bind _ _ _ _ _ _ _ _ Q).
  - intros [j|e]; [apply stable_has_job|apply stable_idling].
  - intros g o [Hh Hi] Ho. set (f := λ (_ : Z) (db : DB), _). pose proof (od_timely _ _ _ _ _ Ho) as Ht.
    pose proof (holding_held _ _ _ _ _ _ _ set_margin_ok Ht Hh) as (j & Hj & Hr & Hw). destruct Hh as [Hl _].
    set (g' := fire track (PWorker w) (Sql f) o g). assert (Hf : frame g g') by apply frame_Sql_read.
    pose proof (frame_guar set_margin (PWorker w) _ _ o g Ht Hf) as Hg.
    assert (Hx : extra (PWorker w) g g') by (apply extra_harmless; [by apply harmless_Sql|done]).
    split; [done|]. split; [by split|].
    assert (Hi' : idling g').
    { split; [by eapply quiet_in_loop|by apply Hx]. }
    assert (Hc : claimed id j).
    { constructor; [done|done| |by eapply (in_stage _ Hi)]. by apply (dk_jobs _ _ _ _ (in_ok _ Hi)). }
    assert (Hj' : pipeline_jobs (g_db g') !! id = Some j) by (rewrite (fr_db _ _ Hf); exact Hj).
    assert (Hans : (exec o (Sql f) (g_sh g)).1 = Ok j ∨ is_ok (exec o (Sql f) (g_sh g)).1 = false).
    { cbn [exec]. unfold f. cbn [elapse set_now s_db]. change (s_db (g_sh g)) with (g_db g). rewrite Hj.
      destruct (o_fault o); cbn; auto. }
    destruct Hans as [->|Hans]; [by split_and!; [..|left]|]. by destruct (exec _ _ _).1.
  - intros [j|e]; [by apply rg_ret|]. cbn [Q]. destruct (errors_Is e pgxErrNoRows); by apply rg_ret.
Qed.
End worker.

(** ** Settling *)

Section settling.
Context `{UL : UuidLib} `{PG : !PgServer} `{RS : RedisServer} `{DS : DriveServer} `{AE : AeadLib}
  `{ML : MailLib} `{TP : TimeParser} `{ST : !Setting} `{CL : !Claimed}.
Abbreviation judged := (rg track ordinary (λ _ _ _ _, True) respects).
Abbreviation w := cl_worker.
Abbreviation id := cl_id.
Abbreviation j := cl_job.
Abbreviation placed := (placed set_env set_evidence).

(** A row the claimed one may become. *)
Definition settles (R : facts) (j' : Job) : Prop :=
  same_message j j' ∧ Status j' ≠ StatusRunning ∧ transition j j' ∧ ∀ F d, R F d → placed F d j → placed F d j'.

Lemma settled_inv R g g' :
  inv g → R (files (g_sh g)) (drives (g_sh g)) → has_row (g_db g) →
  s_ext (g_sh g') = s_ext (g_sh g) → g_redis g' = g_redis g → g_now g ≤ g_now g' →
  (∀ id' j', jobs (g_sh g') !! id' = Some j' → jobs (g_sh g) !! id' = Some j' ∨ (id' = id ∧ settles R j')) → inv g'.
Proof.
  intros [ [Hjobs Hready Hplaced Hdr Hfo] Hst] HR Hrow Hx Hr Hn Hrows.
  assert (Hf : files (g_sh g') = files (g_sh g) ∧ drives (g_sh g') = drives (g_sh g)) by (unfold files, drives; by rewrite Hx).
  destruct Hf as [Hf Hd]. split; [constructor|].
  - intros id' j' [?|(-> & [HI Hu _ _] & _)]%Hrows; [by apply Hjobs|].
    destruct j_plain as [H1 H2 H3]. constructor; [congruence|done|]. intros u. rewrite Hu. apply H3.
  - intros u Hu'. eapply ready_kept; [exact Hd|exact Hr|exact Hn|by apply Hready].
  - intros id' j'. rewrite Hf, Hd. intros [?|(-> & _ & _ & _ & Hpl)]%Hrows; [by eapply Hplaced|].
    apply Hpl; [done|]. by apply (Hplaced id).
  - rewrite Hd. exact Hdr.
  - by rewrite Hd.
  - intros id' w' j' [?|(-> & _ & ? & _)]%Hrows; [by eapply Hst|done].
Qed.

(** The row an update leaves. *)
Lemma updated_rows where_ (hh : Z → Job → result Job) t db (R : facts) db' :
  has_row db → (∀ t j', hh t j = Ok j' → settles R j') → db' = db ∨ db' = (sql_update id where_ (hh t) db).2 →
  ∀ id' j', pipeline_jobs db' !! id' = Some j' → pipeline_jobs db !! id' = Some j' ∨ (id' = id ∧ settles R j').
Proof.
  intros Hrow Hh Hdb id' j'. destruct Hdb as [->|Hd]; [by left|].
  destruct (sql_update_cases id where_ (hh t) db) as [(j0 & j1 & Hj0 & _ & Hfj & _ & E)|[_ E] ]; rewrite E in Hd; rewrite Hd; [|by left].
  unfold has_row in Hrow. assert (j0 = j) as -> by congruence. cbn.
  intros [ [<- <-]|[_ ?] ]%lookup_insert_Some; [right|by left]. split; [done|by eapply Hh].
Qed.

Lemma mine_settle_call (f : Z → DB → result Z * DB) where_ hh R :
  (∀ t db, f t db = sql_update id where_ (hh t) db) → (∀ t db, db_ok db → db_ok (f t db).2) →
  (∀ t j', hh t j = Ok j' → settles R j') →
  judged (PWorker w) (call (Sql f)) (mine R) (λ _, based).
Proof.
  intros Hf Hok Hh. apply rg_call; [intros _; apply stable_based|]. intros g o [ [Hl Hi] H] Ho.
  pose proof (dead_silent _ _ _ _ Hl Ho) as Hal. destruct H as [ [Hrow HR]|Hd]; [|done].
  pose proof (od_timely _ _ _ _ _ Ho) as Ht. pose proof (fire_now (PWorker w) (Sql f) o g) as Hn.
  pose proof (fire_Sql (PWorker w) f o g) as (Hr & _ & Hc).
  pose proof (exec_not_ext _ (Sql f) o (g_sh g) I) as Hx. rewrite <- (fire_sh (PWorker w)) in Hx.
  destruct (guar_write set_margin w id f o g Hl Ht) as [Hg Hl'].
  { intros t. apply Hok, Hl. }
  { intros t. rewrite Hf. apply row_by_update. intros j0 j' Hj0 _ Hj'. unfold has_row in Hrow. assert (j0 = j) as -> by congruence.
    split; [intros _; apply j_worker|]. destruct (Hh t j' Hj') as (_ & ? & ? & _). done. }
  set (g' := fire track (PWorker w) (Sql f) o g) in *.
  assert (Hi' : inv g').
  { eapply settled_inv; [done|exact HR|done|done|done|lia|]. eapply (updated_rows where_ hh (g_now g')); [done|done|].
    rewrite <- Hf. destruct Hc as [ [? _]|(? & _ & [?|?])]; auto. }
  split; [done|]. split; [|by split]. split; [done|].
  assert (Hfd : files (g_sh g') = files (g_sh g) ∧ drives (g_sh g') = drives (g_sh g)) by (unfold files, drives; by rewrite Hx).
  destruct Hfd as [Hfi Hdr]. constructor; [done|by intros u y; rewrite Hdr|]. intros id' q _ _. left. by rewrite Hfi.
Qed.

(** *** The row's last writes *)

Lemma mine_MarkDone : judged (PWorker w) (MarkDone id) (mine (finished (Ok EmptyString))) (λ _, based).
Proof.
  apply (rg_bind _ _ _ _ _ _ _ _ (λ _, based)); [|intros r; by apply rg_ret].
  apply (mine_settle_call _ (λ _, true) (λ t j, Ok (done_row t j))); [done| |].
  - intros t db. apply (exec_stmt_ok (SMarkDone id)).
  - intros t j' [= <-]. split; [done|]. split; [done|]. split; [constructor; apply j_running|]. intros F d H _. by apply (H EmptyString).
Qed.

Lemma mine_AdvanceJob st : st ≠ EmptyString →
  judged (PWorker w) (AdvanceJob id st) (mine (finished (Ok st))) (λ _, based).
Proof.
  intros Hst. apply (rg_bind _ _ _ _ _ _ _ _ (λ _, based)); [|intros r; by apply rg_ret].
  apply (mine_settle_call _ (is_status StatusRunning) (λ t j, Ok (advance_row st t j))); [done| |].
  - intros t db. apply (exec_stmt_ok (SAdvance id st)).
  - intros t j' [= <-]. split; [done|]. split; [done|]. split; [constructor; apply j_running|]. intros F d H _. apply (H st); [done|done|by rewrite decide_False|done].
Qed.

Lemma mine_MarkFailed msg next R : judged (PWorker w) (MarkFailed id msg next) (mine R) (λ _, based).
Proof.
  apply (rg_bind _ _ _ _ _ _ _ _ (λ _, based)); [|intros r; by apply rg_ret].
  apply (mine_settle_call _ (λ _, true) (failed_row msg next)); [done| |].
  - intros t db. apply (exec_stmt_ok (SMarkFailed id msg next)).
  - intros t j' Hf. pose proof (tr_failed j msg next t j' j_running Hf) as Htr. revert Hf Htr. unfold failed_row.
    destruct (_ >? _); [done|]. intros [= <-] Htr. split; [done|]. split; [cbn; by destruct (_ >=? _)|]. split; [exact Htr|].
    intros F d _. apply placed_failed; [done|done|]. cbn. by destruct (_ >=? _).
Qed.

Lemma based_Push st : judged (PWorker w) (Push st (uuid_String id)) based (λ _, based).
Proof.
  apply rg_with_inv, rg_harmless; [|apply (visits_Push harmless)].
  exact (prove_Push set_margin (PWorker w) (in_loop w) st _ (quiet_in_loop w) (stable_in_loop set_margin _ w)).
Qed.

(** From the handler to the end. *)
Lemma judged_process_job h :
  judged (PWorker w) (h j) (mine (λ _ _, True)) (λ r, mine (finished r)) →
  judged (PWorker w) (serve h (process_job id j)) (mine (λ _ _, True)) (λ _, based).
Proof.
  intros Hh. unfold process_job. eapply serve_bind; [by apply serve_handle|].
  intros r. apply serve_plain; [apply (settle_plain id r j)|]. destruct r as [st|he]; [case_decide as Hst|].
  - subst st. eapply rg_bind; [apply mine_MarkDone|]. intros [?|?]; by apply rg_ret.
  - eapply rg_bind; [by apply mine_AdvanceJob|]. intros [?|?]; [|by apply rg_ret].
    eapply rg_bind; [apply based_Push|]. intros [?|?]; by apply rg_ret.
  - unfold settle_failed.
    assert (Hask : ∀ X (c : cmd X), light X c → judged (PWorker w) (call c) (mine (λ _ _, True)) (λ _, mine (λ _ _, True))).
    { intros X c Hc. eapply mine_post; [|apply (mine_light (call c) (λ _, True) (λ _ _, True)); [by split|by apply honest_any|done] ]. done. }
    eapply (mine_pre _ _ (λ _ _, True)); [done|].
    eapply rg_bind; [by apply Hask|]. intros now. eapply rg_bind; [by apply Hask|]. intros x.
    eapply rg_bind; [apply mine_MarkFailed|]. intros [?|?]; by apply rg_ret.
Qed.
End settling.

(** ** A worker's turns *)

Section turns.
Context `{UL : UuidLib} `{PG : !PgServer} `{RS : RedisServer} `{DS : DriveServer} `{AE : AeadLib}
  `{ML : MailLib} `{TP : TimeParser} `{ST : !Setting}.
Abbreviation judged := (rg track ordinary (λ _ _ _ _, True) respects).

Variables (cfg : Worker.Config) (h : Job → prog (result string)).
Abbreviation w := (c_WorkerID cfg).
Abbreviation idle := (idling cfg).

(** What the handler of the worker's stage does with a job it claimed. *)
Hypothesis handler : ∀ id j (H : claimed cfg id j),
  judged (PWorker w) (h j) (mine (CL := the_claimed cfg id j H) (λ _ _, True)) (λ r, mine (CL := the_claimed cfg id j H) (finished (CL := the_claimed cfg id j H) r)).

Lemma judged_claimed id :
  judged (PWorker w) (serve h (g ← GetJob id;
    match g with
    | Err e => mret (true, Err (EWrap2 "get" e (ESentinel errPostClaim)))
    | Ok job => process_job id job
    end)) (λ g, holding w id g ∧ inv g) (λ _, idle).
Proof.
  eapply serve_bind; [apply serve_plain, judged_GetJob; apply GetJob_plain|]. intros [j|e]; [|by apply rg_ret].
  apply (rg_pure _ _ (claimed cfg id j)). intros Hc.
  eapply rg_pre; [|exact (judged_process_job (CL := the_claimed cfg id j Hc) h (handler id j Hc))].
  intros g [Hi Hr]. split; [exact Hi|]. destruct Hr; [left|right]; auto.
Qed.

Lemma judged_popped raw : judged (PWorker w) (serve h (process_popped cfg raw)) idle (λ _, idle).
Proof.
  unfold process_popped. destruct (uuid_Parse raw) as [id|e]; [|by apply rg_ret].
  eapply serve_bind; [apply serve_plain, judged_ClaimJob; apply ClaimJob_plain|]. intros [u|e]; [apply judged_claimed|].
  destruct (errors_Is e ErrJobNotClaimable); by apply rg_ret.
Qed.

Lemma judged_ProcessOne : judged (PWorker w) (serve h (ProcessOne cfg)) idle (λ _, idle).
Proof.
  unfold ProcessOne. eapply serve_bind; [apply serve_plain, idling_harmless; [apply BlockingPop_plain| |apply safe_BlockingPop]|].
  { exact (prove_BlockingPop set_margin cfg (in_loop w) _ _ (quiet_in_loop w) (stable_in_loop set_margin _ w)). }
  intros [raw|e]; [|destruct (errors_Is e ErrEmpty); by apply rg_ret].
  eapply serve_bind; [apply judged_popped|]. intros res.
  eapply serve_bind; [apply serve_plain, idling_harmless; [apply Ack_plain| |apply safe_Ack]|by intros ?; apply rg_ret].
  exact (prove_Ack set_margin cfg (in_loop w) _ _ (quiet_in_loop w) (stable_in_loop set_margin _ w)).
Qed.

Lemma judged_turn : judged (PWorker w) (serve h (call CtxDone)) (λ g, sys_ok g ∧ inv g) (λ _, idle).
Proof.
  apply serve_plain; [done|]. apply rg_with_inv, rg_harmless; [exact (prove_turn set_margin set_margin_ok cfg)|].
  split; [by apply harmless_plain|done].
Qed.

Lemma judged_run_loop fuel : judged (PWorker w) (serve h (run_loop fuel cfg)) (λ g, sys_ok g ∧ inv g) (λ _ _, True).
Proof.
  induction fuel as [|fuel IH]; [done|]. cbn [run_loop].
  assert (Hweak : ∀ A (p : prog A) Q, judged (PWorker w) p (λ g, sys_ok g ∧ inv g) Q → judged (PWorker w) p idle Q).
  { intros A p Q. apply rg_pre. by intros g [ [? _] ?]. }
  eapply serve_bind; [apply judged_turn|]. intros [|]; [by apply rg_ret|].
  eapply serve_bind; [apply judged_ProcessOne|]. intros [b [u|e] ]; [by apply Hweak|].
  eapply serve_bind; [apply Hweak, judged_turn|]. intros [|]; [by apply rg_ret|].
  destruct (errors_Is e errPostClaim); [by apply rg_ret|by apply Hweak].
Qed.

Lemma judged_Run fuel : set_margin < HeartbeatTTL cfg →
  judged (PWorker w) (serve h (Worker.Run fuel cfg)) (λ g, sys_ok g ∧ inv g) (λ _ _, True).
Proof.
  intros Httl. pose proof set_margin_ok. unfold Worker.Run. eapply serve_bind; [|intros ?; apply judged_run_loop].
  apply serve_plain; [unfold Heartbeat; walk_prog|]. apply rg_with_inv, rg_harmless; [|apply safe_Heartbeat; lia].
  exact (prove_Heartbeat set_margin (PWorker w) w _ (conj set_margin_ok Httl) (or_introl eq_refl)).
Qed.
End turns.

(** ** The whole system *)

Section live.
Context `{UL : UuidLib} `{PG : !PgServer} `{RS : RedisServer} `{DS : DriveServer} `{AE : AeadLib}
  `{ML : MailLib} `{TP : TimeParser} `{ST : !Setting}.
Variable services : bool.
Abbreviation judged := (rg track ordinary (λ _ _ _ _, True) respects).
Abbreviation calm := (λ g, sys_ok g ∧ inv g).

(** The worker of a name serves its stage; cmd/worker decides with what
    handler, and whether it starts. *)
Definition worker_proc (fuel : nat) (w : string) : prog unit :=
  match worker_main set_env services (set_stage w) w with
  | Start (cfg, h) => forget (serve h (Worker.Run fuel cfg))
  | Exit _ => mret tt
  end.

Definition heart_proc (fuel : nat) (w : string) : prog unit :=
  match worker_main set_env services (set_stage w) w with
  | Start (cfg, _) => heartbeatLoop fuel cfg
  | Exit _ => mret tt
  end.

Definition live (turns fuel : nat) (scfg : Sweeper.Config) (clients : nat → prog unit) : procs := λ p,
  match p with
  | PWorker w => worker_proc fuel w
  | PHeart w => heart_proc fuel w
  | PSweep => forget (Sweeper.Run turns fuel scfg)
  | PClient n => clients n
  end.

(** Where it begins: no worker has started, all jobs are new, the folder cache
    is right, and Drive has given its files ids of their own. *)
Record begins (g : gst ghost) : Prop := {
  bn_sys : sys_ok g;
  bn_nobody : started (g_gh g) = ∅;
  bn_starts : starts set_env (g_sh g);
  bn_drives : drives (g_sh g) = set_drives
}.

Lemma begins_inv g : begins g → inv g.
Proof.
  intros [Hs Hn [Hj Hr Hfo] Hd]. split; [constructor|].
  - intros id j H. by apply (Hj id).
  - exact Hr.
  - intros id j H. apply placed_first; destruct (Hj id j H) as [_ [-> | ->] ]; done.
  - intros u f. rewrite Hd. by left.
  - exact Hfo.
  - intros id w j H Hst Hw. assert (w ∈ started (g_gh g)) as Hin by (apply (sys_held _ Hs id); by exists j).
    rewrite Hn in Hin. by apply elem_of_empty in Hin.
Qed.

Lemma stable_calm p : stable respects p calm.
Proof. apply stable_and; [|apply stable_inv]. intros q g g' Hne Hok [Hg _]. by eapply (stable_sys_ok set_margin p). Qed.

(** time.Parse and net/mail give offsets in whole minutes; the configured root
    folder; no sender's address holds a slash or backslash; a heartbeat lives
    longer than the margin. *)
Hypothesis dates : ∀ d t, ParseDate d = Ok t → t_off t mod 60 = 0.
Hypothesis root_id : drive_id_ok (root_of (upload_config set_env)).
Hypothesis root_path : RootPath (upload_config set_env) ≠ EmptyString →
  Forall folder_name (root_folders (RootPath (upload_config set_env))).
Hypothesis from : senders set_evidence.
Hypothesis ttl : set_margin < envDurationSec set_env "WORKER_HEARTBEAT_TTL_SEC" 15.

Lemma judged_handler w cfg h id j (H : claimed cfg id j) :
  worker_main set_env services (set_stage w) w = Start (cfg, h) →
  judged (PWorker (c_WorkerID cfg)) (h j) (mine (CL := the_claimed cfg id j H) (λ _ _, True))
    (λ r, mine (CL := the_claimed cfg id j H) (finished (CL := the_claimed cfg id j H) r)).
Proof.
  intros (_ & Hw & Hh & Hprops)%worker_handler. pose proof (cd_stage _ _ _ H) as Hst. rewrite Hw in Hst.
  destruct (Hprops j) as (_ & _ & Hres).
  destruct (stage_handler_is _ _ _ Hh) as [ [Hs ->]|[ [Hs [key ->] ]|[ [Hs ->]|[Hs [key ->] ] ] ] ]; rewrite Hs in *.
  - exact (judged_Noop (CL := the_claimed cfg id j H) Hst Hres).
  - exact (judged_Fetch (CL := the_claimed cfg id j H) key Hst).
  - exact (judged_Render (CL := the_claimed cfg id j H) dates Hst).
  - exact (judged_Upload (CL := the_claimed cfg id j H) root_id root_path from key Hst).
Qed.

Lemma judged_worker fuel w : judged (PWorker w) (worker_proc fuel w) calm (λ _ _, True).
Proof.
  unfold worker_proc. destruct (worker_main _ _ _ _) as [c|[cfg h] ] eqn:E; [by apply rg_ret|].
  eapply rg_bind; [|by intros ?; apply rg_ret]. pose proof (worker_handler _ _ _ _ _ _ E) as (_ & Hw & _).
  rewrite <- Hw at 1. apply judged_Run; [|by rewrite (worker_ttl _ _ _ _ _ _ E)]. intros id j H. by eapply judged_handler.
Qed.

Lemma judged_heart fuel w : judged (PHeart w) (heart_proc fuel w) calm (λ _ _, True).
Proof.
  unfold heart_proc. destruct (worker_main _ _ _ _) as [c|[cfg h] ] eqn:E; [by apply rg_ret|].
  pose proof (worker_handler _ _ _ _ _ _ E) as (_ & Hw & _). pose proof (worker_ttl _ _ _ _ _ _ E) as Ht.
  assert (Hm : set_margin < HeartbeatTTL cfg) by (by rewrite Ht). pose proof set_margin_ok. rewrite <- Hw at 1.
  apply (rg_pre _ _ _ _ _ _ _ sys_ok); [by intros g [? _]|].
  apply rg_harmless; [exact (prove_heartbeatLoop set_margin set_margin_ok cfg fuel Hm)|].
  assert (Hb : calls_only harmless (Heartbeat (c_WorkerID cfg) (HeartbeatTTL cfg))) by (apply safe_Heartbeat; lia).
  unfold heartbeatLoop. apply calls_only_bind; [done|]. intros ?. induction fuel as [|fuel IH]; cbn [heartbeat_ticks]; [done|].
  apply calls_only_bind; [by apply (visits_plain harmless)|]. intros [|]; [done|]. by apply calls_only_bind.
Qed.

Lemma judged_sweeper turns fuel scfg : judged PSweep (forget (Sweeper.Run turns fuel scfg)) calm (λ _ _, True).
Proof.
  eapply rg_bind; [|by intros ?; apply rg_ret]. apply (rg_pre _ _ _ _ _ _ _ sys_ok); [by intros g [? _]|].
  apply rg_harmless; [exact (prove_sweeper set_margin set_margin_ok turns fuel scfg)|].
  induction turns as [|turns IH]; cbn [Sweeper.Run]; [done|]. apply calls_only_bind; [by apply (visits_plain harmless)|].
  intros [|]; [done|]. apply calls_only_bind; [apply safe_SweepOnce|done].
Qed.

Lemma judged_client {A} n (p : prog A) : client A p → judged (PClient n) (forget p) calm (λ _ _, True).
Proof.
  intros Hc. apply (rg_pre _ _ _ _ _ _ _ sys_ok); [by intros g [? _]|].
  apply rg_harmless; [|by apply (forget_calls harmless)].
  eapply rg_post, prove_client, (forget_calls client_call), Hc. done.
Qed.

(** Every client is one of the programs of Clients.v. *)
Definition real_clients (clients : nat → prog unit) : Prop := ∀ n, ∃ A (p : prog A), client A p ∧ clients n = forget p.

Abbreviation reached g0 turns fuel scfg clients := (rtc (Concurrency.step track ordinary) (g0, live turns fuel scfg clients)).

Lemma live_assertion turns fuel scfg clients g :
  real_clients clients → calm g →
  at_assertion track ordinary (λ _ _ _ _, True) respects (g, live turns fuel scfg clients).
Proof.
  intros Hcl Hg p. exists calm. split; [done|]. split; [apply stable_calm|]. destruct p as [w|w| |n]; cbn [live snd].
  - apply judged_worker.
  - apply judged_heart.
  - apply judged_sweeper.
  - destruct (Hcl n) as (A & p & Hp & ->). by apply judged_client.
Qed.

(** The invariant holds throughout, and every step is within its guarantee. *)
Lemma live_steps turns fuel scfg clients g0 c :
  real_clients clients → begins g0 → reached g0 turns fuel scfg clients c →
  inv c.1 ∧ ∀ p X (cm : cmd X) k o, c.2 p = Vis cm k → ordinary p X cm o c.1 → respects p c.1 (fire track p cm o c.1).
Proof.
  intros Hcl H0 Hr. pose proof (begins_inv _ H0) as Hi.
  pose proof (live_assertion turns fuel scfg clients g0 Hcl (conj (bn_sys _ H0) Hi)) as Hat.
  assert (Hsteps : ∀ c' p X (cm : cmd X) k o, at_assertion track ordinary (λ _ _ _ _, True) respects c' →
    c'.2 p = Vis cm k → ordinary p X cm o c'.1 → respects p c'.1 (fire track p cm o c'.1)).
  { intros [g ps] p X cm k o Ha Hp Ho. by apply (rg_sound _ _ _ _ _ _ _ _ _ _ _ _ _ Ha (rtc_refl _ _) Hp Ho). }
  split; [|intros p X cm k o; apply Hsteps; by eapply at_assertion_reachable].
  revert Hat Hi. change g0 with (g0, live turns fuel scfg clients).1 at 2. revert Hr. generalize (g0, live turns fuel scfg clients).
  clear -Hsteps. induction 1 as [|c1 c2 c3 Hst _ IH]; [done|]. intros Hat Hi. apply IH; [by eapply at_assertion_step|].
  destruct Hst as [p X cm k o g ps Hp Ho]. apply (Hsteps (g, ps) p X cm k o Hat Hp Ho). exact Hi.
Qed.

(** ** Properties *)

(** C1. End-to-end correctness of the running system: take any number of
    workers of all stages with their real handlers, their heartbeats, the
    sweeper, and any of the other programs, interleaved call by call and with
    any calls failing, as long as every step is [ordinary] (heartbeats and
    sweeps are in time, and no worker has claimed a job of another stage).  In
    every configuration they reach, a job that is done at the upload stage has
    been delivered: Gmail gave the job's message, the renderer made a PDF of
    that message's page, the message's folder is on the user's Drive, and for
    the PDF and for every attachment it holds a file of that name which has this
    message's content, unless the name was taken by a file that was on the Drive
    in the beginning, or by a file of another message of the user with the same
    folder, whose name is made of the time, the subject and the sender. *)
Theorem live_delivers turns fuel scfg clients g0 g ps id j :
  real_clients clients → begins g0 → reached g0 turns fuel scfg clients (g, ps) →
  jobs (g_sh g) !! id = Some j → Stage j = "upload" → Status j = StatusDone →
  delivered set_env (drives (g_sh g0)) set_evidence (drives (g_sh g)) j.
Proof.
  intros Hcl H0 Hr Hj Hst Hd. destruct (live_steps _ _ _ _ _ _ Hcl H0 Hr) as [Hi _].
  rewrite (bn_drives _ H0). eapply deploy_delivered; [apply (in_ok _ Hi)|done..].
Qed.

(** C2. Isolation of the accounts in the same system, as long as every step is
    [ordinary]: a user's Drive never receives anything but the folders on the
    way to the user's own messages, under the right parents, and in a message's
    folder its own files, which are the PDF the renderer made of a message
    Gmail gave for this user, or an attachment of such a message with its
    content. *)
Theorem live_own turns fuel scfg clients g0 g ps u f :
  real_clients clients → begins g0 → reached g0 turns fuel scfg clients (g, ps) →
  f ∈ d_files (drives (g_sh g) u) →
  f ∈ d_files (drives (g_sh g0) u) ∨ from_mail set_env set_evidence (drives (g_sh g) u) u f.
Proof.
  intros Hcl H0 Hr Hf. destruct (live_steps _ _ _ _ _ _ Hcl H0 Hr) as [Hi _]. rewrite (bn_drives _ H0).
  by apply (dk_drives _ _ _ _ (in_ok _ Hi)).
Qed.

(** C3. In the same system, reached by [ordinary] steps: any next ordinary call
    of any process removes nothing from any Drive, and it writes a job's files
    on the shared disk only if it is a call of the worker that holds the job's
    row. *)
Theorem live_files turns fuel scfg clients g0 g ps p X (c : cmd X) k o id q :
  real_clients clients → begins g0 → reached g0 turns fuel scfg clients (g, ps) →
  ps p = Vis c k → ordinary p X c o g → plain_id id → job_file (data_dir set_env) id q →
  let g' := fire track p c o g in
  (∀ u, grows (drives (g_sh g) u) (drives (g_sh g') u)) ∧
  (files (g_sh g') !! q = files (g_sh g) !! q ∨ ∃ w, p = PWorker w ∧ held id w (g_db g)).
Proof.
  intros Hcl H0 Hr Hp Ho Hid Hq g'. destruct (live_steps _ _ _ _ _ _ Hcl H0 Hr) as [_ Hs].
  destruct (Hs p X c k o Hp Ho) as [_ Hx]. split; [apply Hx|by eapply ex_files].
Qed.
End live.

(** ** A run of three workers with a sweeper *)
Module LiveModel.
Import SchemaModel RedisModel DriveModel AeadModel EffectsModel MimeModel.

Definition stage_of (w : string) : string :=
  if decide (w = "f") then "fetch" else if decide (w = "r") then "render" else "upload".

Definition one_mail : evidence :=
  @mk_evidence uuid_model (λ _ _ raw, raw = mail "q1.pdf") (λ _ pdf, pdf = "PDF").

#[export] Instance test_setting : Setting :=
  { set_margin := SystemModel.margin0; set_env := test_env; set_stage := stage_of; set_evidence := one_mail;
    set_drives := λ _, []; set_margin_ok := ltac:(done) }.

Definition begin : gst ghost := mk_gst test_start (mk_ghost ∅ 0).
Definition live_procs : procs := live true 2 3 (Sweeper.New (Sweeper.mk_Config 0 0)) (λ _, forget (stats 5)).

Definition answer : outcome := {|
  o_fault := NoFault; o_dt := 1; o_uuid := "x"; o_rand := 0; o_ctx := false;
  o_handler := λ _, Ok EmptyString; o_api := mail_api "q1.pdf" |}.

(** What is checked of a step: it is timely, no row is new, and a claim is of
    a job of the worker's stage. *)
Definition own_stage (g g' : gst ghost) (id : uuid) (j : Job) : Prop :=
  is_Some (jobs (g_sh g) !! id) ∧
  (Status j ≠ StatusRunning ∨ Stage j = stage_of (default EmptyString (WorkerID j))).

Definition checked (p : pid) (X : Type) (c : cmd X) (o : outcome) (g : gst ghost) : Prop :=
  timely SystemModel.margin0 p X c o g ∧
  let g' := fire track p c o g in map_Forall (own_stage g g') (jobs (g_sh g')).

#[local] Existing Instance SystemModel.timely_dec.

#[export] Instance checked_dec p X c o g : Decision (checked p X c o g).
Proof. unfold checked, own_stage. cbv zeta. apply _. Defined.

Lemma checked_ordinary p X c o g : o_api o = mail_api "q1.pdf" → checked p X c o g → ordinary p X c o g.
Proof.
  intros Ho [Ht Hall]. constructor; [exact Ht| | |].
  - intros Y rq. rewrite Ho. destruct rq; try done.
    + intros text raw [= <-]. vm_compute (decoded _). by intros [= <-].
    + intros code pdf [= _ <-] _. done.
  - intros w id j Hj Hr Hw. destruct (Hall id j Hj) as [_ [?|Hst] ]; [done|right]. rewrite Hw in Hst. exact Hst.
  - intros id j [Hn _ _ _] Hj. destruct (Hall id j Hj) as [ [? ?] _]. congruence.
Qed.

Lemma play_ordinary l c c' :
  Forall (λ x, o_api x.2 = mail_api "q1.pdf") l → play track checked l c = Some c' → rtc (Concurrency.step track ordinary) c c'.
Proof.
  intros Hl. revert c. induction Hl as [|[p o] l Ho Hl IH]; intros [g ps]; cbn [play fst snd]; [intros [= <-]; done|].
  destruct (ps p) as [a|X cm k|] eqn:Hp; [done| |done]. case_decide as Hm; [|done].
  intros Hpl. eapply rtc_l; [|by apply IH]. apply (step_call track ordinary p X cm k o g ps); [done|by apply checked_ordinary].
Qed.

(** Everything happens call by call: the sweeper and a client look on while
    the worker of each stage works. *)
Definition calls (n : nat) (p : pid) : list (pid * outcome) := replicate n (p, answer).
Definition schedule : list (pid * outcome) :=
  calls 8 (PWorker "f") ++ calls 4 PSweep ++ calls 3 (PHeart "f") ++ calls 10 (PWorker "f") ++
  calls 22 (PWorker "r") ++
  calls 20 (PWorker "u") ++ calls 4 (PClient 0) ++ calls 3 (PHeart "u") ++ calls 24 (PWorker "u").

Definition ending : gst ghost * procs := default (begin, live_procs) (play track checked schedule (begin, live_procs)).

Lemma ending_reached : rtc (Concurrency.step track ordinary) (begin, live_procs) (ending.1, ending.2).
Proof.
  rewrite <- surjective_pairing. unfold ending.
  assert (H : match play track checked schedule (begin, live_procs) with Some _ => true | None => false end = true)
    by (vm_compute; reflexivity).
  destruct (play _ _ _ _) as [c|] eqn:E; [|done]. eapply play_ordinary; [|exact E].
  unfold schedule, calls. by repeat (apply Forall_app_2 || apply Forall_replicate).
Qed.

Lemma ending_done : row_is "upload" StatusDone (g_sh ending.1) = true.
Proof. vm_compute. reflexivity. Qed.

Lemma live_clients : real_clients (λ _, forget (stats 5)).
Proof. intros n. exists _, (stats 5). split; [by repeat constructor|done]. Qed.

Lemma begin_ok : begins begin.
Proof.
  constructor; [|done|apply test_starts|done]. constructor; [|intros id w (j & Hj & Hr & _)|done].
  - constructor.
    + intros id j. cbn. rewrite lookup_singleton_Some. intros [<- <-]. by constructor.
    + intros id1 id2 j1 j2. cbn. rewrite !lookup_singleton_Some. by intros [<- _] [<- _].
  - revert Hj. cbn. rewrite lookup_singleton_Some. intros [_ <-]. done.
Qed.

Lemma one_mail_senders : senders one_mail.
Proof.
  intros u gid raw parsed Hraw Hp. change (raw = mail "q1.pdf") in Hraw. subst raw.
  assert (Hc : match parseMessage (mail "q1.pdf") with
    | Some (Ok p) => bool_decide (contains_byte "/" (pm_FromEmail p) = false ∧ contains_byte "\" (pm_FromEmail p) = false)
    | _ => true end = true) by (vm_compute; reflexivity).
  rewrite Hp in Hc. by apply bool_decide_eq_true in Hc.
Qed.

Lemma margin_short : set_margin < envDurationSec set_env "WORKER_HEARTBEAT_TTL_SEC" 15.
Proof. done. Qed.
End LiveModel.
Import LiveModel SchemaModel RedisModel DriveModel AeadModel EffectsModel MimeModel.

Lemma live_delivers_witness :
  ∃ j, rtc (Concurrency.step track ordinary) (begin, live_procs) (ending.1, ending.2) ∧
    jobs (g_sh ending.1) !! "7" = Some j ∧ delivered test_env (drives (g_sh begin)) one_mail (drives (g_sh ending.1)) j.
Proof.
  destruct (row_is_spec _ _ _ ending_done) as (j & Hj & Hst & Hd). exists j. split; [exact ending_reached|].
  split; [exact Hj|].
  refine (live_delivers true model_dates _ _ one_mail_senders margin_short 2 3 _ _ begin ending.1 ending.2 "7" j live_clients begin_ok ending_reached Hj Hst Hd).
  - reflexivity.
  - intros Hr. by destruct Hr.
Defined.

Definition pdf_on_drive : option dfile :=
  head (filter (λ f, f_name f = "email.pdf") (d_files (drives (g_sh ending.1) "u"))).

Lemma live_own_witness : ∃ f, pdf_on_drive = Some f ∧
  (f ∈ d_files (drives (g_sh begin) "u") ∨ from_mail test_env one_mail (drives (g_sh ending.1) "u") "u" f).
Proof.
  assert (H : bool_decide (is_Some pdf_on_drive) = true) by (vm_compute; reflexivity).
  apply bool_decide_eq_true in H as [f Hf]. exists f. split; [exact Hf|].
  refine (live_own true model_dates _ _ one_mail_senders margin_short 2 3 _ _ begin ending.1 ending.2 "u" f live_clients begin_ok ending_reached _).
  - reflexivity.
  - intros Hr. by destruct Hr.
  - unfold pdf_on_drive in Hf. apply head_Some_elem_of, list_elem_of_filter in Hf as [_ Hf]. exact Hf.
Defined.

Lemma live_files_witness :
  let g' := fire track PSweep CtxDone answer begin in
  (∀ u, grows (drives (g_sh begin) u) (drives (g_sh g') u)) ∧
  (files (g_sh g') !! eml_path (data_dir test_env) "7" = files (g_sh begin) !! eml_path (data_dir test_env) "7" ∨
   ∃ w, PSweep = PWorker w ∧ held "7" w (g_db begin)).
Proof.
  refine (live_files true model_dates _ _ one_mail_senders margin_short 2 3 (Sweeper.New (Sweeper.mk_Config 0 0)) (λ _, forget (stats 5))
    begin begin live_procs PSweep _ CtxDone _ answer "7" _ live_clients begin_ok (rtc_refl _ _) eq_refl _ _ _).
  - reflexivity.
  - intros Hr. by destruct Hr.
  - apply checked_ordinary; [reflexivity|]. apply (bool_decide_unpack _). vm_compute. exact I.
  - split; [done|split; reflexivity].
  - exists Mime. done.
Defined.
