(* ===== verification/Race.v ===== *)
(** * Two uploads at once

    Looking for a folder and creating it are two calls; workers that share an
    account do both at the same time.  The folder cache does not prevent it. *)
From S2P Require Import Prelude Redis Schema GoStrings Utf8 Calendar Times Json Meta Paths Base64 Mime Html Services Effects Files Disk Queue Store Worker Sweeper Concurrency System OAuth Gmail Scheduler Drive Fetch Render Upload Forest Names Pipeline Noop Command Background Placement Serve Deploy Interleave Live.
Local Open Scope Z_scope.
Import SchemaModel RedisModel DriveModel AeadModel EffectsModel MimeModel LiveModel.

(** Two messages of one account, received on the same day, that are rendered
    and wait for the upload stage. *)
Definition at_upload_stage (id gid : string) : Job :=
  @mk_Job uuid_model id (Some "u") (Some gid) "upload" StatusQueued "{}" false None 0 8 None 0 None None 0 0.

Definition no_attachments : RenderMeta :=
  mk_RenderMeta (rm_Subject test_meta) (rm_FromEmail test_meta) (rm_ReceivedAt test_meta) [].

Definition rendered_files (id : string) : list (string * string) :=
  [("/data/meta/u" +:+ id +:+ ".json", match MarshalMeta no_attachments with Ok s => s | Err _ => EmptyString end);
   ("/data/pdf/u" +:+ id +:+ ".pdf", "PDF")].

Definition two_rendered : gst ghost :=
  mk_gst (mk_shared (with_jobs {[ "7" := at_upload_stage "7" "m1"; "8" := at_upload_stage "8" "m2" ]} (s_db signed_up))
      (lpush "queue:upload" "u8" (lpush "queue:upload" "u7" RedisModel.empty))
      (mk_outside (list_to_map (rendered_files "7" ++ rendered_files "8")) ∅ (λ _, [])) 0)
    (mk_ghost ∅ 0).

Definition two_uploaders : procs := live true 2 3 (Sweeper.New (Sweeper.mk_Config 0 0)) (λ _, mret tt).

(** Their calls alternate. *)
Fixpoint alternate (n : nat) : list (pid * outcome) :=
  match n with
  | O => []
  | S n => (PWorker "u1", answer) :: (PWorker "u2", answer) :: alternate n
  end.

#[local] Existing Instance SystemModel.timely_dec.

Definition together : option (gst ghost * procs) :=
  play track (timely SystemModel.margin0) (alternate 40) (two_rendered, two_uploaders).

Definition race_end : gst ghost * procs := default (two_rendered, two_uploaders) together.

Definition uploaded (g : gst ghost) (id : uuid) : Prop :=
  ∃ j, jobs (g_sh g) !! id = Some j ∧ Stage j = "upload" ∧ Status j = StatusDone.

Lemma race_reached : rtc (Concurrency.step track (timely SystemModel.margin0)) (two_rendered, two_uploaders) race_end.
Proof.
  unfold race_end, together.
  assert (H : match play track (timely SystemModel.margin0) (alternate 40) (two_rendered, two_uploaders) with Some _ => true | None => false end = true)
    by (vm_compute; reflexivity).
  destruct (play _ _ _ _) as [c|] eqn:E; [|done]. eapply play_rtc, E.
Qed.

Definition is_uploaded (g : gst ghost) (id : uuid) : bool :=
  match jobs (g_sh g) !! id with
  | Some j => bool_decide (Stage j = "upload") && bool_decide (Status j = StatusDone)
  | None => false
  end.

Lemma is_uploaded_spec g id : is_uploaded g id = true → uploaded g id.
Proof.
  unfold is_uploaded, uploaded. destruct (jobs (g_sh g) !! id) as [j|]; [|done].
  intros [H1%bool_decide_eq_true H2%bool_decide_eq_true]%andb_true_iff. by exists j.
Qed.

Lemma race_uploaded : is_uploaded race_end.1 "7" && is_uploaded race_end.1 "8" = true.
Proof. vm_compute. reflexivity. Qed.

Lemma race_folders : length (folders_named "2024" "root" (drives (g_sh race_end.1) "u")) = 2%nat.
Proof. vm_compute. reflexivity. Qed.

(** C30. Two upload workers may create the same folder twice: from an empty
    Drive and an empty folder cache, with nothing failing and every heartbeat
    alive, two messages of one account are uploaded at the same time; both jobs
    are done, and the account's root holds two folders of the year's name. *)
Theorem uploads_race :
  ∃ g ps, rtc (Concurrency.step track (timely SystemModel.margin0)) (two_rendered, two_uploaders) (g, ps) ∧
    d_files (drives (g_sh two_rendered) "u") = [] ∧ uploaded g "7" ∧ uploaded g "8" ∧
    length (folders_named "2024" "root" (drives (g_sh g) "u")) = 2%nat.
Proof.
  pose proof race_uploaded as [H7 H8]%andb_true_iff. exists race_end.1, race_end.2. split; [|split; [done|split; [|split] ] ].
  - rewrite <- surjective_pairing. exact race_reached.
  - by apply is_uploaded_spec.
  - by apply is_uploaded_spec.
  - exact race_folders.
Qed.
