(* ===== verification/Works.v ===== *)
(** * The stages when everything answers

    Disk.v and the files of the stages say what a run leaves, whatever fails.
    This file says when a run succeeds: no call fails in transit, Google and
    the renderer answer, the account is signed up, and nothing is in the way
    on the disk.  [works P p Q]: from a state with [P], the program returns a
    value, without an error, in a state with [Q]. *)
From S2P Require Import Prelude Redis Schema GoStrings Calendar Times Json Meta Paths Base64 Mime Html Services Effects Files Disk Queue Store OAuth Gmail Drive Fetch Render Upload Pipeline.
Local Open Scope Z_scope.

Section works.
Context `{UL : UuidLib} `{PG : !PgServer} `{RS : RedisServer} `{DS : DriveServer} `{AE : AeadLib}
  `{ML : MailLib} `{TP : TimeParser}.
Variable orc : nat → outcome.
Hypothesis Hrel : reliable orc.

(** ** Rules *)

Definition works {A} (P : shared → Prop) (p : prog (result A)) (Q : A → shared → Prop) : Prop :=
  ∀ i s, P s → ∃ a i' s', run orc p i s = Some (Ok a, i', s') ∧ Q a s'.

Lemma works_ok {A} (a : A) (P : shared → Prop) (Q : A → shared → Prop) : (∀ s, P s → Q a s) → works P (mret (Ok a)) Q.
Proof. intros H i s HP. exists a, i, s. auto. Qed.

Lemma works_conseq {A} (P P' : shared → Prop) (p : prog (result A)) (Q Q' : A → shared → Prop) :
  works P p Q → (∀ s, P' s → P s) → (∀ a s, Q a s → Q' a s) → works P' p Q'.
Proof. intros H HP HQ i s Hs. destruct (H i s (HP s Hs)) as (a & i' & s' & Hrun & Ha). exists a, i', s'. auto. Qed.

Lemma works_pure {A} (φ : Prop) (P : shared → Prop) (p : prog (result A)) (Q : A → shared → Prop) :
  (φ → works P p Q) → works (λ s, φ ∧ P s) p Q.
Proof. intros H i s [Hφ HP]. by apply H. Qed.

Lemma works_bind {A B} P Q R (p : prog (result A)) (f : A → prog (result B)) (h : err → err) :
  works P p Q → (∀ a, works (Q a) (f a) R) →
  works P (r ← p; match r with Ok a => f a | Err e => mret (Err (h e)) end) R.
Proof.
  intros Hp Hf i s HP. destruct (Hp i s HP) as (a & i1 & s1 & Hrun & Ha). rewrite run_bind, Hrun. by apply Hf.
Qed.

(** ** The account *)

Variables (u : uuid) (key : list Byte.byte).
Hypothesis Hkey : length key = KeySize.
Hypothesis Htok : tokens_for orc u.
Hypothesis Hsvc : ∀ k, o_api (orc k) unit NewService = Ok tt.

(** The user is known and has a token that opens with the key. *)
Definition account (db : DB) : Prop := is_Some (users db !! u) ∧ ∃ tok, stored u "google" key tok db.

Definition live (X : outside → Prop) (s : shared) : Prop := account (s_db s) ∧ X (s_ext s).

Definition mine (c : Client) : Prop := userID c = u ∧ cl_key c = key.

(** Programs that return the client beside the result. *)
Definition works_client {A} (P : shared → Prop) (p : prog (result A * Client)) (Q : A → shared → Prop) : Prop :=
  ∀ i s, P s → ∃ a c i' s', run orc p i s = Some ((Ok a, c), i', s') ∧ mine c ∧ Q a s'.

Lemma works_bind_client {A B} P Q R (p : prog (result A * Client)) (f : Client → A → prog (result B)) (h : err → err) :
  works_client P p Q → (∀ c a, mine c → works (Q a) (f c a) R) →
  works P ('(r, c) ← p; match r with Ok a => f c a | Err e => mret (Err (h e)) end) R.
Proof.
  intros Hp Hf i s HP. destruct (Hp i s HP) as (a & c & i1 & s1 & Hrun & Hc & Ha). rewrite run_bind, Hrun. by apply Hf.
Qed.

Lemma works_client_bind {A B} P Q R (p : prog (result A * Client)) (f : Client → A → prog (result B * Client)) (h : err → err) :
  works_client P p Q → (∀ c a, mine c → works_client (Q a) (f c a) R) →
  works_client P ('(r, c) ← p; match r with Ok a => f c a | Err e => mret (Err (h e), c) end) R.
Proof.
  intros Hp Hf i s HP. destruct (Hp i s HP) as (a & c & i1 & s1 & Hrun & Hc & Ha). rewrite run_bind, Hrun. by apply Hf.
Qed.

Lemma works_client_ok {A} (a : A) c (P : shared → Prop) (Q : A → shared → Prop) :
  mine c → (∀ s, P s → Q a s) → works_client P (mret (Ok a, c)) Q.
Proof. intros Hc H i s HP. exists a, c, i, s. auto. Qed.

Lemma works_source X c : mine c → works_client (live X) (source c) (λ _, live X).
Proof.
  intros [Hu Hk] i s [ [Hus Hst] HX]. destruct (Htok i) as [tok Ht].
  destruct (run_total orc _ i s (source_total c)) as ([r c'] & i' & s' & Hrun).
  pose proof (run_not_ext _ _ _ _ _ _ _ (source_not_ext c) Hrun) as Hx. revert Hrun.
  unfold source, savingSource_Token. rewrite run_bind, run_bind, run_call.
  cbn [exec fst snd]. rewrite (Hrel i), Hu, Hk. cbn [with_fault fst snd]. rewrite Ht. cbv beta iota.
  set (s1 := elapse _ s). destruct (differs tok (cl_last c)).
  - destruct (run_SaveToken orc Hrel u key "google" tok (S i) s1 Hkey Hus) as (i1 & s2 & Hrun & Hst2 & (_ & Hus2 & _) & _).
    rewrite run_bind, Hrun. cbv beta iota. rewrite run_ret. intros [= <- <- <- <-]. eexists _, _, _, _. split; [done|].
    split; [done|]. split; [|by rewrite Hx]. split; [by rewrite Hus2|by exists tok].
  - rewrite run_ret. intros [= <- <- <- <-]. eexists _, _, _, _. split; [done|]. by split.
Qed.

Lemma works_Api {A} X (rq : api_req A) (Φ : A → Prop) :
  (∀ k, ∃ x, o_api (orc k) A rq = Ok x ∧ Φ x) → works (live X) (call (Api rq)) (λ x s, Φ x ∧ live X s).
Proof.
  intros H i s HP. destruct (H i) as (x & Hx & HΦ). rewrite run_call. cbn [exec fst snd]. rewrite (Hrel i), Hx.
  exists x. by eexists _, _.
Qed.

Lemma works_Do {A} X c (rq : api_req A) x :
  mine c → (∀ k, o_api (orc k) A rq = Ok x) → works_client (live X) (Do c rq) (λ y s, y = x ∧ live X s).
Proof.
  intros Hc Hx i s HP. unfold Do. rewrite run_bind.
  destruct (works_source X c Hc i s HP) as (tok & c1 & i1 & s1 & -> & Hc1 & HP1). cbv beta iota. rewrite run_bind.
  destruct (works_Api X rq (λ y, y = x) (λ k, ex_intro _ x (conj (Hx k) eq_refl)) i1 s1 HP1) as (y & i2 & s2 & -> & Hy).
  exists y, c1, i2, s2. by split.
Qed.

Lemma works_connect X svc : works (live X) (connect svc u key) (λ c s, mine c ∧ live X s).
Proof.
  intros i s [ [Hus [tok Hst] ] HX]. destruct (run_total orc _ i s (connect_total svc u key)) as (r & i' & s' & Hrun).
  pose proof (run_not_ext _ _ _ _ _ _ _ (calls_only_impl _ _ _ quiet_not_ext (connect_quiet svc u key)) Hrun) as Hx.
  revert Hrun. unfold connect. rewrite run_bind.
  destruct (run_LoadToken orc Hrel u key "google" tok i s Hst) as (i1 & s1 & -> & Hd & _). cbv beta iota.
  rewrite run_bind, run_call. cbn [exec fst snd]. rewrite (Hrel i1), Hsvc. cbn [with_fault fst snd]. rewrite run_ret.
  intros [= <- <- <-]. eexists _, _, _. split; [done|]. split; [done|]. split; [|by rewrite Hx].
  cbn. rewrite Hd. split; [done|by exists tok].
Qed.

(** ** The disk *)

Lemma works_Ext {A} (f : Z → outside → result A * outside) (X : outside → Prop) (Y : A → outside → Prop) :
  (∀ t x, X x → ∃ a, (f t x).1 = Ok a ∧ Y a (f t x).2) → works (live X) (call (Ext f)) (λ a, live (Y a)).
Proof.
  intros H i s [Ha HX]. rewrite run_call. cbn [exec fst snd]. rewrite (Hrel i). cbn [elapse set_now s_ext s_now].
  destruct (H (s_now s + Z.of_N (o_dt (orc i))) (s_ext s) HX) as (a & Hf & HY).
  destruct (f _ (s_ext s)) as [r x]. cbn [fst snd with_fault] in *. subst r. exists a. by eexists _, _.
Qed.

Lemma works_ReadFile p data (X : outside → Prop) :
  (∀ x, X x → o_files x !! p = Some data) → works (live X) (call (ReadFile p)) (λ d s, d = data ∧ live X s).
Proof.
  intros H. eapply works_conseq.
  - apply (works_Ext _ X (λ d x, d = data ∧ X x)). intros t x HX. rewrite (H x HX). by exists data.
  - done.
  - by intros d s (Ha & -> & HX).
Qed.

(** ** Room for a job's files *)

Variables (dataDir : string) (id : uuid).
Hypothesis Hid : plain_id id.

(** The directory a file of the job is in. *)
Definition dir_comps (k : part) : list string :=
  match k with Mime => ["mime"] | Pdf => ["pdf"] | Meta => ["meta"] | Attached _ => ["attachments"; uuid_String id] end.
Definition job_dir (k : part) : string := Join (dataDir :: dir_comps k).

Definition file_comp (k : part) : string :=
  match k with
  | Mime => uuid_String id +:+ ".eml" | Pdf => uuid_String id +:+ ".pdf" | Meta => uuid_String id +:+ ".json"
  | Attached name => name
  end.

Lemma comps_split k : comps id k = dir_comps k ++ [file_comp k].
Proof. by destruct k. Qed.

Lemma dir_split k : ∃ cs c, dir_comps k = cs ++ [c].
Proof. destruct k; [exists []|exists []|exists []|exists ["attachments"] ]; by eexists. Qed.

Lemma dir_component k : plain_part k → Forall component (dir_comps k) ∧ component (file_comp k).
Proof.
  intros Hk. pose proof (comps_component id k Hid Hk) as H. rewrite comps_split in H.
  apply Forall_app in H as [H1 [H2 _]%Forall_cons]. done.
Qed.

Lemma job_dir_base k : plain_part k → job_dir k = base dataDir +:+ join_comps (dir_comps k).
Proof.
  intros [Hd _]%dir_component. unfold job_dir. destruct (dir_split k) as (cs & c & E). rewrite E in *.
  by rewrite Join_under, foldl_under.
Qed.

Lemma path_of_base k : plain_part k → path_of dataDir id k = base dataDir +:+ join_comps (dir_comps k ++ [file_comp k]).
Proof.
  intros Hk. pose proof (comps_component id k Hid Hk) as H. rewrite comps_split in H.
  unfold path_of. by rewrite comps_split, Join_under, foldl_under.
Qed.

Lemma Dir_path_of k : plain_part k → Dir (path_of dataDir id k) = job_dir k.
Proof.
  intros Hk. destruct (dir_component k Hk) as [Hd Hf]. pose proof (comps_component id k Hid Hk) as H. rewrite comps_split in H.
  unfold path_of, job_dir. destruct (dir_split k) as (cs & c & E). rewrite comps_split, E in *.
  rewrite !Join_under, !foldl_app by done. cbn [foldl]. apply Dir_under; [|done]. by apply Forall_app in Hd as [_ [? _]%Forall_cons].
Qed.

(** No file of the job is on the way to one of its directories. *)
Lemma file_not_on_way k k' : plain_part k → plain_part k' → path_of dataDir id k ∉ prefixes EmptyString (job_dir k').
Proof.
  intros Hk Hk' [r Hr]%prefixes_prefix. rewrite sapp_nil_l, job_dir_base, path_of_base, <- sapp_assoc in Hr by done.
  apply sapp_inj_l in Hr. assert (Hl : ∀ a b : string, a = a +:+ b → b = EmptyString).
  { intros a b. induction a as [|c a IH]; [done|]. rewrite sapp_cons. by intros [= H%IH]. }
  destruct k, k'; cbn [dir_comps file_comp app join_comps] in Hr; rewrite <- ?sapp_assoc in Hr; try discriminate Hr.
  apply (sapp_inj_l "attachments"), (sapp_inj_l "/") in Hr. by apply Hl in Hr.
Qed.

Lemma file_not_root k : plain_part k → path_of dataDir id k ≠ "/" ∧ path_of dataDir id k ≠ ".".
Proof.
  intros Hk. rewrite path_of_base by done. destruct (dir_component k Hk) as [_ (Hne & _)].
  assert (H : ∃ a b c t, join_comps (dir_comps k ++ [file_comp k]) = String a (String b (String c t))).
  { destruct k; cbn [dir_comps app join_comps]; by eexists _, _, _, _. }
  destruct H as (a & b & c & t & ->). split; intros H; apply (f_equal String.length) in H; revert H;
    (induction (base dataDir) as [|d s IH]; [done|]; rewrite sapp_cons; simpl; lia || (destruct s; done)).
Qed.

(** Where the job needs directories there is no file, and where it needs files
    there is no directory. *)
Definition room (x : outside) : Prop := ∀ k, plain_part k →
  Forall (λ d, o_files x !! d = None) (prefixes EmptyString (job_dir k)) ∧ ¬ is_dir (path_of dataDir id k) x.

Lemma room_empty x : o_files x = ∅ → o_dirs x = ∅ → room x.
Proof.
  intros HF HD k Hk. destruct (file_not_root k Hk) as [H1 H2]. split.
  - apply Forall_forall. intros d _. by rewrite HF, lookup_empty.
  - intros [?|[?|H] ]; [done|done|]. rewrite HD in H. by apply elem_of_empty in H.
Qed.

Lemma room_put k data x : plain_part k → room x → room (set_files (<[path_of dataDir id k := data]> (o_files x)) x).
Proof.
  intros Hk Hx k' Hk'. destruct (Hx k' Hk') as [Hf Hd]. split; [|done]. rewrite Forall_forall in *. intros d Hin. cbn.
  rewrite lookup_insert_ne; [by apply Hf|]. intros <-. by apply (file_not_on_way k k').
Qed.

(** The job has room, and [F] is what is on the disk. *)
Definition roomy (P : gmap string string → Prop) (x : outside) : Prop := room x ∧ P (o_files x).

Lemma works_MkdirAll k P : plain_part k →
  works (live (roomy P)) (call (MkdirAll (job_dir k))) (λ _, live (λ x, is_dir (job_dir k) x ∧ roomy P x)).
Proof.
  intros Hk. apply (works_Ext _ (roomy P) (λ _ x, is_dir (job_dir k) x ∧ roomy P x)). intros t x [Hx HP]. rewrite decide_False.
  - exists tt. split; [done|]. split; [|split; [|done] ].
    + right. right. cbn [set_dirs o_dirs snd]. apply elem_of_union_l, elem_of_list_to_set.
      apply (prefixes_last EmptyString (job_dir k)).
    + intros k' Hk'. destruct (Hx k' Hk') as [Hf Hd]. split; [done|]. intros [H|[H|H] ]; [by apply Hd; left|by apply Hd; right; left|].
      cbn [set_dirs o_dirs snd] in H. apply elem_of_union in H as [H|H]; [|by apply Hd; right; right].
      apply elem_of_list_to_set in H. by apply (file_not_on_way k' k).
  - intros (d & Hin & Hs)%Exists_exists. destruct (Hx k Hk) as [Hf _]. rewrite Forall_forall in Hf.
    rewrite (Hf d Hin) in Hs. by destruct Hs.
Qed.

Lemma works_WriteFile k data (P P' : gmap string string → Prop) : plain_part k →
  (∀ F, P F → P' (<[path_of dataDir id k := data]> F)) →
  works (live (λ x, is_dir (job_dir k) x ∧ roomy P x)) (WriteFile (path_of dataDir id k) data)
    (λ _, live (λ x, is_dir (job_dir k) x ∧ roomy P' x)).
Proof.
  intros Hk HP. set (p := path_of dataDir id k).
  apply (works_bind _ (λ _, live (λ x, is_dir (job_dir k) x ∧ roomy (λ F, ∃ F0, P F0 ∧ F = <[p := EmptyString]> F0) x))
    _ _ _ (λ e, e)).
  - apply (works_Ext _ (λ x, is_dir (job_dir k) x ∧ roomy P x) (λ _ x, is_dir (job_dir k) x ∧
      roomy (λ F, ∃ F0, P F0 ∧ F = <[p := EmptyString]> F0) x)). intros t x [Hd [Hx HPx] ].
    rewrite decide_False by apply (Hx k Hk). unfold p. rewrite Dir_path_of, decide_True by done. exists tt. split; [done|].
    split; [done|]. split; [by apply room_put|]. cbn. eauto.
  - intros _. apply (works_Ext _ _ (λ _ x, is_dir (job_dir k) x ∧ roomy P' x)). intros t x [Hd [Hx (F0 & HF0 & HF)] ].
    exists tt. split; [done|]. split; [done|]. split; [by apply room_put|]. cbn. rewrite HF, insert_insert_eq. by apply HP.
Qed.

(** One directory and one file in it. *)
Lemma works_save {B} k data P P' (h1 h2 : err → err) (f : prog (result B)) R : plain_part k →
  (∀ F, P F → P' (<[path_of dataDir id k := data]> F)) →
  works (live (roomy P')) f R →
  works (live (roomy P)) (r ← call (MkdirAll (job_dir k));
    match r with
    | Err e => mret (Err (h1 e))
    | Ok _ =>
        r ← WriteFile (path_of dataDir id k) data;
        match r with Err e => mret (Err (h2 e)) | Ok _ => f end
    end) R.
Proof.
  intros Hk HP Hf. intros i s Hs. rewrite run_bind.
  destruct (works_MkdirAll k P Hk i s Hs) as (? & i1 & s1 & -> & H1). cbv beta iota. rewrite run_bind.
  destruct (works_WriteFile k data P P' Hk HP i1 s1 H1) as (? & i2 & s2 & -> & H2). cbv beta iota. apply Hf.
  destruct H2 as [Ha [_ H2] ]. by split.
Qed.

(** ** Fetch *)

Definition holds_file (p data : string) (F : gmap string string) : Prop := F !! p = Some data.

Lemma works_FetchMessage X c gid text raw : mine c →
  (∀ k, o_api (orc k) string (MessagesGet u gid "raw") = Ok text) →
  decoded text = Some raw →
  works_client (live X) (FetchMessage c gid) (λ y s, y = raw ∧ live X s).
Proof.
  intros Hc Htext Hdec i s HP. unfold FetchMessage. rewrite run_bind. pose proof Hc as [Hu _]. rewrite Hu.
  destruct (works_Do X c (MessagesGet u gid "raw") text Hc Htext i s HP) as (y & c1 & i1 & s1 & -> & Hc1 & -> & HP1).
  cbv beta iota. revert Hdec. unfold decoded. destruct (DecodeString URLEncoding false text) as [b|].
  - intros [= ->]. by exists raw, c1, i1, s1.
  - intros ->. by exists raw, c1, i1, s1.
Qed.

Lemma works_Fetch job gid text raw : ID job = id → UserID job = Some u → GmailMessageID job = Some gid →
  (∀ k, o_api (orc k) string (MessagesGet u gid "raw") = Ok text) →
  decoded text = Some raw →
  works (live room) (Fetch dataDir key job)
    (λ st s, st = "render" ∧ live (roomy (holds_file (path_of dataDir id Mime) raw)) s).
Proof.
  intros HI Hu Hg Htext Hdec. unfold Fetch. rewrite Hu, Hg, HI, eml_path_of by done.
  apply (works_conseq (live (roomy (λ _, True))) _ _ (λ st s, st = "render" ∧ live (roomy (holds_file (path_of dataDir id Mime) raw)) s));
    [|intros s [Ha Hr]; exact (conj Ha (conj Hr I))|done].
  apply (works_bind _ (λ c s, mine c ∧ live (roomy (λ _, True)) s)); [apply works_connect|]. intros c.
  apply works_pure. intros Hc.
  intros i s HP. rewrite run_bind.
  destruct (works_FetchMessage (roomy (λ _, True)) c gid text raw Hc Htext Hdec i s HP) as (y & c1 & i1 & s1 & -> & _ & -> & HP1).
  cbv beta iota. revert i1 s1 HP1.
  refine (works_save Mime raw (λ _, True) (holds_file (path_of dataDir id Mime) raw) (EWrap "mkdir") (EWrap "write mime") _ _ I _ _).
  - intros F _. apply lookup_insert_eq.
  - by apply works_ok.
Qed.

(** ** Render *)

(** The renderer answers every page with a PDF. *)
Definition renders : Prop := ∀ k html, ∃ resp, o_api (orc k) (Z * string * option err) (RenderPost html) = Ok resp ∧
  Z.quot resp.1.1 100 = 2 ∧ resp.2 = None.

Lemma works_RenderHTML X html : renders → works (live X) (RenderHTML html) (λ _, live X).
Proof.
  intros Hr i s HP. unfold RenderHTML. rewrite run_bind.
  destruct (works_Api X (RenderPost html) (λ resp, Z.quot resp.1.1 100 = 2 ∧ resp.2 = None) (λ k, Hr k html) i s HP)
    as ([ [code body] re] & i1 & s1 & -> & [Hc Hre] & HP1). cbn [fst snd] in *. cbv beta iota.
  rewrite Hc, Hre. by exists body, i1, s1.
Qed.

Abbreviation any := (λ _ : gmap string string, True).

Lemma works_write_attachments l names :
  works (live (λ x, is_dir (job_dir (Attached EmptyString)) x ∧ roomy any x)) (write_attachments (attach_dir dataDir id) l names)
    (λ ns s, ns = names ++ names_of l ∧ live (roomy any) s).
Proof.
  revert names. induction l as [|a l IH]; intros names; cbn [write_attachments].
  - apply works_ok. intros s [Ha [_ Hx] ]. split; [by rewrite app_nil_r|by split].
  - assert (Hc : component (SanitizeFilename (a_Filename a))) by apply plain_component, SanitizeFilename_plain.
    rewrite attached_path_of by done. apply (works_bind _ _ _ _ _ _ (works_WriteFile (Attached (SanitizeFilename (a_Filename a))) (a_Content a) any any Hc (λ _ _, I))).
    intros _. eapply works_conseq; [apply IH|done|]. intros ns s [-> Hs]. split; [by rewrite <- app_assoc|done].
Qed.

Lemma works_save_attachments l :
  works (live (roomy any)) (save_attachments (attach_dir dataDir id) l) (λ ns s, ns = names_of l ∧ live (roomy any) s).
Proof.
  unfold save_attachments. destruct l as [|a l]; [by apply works_ok|].
  apply (works_bind _ (λ _, live (λ x, is_dir (job_dir (Attached EmptyString)) x ∧ roomy any x)) _ _
    (λ _, write_attachments (attach_dir dataDir id) (a :: l) [])).
  - apply (works_MkdirAll (Attached (SanitizeFilename (a_Filename a)))). apply plain_component, SanitizeFilename_plain.
  - intros _. apply works_write_attachments.
Qed.

Lemma works_save_in k what file data : plain_part k →
  Join [job_dir k; file] = path_of dataDir id k →
  works (live (roomy any)) (save_in (job_dir k) what file data) (λ _, live (roomy any)).
Proof.
  intros Hk Hp. unfold save_in. rewrite Hp. apply (works_save k data any any); [done|done|]. by apply works_ok.
Qed.

Lemma works_Render job raw parsed metaB : ID job = id →
  parseMessage raw = Some (Ok parsed) → renders →
  MarshalMeta (meta_of job parsed (names_of (Attachments parsed))) = Ok metaB →
  works (live (roomy (holds_file (path_of dataDir id Mime) raw))) (Render dataDir job)
    (λ st s, st = "upload" ∧ live room s).
Proof.
  intros HI Hp Hr Hm. unfold Render. rewrite HI.
  apply (works_bind _ (λ d s, d = raw ∧ live (roomy (holds_file (path_of dataDir id Mime) raw)) s)).
  { apply works_ReadFile. by intros x [_ Hx]. }
  intros d. apply works_pure. intros ->. rewrite Hp. unfold render_parsed. rewrite HI.
  apply (works_conseq (live (roomy any)) _ _ (λ st s, st = "upload" ∧ live (roomy any) s));
    [|intros s [Ha [Hx _] ]; exact (conj Ha (conj Hx I))|intros st s (-> & Ha & Hx & _); exact (conj eq_refl (conj Ha Hx))].
  apply (works_bind _ _ _ _ _ (λ e, e) (works_save_attachments (Attachments parsed))). intros names.
  apply works_pure. intros ->. apply (works_bind _ (λ _, live (roomy any))); [by apply works_RenderHTML|]. intros pdf.
  apply (works_bind _ (λ _, live (roomy any)) _ _ _ (λ e, e)).
  { apply (works_save_in Pdf); [done|]. by apply (pdf_path_of dataDir id). }
  intros _. rewrite Hm. apply (works_bind _ (λ _, live (roomy any)) _ _ _ (λ e, e)).
  { apply (works_save_in Meta); [done|]. by apply (meta_path_of dataDir id). }
  intros _. by apply works_ok.
Qed.

(** ** Upload *)

Lemma works_DoDrive {A} F c (f : dstate → A * dstate) : mine c →
  works_client (live (λ x, o_files x = F)) (DoDrive c f) (λ _, live (λ x, o_files x = F)).
Proof.
  intros Hc i s HP. unfold DoDrive. rewrite run_bind.
  destruct (works_source _ c Hc i s HP) as (tok & c1 & i1 & s1 & -> & Hc1 & HP1). cbv beta iota. rewrite run_bind.
  destruct (works_Ext (λ _ x, let '(y, d) := f (o_drive x (userID c1)) in
    (Ok y, mk_outside (o_files x) (o_dirs x) (λ v, if decide (v = userID c1) then d else o_drive x v)))
    (λ x, o_files x = F) (λ _ x, o_files x = F)) with (i := i1) (s := s1) as (y & i2 & s2 & Hrun & HP2).
  - intros t x Hx. destruct (f _) as [y d]. by exists y.
  - done.
  - unfold on_drive. rewrite Hrun. by exists y, c1, i2, s2.
Qed.

Lemma works_find_or_create F c q name parent mime content e1 e2 : mine c →
  works_client (live (λ x, o_files x = F)) (find_or_create c q name parent mime content e1 e2) (λ _, live (λ x, o_files x = F)).
Proof.
  intros Hc. unfold find_or_create. intros i s HP. rewrite run_bind.
  destruct (works_DoDrive F c (λ d, (FilesList q d, d)) Hc i s HP) as (ids & c1 & i1 & s1 & Hrun & Hc1 & HP1).
  unfold Files_List. rewrite Hrun. cbv beta iota. destruct ids as [|x ids]; [|by exists x, c1, i1, s1].
  rewrite run_bind. destruct (works_DoDrive F c1 (FilesCreate name parent mime content) Hc1 i1 s1 HP1)
    as (y & c2 & i2 & s2 & Hrun2 & Hc2 & HP2).
  unfold Files_Create. rewrite Hrun2. by exists y, c2, i2, s2.
Qed.

Lemma works_ensure_chain F fs c p parent : mine c →
  works_client (live (λ x, o_files x = F)) (ensure_chain u c fs p parent) (λ _, live (λ x, o_files x = F)).
Proof.
  revert c p parent. induction fs as [|f fs IH]; intros c p parent Hc; cbn [ensure_chain]; [by apply works_client_ok|].
  intros i s HP. set (path := if bool_decide (p = EmptyString) then f else Join [p; f]). rewrite run_bind.
  destruct (run_total orc (Drive.Get u path) i s) as (cached & i1 & s1 & Hget); [unfold Drive.Get; walk_prog|].
  assert (HP1 : live (λ x, o_files x = F) s1).
  { revert Hget. unfold Drive.Get, cli_Get. rewrite run_bind, run_call, exec_Redis by apply Hrel. cbv zeta. cbn [fst snd].
    destruct (rstr _ _ _); [|case_match]; by intros [= _ _ <-]. }
  rewrite Hget. cbv beta iota. assert (Hmiss : ∃ a c' i' s',
    run orc ('(folderID, c) ← EnsureFolder c parent f;
      match folderID with
      | Err e => mret (Err (EWrap ("ensure folder " +:+ f) e), c)
      | Ok folderID => _ ← Set_ u path folderID cache_ttl; ensure_chain u c fs path folderID
      end) i1 s1 = Some ((Ok a, c'), i', s') ∧ mine c' ∧ live (λ x, o_files x = F) s').
  { rewrite run_bind. destruct (works_find_or_create F c (folder_query (escape f) parent) f parent folderMime EmptyString "list folders" "create folder" Hc i1 s1 HP1)
      as (y & c2 & i2 & s2 & Hrun & Hc2 & HP2). change (EnsureFolder c parent f) with
      (find_or_create c (folder_query (escape f) parent) f parent folderMime EmptyString "list folders" "create folder"). rewrite Hrun. cbv beta iota. rewrite run_bind.
    destruct (run_total orc (Set_ u path y cache_ttl) i2 s2) as (r & i3 & s3 & Hset); [unfold Set_; walk_prog|].
    rewrite Hset. apply IH; [done|]. revert Hset. unfold Set_. rewrite run_bind, run_call. unfold cli_Set.
    rewrite exec_Redis by apply Hrel. cbv zeta. cbn [fst snd]. by intros [= _ _ <-]. }
  destruct cached as [ [x|]|e]; [by apply IH|exact Hmiss|exact Hmiss].
Qed.

Lemma works_upload_attachments F names c parent : mine c →
  (∀ n, n ∈ names → is_Some (F !! Join [dataDir; "attachments"; uuid_String id; n])) →
  works (live (λ x, o_files x = F)) (upload_attachments c dataDir id parent names) (λ _, live (λ x, o_files x = F)).
Proof.
  revert c. induction names as [|n names IH]; intros c Hc HF; cbn [upload_attachments]; [by apply works_ok|].
  destruct (HF n (list_elem_of_here _ _)) as [data Hdata].
  apply (works_bind _ (λ d s, d = data ∧ live (λ x, o_files x = F) s)); [by apply works_ReadFile; intros x ->|].
  intros d. apply works_pure. intros ->.
  apply (works_bind_client _ (λ _, live (λ x, o_files x = F))); [by apply works_find_or_create|].
  intros c1 _ Hc1. apply IH; [done|]. intros n' Hn'. apply HF. by right.
Qed.

(** Everything the stage reads is on the disk. *)
Definition readable (cfg : UploadConfig) (job : Job) (m : RenderMeta) (F : gmap string string) : Prop :=
  meta_for cfg job F m ∧ is_Some (F !! path_of dataDir id Pdf) ∧
  ∀ n, n ∈ rm_AttachmentNames m → is_Some (F !! path_of dataDir id (Attached n)).

Lemma works_Upload cfg job m F : ID job = id → UserID job = Some u → DataDir cfg = dataDir → readable cfg job m F →
  works (live (λ x, o_files x = F)) (Upload cfg key job) (λ st s, st = EmptyString ∧ live (λ x, o_files x = F) s).
Proof.
  intros HI Hu HD ((metaB & m0 & HmB & Hun & ->) & [pdf Hpdf] & Hatt). unfold Upload. rewrite Hu.
  apply (works_bind _ (λ d s, d = metaB ∧ live (λ x, o_files x = F) s)); [by apply works_ReadFile; intros x ->|].
  intros d. apply works_pure. intros ->. rewrite Hun. cbv zeta.
  apply (works_bind _ (λ c s, mine c ∧ live (λ x, o_files x = F) s)); [apply works_connect|]. intros c. apply works_pure. intros Hc.
  apply (works_bind_client _ (λ _, live (λ x, o_files x = F)) _ _ _ (λ e, e)); [by apply works_ensure_chain|].
  intros c1 parent Hc1. unfold upload_files. rewrite HD, HI.
  apply (works_bind _ (λ d s, d = pdf ∧ live (λ x, o_files x = F) s)); [by apply works_ReadFile; intros x ->|].
  intros d. apply works_pure. intros ->.
  apply (works_bind_client _ (λ _, live (λ x, o_files x = F))); [by apply works_find_or_create|]. intros c2 _ Hc2.
  apply (works_bind _ (λ _, live (λ x, o_files x = F)) _ _ _ (λ e, e)); [by apply works_upload_attachments|].
  intros _. by apply works_ok.
Qed.

End works.
