(* ===== verification/Delivery.v ===== *)
(** * New mail is delivered

    Deploy.v shows that a job that is done was delivered, whatever failed.
    Here is the other half: when nothing fails, three turns of the workers
    take a queued job from its stage fetch to the user's Drive. *)
From S2P Require Import Prelude Redis Schema GoStrings Utf8 Calendar Times Json Meta Paths Base64 Mime Html Services Effects Files Disk Queue Store Worker OAuth Gmail Drive Fetch Render Upload Forest Names Pipeline Noop Command Background Placement Serve Deploy Works.
Local Open Scope Z_scope.

(** ** A turn in which nothing fails *)

Section turn.
Context `{UL : UuidLib} `{PG : !PgServer} `{RS : RedisServer} `{DS : DriveServer}.
Variables (orc : nat → outcome) (h : Job → prog (result string)) (cfg : Worker.Config).
Hypothesis Hrel : reliable orc.
Hypothesis h_queues : ∀ job, calls_only keeps_queues (h job).

(** The row behind a turn whose handler answered [st]. *)
Definition settled_row (st : string) (t : Z) (j : Job) : Job :=
  if decide (st = EmptyString) then done_row t j else advance_row st t j.

Lemma settled_row_job_ok db id st t j : job_ok db id j → Status j = StatusRunning → job_ok db id (settled_row st t j).
Proof. intros Hj Hr. unfold settled_row. case_decide; [by apply job_ok_done|by apply job_ok_advance]. Qed.

Lemma settled_row_key st t j : Status j = StatusRunning →
  live_key (settled_row st t j) = None ∨ live_key (settled_row st t j) = live_key j.
Proof. intros Hr. unfold settled_row. case_decide; [by left|right; by apply live_key_advance]. Qed.

(** The settling, with what it pushes. *)
Lemma run_settle_ok id job st i s :
  db_ok (s_db s) → jobs s !! id = Some job → Status job = StatusRunning →
  ∃ t i' s', run orc (if decide (st = EmptyString) then settle_done id else settle_advance id st) i s =
      Some ((true, Ok tt), i', s') ∧ s_ext s' = s_ext s ∧
    s_db s' = with_jobs (<[id := settled_row st t job]> (jobs s)) (s_db s) ∧
    ∀ k, rlist (s_redis s') k = (if decide (k = key st ∧ st ≠ EmptyString) then [uuid_String id] else []) ++ rlist (s_redis s) k.
Proof.
  intros Hok Hj Hr. unfold jobs, settled_row in *. case_decide as Hst.
  - unfold settle_done. rewrite run_bind. destruct (run_MarkDone_ok orc Hrel id i s job Hok Hj) as (t & _ & ->).
    eexists t, _, _. split; [done|]. split; [done|]. split; [done|]. intros k. by rewrite decide_False by tauto.
  - unfold settle_advance. rewrite run_bind. destruct (run_AdvanceJob_ok orc Hrel id st i s job Hok Hj Hr) as (t & _ & ->).
    rewrite run_bind. unfold Push. rewrite run_bind, run_call. unfold cli_LPush. rewrite exec_Redis by apply Hrel.
    eexists t, _, _. split; [done|]. split; [done|]. split; [done|]. intros k. cbn.
    rewrite rlist_LPush by apply key_list. destruct (decide (k = key st)) as [->|Hk].
    + by rewrite decide_True by done.
    + by rewrite decide_False by tauto.
Qed.

Variables (id : uuid) (j : Job) (st : string) (Q : shared → Prop).

(** The handler succeeds on the claimed row. *)
Definition handler_works (s : shared) : Prop := ∀ t i1 s1, s_ext s1 = s_ext s →
  s_db s1 = with_jobs (<[id := claim_row (c_WorkerID cfg) t j]> (jobs s)) (s_db s) →
  ∃ i2 s2, run orc (h (claim_row (c_WorkerID cfg) t j)) i1 s1 = Some (Ok st, i2, s2) ∧ Q s2.

Lemma run_serve_popped_ok raw i s :
  uuid_Parse raw = Ok id → db_ok (s_db s) → jobs s !! id = Some j → Status j = StatusQueued → handler_works s →
  ∃ t t' i' s2 s', run orc (serve h (process_popped cfg raw)) i s = Some ((true, Ok tt), i', s') ∧
    Q s2 ∧ s_ext s' = s_ext s2 ∧ users (s_db s2) = users (s_db s) ∧
    s_db s' = with_jobs (<[id := settled_row st t' (claim_row (c_WorkerID cfg) t j)]> (jobs s)) (s_db s2) ∧ db_ok (s_db s') ∧
    ∀ k, rlist (s_redis s') k = (if decide (k = key st ∧ st ≠ EmptyString) then [uuid_String id] else []) ++ rlist (s_redis s) k.
Proof.
  intros Hp Hok Hj Hq Hh. unfold process_popped. rewrite Hp, run_serve_bind, run_serve_plain by apply ClaimJob_plain.
  destruct (run_ClaimJob_ok orc Hrel id (c_WorkerID cfg) i s j Hok Hj Hq) as (t & _ & ->).
  set (jc := claim_row _ t j). set (s1 := mk_shared _ _ _ _).
  assert (Hjc : jobs s1 !! id = Some jc) by (cbn; by rewrite lookup_insert_eq).
  assert (Hok1 : db_ok (s_db s1)).
  { cbn. apply db_ok_put; [done|apply job_ok_claim; [by apply (ok_jobs _ Hok)|done]|].
    eapply live_key_free_keep; [done..|]. right. by apply live_key_claim. }
  rewrite run_serve_bind, run_serve_plain by apply GetJob_plain.
  destruct (run_GetJob_ok orc Hrel id (S i) s1 jc Hjc) as (t2 & _ & ->). cbv beta iota.
  unfold process_job. rewrite run_serve_bind, run_serve_handle.
  destruct (Hh t (S (S i)) (mk_shared (s_db s1) (s_redis s1) (s_ext s1) t2)) as (i2 & s2 & Hrun & HQ); [done..|].
  fold jc in Hrun. rewrite Hrun. cbv beta iota.
  destruct (run_keeps_queues _ _ _ _ _ _ _ (h_queues jc) Hrun) as [ (Hjobs & Hus & _) Hl].
  rewrite run_serve_plain by apply (settle_plain id (Ok st) jc).
  assert (Hj2 : jobs s2 = <[id := jc]> (jobs s)) by exact Hjobs.
  destruct (run_settle_ok id jc st i2 s2) as (t' & i' & s' & Hrun' & Hx & Hdb & Hq').
  - eapply db_ok_frame; [exact Hjobs|by rewrite Hus|exact Hok1].
  - by rewrite Hj2, lookup_insert_eq.
  - done.
  - rewrite Hj2, insert_insert_eq in Hdb. exists t, t', i', s2, s'. split; [exact Hrun'|]. do 3 (split; [done|]).
    split; [done|]. split; [|by intros k; rewrite Hq', Hl].
    eapply (db_ok_frame (with_jobs (<[id := settled_row st t' jc]> (jobs s1)) (s_db s1))).
    + rewrite Hdb. cbn. by rewrite insert_insert_eq.
    + rewrite Hdb. cbn. by rewrite Hus.
    + apply db_ok_put; [done|apply settled_row_job_ok; [by apply (ok_jobs _ Hok1)|done]|].
      eapply live_key_free_keep; [exact Hok1|exact Hjc|by apply settled_row_key].
Qed.

(** One turn: the job at the end of the stage's queue is claimed, handled, and
    on its way. *)
Record turn_done (s s2 s' : shared) (l : list string) : Prop := {
  td_handled : Q s2;
  td_ext : s_ext s' = s_ext s2;
  td_users : users (s_db s2) = users (s_db s);
  td_row : ∃ t t', s_db s' = with_jobs (<[id := settled_row st t' (claim_row (c_WorkerID cfg) t j)]> (jobs s)) (s_db s2);
  td_ok : db_ok (s_db s');
  td_queues st' : rlist (s_redis s') (key st') =
    (if decide (st' = st ∧ st ≠ EmptyString) then [uuid_String id] else []) ++
    (if decide (st' = c_Stage cfg) then l else rlist (s_redis s) (key st'))
}.

Lemma run_serve_turn raw i s l :
  uuid_Parse raw = Ok id → db_ok (s_db s) → jobs s !! id = Some j → Status j = StatusQueued → handler_works s →
  rlist (s_redis s) (key (c_Stage cfg)) = l ++ [raw] →
  ∃ i' s2 s', run orc (serve h (ProcessOne cfg)) i s = Some ((true, Ok tt), i', s') ∧ turn_done s s2 s' l.
Proof.
  intros Hp Hok Hj Hq Hh Hl. unfold ProcessOne. rewrite run_serve_bind, run_serve_plain by apply BlockingPop_plain.
  destruct (run_BlockingPop orc Hrel (c_Stage cfg) (c_WorkerID cfg) (PopTimeout cfg) i s) as (s1 & (Hd & _ & Hl1 & _) & Hr).
  rewrite Hl, unsnoc_app in Hr. destruct Hr as (Hrun & Hk & _). rewrite Hrun. cbv beta iota.
  assert (Hne : ∀ st w tmo, calls_only not_ext (BlockingPop st w tmo)) by (intros; unfold BlockingPop; walk_prog).
  pose proof (run_not_ext _ _ _ _ _ _ _ (Hne _ _ _) Hrun) as Hx. assert (Hjobs : jobs s1 = jobs s) by (unfold jobs; by rewrite Hd).
  assert (Hh1 : handler_works s1) by (intros t i1 s2; rewrite Hx, Hd, Hjobs; apply Hh).
  rewrite <- Hd in Hok. rewrite <- Hjobs in Hj. rewrite run_serve_bind.
  destruct (run_serve_popped_ok raw (S i) s1 Hp Hok Hj Hq Hh1) as (t & t' & i2 & s2 & s3 & Hrun3 & HQ & Hx3 & Hus & Hdb & Hok3 & Hl3).
  rewrite Hrun3. cbv beta iota. rewrite run_serve_bind, run_serve_plain by apply Ack_plain.
  destruct (run_Ack orc Hrel (c_Stage cfg) (c_WorkerID cfg) raw i2 s3) as (s4 & Ha & (Hd4 & _ & Hl4 & _) & _).
  assert (Hna : ∀ st w x, calls_only not_ext (Ack st w x)) by (intros; unfold Ack; walk_prog).
  rewrite Ha. exists (S i2), s2, s4. split; [done|]. pose proof (run_not_ext _ _ _ _ _ _ _ (Hna _ _ _) Ha) as Hx4.
  constructor; [done|congruence|by rewrite Hus, Hd| |by rewrite Hd4|].
  - exists t, t'. by rewrite Hd4, Hdb, Hjobs.
  - intros st'. rewrite Hl4 by (rewrite not_elem_of_cons; split; [apply key_processingKey|apply not_elem_of_nil]). rewrite Hl3. f_equal.
    + apply decide_ext. split; [by intros [?%key_inj ?]|by intros [-> ?] ].
    + destruct (decide (st' = c_Stage cfg)) as [->|Hc]; [done|]. by rewrite Hl1 by auto using key_notin.
Qed.
End turn.

(** ** What Gmail answered *)

Section answers.
Context `{UL : UuidLib} `{PG : !PgServer} `{RS : RedisServer} `{DS : DriveServer} `{AE : AeadLib}
  `{ML : MailLib} `{TP : TimeParser}.

Lemma run_Do_answer {X} orc c (rq : api_req X) x c' i s i' s' : reliable orc →
  run orc (Do c rq) i s = Some ((Ok x, c'), i', s') → ∃ k, o_api (orc k) X rq = Ok x.
Proof.
  intros Hrel. unfold Do. rewrite run_bind. destruct (run orc (source c) i s) as [ [ [ [ [tok|e] c1] i1] s1]|]; try done.
  cbv beta iota. rewrite run_bind, run_call. cbn [exec fst snd]. rewrite (Hrel i1). cbn [with_fault fst snd].
  intros [= H _ _ _]. by exists i1.
Qed.

Lemma run_FetchMessage_answer orc c gid raw c' i s i' s' : reliable orc →
  run orc (FetchMessage c gid) i s = Some ((Ok raw, c'), i', s') →
  ∃ k text, o_api (orc k) string (MessagesGet (userID c) gid "raw") = Ok text ∧ decoded text = Some raw.
Proof.
  intros Hrel. unfold FetchMessage. rewrite run_bind.
  destruct (run orc (Do c _) i s) as [ [ [ [ [text|e] c1] i1] s1]|] eqn:E; try done. cbv beta iota.
  apply run_Do_answer in E as [k Hk]; [|done]. intros H. exists k, text. split; [done|]. revert H. unfold decoded.
  destruct (DecodeString URLEncoding false text) as [b|]; [by intros [= -> _ _ _]|].
  destruct (DecodeString URLEncoding true text) as [b|]; [by intros [= -> _ _ _]|done].
Qed.

Lemma run_New_user orc u key c i s i' s' : run orc (Gmail.New u key) i s = Some (Ok c, i', s') → userID c = u.
Proof.
  unfold Gmail.New, connect. rewrite run_bind. destruct (run orc (LoadToken _ _ _) i s) as [ [ [ [tok|e] i1] s1]|]; try done.
  cbv beta iota. rewrite run_bind, run_call. destruct (exec _ _ _).1 as [?|e]; [|done]. by intros [= <- _ _].
Qed.

Lemma fetched_answer l u gid raw : Forall (λ x, reliable x.1.1) l → fetched_in l u gid raw →
  ∃ orc lo hi k text, (orc, lo, hi) ∈ l ∧ o_api (orc k) string (MessagesGet u gid "raw") = Ok text ∧ decoded text = Some raw.
Proof.
  intros Hl (orc & lo & hi & key & c & c' & Hin & (i & s & i' & s' & _ & _ & Hn) & (i2 & s2 & i2' & s2' & _ & _ & Hf)).
  rewrite Forall_forall in Hl. apply run_New_user in Hn as <-.
  apply run_FetchMessage_answer in Hf as (k & text & Hk & Hd); [|exact (Hl _ Hin)]. by exists orc, lo, hi, k, text.
Qed.

Lemma fetched_in_cons x l u gid raw : fetched_in (x :: l) u gid raw → fetched_in [x] u gid raw ∨ fetched_in l u gid raw.
Proof.
  intros (orc & lo & hi & key & c & c' & [<-|Hin]%elem_of_cons & H); [left|right]; exists orc, lo, hi, key, c, c'; [|done].
  split; [apply list_elem_of_here|done].
Qed.

(** No message Gmail may answer has a sender with a slash or backslash. *)
Definition plain_senders (orc : nat → outcome) : Prop := ∀ k u gid text raw parsed,
  o_api (orc k) string (MessagesGet u gid "raw") = Ok text → decoded text = Some raw →
  parseMessage raw = Some (Ok parsed) → no_slash (pm_FromEmail parsed).

Lemma fetched_one orc lo hi u gid raw : reliable orc → fetched_in [(orc, lo, hi)] u gid raw →
  ∃ k text, o_api (orc k) string (MessagesGet u gid "raw") = Ok text ∧ decoded text = Some raw.
Proof.
  intros Hrel (orc' & lo' & hi' & k & text & Hin & H)%fetched_answer; [|by apply Forall_singleton].
  apply list_elem_of_singleton in Hin. injection Hin as ? _ _. subst orc'. by exists k, text.
Qed.

Lemma senders_cons orc lo hi l : reliable orc → plain_senders orc → senders (seen l) → senders (seen ((orc, lo, hi) :: l)).
Proof.
  intros Hrel Ho Hl u gid raw parsed H Hp. destruct (fetched_in_cons _ _ _ _ _ H) as [H1|H1]; [|by eapply Hl].
  destruct (fetched_one _ _ _ _ _ _ Hrel H1) as (k & text & Hk & Hd). by eapply Ho.
Qed.
End answers.

(** ** Three turns *)

Section delivery.
Context `{UL : UuidLib} `{PG : !PgServer} `{RS : RedisServer} `{DS : DriveServer} `{AE : AeadLib}
  `{ML : MailLib} `{TP : TimeParser}.
Variable getenv : string → string.
Variables (u : uuid) (key : list Byte.byte) (id : uuid) (j0 : Job).
Hypothesis Hkey : loadGoogleCfgAndKey getenv = Start key.
Hypothesis Hid : plain_id id.
Hypothesis HI : ID j0 = id.
Hypothesis Huser : UserID j0 = Some u.

Abbreviation dir := (data_dir getenv).

(** The job waits for a stage, with what the stage needs; the queues of the
    later stages are empty. *)
Record waiting (stage : string) (ahead : list string) (X : outside → Prop) (s : shared) : Prop := {
  w_ok : db_ok (s_db s);
  w_row : ∃ j, jobs s !! id = Some j ∧ same_message j0 j ∧ Status j = StatusQueued ∧ Stage j = stage;
  w_live : live u key X s;
  w_queue : ∃ l, rlist (s_redis s) (Queue.key stage) = l ++ [uuid_String id];
  w_ahead st : st ∈ ahead → rlist (s_redis s) (Queue.key st) = []
}.

(** The handler succeeds with [next] on every row of the job. *)
Definition stage_works (orc : nat → outcome) (h : Job → prog (result string)) (stage next : string)
    (X Y : outside → Prop) : Prop :=
  ∀ job, same_message j0 job → Stage job = stage → works orc (live u key X) (h job) (λ st s, st = next ∧ live u key Y s).

Lemma same_message_trans j1 j2 j3 : same_message j1 j2 → same_message j2 j3 → same_message j1 j3.
Proof. intros [] []. constructor; congruence. Qed.

Lemma account_frame db db' : users db' = users db → oauth_tokens db' = oauth_tokens db → account u key db → account u key db'.
Proof. unfold account, stored. by intros -> ->. Qed.

Lemma live_handler orc h cfg stage next X Y s j :
  live u key X s → stage_works orc h stage next X Y → same_message j0 j → Stage j = stage →
  handler_works orc h cfg id j next (live u key Y) s.
Proof.
  intros [Ha HX] Hw Hm Hst t i1 s1 Hx Hd.
  destruct (Hw (claim_row (c_WorkerID cfg) t j)) with (i := i1) (s := s1) as (st & i2 & s2 & Hrun & -> & HY).
  - by eapply same_message_trans; [exact Hm|].
  - done.
  - split; [|by rewrite Hx]. by apply (account_frame (s_db s)); rewrite ?Hd.
  - by exists i2, s2.
Qed.

(** A turn in the middle of the chain. *)
Lemma waiting_turn orc h cfg next ahead X Y i s :
  reliable orc → (∀ job, calls_only keeps_queues (h job)) → next ≠ EmptyString → c_Stage cfg ≠ next →
  next ∉ ahead → c_Stage cfg ∉ ahead →
  stage_works orc h (c_Stage cfg) next X Y → waiting (c_Stage cfg) (next :: ahead) X s →
  ∃ i' s', run orc (serve h (ProcessOne cfg)) i s = Some ((true, Ok tt), i', s') ∧
    waiting next ahead Y s' ∧ rlist (s_redis s') (Queue.key next) = [uuid_String id].
Proof.
  intros Hrel Hh Hne Hst Hn1 Hn2 Hw Hwait. pose proof Hwait as [Hok (j & Hj & Hm & Hq & HS) Hlive [l Hl] Hah].
  destruct (run_serve_turn orc h cfg Hrel Hh id j next (live u key Y) (uuid_String id) i s l (uuid_Parse_String id) Hok Hj Hq) as (i' & s2 & s' & Hrun & Htd);
    [by eapply live_handler|done|].
  destruct Htd as [ [Ha HY] Hx Hus (t & t' & Hd) Hok' Hqs]. unfold settled_row in Hd. rewrite decide_False in Hd by done.
  exists i', s'. split; [done|].
  assert (Hnext : rlist (s_redis s') (Queue.key next) = [uuid_String id]).
  { rewrite Hqs, decide_True, decide_False, Hah by (done || apply list_elem_of_here). done. }
  split; [|done]. constructor.
  - done.
  - eexists. unfold jobs. rewrite Hd. cbn. rewrite lookup_insert_eq. split; [done|]. split; [|done].
    by eapply same_message_trans.
  - split; [|by rewrite Hx]. by apply (account_frame (s_db s2)); rewrite ?Hd.
  - by exists [].
  - intros st Hin. rewrite Hqs, !decide_False by (try intros [-> _]; try intros ->; done). apply Hah. by right.
Qed.

(** The last turn. *)
Lemma waiting_last orc h cfg ahead X Y i s :
  reliable orc → (∀ job, calls_only keeps_queues (h job)) →
  stage_works orc h (c_Stage cfg) EmptyString X Y → waiting (c_Stage cfg) ahead X s →
  ∃ i' s' j, run orc (serve h (ProcessOne cfg)) i s = Some ((true, Ok tt), i', s') ∧
    jobs s' !! id = Some j ∧ same_message j0 j ∧ Status j = StatusDone ∧ Stage j = c_Stage cfg.
Proof.
  intros Hrel Hh Hw Hwait. pose proof Hwait as [Hok (j & Hj & Hm & Hq & HS) Hlive [l Hl] _].
  destruct (run_serve_turn orc h cfg Hrel Hh id j EmptyString (live u key Y) (uuid_String id) i s l (uuid_Parse_String id) Hok Hj Hq) as (i' & s2 & s' & Hrun & Htd);
    [by eapply live_handler|done|].
  destruct Htd as [_ _ _ (t & t' & Hd) _ _]. eexists i', s', _. split; [done|]. unfold jobs. rewrite Hd. cbn.
  rewrite lookup_insert_eq. split; [done|]. split; [by eapply same_message_trans|done].
Qed.

(** ** The three stages *)

(** In the turns of [orc] nothing fails and everything answers; [text] is what
    Gmail answers for the message. *)
Record answering (orc : nat → outcome) (gid text : string) : Prop := {
  an_reliable : reliable orc;
  an_tokens : tokens_for orc u;
  an_service k : o_api (orc k) unit NewService = Ok tt;
  an_message k : o_api (orc k) string (MessagesGet u gid "raw") = Ok text;
  an_renderer : renders orc;
  an_senders : plain_senders orc
}.

(** The message can be parsed, its metadata written, and its attachments'
    names survive JSON. *)
Record good_message (text raw : string) (parsed : ParsedMessage) : Prop := {
  gm_decoded : decoded text = Some raw;
  gm_parsed : parseMessage raw = Some (Ok parsed);
  gm_meta : ∃ mb, MarshalMeta (meta_of j0 parsed (names_of (Attachments parsed))) = Ok mb;
  gm_names : Forall (λ n, to_valid n = n) (names_of (Attachments parsed))
}.

Lemma key_size : length key = KeySize.
Proof. by apply (loadGoogleCfgAndKey_length getenv). Qed.

Lemma meta_of_same job parsed names : same_message j0 job → meta_of job parsed names = meta_of j0 parsed names.
Proof. intros [_ _ _ Hc]. unfold meta_of. by rewrite Hc. Qed.

Lemma stage_works_fetch orc gid text raw parsed : GmailMessageID j0 = Some gid →
  answering orc gid text → good_message text raw parsed →
  stage_works orc (Fetch dir key) "fetch" "render" (room dir id) (roomy dir id (holds_file (path_of dir id Mime) raw)).
Proof.
  intros Hg [Hrel Htok Hsvc Hmsg _ _] [Hd _ _ _] job [JI JU JG _] _.
  apply (works_Fetch orc Hrel u key key_size Htok Hsvc dir id Hid job gid text raw); congruence || done.
Qed.

Lemma stage_works_render orc gid text raw parsed : answering orc gid text → good_message text raw parsed →
  stage_works orc (Render dir) "render" "upload" (roomy dir id (holds_file (path_of dir id Mime) raw)) (room dir id).
Proof.
  intros [Hrel _ _ _ Hr _] [_ Hp [mb Hm] _] job Hs _. pose proof Hs as [JI _ _ _].
  apply (works_Render orc Hrel u key dir id Hid job raw parsed mb); [congruence|done|done|by rewrite meta_of_same].
Qed.

Lemma stage_works_upload orc gid text m F : answering orc gid text →
  (∀ job, same_message j0 job → readable dir id (upload_config getenv) job m F) →
  stage_works orc (Upload (upload_config getenv) key) "upload" EmptyString (λ x, o_files x = F) (λ x, o_files x = F).
Proof.
  intros [Hrel Htok Hsvc _ _ _] Hm job Hs _. pose proof Hs as [JI JU _ _].
  apply (works_Upload orc Hrel u key key_size Htok Hsvc dir id (upload_config getenv) job m F); [congruence|congruence|done|by apply Hm].
Qed.

(** What is packed for the upload can be read. *)
Lemma packed_readable l F j parsed : same_message j0 j → packed getenv (seen l) F j →
  (∀ gid raw p, GmailMessageID j = Some gid → fetched_in l u gid raw → parseMessage raw = Some (Ok p) → p = parsed) →
  Forall (λ n, to_valid n = n) (names_of (Attachments parsed)) →
  ∃ m, ∀ job, same_message j0 job → readable dir id (upload_config getenv) job m F.
Proof.
  intros Hs (u' & p & pdf & m & [Mu (gid & raw & Mg & Mf & Mp) _ _ _ _ Mn] & Hmeta & Hpdf & Hatt) Hraw Hnames.
  pose proof Hs as [JI JU _ _]. assert (u' = u) as -> by congruence. pose proof (Hraw gid raw p Mg Mf Mp) as ->.
  exists m. intros job Hj. rewrite HI in JI. rewrite JI in Hpdf, Hatt.
  split; [|split; [by eexists|] ].
  - apply (meta_for_same getenv j job F F); [|done|done]. destruct Hj, Hs. constructor; congruence.
  - intros n Hn. rewrite Mn in Hn. apply list_elem_of_fmap in Hn as (n' & -> & Hn').
    rewrite Forall_forall in Hnames. rewrite (Hnames n' Hn'). by eexists; apply Hatt.
Qed.
End delivery.

(** ** The theorem *)

Section delivered.
Context `{UL : UuidLib} `{PG : !PgServer} `{RS : RedisServer} `{DS : DriveServer} `{AE : AeadLib}
  `{ML : MailLib} `{TP : TimeParser}.
Variable getenv : string → string.
Hypothesis dates : ∀ d t, ParseDate d = Ok t → t_off t mod 60 = 0.
Hypothesis root_id : drive_id_ok (root_of (upload_config getenv)).
Hypothesis root_path : RootPath (upload_config getenv) ≠ EmptyString →
  Forall folder_name (root_folders (RootPath (upload_config getenv))).

(** A system that has been running for a while, in which a user's message
    waits for its first stage. *)
Record arrived (l : history) (s0 s : shared) (u : uuid) (key : list Byte.byte) (id : uuid) (j : Job) (gid : string) : Prop := {
  ar_deployed : deployed getenv true l s0 s;
  ar_senders : senders (seen l);
  ar_starts : starts getenv s0;
  ar_key : loadGoogleCfgAndKey getenv = Start key;
  ar_ok : db_ok (s_db s);
  ar_account : account u key (s_db s);
  ar_room : room (data_dir getenv) id (s_ext s);
  ar_row : jobs s !! id = Some j;
  ar_user : UserID j = Some u;
  ar_message : GmailMessageID j = Some gid;
  ar_status : Status j = StatusQueued;
  ar_stage : Stage j = "fetch";
  ar_queue : ∃ q, rlist (s_redis s) (Queue.key "fetch") = q ++ [uuid_String id];
  ar_own : on_stage "fetch" s;
  ar_render : rlist (s_redis s) (Queue.key "render") = [];
  ar_upload : rlist (s_redis s) (Queue.key "upload") = []
}.

Definition worker (stage w : string) : Worker.Config := worker_config getenv stage w.

Lemma alone_on_stage u key id j0 stage ahead X s :
  waiting u key id j0 stage ahead X s → rlist (s_redis s) (Queue.key stage) = [uuid_String id] → on_stage stage s.
Proof.
  intros [_ (j & Hj & _ & _ & HS) _ _ _] Hq raw id' j'. rewrite Hq. intros ->%list_elem_of_singleton.
  rewrite uuid_Parse_String. intros [= <-] Hj' _. congruence.
Qed.

Lemma turn_ok l s0 s stage w h orc i s' i' r :
  deployed getenv true l s0 s → worker_main getenv true stage w = Start (worker stage w, h) → on_stage stage s →
  run orc (serve h (ProcessOne (worker stage w))) i s = Some ((true, r), i', s') →
  deployed getenv true ((orc, i, i') :: l) s0 s'.
Proof. intros Hd Hw Hon Hrun. by eapply dep_turn. Qed.

Lemma workers_start key w : loadGoogleCfgAndKey getenv = Start key →
  worker_main getenv true "fetch" w = Start (worker "fetch" w, Fetch (data_dir getenv) key) ∧
  worker_main getenv true "render" w = Start (worker "render" w, Render (data_dir getenv)) ∧
  worker_main getenv true "upload" w = Start (worker "upload" w, Upload (upload_config getenv) key).
Proof. intros Hk. unfold worker_main, stage_handler. cbn. rewrite Hk. done. Qed.

(** The message stays what Gmail answered first. *)
Lemma same_raw l u gid text raw orc1 orc2 a1 b1 a2 b2 :
  answering u orc1 gid text → answering u orc2 gid text → decoded text = Some raw →
  (∀ raw', fetched_in l u gid raw' → raw' = raw) →
  ∀ raw', fetched_in ((orc2, a2, b2) :: (orc1, a1, b1) :: l) u gid raw' → raw' = raw.
Proof.
  intros H1 H2 Hd Hl raw'. assert (H : ∀ orc a b, answering u orc gid text → fetched_in [(orc, a, b)] u gid raw' → raw' = raw).
  { intros orc a b Ho (k & t & Hk & Ht)%fetched_one; [|apply Ho]. rewrite (an_message _ _ _ _ Ho) in Hk.
    injection Hk as <-. congruence. }
  intros [Hf|[Hf|Hf]%fetched_in_cons]%fetched_in_cons; eauto.
Qed.

Lemma worker_queues stage w h : worker_main getenv true stage w = Start (worker stage w, h) →
  ∀ job, calls_only keeps_queues (h job).
Proof. intros (_ & _ & _ & Hh)%worker_handler job. apply Hh. Qed.

(** Fetch and render. *)
Lemma two_turns l s0 s u key id j gid text raw parsed orc1 orc2 w1 w2 i1 i2 :
  arrived l s0 s u key id j gid → good_message j text raw parsed → plain_id id → ID j = id →
  answering u orc1 gid text → answering u orc2 gid text →
  ∃ k1 k2 s1 s2,
    run orc1 (serve (Fetch (data_dir getenv) key) (ProcessOne (worker "fetch" w1))) i1 s = Some ((true, Ok tt), k1, s1) ∧
    run orc2 (serve (Render (data_dir getenv)) (ProcessOne (worker "render" w2))) i2 s1 = Some ((true, Ok tt), k2, s2) ∧
    deployed getenv true ((orc2, i2, k2) :: (orc1, i1, k1) :: l) s0 s2 ∧
    waiting u key id j "upload" [] (room (data_dir getenv) id) s2 ∧
    rlist (s_redis s2) (Queue.key "upload") = [uuid_String id].
Proof.
  intros [Hdep _ _ Hkey Hok Hacc Hroom Hj Hu Hg Hq HS Hqueue Hon Hr Hup] Hgood Hid HI A1 A2.
  assert (W0 : waiting u key id j "fetch" ["render"; "upload"] (room (data_dir getenv) id) s).
  { constructor; [done|by exists j|by split|done|]. intros st. rewrite !elem_of_cons, elem_of_nil. by intros [->|[->|[]] ]. }
  destruct (workers_start key w1 Hkey) as (S1 & _ & _). destruct (workers_start key w2 Hkey) as (_ & S2 & _).
  set (mail := roomy (data_dir getenv) id (holds_file (path_of (data_dir getenv) id Mime) raw)).
  destruct (waiting_turn u key id j orc1 _ (worker "fetch" w1) "render" ["upload"] (room (data_dir getenv) id) mail i1 s
    (an_reliable _ _ _ _ A1) (worker_queues _ _ _ S1))
    as (k1 & s1 & R1 & W1 & Q1); [done|done|set_solver|set_solver|by eapply stage_works_fetch|exact W0|].
  destruct (waiting_turn u key id j orc2 _ (worker "render" w2) "upload" [] mail (room (data_dir getenv) id) i2 s1
    (an_reliable _ _ _ _ A2) (worker_queues _ _ _ S2))
    as (k2 & s2 & R2 & W2 & Q2); [done|done|set_solver|set_solver|by eapply stage_works_render|exact W1|].
  exists k1, k2, s1, s2. do 2 (split; [done|]). split; [|done].
  pose proof (turn_ok _ _ _ _ _ _ _ _ _ _ _ Hdep S1 Hon R1) as D1.
  exact (turn_ok _ _ _ _ _ _ _ _ _ _ _ D1 S2 (alone_on_stage _ _ _ _ _ _ _ _ W1 Q1) R2).
Qed.

(** C6. New mail is delivered: in a system that has been running for a while
    ([arrived]), whatever failed until then, let the message of a signed-up user
    wait for the fetch stage as the oldest id on its queue, with the queues of
    the later stages empty and room for its files on the disk.  Let the message
    be one that can be parsed, and whose attachments' names are valid UTF-8, so
    that they survive the metadata file.  If nothing fails from now on, and
    Google and the renderer answer, then a turn of a worker of each of the
    three stages succeeds, and behind the third the job is done and has been
    delivered: the message's folder on the user's Drive holds the PDF and every
    attachment with their content (or a file of the same name that was there
    before the message, see [delivered]). *)
Theorem new_mail_delivered l s0 s u key id j gid text raw parsed orc1 orc2 orc3 w1 w2 w3 i1 i2 i3 :
  arrived l s0 s u key id j gid → good_message j text raw parsed →
  answering u orc1 gid text → answering u orc2 gid text → answering u orc3 gid text →
  (∀ raw', fetched_in l u gid raw' → raw' = raw) →
  ∃ k1 k2 k3 s1 s2 s3 j',
    run orc1 (serve (Fetch (data_dir getenv) key) (ProcessOne (worker "fetch" w1))) i1 s = Some ((true, Ok tt), k1, s1) ∧
    run orc2 (serve (Render (data_dir getenv)) (ProcessOne (worker "render" w2))) i2 s1 = Some ((true, Ok tt), k2, s2) ∧
    run orc3 (serve (Upload (upload_config getenv) key) (ProcessOne (worker "upload" w3))) i3 s2 = Some ((true, Ok tt), k3, s3) ∧
    jobs s3 !! id = Some j' ∧ Status j' = StatusDone ∧
    delivered getenv (drives s0) (seen ((orc3, i3, k3) :: (orc2, i2, k2) :: (orc1, i1, k1) :: l)) (drives s3) j'.
Proof.
  intros Har Hgood A1 A2 A3 Hraw. pose proof Har as [Hdep Hsend Hstart Hkey _ _ _ Hj Hu Hg _ _ _ _ _ _].
  pose proof (deployed_ok getenv true dates root_id root_path) as Hplaced.
  pose proof (dk_jobs _ _ _ _ (Hplaced _ _ _ Hdep Hsend Hstart) _ _ Hj) as [HI Hid _].
  destruct (two_turns l s0 s u key id j gid text raw parsed orc1 orc2 w1 w2 i1 i2 Har Hgood Hid HI A1 A2)
    as (k1 & k2 & s1 & s2 & R1 & R2 & D2 & W2 & Q2).
  set (l2 := (orc2, i2, k2) :: (orc1, i1, k1) :: l) in *.
  assert (Hs2 : senders (seen l2)) by (apply senders_cons; [apply A2..|]; apply senders_cons; [apply A1..|done]).
  pose proof W2 as [_ (j2 & Hj2 & Hm2 & _ & HS2) _ _ _].
  pose proof (at_upload _ _ _ _ _ (dk_placed _ _ _ _ (Hplaced _ _ _ D2 Hs2 Hstart) _ _ Hj2) HS2) as Hpk.
  pose proof Hgood as [Hdec Hparse _ Hnames].
  destruct (packed_readable getenv u id j HI Hu l2 (files s2) j2 parsed Hm2 Hpk) as [m Hread]; [|done|].
  { intros gid' raw' p Hg' Hf Hp. assert (gid' = gid) as -> by (destruct Hm2; congruence).
    rewrite (same_raw l u gid text raw _ _ _ _ _ _ A1 A2 Hdec Hraw raw' Hf) in Hp. congruence. }
  destruct (workers_start key w3 Hkey) as (_ & _ & S3).
  destruct (waiting_last u key id j orc3 _ (worker "upload" w3) [] (λ x, o_files x = files s2) (λ x, o_files x = files s2) i3 s2
    (an_reliable _ _ _ _ A3) (worker_queues _ _ _ S3))
    as (k3 & s3 & j3 & R3 & Hj3 & _ & Hd3 & HS3); [by eapply stage_works_upload| |].
  { destruct W2 as [? ? [? _] ? ?]. by constructor. }
  pose proof (turn_ok _ _ _ _ _ _ _ _ _ _ _ D2 S3 (alone_on_stage _ _ _ _ _ _ _ _ W2 Q2) R3) as D3.
  exists k1, k2, k3, s1, s2, s3, j3. do 5 (split; [done|]).
  refine (deploy_delivered getenv _ _ _ id _ (Hplaced _ _ _ D3 _ Hstart) Hj3 HS3 Hd3).
  apply senders_cons; [apply A3..|done].
Qed.
End delivered.

(** ** Witness *)
Import SchemaModel RedisModel DriveModel AeadModel EffectsModel MimeModel.

Definition mail_text : string := EncodeToString URLEncoding false (mail "q1.pdf").

Lemma mail_decoded text raw : text = mail_text → decoded text = Some raw → raw = mail "q1.pdf".
Proof.
  intros -> H. assert (Hd : decoded mail_text = Some (mail "q1.pdf")) by (vm_compute; reflexivity). congruence.
Qed.

Lemma test_answering : answering "u" test_oracle "m1" mail_text.
Proof.
  constructor.
  - intros k. reflexivity.
  - intros k. exists test_token. reflexivity.
  - intros k. reflexivity.
  - intros k. reflexivity.
  - intros k html. eexists. split; [reflexivity|]. split; reflexivity.
  - intros k u gid text raw parsed [= <-] Hd Hp. rewrite (mail_decoded _ raw eq_refl Hd) in Hp.
    assert (Hc : match parseMessage (mail "q1.pdf") with
      | Some (Ok p) => bool_decide (contains_byte "/" (pm_FromEmail p) = false ∧ contains_byte "\" (pm_FromEmail p) = false)
      | _ => true end = true) by (vm_compute; reflexivity).
    rewrite Hp in Hc. by apply bool_decide_eq_true in Hc.
Qed.

Definition mail_parsed : ParsedMessage :=
  match parseMessage (mail "q1.pdf") with Some (Ok p) => p | _ => mk_ParsedMessage EmptyString EmptyString [] EmptyString EmptyString EmptyString (UTC 0) end.

Lemma test_good : good_message new_mail mail_text (mail "q1.pdf") mail_parsed.
Proof.
  constructor.
  - vm_compute. reflexivity.
  - vm_compute. reflexivity.
  - assert (H : is_ok (MarshalMeta (meta_of new_mail mail_parsed (names_of (Attachments mail_parsed)))) = true) by (vm_compute; reflexivity).
    destruct (MarshalMeta _) as [mb|e]; [by exists mb|done].
  - apply (bool_decide_unpack _). vm_compute. reflexivity.
Qed.

Lemma test_arrived : arrived test_env [] test_start test_start "u" test_key "7" new_mail "m1".
Proof.
  constructor; try reflexivity.
  - apply dep_start.
  - intros u gid raw parsed (orc & lo & hi & k & c & c' & Hin & _). by apply elem_of_nil in Hin.
  - apply test_starts.
  - split.
    + intros id j. cbn. rewrite lookup_singleton_Some. intros [<- <-]. by constructor.
    + intros id1 id2 j1 j2. cbn. rewrite !lookup_singleton_Some. by intros [<- _] [<- _].
  - split; [by exists alice|]. exists test_token. exact signed_up_stored.
  - apply room_empty; [split; [done|split; reflexivity]|reflexivity..].
  - by exists [].
  - apply on_stage_spec. vm_compute. reflexivity.
Qed.

Lemma new_mail_delivered_witness : ∃ k1 k2 k3 s1 s2 s3 j',
  run test_oracle (serve (Fetch (data_dir test_env) test_key) (ProcessOne (worker test_env "fetch" "w1"))) 0 test_start = Some ((true, Ok tt), k1, s1) ∧
  run test_oracle (serve (Render (data_dir test_env)) (ProcessOne (worker test_env "render" "w2"))) 0 s1 = Some ((true, Ok tt), k2, s2) ∧
  run test_oracle (serve (Upload (upload_config test_env) test_key) (ProcessOne (worker test_env "upload" "w3"))) 0 s2 = Some ((true, Ok tt), k3, s3) ∧
  jobs s3 !! "7" = Some j' ∧ Status j' = StatusDone ∧
  delivered test_env (drives test_start) (seen [(test_oracle, 0%nat, k3); (test_oracle, 0%nat, k2); (test_oracle, 0%nat, k1)]) (drives s3) j'.
Proof.
  refine (new_mail_delivered test_env model_dates _ _ [] test_start test_start "u" test_key "7" new_mail "m1" mail_text (mail "q1.pdf")
    mail_parsed test_oracle test_oracle test_oracle "w1" "w2" "w3" 0 0 0 test_arrived test_good test_answering test_answering test_answering _).
  - reflexivity.
  - intros Hr. by destruct Hr.
  - intros raw' (orc & lo & hi & k & c & c' & Hin & _). by apply elem_of_nil in Hin.
Defined.
