(* ===== verification/Setup.v ===== *)
(** * Account setup: cmd/oauth-setup

    The command reads its flag and environment, prints a URL, and serves the
    callback until main has a code, an error, or waited five minutes; then it
    exchanges the code, stores the account ([setup_account] in OAuth.v) and
    shuts the server down.  The handlers and main are goroutines that meet in
    two channels of capacity one; [setup_step] is a step of any of them.  A
    request may still arrive while Shutdown waits, on a connection that was
    accepted before. *)
From S2P Require Import Prelude Redis Schema GoStrings Services Effects Store Worker OAuth Command.
Local Open Scope Z_scope.

(** ** Up to the wait *)

Definition callbackPort : string := "8888".

(** oauth2.Config without the endpoint *)
Record oauth_config := mk_oauth_config { ClientID : string; ClientSecret : string; RedirectURL : string; Scopes : list string }.

Definition setup_main (getenv : string → string) (services : bool) (email : string)
    : startup (oauth_config * list Byte.byte) :=
  if decide (email = EmptyString) then Exit 2 else
  and_then (mustEnv getenv "DATABASE_URL") (λ _,
  and_then (mustEnv getenv "GOOGLE_OAUTH_CLIENT_ID") (λ clientID,
  and_then (mustEnv getenv "GOOGLE_OAUTH_CLIENT_SECRET") (λ clientSecret,
  and_then (mustEnv getenv "TOKEN_ENCRYPTION_KEY") (λ keyB64,
  and_then (decode_key keyB64) (λ key,
    if negb services then Exit 1 else
    Start (mk_oauth_config clientID clientSecret ("http://localhost:" +:+ callbackPort +:+ "/callback")
      ["https://www.googleapis.com/auth/gmail.readonly"; "https://www.googleapis.com/auth/drive.file"], key)))))).

(** The state parameter, from the clock. *)
Definition issued_state (now : Z) : string := "dtq-" +:+ pretty now.

(** ** The goroutines *)

(** What a goroutine is about to send: a callback handler the code or an error
    (with the text of its answer, without the newline that http.Error adds),
    the server its error. *)
Inductive sending := SendCode (code : string) | SendErr (e : err) (text : string) | ListenErr (e : err).

(** Where main is; [Exiting] is the deferred Shutdown. *)
Inductive phase := Waiting | Exchanging (code : string) | Exiting | Exited (code : Z).

(** [seen] keeps the state and code of every request to the callback. *)
Record setup := mk_setup {
  seen : list (string * string);
  pending : list sending;
  codeCh : list string;
  errCh : list err;
  answers : list (Z * string);
  main : phase
}.

Definition capacity : nat := 1.

(** The handler up to its send; the answer of the good case is buffered until
    it returns. *)
Definition handle_callback (issued q_state q_code : string) : sending :=
  match callback issued q_state q_code with
  | Ok code => SendCode code
  | Err e => SendErr e (if bool_decide (q_state = issued) then "no code" else "state mismatch")
  end.

Definition done_text : string := "OK. You can close this tab and return to the terminal.".

Definition is_handler (x : sending) : bool := match x with ListenErr _ => false | _ => true end.

Section steps.
Variable issued : string.

Inductive setup_step : setup → setup → Prop :=
| on_request q c sn p cc ec an m :
    (∀ x, m ≠ Exited x) →
    setup_step (mk_setup sn p cc ec an m) (mk_setup ((q, c) :: sn) (handle_callback issued q c :: p) cc ec an m)
| on_listen_error e sn p cc ec an m :
    m = Waiting ∨ (∃ code, m = Exchanging code) →
    setup_step (mk_setup sn p cc ec an m) (mk_setup sn (ListenErr e :: p) cc ec an m)
| on_send_code code p1 p2 sn cc ec an m :
    (∀ x, m ≠ Exited x) → (length cc < capacity)%nat →
    setup_step (mk_setup sn (p1 ++ SendCode code :: p2) cc ec an m)
      (mk_setup sn (p1 ++ p2) (cc ++ [code]) ec ((200, done_text) :: an) m)
| on_send_err e text p1 p2 sn cc ec an m :
    (∀ x, m ≠ Exited x) → (length ec < capacity)%nat →
    setup_step (mk_setup sn (p1 ++ SendErr e text :: p2) cc ec an m)
      (mk_setup sn (p1 ++ p2) cc (ec ++ [e]) ((400, text) :: an) m)
| on_send_listen e p1 p2 sn cc ec an m :
    (∀ x, m ≠ Exited x) → (length ec < capacity)%nat →
    setup_step (mk_setup sn (p1 ++ ListenErr e :: p2) cc ec an m) (mk_setup sn (p1 ++ p2) cc (ec ++ [e]) an m)
| on_code code sn p cc ec an :
    setup_step (mk_setup sn p (code :: cc) ec an Waiting) (mk_setup sn p cc ec an (Exchanging code))
| on_err e sn p cc ec an :
    setup_step (mk_setup sn p cc (e :: ec) an Waiting) (mk_setup sn p cc ec an (Exited 1))
| on_timeout sn p cc ec an :
    setup_step (mk_setup sn p cc ec an Waiting) (mk_setup sn p cc ec an (Exited 1))
| on_account (r : result unit) code sn p cc ec an :
    setup_step (mk_setup sn p cc ec an (Exchanging code))
      (mk_setup sn p cc ec an (if is_ok r then Exiting else Exited 1))
| on_shutdown sn p cc ec an :
    Forall (λ x, is_handler x = false) p →
    setup_step (mk_setup sn p cc ec an Exiting) (mk_setup sn p cc ec an (Exited 0)).

Definition started : setup := mk_setup [] [] [] [] [] Waiting.

(** ** Invariant *)

Definition from_request (sn : list (string * string)) (code : string) : Prop := (issued, code) ∈ sn ∧ code ≠ EmptyString.

(** Whatever a handler is about to send, what is in the channels, and main's
    code stem from requests; the channels keep their capacity. *)
Record setup_ok (s : setup) : Prop := {
  so_pending code : SendCode code ∈ pending s → from_request (seen s) code;
  so_codes code : code ∈ codeCh s → from_request (seen s) code;
  so_main code : main s = Exchanging code → from_request (seen s) code;
  so_answer text : (200, text) ∈ answers s → ∃ code, from_request (seen s) code;
  so_codeCh : (length (codeCh s) ≤ capacity)%nat;
  so_errCh : (length (errCh s) ≤ capacity)%nat
}.

Lemma handle_callback_code q c code : handle_callback issued q c = SendCode code → q = issued ∧ c = code ∧ code ≠ EmptyString.
Proof.
  unfold handle_callback, callback. case_bool_decide as Hq; [|done]. cbn [negb]. case_bool_decide as Hc; [done|].
  intros [= <-]. done.
Qed.

Lemma from_request_more x sn code : from_request sn code → from_request (x :: sn) code.
Proof. intros [H ?]. split; [by right|done]. Qed.

Lemma elem_of_taken {A} (x y : A) l1 l2 : x ∈ l1 ++ l2 → x ∈ l1 ++ y :: l2.
Proof. rewrite !elem_of_app, elem_of_cons. tauto. Qed.

Lemma elem_of_taken_here {A} (x : A) l1 l2 : x ∈ l1 ++ x :: l2.
Proof. apply elem_of_app. right. apply list_elem_of_here. Qed.

Lemma step_ok s s' : setup_step s s' → setup_ok s → setup_ok s'.
Proof.
  intros Hstep [Hp Hc Hm Ha Hcc Hec].
  destruct Hstep as [q c sn p cc ec an m Hacc|e sn p cc ec an m Hacc|code p1 p2 sn cc ec an m Hrun Hlen|e text p1 p2 sn cc ec an m Hrun Hlen
    |e p1 p2 sn cc ec an m Hrun Hlen|code sn p cc ec an|e sn p cc ec an|sn p cc ec an|r code sn p cc ec an|sn p cc ec an Hall];
    cbn [seen pending codeCh errCh answers main] in *; constructor; cbn [seen pending codeCh errCh answers main];
    rewrite ?length_app; try done; try (simpl in *; unfold capacity in *; lia).
  - intros code [H|H]%elem_of_cons; [|by apply from_request_more, Hp].
    symmetry in H. apply handle_callback_code in H as (-> & -> & Hne). split; [apply list_elem_of_here|done].
  - intros code H. by apply from_request_more, Hc.
  - intros code H. by apply from_request_more, Hm.
  - intros text H. destruct (Ha text H) as [code H']. exists code. by apply from_request_more.
  - intros code [H|H]%elem_of_cons; [done|by apply Hp].
  - intros code' H. by apply Hp, elem_of_taken.
  - intros code' [H|H]%elem_of_app; [by apply Hc|]. apply list_elem_of_singleton in H as ->. apply Hp, elem_of_taken_here.
  - intros text [_|H]%elem_of_cons; [|by apply (Ha text)]. exists code. apply Hp, elem_of_taken_here.
  - intros code' H. by apply Hp, elem_of_taken.
  - intros text' [H|H]%elem_of_cons; [done|by apply (Ha text')].
  - intros code' H. by apply Hp, elem_of_taken.
  - intros code' H. apply Hc. by right.
  - intros code' [= <-]. apply Hc, list_elem_of_here.
  - by destruct (is_ok r).
Qed.

Lemma reachable_ok s : rtc setup_step started s → setup_ok s.
Proof.
  intros H. remember started as s0 eqn:E. assert (H0 : setup_ok s0).
  { subst. constructor; cbn; try (intros ? []%elem_of_nil); try done; unfold capacity; lia. }
  clear E. induction H as [|s1 s2 s3 Hs _ IH]; [done|]. apply IH. by eapply step_ok.
Qed.

(** ** The deferred Shutdown *)

Definition is_code (x : sending) : bool := match x with SendCode _ => true | _ => false end.
Definition is_err (x : sending) : bool := match x with SendErr _ _ => true | _ => false end.

Definition count (f : sending → bool) (p : list sending) : nat := length (filter (λ x, f x = true) p).

(** The codes, and the errors, that nobody took: what lies in the channels, in
    errCh also the server's own error if it could not listen, and what handlers
    still have to send. *)
Definition codes (s : setup) : nat := (length (codeCh s) + count is_code (pending s))%nat.
Definition errs (s : setup) : nat := (length (errCh s) + count is_err (pending s))%nat.

Lemma count_app f p1 p2 : count f (p1 ++ p2) = (count f p1 + count f p2)%nat.
Proof. unfold count. by rewrite filter_app, length_app. Qed.

Lemma count_cons f x p : count f (x :: p) = ((if f x then 1 else 0) + count f p)%nat.
Proof. unfold count. rewrite filter_cons. destruct (f x); by case_decide. Qed.

Lemma count_taken f x p1 p2 : count f (p1 ++ x :: p2) = ((if f x then 1 else 0) + count f (p1 ++ p2))%nat.
Proof. rewrite !count_app, count_cons. lia. Qed.

Lemma no_handlers p : count is_code p = 0%nat → count is_err p = 0%nat → Forall (λ x, is_handler x = false) p.
Proof.
  induction p as [|x p IH]; [constructor|]. rewrite !count_cons. intros H1 H2. constructor; [|apply IH; lia].
  destruct x; simpl in *; lia || done.
Qed.

Lemma no_handlers_count p : Forall (λ x, is_handler x = false) p → count is_code p = 0%nat ∧ count is_err p = 0%nat.
Proof. induction 1 as [|x p Hx _ [IH1 IH2] ]; [done|]. rewrite !count_cons, IH1, IH2. by destruct x. Qed.

Lemma find_sending f p : (0 < count f p)%nat → ∃ p1 x p2, p = p1 ++ x :: p2 ∧ f x = true.
Proof.
  induction p as [|x p IH]; [unfold count; simpl; lia|]. rewrite count_cons. destruct (f x) eqn:E.
  - intros _. by exists [], x, p.
  - intros (p1 & y & p2 & -> & Hy)%IH. by exists (x :: p1), y, p2.
Qed.

(** With main in Shutdown nobody receives any more. *)
Lemma exiting_step s s' : setup_step s s' → main s = Exiting →
  (main s' = Exiting ∧ (codes s ≤ codes s')%nat ∧ (errs s ≤ errs s')%nat) ∨
  (main s' = Exited 0 ∧ codes s = length (codeCh s) ∧ errs s = length (errCh s)).
Proof.
  intros Hstep. destruct Hstep as [q c sn p cc ec an m Hacc|e sn p cc ec an m Hacc|code p1 p2 sn cc ec an m Hrun Hlen
    |e text p1 p2 sn cc ec an m Hrun Hlen|e p1 p2 sn cc ec an m Hrun Hlen|code sn p cc ec an|e sn p cc ec an|sn p cc ec an
    |r code sn p cc ec an|sn p cc ec an Hall]; cbn [main]; try done; unfold codes, errs; cbn [codeCh errCh pending]; intros Hm; try subst m.
  - left. rewrite !count_cons. split; [done|lia].
  - by destruct Hacc as [?|[? ?] ].
  - left. rewrite !count_taken, length_app. simpl. split; [done|lia].
  - left. rewrite !count_taken, length_app. simpl. split; [done|lia].
  - left. rewrite !count_taken, length_app. simpl. split; [done|lia].
  - right. destruct (no_handlers_count p Hall) as [-> ->]. split; [done|lia].
Qed.

Lemma exiting_end s s' : rtc setup_step s s' → setup_ok s → main s = Exiting → main s' = Exited 0 →
  (codes s ≤ capacity)%nat ∧ (errs s ≤ capacity)%nat.
Proof.
  induction 1 as [s|s1 s2 s3 Hs Hrtc IH]; intros Hok Hm Hm'; [congruence|].
  destruct (exiting_step _ _ Hs Hm) as [(Hm2 & Hc & He)|(Hm2 & Hc & He)].
  - destruct IH as [H1 H2]; [by eapply step_ok|done|done|]. lia.
  - destruct Hok. lia.
Qed.

Lemma exiting_ends n s : (count is_code (pending s) + count is_err (pending s) = n)%nat →
  main s = Exiting → (codes s ≤ capacity)%nat → (errs s ≤ capacity)%nat →
  ∃ s', rtc setup_step s s' ∧ main s' = Exited 0.
Proof.
  unfold codes, errs, capacity. revert s. induction n as [|n IH]; intros [sn p cc ec an m]; cbn [pending codeCh errCh main]; intros Hn -> Hc He.
  - eexists. split; [apply rtc_once, on_shutdown, no_handlers; lia|done].
  - destruct (decide (0 < count is_code p)%nat) as [H0|H0].
    + destruct (find_sending _ _ H0) as (p1 & [code| |] & p2 & -> & Hx); try done. rewrite !count_taken in *. simpl in *.
      destruct (IH (mk_setup sn (p1 ++ p2) (cc ++ [code]) ec ((200, done_text) :: an) Exiting)) as (s' & Hs & Hm);
        cbn [pending codeCh errCh main]; rewrite ?length_app; simpl; try lia; [done|].
      exists s'. split; [|done]. eapply rtc_l; [|exact Hs]. apply on_send_code; [done|unfold capacity; lia].
    + destruct (find_sending is_err p) as (p1 & [|e text|] & p2 & -> & Hx); try done; [lia|]. rewrite !count_taken in *. simpl in *.
      destruct (IH (mk_setup sn (p1 ++ p2) cc (ec ++ [e]) ((400, text) :: an) Exiting)) as (s' & Hs & Hm);
        cbn [pending codeCh errCh main]; rewrite ?length_app; simpl; try lia; [done|].
      exists s'. split; [|done]. eapply rtc_l; [|exact Hs]. apply on_send_err; [done|unfold capacity; lia].
Qed.

(** ** Properties *)

(** C36. A code that main exchanges was brought by a request with the state
    this run issued, and so was one for every browser that was told it may
    close the tab: no other request has its code exchanged, in whatever order
    the goroutines run. *)
Theorem code_is_own s :
  rtc setup_step started s →
  (∀ code, main s = Exchanging code → (issued, code) ∈ seen s ∧ code ≠ EmptyString) ∧
  (∀ text, (200, text) ∈ answers s → ∃ code, (issued, code) ∈ seen s ∧ code ≠ EmptyString).
Proof. intros H%reachable_ok. split; [apply (so_main _ H)|apply (so_answer _ H)]. Qed.

(** C37. Once the account is stored, the command can end exactly if at most one
    code and at most one error were left over, counting what lies in the
    channels (in errCh also an error of the server's ListenAndServe) and what
    handlers have yet to send: main receives once, each channel holds one, and
    Shutdown waits for the handlers, so with one more of either the command
    hangs for ever. *)
Theorem shutdown_ends_iff s :
  rtc setup_step started s → main s = Exiting →
  ((∃ s', rtc setup_step s s' ∧ main s' = Exited 0) ↔ (codes s ≤ 1)%nat ∧ (errs s ≤ 1)%nat).
Proof.
  intros Hok%reachable_ok Hm. split.
  - intros (s' & Hs & Hm'). by eapply exiting_end.
  - intros [H1 H2]. by eapply exiting_ends.
Qed.
End steps.

(** A command that starts has the key the workers use, and asks for reading
    mail and for the files it makes itself. *)
Lemma setup_main_start getenv services email cfg key :
  setup_main getenv services email = Start (cfg, key) →
  email ≠ EmptyString ∧ loadGoogleCfgAndKey getenv = Start key ∧ RedirectURL cfg = "http://localhost:8888/callback".
Proof.
  unfold setup_main, loadGoogleCfgAndKey. case_decide; [done|]. destruct (mustEnv getenv "DATABASE_URL"); [done|]. cbn [and_then].
  destruct (mustEnv getenv "GOOGLE_OAUTH_CLIENT_ID"); [done|]. cbn [and_then].
  destruct (mustEnv getenv "GOOGLE_OAUTH_CLIENT_SECRET"); [done|]. cbn [and_then].
  destruct (mustEnv getenv "TOKEN_ENCRYPTION_KEY") as [?|k]; [done|]. cbn [and_then].
  destruct (decode_key k) as [?|key']; [done|]. cbn [and_then]. destruct services; [|done]. by intros [= <- <-].
Qed.

(** ** Witnesses *)

(** The browser loads the callback three times. *)
Definition loads (n : nat) : list (string * string) := replicate n ("dtq-1", "c").

Lemma loaded n : rtc (setup_step "dtq-1") started (mk_setup (loads n) (replicate n (SendCode "c")) [] [] [] Waiting).
Proof.
  induction n as [|n IH]; [apply rtc_refl|]. eapply rtc_r; [exact IH|].
  by apply (on_request "dtq-1" "dtq-1" "c").
Qed.

Lemma exchanging n : rtc (setup_step "dtq-1") started
  (mk_setup (loads (S n)) (replicate n (SendCode "c")) [] [] [(200, done_text)] (Exchanging "c")).
Proof.
  eapply rtc_r; [eapply rtc_r; [apply (loaded (S n))|]|].
  - apply (on_send_code "dtq-1" "c" [] (replicate n (SendCode "c"))); [done|unfold capacity; simpl; lia].
  - apply on_code.
Qed.

Lemma code_is_own_witness : let s := mk_setup (loads 1) [] [] [] [(200, done_text)] (Exchanging "c") in
  (∀ code, main s = Exchanging code → ("dtq-1", code) ∈ seen s ∧ code ≠ EmptyString) ∧
  (∀ text, (200, text) ∈ answers s → ∃ code, ("dtq-1", code) ∈ seen s ∧ code ≠ EmptyString).
Proof. apply (code_is_own "dtq-1"). apply (exchanging 0). Defined.

(** With two reloads the command hangs. *)
Definition reloaded : setup :=
  mk_setup (loads 3) (replicate 2 (SendCode "c")) [] [] [(200, done_text)] Exiting.

Lemma reloaded_reachable : rtc (setup_step "dtq-1") started reloaded.
Proof. eapply rtc_r; [apply (exchanging 2)|]. apply (on_account "dtq-1" (Ok tt)). Qed.

Lemma shutdown_ends_iff_witness :
  main reloaded = Exiting ∧ ¬ ∃ s', rtc (setup_step "dtq-1") reloaded s' ∧ main s' = Exited 0.
Proof.
  split; [reflexivity|]. intros H.
  destruct (proj1 (shutdown_ends_iff "dtq-1" reloaded reloaded_reachable eq_refl) H) as [Hc _].
  change (codes reloaded) with 2%nat in Hc. lia.
Defined.
