(* ===== verification/Processes.v ===== *)
(** * How the processes begin and end: the mains under cmd/ and internal/store/migrate.go

    Command.v says what a command constructs; here is how it opens its
    services, and with which code it exits.  The worker, the sweeper and the
    archive import are sequential; the scheduler command is two loops and
    main, which meet in a channel ([sched_step]); the API server is a small
    state machine ([api_next]).  Redis, PostgreSQL and golang-migrate answer
    as they please.  A worker's heartbeat goroutine ends with its process and
    is left out; the intervals of the tickers are taken as positive, but for
    the scheduler's. *)
From S2P Require Import Prelude Redis Schema GoStrings Times Mime Services Effects Meta Queue Store Worker Sweeper OAuth Gmail Scheduler Drive Fetch Render Upload Noop Command Background Serve.
Local Open Scope Z_scope.

(** ** migrate.go *)

(** What Up of golang-migrate answers. *)
Inductive up_answer := Applied | ErrNoChange | UpFailed (e : err).

(** The answers of pgx.ParseConfig, pgxdriver.WithInstance, iofs.New,
    migrate.NewWithInstance and Up. *)
Record migrating := mk_migrating {
  ParseConfig : result unit;
  WithInstance : result unit;
  iofs_New : result unit;
  NewWithInstance : result unit;
  Up : up_answer
}.

Definition try (pre : string) (r : result unit) (k : result unit) : result unit :=
  match r with Err e => Err (EWrap pre e) | Ok _ => k end.

Definition Migrate (m : migrating) : result unit :=
  try "parse dsn" (ParseConfig m) (
  try "driver" (WithInstance m) (
  try "source" (iofs_New m) (
  try "migrate" (NewWithInstance m)
  match Up m with
  | UpFailed e => Err (EWrap "up" e)
  | Applied | ErrNoChange => Ok tt
  end))).

(** A command's services: the migrations, pgxpool.New and goredis.ParseURL,
    in this order; the first that fails ends the process. *)
Record dialing := mk_dialing { d_migrate : migrating; d_pool : result unit; d_redis : result unit }.

Definition open_services (d : dialing) : bool :=
  match Migrate (d_migrate d) with
  | Err _ => false
  | Ok _ => match d_pool d with Err _ => false | Ok _ => match d_redis d with Err _ => false | Ok _ => true end end
  end.

(** ** cmd/api after the start *)

Inductive api_phase := Serving | ShuttingDown | Gone (code : Z).

(** ListenAndServe returns an error, http.ErrServerClosed or another; a signal
    arrives; Shutdown returns, after ten seconds at the latest. *)
Inductive api_event := ListenReturned (closed : bool) | Signal | ShutdownReturned (r : result unit).

Definition api_next (ph : api_phase) (ev : api_event) : api_phase :=
  match ph, ev with
  | Gone c, _ => Gone c
  | _, ListenReturned false => Gone 1
  | Serving, Signal => ShuttingDown
  | ShuttingDown, ShutdownReturned (Ok _) => Gone 0
  | ShuttingDown, ShutdownReturned (Err _) => Gone 1
  | ph, _ => ph
  end.

Definition api_run (evs : list api_event) : api_phase := foldl api_next Serving evs.

(** The server's process ends with 0 only by a signal and a clean shutdown. *)
Lemma api_run_gone evs c : foldl api_next (Gone c) evs = Gone c.
Proof. by induction evs. Qed.

Lemma api_shutting evs : foldl api_next ShuttingDown evs = Gone 0 →
  ∃ mid u post, evs = mid ++ ShutdownReturned (Ok u) :: post ∧ ListenReturned false ∉ mid.
Proof.
  induction evs as [|ev evs IH]; cbn [foldl]; [done|].
  destruct ev as [ [|]| |[u|e] ]; cbn [api_next]; rewrite ?api_run_gone; try done.
  - intros (mid & u & post & -> & H)%IH. exists (ListenReturned true :: mid), u, post. split; [done|]. set_solver.
  - intros (mid & u & post & -> & H)%IH. exists (Signal :: mid), u, post. split; [done|]. set_solver.
  - intros _. exists [], u, evs. split; [done|]. set_solver.
Qed.

Lemma api_exit evs : api_run evs = Gone 0 →
  ∃ pre mid u post, evs = pre ++ Signal :: mid ++ ShutdownReturned (Ok u) :: post ∧ ListenReturned false ∉ pre ++ mid.
Proof.
  unfold api_run. induction evs as [|ev evs IH]; cbn [foldl]; [done|].
  destruct ev as [ [|]| |r]; cbn [api_next]; rewrite ?api_run_gone; try done.
  - intros (pre & mid & u & post & -> & H)%IH. exists (ListenReturned true :: pre), mid, u, post. split; [done|]. set_solver.
  - intros (mid & u & post & -> & H)%api_shutting. by exists [], mid, u, post.
  - intros (pre & mid & u & post & -> & H)%IH. exists (ShutdownReturned r :: pre), mid, u, post. split; [done|]. set_solver.
Qed.

Section processes.
Context `{UL : UuidLib} `{PG : !PgServer} `{RS : RedisServer} `{DS : DriveServer} `{AE : AeadLib}
  `{ML : MailLib} `{TP : TimeParser}.

(** ** The sequential commands *)

Definition exit_of (r : result unit) : Z := match r with Ok _ => 0 | Err _ => 1 end.

(** Exit, or run the process's loop and exit by its result. *)
Definition command {A} (st : startup A) (loop : A → prog (result unit)) : prog Z :=
  match st with
  | Exit c => mret c
  | Start a => r ← loop a; mret (exit_of r)
  end.

Definition worker_loop (fuel : nat) (x : Worker.Config * (Job → prog (result string))) : prog (result unit) :=
  serve x.2 (Worker.Run fuel x.1).

Definition worker_command (fuel : nat) (getenv : string → string) (d : dialing) (stage workerID : string) : prog Z :=
  command (worker_main getenv (open_services d) stage workerID) (worker_loop fuel).

Definition sweeper_command (turns fuel : nat) (getenv : string → string) (d : dialing) : prog Z :=
  command (sweeper_main getenv (open_services d)) (Sweeper.Run turns fuel).

Definition backfill_command (fuel : nat) (getenv : string → string) (d : dialing) (email since before : string) (maxQueue : Z) : prog Z :=
  match backfill_config getenv (open_services d) email since before maxQueue with
  | Exit c => mret c
  | Start cfg => backfill_main fuel cfg
  end.

(** ** cmd/scheduler after the start *)

(** A goroutine that runs a loop and sends its result to errCh, which has room
    for both; time.NewTicker panics when the interval is not positive. *)
Inductive goroutine := Going (p : prog (result unit)) | Panics | Sent.

Inductive sched_main := WaitFirst | WaitSecond | Out (code : Z).

Record sched := mk_sched {
  sc_state : shared;
  poller : goroutine;
  backfiller : goroutine;
  sc_errCh : list (result unit);
  sc_main : sched_main
}.

(** scheduler.New replaces the interval 0. *)
Definition poll_loop (fuel : nat) (key : list Byte.byte) (Interval : Z) : goroutine :=
  if Interval <? 0 then Panics else Going (Scheduler.Run fuel key).

Definition sched_begin (turns fuel : nat) (x : list Byte.byte * Z * BackfillConfig) (s : shared) : sched := {|
  sc_state := s; poller := poll_loop fuel x.1.1 x.1.2; backfiller := Going (RunBackfill turns fuel x.2);
  sc_errCh := []; sc_main := WaitFirst |}.

(** A goroutine's step: a call, or the send. *)
Inductive goes (may : outcome → Prop) : shared * goroutine * list (result unit) → shared * goroutine * list (result unit) → Prop :=
| goes_call X (c : cmd X) k o s q : may o →
    goes may (s, Going (Vis c k), q) ((exec o c s).2, Going (k (exec o c s).1), q)
| goes_send r s q : goes may (s, Going (Ret r), q) (s, Sent, q ++ [r]).

(** A step of the process while main has not left. *)
Inductive sched_step (may : outcome → Prop) : sched → sched → Prop :=
| ss_poll s g s' g' b q q' m : (∀ c, m ≠ Out c) → goes may (s, g, q) (s', g', q') →
    sched_step may (mk_sched s g b q m) (mk_sched s' g' b q' m)
| ss_backfill s g s' b b' q q' m : (∀ c, m ≠ Out c) → goes may (s, b, q) (s', b', q') →
    sched_step may (mk_sched s g b q m) (mk_sched s' g b' q' m)
| ss_panic s b q m : (∀ c, m ≠ Out c) → sched_step may (mk_sched s Panics b q m) (mk_sched s Sent b q (Out 2))
| ss_first s g b r q :
    sched_step may (mk_sched s g b (r :: q) WaitFirst)
      (mk_sched s g b q (match r with Err _ => Out 1 | Ok _ => WaitSecond end))
| ss_second s g b r q : sched_step may (mk_sched s g b (r :: q) WaitSecond) (mk_sched s g b q (Out 0)).

(** The same for given choices: the poll loop, the backfill or main goes. *)
Inductive who := Poll | Back | Main.

Definition go (o : outcome) (g : goroutine) (s : shared) (q : list (result unit)) : option (shared * goroutine * list (result unit)) :=
  match g with
  | Going (Vis c k) => Some ((exec o c s).2, Going (k (exec o c s).1), q)
  | Going (Ret r) => Some (s, Sent, q ++ [r])
  | _ => None
  end.

Definition sched_exec (c : sched) (ch : who * outcome) : option sched :=
  let '(mk_sched s g b q m) := c in
  match m, ch.1 with
  | Out _, _ => None
  | _, Poll => match g with
               | Panics => Some (mk_sched s Sent b q (Out 2))
               | _ => '(s', g', q') ← go ch.2 g s q; Some (mk_sched s' g' b q' m)
               end
  | _, Back => '(s', b', q') ← go ch.2 b s q; Some (mk_sched s' g b' q' m)
  | WaitFirst, Main => match q with
                       | Err _ :: q => Some (mk_sched s g b q (Out 1))
                       | Ok _ :: q => Some (mk_sched s g b q WaitSecond)
                       | [] => None
                       end
  | WaitSecond, Main => match q with _ :: q => Some (mk_sched s g b q (Out 0)) | [] => None end
  end.

Fixpoint sched_play (chs : list (who * outcome)) (c : sched) : option sched :=
  match chs with [] => Some c | ch :: chs => sched_exec c ch ≫= sched_play chs end.

(** ** What a program returns if no signal arrives *)

Fixpoint unsignalled {A} (Q : A → Prop) (p : prog A) : Prop :=
  match p with
  | Ret a => Q a
  | @Vis _ _ _ _ X c k =>
      match c in cmd X return (X → Prop) → Prop with
      | CtxDone => λ K, K false
      | _ => λ K, ∀ x, K x
      end (λ x, unsignalled Q (k x))
  | NoFuel => True
  end.

Definition signalled (orc : nat → outcome) (i i' : nat) : Prop := ∃ n, (i ≤ n < i')%nat ∧ o_ctx (orc n) = true.

Lemma unsignalled_mono {A} (P Q : A → Prop) (p : prog A) : (∀ a, P a → Q a) → unsignalled P p → unsignalled Q p.
Proof. intros H. induction p as [a|X c k IH|]; cbn; [by apply H| |done]. destruct c; auto. Qed.

Lemma unsignalled_true {A} (p : prog A) : unsignalled (λ _, True) p.
Proof. induction p as [a|X c k IH|]; cbn; [done| |done]. destruct c; auto. Qed.

Lemma unsignalled_bind {A B} (P : A → Prop) (Q : B → Prop) (p : prog A) (f : A → prog B) :
  unsignalled P p → (∀ a, P a → unsignalled Q (f a)) → unsignalled Q (p ≫= f).
Proof.
  intros Hp Hf. revert Hp. unfold mbind, prog_bind. induction p as [a|X c k IH|]; cbn; [by apply Hf| |done]. destruct c; auto.
Qed.

Lemma unsignalled_then {A B} (Q : B → Prop) (p : prog A) (f : A → prog B) : (∀ a, unsignalled Q (f a)) → unsignalled Q (p ≫= f).
Proof. intros H. eapply unsignalled_bind; [apply unsignalled_true|auto]. Qed.

Lemma unsignalled_serve {A} (Q : A → Prop) h (p : prog A) : unsignalled Q p → unsignalled Q (serve h p).
Proof.
  induction p as [a|X c k IH|]; cbn; [done| |done]. destruct c; cbn; auto. intros H. apply unsignalled_then. auto.
Qed.

Lemma unsignalled_run {A} (Q : A → Prop) orc (p : prog A) i s a i' s' :
  unsignalled Q p → run orc p i s = Some (a, i', s') → Q a ∨ signalled orc i i'.
Proof.
  revert i s. induction p as [b|X c k IH|]; intros i s; cbn [run unsignalled]; [by intros ? [= -> _ _]; left| |done].
  destruct (exec (orc i) c s) as [x s1] eqn:E. intros Hk Hrun. pose proof (run_mono _ _ _ _ _ _ _ Hrun) as Hle.
  assert (H : unsignalled Q (k x) ∨ o_ctx (orc i) = true).
  { destruct c; auto. injection E as <- _. destruct (o_ctx (orc i)); auto. }
  destruct H as [H|H]; [|right; exists i; split; [lia|done] ].
  destruct (IH x (S i) s1 H Hrun) as [?|(n & ? & ?)]; [by left|right]. exists n. split; [lia|done].
Qed.

Lemma serve_results {A} (P : A → Prop) h (p : prog A) : results P p → results P (serve h p).
Proof.
  induction p as [a|X c k IH|]; cbn; [done| |done]. intros H. destruct c; cbn; auto. apply results_bind. auto.
Qed.

(** ** The loops *)

Definition gave_up (r : result unit) : Prop := ∃ e, r = Err e ∧ errors_Is e errPostClaim = true.

Lemma run_loop_results fuel cfg : results (λ r, r = Ok tt ∨ gave_up r) (run_loop fuel cfg).
Proof.
  induction fuel as [|fuel IH]; cbn [run_loop]; [done|]. apply results_bind. intros [|]; [by left|].
  apply results_bind. intros [b [u|e] ]; [apply IH|]. apply results_bind. intros [|]; [by left|].
  destruct (errors_Is e errPostClaim) eqn:He; [right; by exists e|apply IH].
Qed.

Lemma run_loop_unsignalled fuel cfg : unsignalled gave_up (run_loop fuel cfg).
Proof.
  induction fuel as [|fuel IH]; cbn [run_loop]; [done|].
  apply (unsignalled_bind (λ b, b = false)); [done|]. intros ? ->. apply unsignalled_then.
  intros [b [u|e] ]; [apply IH|]. apply (unsignalled_bind (λ b, b = false)); [done|]. intros ? ->.
  destruct (errors_Is e errPostClaim) eqn:He; [by exists e|apply IH].
Qed.

Lemma Sweeper_Run_loop turns fuel cfg :
  results (λ r, r = Ok tt) (Sweeper.Run turns fuel cfg) ∧ unsignalled (λ _, False) (Sweeper.Run turns fuel cfg).
Proof.
  induction turns as [|turns [IH1 IH2] ]; cbn [Sweeper.Run]; [done|]. split.
  - apply results_bind. intros [|]; [done|]. apply results_bind. by intros ?.
  - apply (unsignalled_bind (λ b, b = false)); [done|]. intros ? ->. apply unsignalled_then. by intros ?.
Qed.

Lemma ticks_loop fuel once : results (λ r, r = Ok tt) (ticks fuel once) ∧ unsignalled (λ _, False) (ticks fuel once).
Proof.
  induction fuel as [|fuel [IH1 IH2] ]; cbn [ticks]; [done|]. split.
  - apply results_bind. intros [|]; [done|]. apply results_bind. by intros ?.
  - apply (unsignalled_bind (λ b, b = false)); [done|]. intros ? ->. apply unsignalled_then. by intros ?.
Qed.

(** ** The scheduler command *)

Definition only_ok (g : goroutine) : Prop := match g with Going p => results (λ r, r = Ok tt) p | _ => True end.

Definition never_ends (g : goroutine) : Prop :=
  match g with Going p => unsignalled (λ _, False) p | Panics => True | Sent => False end.

Lemma goes_ok may s g q s' g' q' :
  goes may (s, g, q) (s', g', q') → only_ok g → Forall (λ r, r = Ok tt) q → only_ok g' ∧ Forall (λ r, r = Ok tt) q'.
Proof.
  intros H. inversion H; subst; cbn; intros Hg Hq; [by split|]. split; [done|]. by apply Forall_app_2; [|constructor].
Qed.

Lemma goes_never may s g q s' g' q' :
  (∀ o, may o → o_ctx o = false) → goes may (s, g, q) (s', g', q') → never_ends g → never_ends g' ∧ q' = q.
Proof.
  intros Hmay H. inversion H as [X c k o ? ? Ho|]; subst; cbn; [|done]. intros Hk. split; [|done].
  destruct c; try apply Hk. cbn in *. by rewrite (Hmay o Ho).
Qed.

(** Neither loop returns an error; a panic needs the negative interval. *)
Record sched_ok (panics : Prop) (c : sched) : Prop := {
  sk_poll : only_ok (poller c);
  sk_backfill : only_ok (backfiller c);
  sk_chan : Forall (λ r, r = Ok tt) (sc_errCh c);
  sk_panic : poller c = Panics ∨ backfiller c = Panics → panics;
  sk_main : ∀ code, sc_main c = Out code → code = 0 ∨ code = 2 ∧ panics
}.

Lemma goes_panics may s g q s' g' q' : goes may (s, g, q) (s', g', q') → g' ≠ Panics.
Proof. intros H. by inversion H. Qed.

Lemma sched_step_ok P may c c' : sched_step may c c' → sched_ok P c → sched_ok P c'.
Proof.
  destruct 1 as [s g s' g' b q q' m Hm H|s g s' b b' q q' m Hm H|s b q m Hm|s g b r q|s g b r q]; intros [H1 H2 H3 H4 H5]; cbn in *.
  - destruct (goes_ok _ _ _ _ _ _ _ H H1 H3). constructor; cbn; try done. intros [->|?]; [by apply goes_panics in H|auto].
  - destruct (goes_ok _ _ _ _ _ _ _ H H2 H3). constructor; cbn; try done. intros [?| ->]; [auto|by apply goes_panics in H].
  - constructor; cbn; try done; [intros [?|?]; [done|auto]|]. intros code [= <-]. auto.
  - apply Forall_cons in H3 as [-> H3]. by constructor.
  - apply Forall_cons in H3 as [_ H3]. constructor; cbn; try done. intros code [= <-]. by left.
Qed.

(** What errCh and main have had, and what the backfill may still send. *)
Definition had (c : sched) : nat :=
  length (sc_errCh c) + match sc_main c with WaitFirst | Out 2 => 0 | WaitSecond | Out 1 => 1 | Out _ => 2 end +
  match backfiller c with Sent => 0 | _ => 1 end.

(** Without a signal the poll loop sends nothing, so one result is all. *)
Record sched_quiet (c : sched) : Prop := {
  sq_poll : sc_main c ≠ Out 2 → never_ends (poller c);
  sq_had : (had c ≤ 1)%nat
}.

Lemma goes_had may s g q s' g' q' : goes may (s, g, q) (s', g', q') →
  (length q' + match g' with Sent => 0 | _ => 1 end = length q + match g with Sent => 0 | _ => 1 end)%nat.
Proof. intros H. inversion H; subst; [done|]. rewrite length_app. cbn. lia. Qed.

Lemma sched_step_quiet may c c' :
  (∀ o, may o → o_ctx o = false) → sched_step may c c' → sched_quiet c → sched_quiet c'.
Proof.
  intros Hmay. destruct 1 as [s g s' g' b q q' m Hm H|s g s' b b' q q' m Hm H|s b q m Hm|s g b r q|s g b r q];
    intros [H1 H2]; unfold had in H2; cbn in H1, H2.
  - destruct (goes_never _ _ _ _ _ _ _ Hmay H (H1 (Hm 2))) as [? ->]. by constructor.
  - pose proof (goes_had _ _ _ _ _ _ _ H). constructor; unfold had; cbn; [done|lia].
  - constructor; unfold had; cbn; [done|lia].
  - constructor; unfold had; cbn; [by destruct r; auto|destruct r; cbn; lia].
  - exfalso. cbn in H2. lia.
Qed.

Lemma sched_begins turns fuel x s :
  sched_ok (x.1.2 < 0) (sched_begin turns fuel x s) ∧ sched_quiet (sched_begin turns fuel x s).
Proof.
  destruct x as [ [key iv] bf]. unfold sched_begin, poll_loop. cbn [fst snd].
  assert (Hp : results (λ r, r = Ok tt) (Scheduler.Run fuel key) ∧ unsignalled (λ _, False) (Scheduler.Run fuel key)).
  { unfold Scheduler.Run. destruct (ticks_loop fuel (PollOnce key)). split; [by apply results_bind|by apply unsignalled_then]. }
  assert (Hb : results (λ r, r = Ok tt) (RunBackfill turns fuel bf)).
  { unfold RunBackfill. destruct (_ <=? _); [done|]. apply results_bind. intros ?. apply ticks_loop. }
  destruct (Z.ltb_spec iv 0); (split; constructor; unfold had; cbn; try done; try apply Hp; try lia).
  - by intros [?|?].
  - intros _. apply Hp.
Qed.

Lemma go_goes o g s q s' g' q' : go o g s q = Some (s', g', q') → goes (λ _, True) (s, g, q) (s', g', q').
Proof. destruct g as [ [r|X c k|]| |]; cbn; [intros [= <- <- <-]; constructor|intros [= <- <- <-]; by constructor|done..]. Qed.

Lemma sched_exec_step c ch c' : sched_exec c ch = Some c' → sched_step (λ _, True) c c'.
Proof.
  destruct c as [s g b q m], ch as [w o]. unfold sched_exec. cbn [fst snd].
  assert (Hback : ∀ m, (∀ code, m ≠ Out code) → ('(s', b', q') ← go o b s q; Some (mk_sched s' g b' q' m)) = Some c' →
    sched_step (λ _, True) (mk_sched s g b q m) c').
  { intros m' Hm H. destruct (go o b s q) as [ [ [s' b'] q']|] eqn:E; [|done]. injection H as <-. by apply ss_backfill; [|apply (go_goes o)]. }
  assert (Hpoll : ∀ m, (∀ code, m ≠ Out code) → ('(s', g', q') ← go o g s q; Some (mk_sched s' g' b q' m)) = Some c' →
    sched_step (λ _, True) (mk_sched s g b q m) c').
  { intros m' Hm H. destruct (go o g s q) as [ [ [s' g'] q']|] eqn:E; [|done]. injection H as <-. by apply ss_poll; [|apply (go_goes o)]. }
  destruct m as [| |code], w; try done; try by apply Hback.
  1, 3: destruct g; [by apply Hpoll|intros [= <-]; by apply ss_panic|done].
  1: destruct q as [|[|] q]; [done|intros [= <-]; apply ss_first..].
  destruct q as [|r q]; [done|intros [= <-]; apply ss_second].
Qed.

Lemma sched_play_reach chs c c' : sched_play chs c = Some c' → rtc (sched_step (λ _, True)) c c'.
Proof.
  revert c. induction chs as [|ch chs IH]; intros c; cbn; [by intros [= ->]|]. destruct (sched_exec c ch) as [c1|] eqn:E; [|done].
  intros H. eapply rtc_l; [by eapply sched_exec_step|by apply IH].
Qed.

Lemma scheduler_exit may turns fuel x s sc :
  rtc (sched_step may) (sched_begin turns fuel x s) sc →
  (∀ c, sc_main sc = Out c → c = 0 ∨ c = 2 ∧ x.1.2 < 0) ∧ ((∀ o, may o → o_ctx o = false) → sc_main sc ≠ Out 0).
Proof.
  intros H. destruct (sched_begins turns fuel x s) as [Hok Hq]. split.
  - apply (sk_main (x.1.2 < 0)). revert Hok. clear Hq. induction H as [|c1 c2 c3 Hs _ IH]; [done|]. eauto using sched_step_ok.
  - intros Hmay Hm. assert (Hq' : sched_quiet sc).
    { revert Hq. clear Hok Hm. induction H as [|c1 c2 c3 Hs _ IH]; [done|]. eauto using sched_step_quiet. }
    pose proof (sq_had _ Hq') as Hh. unfold had in Hh. rewrite Hm in Hh. lia.
Qed.

(** ** Where the other commands end *)

Lemma run_command {A} (st : startup A) loop orc i s c i' s' :
  run orc (command st loop) i s = Some (c, i', s') →
  (st = Exit c ∧ s' = s) ∨ ∃ a r, st = Start a ∧ run orc (loop a) i s = Some (r, i', s') ∧ c = exit_of r.
Proof.
  destruct st as [c0|a]; cbn [command]; [intros [= -> _ ->]; by left|]. rewrite run_bind.
  destruct (run orc (loop a) i s) as [ [ [r i1] s1]|] eqn:E; [|done]. intros [= <- <- <-]. right. by exists a, r.
Qed.

Lemma worker_exit fuel getenv d stage w orc i s c i' s' :
  run orc (worker_command fuel getenv d stage w) i s = Some (c, i', s') →
  (worker_main getenv (open_services d) stage w = Exit c ∧ c ≠ 0 ∧ s' = s) ∨
  (c = 0 ∧ signalled orc i i') ∨
  (c = 1 ∧ ∃ x e, worker_main getenv (open_services d) stage w = Start x ∧
     run orc (worker_loop fuel x) i s = Some (Err e, i', s') ∧ errors_Is e errPostClaim = true).
Proof.
  intros [ [H ->]|(x & r & Hx & Hrun & ->)]%run_command.
  - left. split; [done|]. split; [|done]. intros ->. revert H. unfold worker_main, stage_handler.
    assert (Hl : ∀ B (f : list Byte.byte → startup B), (∀ k, f k ≠ Exit 0) → and_then (loadGoogleCfgAndKey getenv) f ≠ Exit 0).
    { intros B f Hf. unfold loadGoogleCfgAndKey, mustEnv, decode_key, and_then. repeat case_match; simplify_eq/=; naive_solver. }
    repeat case_decide; try done; destruct (open_services d); try done; cbn [negb and_then].
    all: destruct (and_then (loadGoogleCfgAndKey getenv) _) eqn:E; intros [= ->]; revert E; by apply Hl.
  - pose proof (unsignalled_run gave_up orc (worker_loop fuel x) i s r i' s') as Hu. pose proof (run_results (λ r, r = Ok tt ∨ gave_up r) orc (worker_loop fuel x) i s r i' s') as Hr.
    assert (H : gave_up r ∨ signalled orc i i').
    { eapply Hu; [|exact Hrun]. apply unsignalled_serve, unsignalled_then. intros ?. apply run_loop_unsignalled. }
    destruct (Hr) as [->|(e & -> & He)]; [|exact Hrun| |].
    + apply serve_results, results_bind. intros ?. apply run_loop_results.
    + right. left. split; [done|]. by destruct H as [(? & ? & _)|?].
    + right. right. split; [done|]. by exists x, e.
Qed.

Lemma sweeper_exit turns fuel getenv d orc i s c i' s' :
  run orc (sweeper_command turns fuel getenv d) i s = Some (c, i', s') →
  (c = 0 ∧ signalled orc i i') ∨ (c = 1 ∧ open_services d = false ∧ s' = s).
Proof.
  intros [ [H ->]|(x & r & Hx & Hrun & ->)]%run_command.
  - right. revert H. unfold sweeper_main. destruct (open_services d); [done|]. by intros [= <-].
  - left. destruct (Sweeper_Run_loop turns fuel x) as [H1 H2]. pose proof (run_results _ _ _ _ _ _ _ _ H1 Hrun) as Hr. cbn in Hr. subst r.
    split; [done|]. by destruct (unsignalled_run _ _ _ _ _ _ _ _ H2 Hrun).
Qed.

Lemma backfill_exit fuel getenv d email since before maxQueue orc i s i' s' :
  run orc (backfill_command fuel getenv d email since before maxQueue) i s = Some (0, i', s') →
  ∃ cfg n r, backfill_config getenv (open_services d) email since before maxQueue = Start cfg ∧
    run orc (RunFull fuel cfg) i s = Some ((n, r), i', s') ∧ ∀ e, r = Err e → errors_Is e contextCanceled = true.
Proof.
  unfold backfill_command. destruct (backfill_config _ _ _ _ _ _) as [c|cfg] eqn:E.
  - intros [= -> _ _]. exfalso. revert E. unfold backfill_config, loadGoogleCfgAndKey, mustEnv, decode_key, and_then.
    repeat case_match; simplify_eq/=; done.
  - unfold backfill_main. rewrite run_bind. destruct (run orc (RunFull fuel cfg) i s) as [ [ [ [n r] i1] s1]|] eqn:Er; [|done].
    intros H. exists cfg, n, r. split; [done|]. destruct r as [u|e]; cbn in H.
    + injection H as -> ->. by split.
    + destruct (errors_Is e contextCanceled) eqn:He; [|done]. injection H as -> ->. split; [done|]. by intros ? [= <-].
Qed.

(** C35. How the processes end.  A worker that was started exits with 0 only
    after a signal, and with 1 only after an error behind a claim; one that
    was not exits with another code than 0 and did nothing.  A sweeper ends
    only by a signal or because its services were not there.  The two loops
    of the scheduler command never make it exit with 1: it ends with 0, never
    without a signal, or by a panic if the interval was negative.  The
    import's code 0 means that it is complete or was cancelled, the API
    server's that a signal arrived and no connection was left. *)
Theorem commands_exit getenv d orc i s c i' s' :
  (∀ fuel stage w, run orc (worker_command fuel getenv d stage w) i s = Some (c, i', s') →
     (worker_main getenv (open_services d) stage w = Exit c ∧ c ≠ 0 ∧ s' = s) ∨ (c = 0 ∧ signalled orc i i') ∨
     (c = 1 ∧ ∃ x e, worker_main getenv (open_services d) stage w = Start x ∧
        run orc (worker_loop fuel x) i s = Some (Err e, i', s') ∧ errors_Is e errPostClaim = true)) ∧
  (∀ turns fuel, run orc (sweeper_command turns fuel getenv d) i s = Some (c, i', s') →
     (c = 0 ∧ signalled orc i i') ∨ (c = 1 ∧ open_services d = false ∧ s' = s)) ∧
  (∀ may turns fuel x sc, scheduler_main getenv (open_services d) = Start x →
     rtc (sched_step may) (sched_begin turns fuel x s) sc →
     (∀ c, sc_main sc = Out c → c = 0 ∨ c = 2 ∧ x.1.2 < 0) ∧ ((∀ o, may o → o_ctx o = false) → sc_main sc ≠ Out 0)) ∧
  (∀ fuel email since before maxQueue, run orc (backfill_command fuel getenv d email since before maxQueue) i s = Some (0, i', s') →
     ∃ cfg n r, backfill_config getenv (open_services d) email since before maxQueue = Start cfg ∧
       run orc (RunFull fuel cfg) i s = Some ((n, r), i', s') ∧ ∀ e, r = Err e → errors_Is e contextCanceled = true) ∧
  (∀ evs, api_run evs = Gone 0 →
     ∃ pre mid u post, evs = pre ++ Signal :: mid ++ ShutdownReturned (Ok u) :: post ∧ ListenReturned false ∉ pre ++ mid).
Proof.
  split; [intros; by eapply worker_exit|]. split; [intros; by eapply sweeper_exit|].
  split; [intros may turns fuel x sc _; apply scheduler_exit|]. split; [intros; by eapply backfill_exit|apply api_exit].
Qed.

End processes.

(** ** Witness: every service is there; a signal has arrived when the loops ask *)
Module ProcessesModel.
Import SchemaModel RedisModel DriveModel AeadModel EffectsModel MimeModel.

Definition nothing_yet : shared := mk_shared no_rows RedisModel.empty no_ext 0.

Definition all_there : dialing := mk_dialing (mk_migrating (Ok tt) (Ok tt) (Ok tt) (Ok tt) ErrNoChange) (Ok tt) (Ok tt).

Definition stopping (i : nat) : outcome := {|
  o_fault := NoFault; o_dt := 1; o_uuid := pretty i; o_rand := 0; o_ctx := true;
  o_handler := λ _, Ok EmptyString; o_api := λ _ _, Err (EText "not connected") |}.

Definition both_loops : list (who * outcome) :=
  [(Poll, stopping 0); (Back, stopping 1); (Poll, stopping 2); (Poll, stopping 3); (Main, stopping 4);
   (Back, stopping 5); (Back, stopping 6); (Main, stopping 7)].

Definition sched_args : list Byte.byte * Z * BackfillConfig :=
  (test_key, 60000000000, mk_BackfillConfig test_key 3600000000000 86400000000000).

Definition out_0 (o : option sched) : bool :=
  match o with Some sc => match sc_main sc with Out c => c =? 0 | _ => false end | None => false end.

Lemma both_loops_play : out_0 (sched_play both_loops (sched_begin 2 2 sched_args nothing_yet)) = true.
Proof. vm_compute. reflexivity. Qed.

Lemma both_loops_end : ∃ sc, rtc (sched_step (λ _, True)) (sched_begin 2 2 sched_args nothing_yet) sc ∧ sc_main sc = Out 0.
Proof.
  pose proof both_loops_play as H. destruct (sched_play both_loops _) as [sc|] eqn:E; [|done].
  exists sc. split; [by apply (sched_play_reach both_loops)|]. cbn in H. destruct (sc_main sc) as [| |c]; [done..|].
  apply Z.eqb_eq in H. by subst.
Qed.

Definition code_0 (r : option (Z * nat * shared)) : bool := match r with Some (c, _, _) => c =? 0 | None => false end.

Lemma worker_stops : code_0 (run stopping (worker_command 1 test_env all_there "test" "w") 0 nothing_yet) = true.
Proof. vm_compute. reflexivity. Qed.

Lemma worker_stops_end : ∃ i' s', run stopping (worker_command 1 test_env all_there "test" "w") 0 nothing_yet = Some (0, i', s').
Proof.
  pose proof worker_stops as H. destruct (run stopping _ _ _) as [ [ [c i'] s']|]; [|done]. apply Z.eqb_eq in H. subst c. by exists i', s'.
Qed.

Lemma commands_exit_witness :
  (∃ i' s', run stopping (worker_command 1 test_env all_there "test" "w") 0 nothing_yet = Some (0, i', s') ∧ signalled stopping 0 i') ∧
  (∃ sc, rtc (sched_step (λ _, True)) (sched_begin 2 2 sched_args nothing_yet) sc ∧ sc_main sc = Out 0 ∧ (0 = 0 ∨ 0 = 2 ∧ sched_args.1.2 < 0)).
Proof.
  split.
  - destruct worker_stops_end as (i' & s' & E). exists i', s'. split; [exact E|].
    destruct (commands_exit test_env all_there stopping 0 nothing_yet 0 i' s') as [H _].
    destruct (H 1%nat "test" "w" E) as [(_ & Hc & _)|[ [_ Hs]|[Hc _] ] ]; [by destruct Hc|exact Hs|discriminate Hc].
  - destruct both_loops_end as (sc & Hr & Hm). exists sc. split; [exact Hr|]. split; [exact Hm|].
    destruct (commands_exit test_env all_there stopping 0 nothing_yet 0 0 nothing_yet) as (_ & _ & H & _).
    exact (proj1 (H (λ _, True) 2%nat 2%nat sched_args sc ltac:(vm_compute; reflexivity) Hr) 0 Hm).
Defined.
End ProcessesModel.
