(* ===== verification/Redelivery.v ===== *)
(** * Ids that are delivered more than once

    Deploy.v takes queues that hold ids of their own stage.  They need not:
    the sweeper pushes waiting jobs again, so a worker may pop an id whose job
    has long left the worker's stage, claim the job there, repeat the stage
    and move the job back.  Here the queues may hold the id of any job that
    has ever been at the stage, any number of times.  A done job has been
    delivered even so, provided the turns that repeat a stage do not fail
    halfway; and this proviso is needed. *)
From S2P Require Import Prelude Redis Schema GoStrings Utf8 Calendar Times Json Meta Paths Base64 Mime Html Services Effects Files Disk Queue Store Worker Sweeper OAuth Gmail Drive Fetch Render Upload Forest Names Pipeline Noop Command Background Placement Serve Deploy.
Local Open Scope Z_scope.

Section redelivery.
Context `{UL : UuidLib} `{PG : !PgServer} `{RS : RedisServer} `{DS : DriveServer} `{AE : AeadLib}
  `{ML : MailLib} `{TP : TimeParser}.
Variables (getenv : string → string) (services : bool).
Abbreviation data_dir := (data_dir getenv).
Abbreviation upload_config := (upload_config getenv).
Abbreviation has_mail := (has_mail getenv).
Abbreviation packed := (packed getenv).
Abbreviation filed := (filed getenv).
Abbreviation delivered := (delivered getenv).
Abbreviation from_mail := (from_mail getenv).
Abbreviation root := (root_of upload_config).
Abbreviation touched := (touched getenv).

(** time.Parse and net/mail give offsets in whole minutes. *)
Hypothesis dates : ∀ d t, ParseDate d = Ok t → t_off t mod 60 = 0.

(** The configured root folder. *)
Hypothesis root_id : drive_id_ok (root_of upload_config).
Hypothesis root_path : RootPath upload_config ≠ EmptyString → Forall folder_name (root_folders (RootPath upload_config)).

(** ** Deployments *)

(** In one of the states the job was at the stage. *)
Definition visited (ss : list shared) (id : uuid) (stage : string) : Prop :=
  ∃ s j, s ∈ ss ∧ jobs s !! id = Some j ∧ Stage j = stage.

(** A turn of the stage's worker would repeat work that a later stage builds on. *)
Definition repeats (ss : list shared) (stage : string) (id : uuid) : Prop :=
  stage = "fetch" ∧ (visited ss id "render" ∨ visited ss id "upload") ∨ stage = "render" ∧ visited ss id "upload".

(** The row is neither left running nor failed. *)
Definition unfailed (j j' : Job) : Prop := j' = j ∨ (Status j' ≠ StatusRunning ∧ Attempts j' = Attempts j).

(** Turns of workers whose queues hold ids of jobs that have been at their
    stage, and in between what [background] allows; with the states so far.
    In [careful] runs, the turns that repeat such work do not fail. *)
Inductive redeliveries (careful : bool) : history → list shared → shared → shared → Prop :=
| rd_start s : redeliveries careful [] [s] s s
| rd_turn l ss s0 s stage w cfg h orc i b e i' s' :
    redeliveries careful l ss s0 s → worker_main getenv services stage w = Start (cfg, h) →
    (∀ raw id j, raw ∈ rlist (s_redis s) (key stage) → uuid_Parse raw = Ok id → jobs s !! id = Some j →
       Status j = StatusQueued → visited ss id stage) →
    run orc (serve h (ProcessOne cfg)) i s = Some ((b, e), i', s') →
    (careful = true → ∀ id j j', repeats ss stage id → jobs s !! id = Some j → jobs s' !! id = Some j' → unfailed j j') →
    redeliveries careful ((orc, i, i') :: l) (s' :: ss) s0 s'
| rd_around l ss s0 s s' :
    redeliveries careful l ss s0 s → background s s' → (∀ id j, entering (jobs s) id j → jobs s' !! id = Some j → plain_job id j) →
    redeliveries careful l (s' :: ss) s0 s'.

Abbreviation redelivered := (redeliveries true).

(** ** The invariant *)

(** What a job that has been at the stages [V] has on disk and Drive. *)
Record fits (V : string → Prop) (e : evidence) (F : gmap string string) (d : uuid → dstate) (j : Job) : Prop := {
  ft_now : V (Stage j);
  ft_test st : V "test" → V st → st = "test";
  ft_mail : V "render" ∨ V "upload" → has_mail e F j;
  ft_packed : V "upload" → packed e F j;
  ft_done : Status j = StatusDone → V "upload" → filed e d j
}.

Record redeploy_ok (d0 : uuid → dstate) (ss : list shared) (e : evidence) (s : shared) : Prop := {
  rk_jobs id j : jobs s !! id = Some j → plain_job id j;
  rk_ready u : contains_byte ":" (uuid_String u) = false → ready u (root_of upload_config) s;
  rk_rows id st : visited ss id st → is_Some (jobs s !! id);
  rk_fits id j : jobs s !! id = Some j → fits (visited ss id) e (files s) (drives s) j;
  rk_drives u f : f ∈ d_files (drives s u) → f ∈ d_files (d0 u) ∨ from_mail e (drives s u) u f;
  rk_forest u : forest root (drives s u)
}.

Definition also (V : string → Prop) (st : string) : string → Prop := λ x, V x ∨ x = st.

Lemma fits_ext V V' e F d j : (∀ st, V st ↔ V' st) → fits V e F d j → fits V' e F d j.
Proof. intros H [H1 H2 H3 H4 H5]. constructor; intros *; rewrite <- ?H; auto. Qed.

Lemma fits_mono V e e' F F' d d' j j' :
  more e e' → same_task j j' → files_of_job getenv j F F' → (∀ u, UserID j = Some u → grows (d u) (d' u)) →
  fits V e F d j → fits V e' F' d' j'.
Proof.
  intros Hl Ht HF Hd [H1 H2 H3 H4 H5]. pose proof (same_task_message _ _ Ht) as Hs. destruct Ht as [_ _ _ _ Hst Hdone].
  constructor; [by rewrite Hst|done|..].
  - intros H. eapply has_mail_mono; eauto.
  - intros H. eapply packed_mono; eauto.
  - intros H Hu. eapply filed_mono; eauto.
Qed.

Lemma visited_cons s ss id st : visited (s :: ss) id st ↔ visited ss id st ∨ ∃ j, jobs s !! id = Some j ∧ Stage j = st.
Proof.
  unfold visited. split.
  - intros (s1 & j & [->|Hin]%elem_of_cons & Hj & Hst); [right; by exists j|left; by exists s1, j].
  - intros [(s1 & j & Hin & H)|(j & H)]; [exists s1, j; split; [by right|done]|exists s, j; split; [by left|done] ].
Qed.

(** A state whose row for the job is at a stage it was at already. *)
Lemma visited_same s ss id st : (∀ j, jobs s !! id = Some j → visited ss id (Stage j)) → visited ss id st ↔ visited (s :: ss) id st.
Proof. rewrite visited_cons. intros H. split; [by left|]. intros [?|(j & Hj & <-)]; auto. Qed.

Lemma visited_also s ss id j st : jobs s !! id = Some j → also (visited ss id) (Stage j) st ↔ visited (s :: ss) id st.
Proof. rewrite visited_cons. unfold also. intros Hj. split; (intros [?|H]; [by left|right]); [by exists j|]. destruct H as (j' & ? & <-). congruence. Qed.

(** ** The handlers *)

(** The row behind a handler's run: as it was claimed, or settled. *)
Definition left_as (r : result string) (jc j1 : Job) : Prop := j1 = jc ∨ settled r jc j1.

Lemma fits_after V e F d r jc j1 :
  V (Stage jc) → Status jc ≠ StatusDone → (∀ st, V "test" → V st → st = "test") → left_as r jc j1 →
  (V "render" ∨ V "upload" → has_mail e F jc) → (V "upload" → packed e F jc) →
  (∀ st, r = Ok st → st ≠ EmptyString → ¬ V "test" ∧ has_mail e F jc ∧ (st = "render" ∨ st = "upload" ∧ packed e F jc)) →
  (r = Ok EmptyString → V "upload" → filed e d jc) →
  fits (also V (Stage j1)) e F d j1.
Proof.
  intros Hv Hnd Ht Hleft Hm Hp Hadv Hdone.
  assert (Hstay : ∀ j, same_message jc j → Stage j = Stage jc → (Status j = StatusDone → V "upload" → filed e d jc) →
    fits (also V (Stage j)) e F d j).
  { intros j Hs Hst Hd. apply (fits_ext V).
    { intros st. unfold also. rewrite Hst. split; [by left|]. by intros [?| ->]. }
    constructor; [by rewrite Hst|by auto|..].
    - intros H. by eapply has_mail_mono, Hm.
    - intros H. by eapply packed_mono, Hp.
    - intros H Hu. eapply filed_mono; [done|exact Hs|by intros u _ f|by apply Hd]. }
  destruct Hleft as [->|H]; [by apply Hstay|].
  destruct (settled_cases _ _ _ H) as (Hs & [(_ & Hst & Hd)|[(st & Hr & Hne & HS & Hq)|[Hr Hst] ] ]).
  - by apply Hstay.
  - destruct (Hadv st Hr Hne) as (Hnt & Hmail & Hcase). rewrite HS. constructor.
    + right. exact HS.
    + intros st' [?|Htst]; [done|]. exfalso. destruct Hcase as [->|[-> _] ]; discriminate.
    + intros _. by eapply has_mail_mono.
    + intros [Hu|Hu]; [by eapply packed_mono, Hp|]. destruct Hcase as [->|[_ Hpk] ]; [discriminate|]. by eapply packed_mono.
    + rewrite Hq; done.
  - apply Hstay; [done|done|]. by auto.
Qed.

(** A run of the fetch handler leaves what later stages made. *)
Lemma packed_eml e F F' j :
  plain_id (ID j) → keeps (λ p, p = eml_path data_dir (ID j)) F F' → packed e F j → packed e F' j.
Proof.
  intros Hid Hk (u & parsed & pdf & m & Hm & Hmeta & Hpdf & Hatt).
  assert (Heq : ∀ k, plain_part k → k ≠ Mime → F' !! path_of data_dir (ID j) k = F !! path_of data_dir (ID j) k).
  { intros k Hpk Hne. apply Hk. rewrite (eml_path_of _ _ Hid). by intros [_ ?]%path_of_inj. }
  exists u, parsed, pdf, m. split; [done|]. split; [by eapply meta_for_same; [|by apply Heq|]|].
  split; [by rewrite Heq|]. intros n Hn. rewrite Heq; [by apply Hatt| |done].
  apply list_elem_of_fmap in Hn as (b & -> & _). apply plain_component, SanitizeFilename_plain.
Qed.

(** What a stage's handler must leave. *)
Definition leaves (V : string → Prop) (l' : history) (jc : Job) (r : result string) (s s' : shared) : Prop :=
  touched l' jc s s' ∧ ∀ j1, left_as r jc j1 → fits (also V (Stage j1)) (seen l') (files s') (drives s') j1.

Lemma leaves_fetch V l lo hi orc key jc i s r i' s' :
  (lo ≤ i)%nat → (i' ≤ hi)%nat → plain_id (ID jc) → Status jc ≠ StatusDone → V "fetch" →
  fits V (seen ((orc, lo, hi) :: l)) (files s) (drives s) jc →
  (∀ u, contains_byte ":" (uuid_String u) = false → ready u (root_of upload_config) s) →
  (V "render" ∨ V "upload" → is_ok r = true) →
  run orc (Fetch data_dir key jc) i s = Some (r, i', s') → leaves V ((orc, lo, hi) :: l) jc r s s'.
Proof.
  intros Hlo Hhi Hid Hnd HV [Hnow Htest Hmail Hpk _] Hready Hrep Hrun.
  destruct (writes_Fetch orc data_dir key jc lo hi i s r i' s' Hlo Hhi Hrun) as (Hd & Hk & HG).
  assert (Hnt : ¬ V "test") by (intros Ht; by specialize (Htest _ Ht HV)).
  assert (Hm : is_ok r = true → has_mail (seen ((orc, lo, hi) :: l)) (files s') jc).
  { destruct r as [st|er]; [intros _|done]. destruct (HG st eq_refl) as (_ & u & gid & client & raw & c' & Hu & Hg & Hc & Hf & HF).
    exists u, gid, raw. do 2 (split; [done|]). split.
    - exists orc, lo, hi, key, client, c'. split; [apply list_elem_of_here|done].
    - rewrite HF, (eml_path_of _ _ Hid). apply lookup_insert_eq. }
  split.
  { eapply touched_writes; [done|by eapply run_not_redis; [apply Fetch_not_redis|]|by eapply run_now|done| |exact Hk|done].
    intros p ->. by apply eml_job_file. }
  intros j1 Hleft. eapply fits_after; [done..| | | |].
  - intros H. by apply Hm, Hrep.
  - intros H. by eapply packed_eml, Hpk.
  - intros st -> Hne. destruct (HG st eq_refl) as (-> & _). split; [done|]. split; [by apply Hm|by left].
  - intros ->. by destruct (HG EmptyString eq_refl) as [? _].
Qed.

Lemma leaves_render V l lo hi orc jc i s r i' s' :
  (lo ≤ i)%nat → (i' ≤ hi)%nat → plain_id (ID jc) → Status jc ≠ StatusDone → V "render" →
  fits V (seen ((orc, lo, hi) :: l)) (files s) (drives s) jc →
  (∀ u, contains_byte ":" (uuid_String u) = false → ready u (root_of upload_config) s) →
  (V "upload" → is_ok r = true) →
  run orc (Render data_dir jc) i s = Some (r, i', s') → leaves V ((orc, lo, hi) :: l) jc r s s'.
Proof.
  intros Hlo Hhi Hid Hnd HV [Hnow Htest Hmail _ _] Hready Hrep Hrun.
  destruct (Hmail (or_introl HV)) as (u & gid & raw & Hu & Hg & Hf & Hraw).
  destruct (writes_Render orc data_dir jc lo hi i s r i' s' Hlo Hhi Hrun) as (Hd & Hk & HG).
  assert (Hnt : ¬ V "test") by (intros Ht; by specialize (Htest _ Ht HV)).
  assert (Hm : has_mail (seen ((orc, lo, hi) :: l)) (files s') jc).
  { exists u, gid, raw. do 3 (split; [done|]). rewrite Hk; [done|]. intros (k & Hp & Hne & Heq)%(rendered_other _ _ _ Hid).
    by apply path_of_inj in Heq as [_ <-]. }
  assert (Hpk : is_ok r = true → packed (seen ((orc, lo, hi) :: l)) (files s') jc).
  { destruct r as [st|er]; [intros _|done]. destruct (HG st eq_refl) as (raw' & Hraw' & Hren).
    assert (raw' = raw) as ->.
    { change (files s !! path_of data_dir (ID jc) Mime = Some raw') in Hraw'. congruence. }
    eapply (rendered_packed getenv dates); [done|exact Hu|exact Hg|exact Hf|exact Hren]. }
  split.
  { eapply touched_writes; [done|by eapply run_not_redis; [apply Render_not_redis|]|by eapply run_now|done| |exact Hk|done].
    intros p. by apply rendered_job_file. }
  intros j1 Hleft. eapply fits_after; [done..|by intros _| | |].
  - intros H. by apply Hpk, Hrep.
  - intros st -> Hne. split; [done|]. split; [done|]. right. split; [|by apply Hpk]. destruct (HG st eq_refl) as (? & _ & Hren). apply Hren.
  - intros ->. destruct (HG EmptyString eq_refl) as (? & _ & Hren). by destruct Hren as [? _].
Qed.

Lemma leaves_upload V l l' orc key jc i s r i' s' :
  l ⊆ l' → plain_job (ID jc) jc → Status jc ≠ StatusDone → senders (seen l) → V "upload" →
  fits V (seen l) (files s) (drives s) jc →
  (∀ u, contains_byte ":" (uuid_String u) = false → ready u (root_of upload_config) s) →
  run orc (Upload upload_config key jc) i s = Some (r, i', s') → leaves V l' jc r s s'.
Proof.
  intros Hl Hplain Hnd Hsend HV [Hnow Htest Hmail Hpk _] Hready Hrun.
  destruct (touched_upload getenv root_id root_path l l' orc key jc i s r i' s' Hl Hplain Hsend (Hpk HV) Hready Hrun) as (Ht & HF & Hok).
  split; [exact Ht|]. intros j1 Hleft. rewrite HF. eapply fits_after; [done..| | | |].
  - intros H. apply (has_mail_mono getenv (seen l) _ (files s) _ jc); [by apply seen_more|done|done|by apply Hmail].
  - intros H. apply (packed_mono getenv (seen l) _ (files s) _ jc); [by apply seen_more|done|done|by apply Hpk].
  - intros st Hr Hne. by destruct (Hok st Hr) as [-> _].
  - intros Hr _. apply (Hok _ Hr).
Qed.

Lemma leaves_noop V l jc orc i s r i' s' :
  plain_id (ID jc) → Status jc ≠ StatusDone → results (answers_next "test") (NoopHandler jc) → V "test" →
  fits V (seen l) (files s) (drives s) jc →
  (∀ u, contains_byte ":" (uuid_String u) = false → ready u (root_of upload_config) s) →
  run orc (NoopHandler jc) i s = Some (r, i', s') → leaves V l jc r s s'.
Proof.
  intros Hid Hnd Hres HV [Hnow Htest Hmail Hpk _] Hready Hrun. assert (Hq : calls_only quiet (NoopHandler jc)).
  { eapply calls_only_impl; [|apply NoopHandler_plain]. by intros X []. }
  destruct (run_quiet _ _ _ _ _ _ _ Hq Hrun) as [Hx Hr].
  assert (Hd : drives s' = drives s ∧ files s' = files s) by (unfold drives, files; by rewrite Hx). destruct Hd as [Hd HF].
  split; [by eapply (touched_writes _ _ _ _ _ (λ _, False)); [| |eapply run_now| | |rewrite HF|]|].
  intros j1 Hleft. rewrite HF, Hd. eapply fits_after; [done..| | | |]; try done; [|by intros _ Hu; specialize (Htest _ HV Hu)].
  intros st -> Hne. exfalso. apply Hne. exact (run_results _ _ _ _ _ _ _ _ Hres Hrun st eq_refl).
Qed.

(** ** The invariant holds *)

Lemma redeploy_background d0 ss e s s' :
  redeploy_ok d0 ss e s → background s s' → (∀ id j, entering (jobs s) id j → jobs s' !! id = Some j → plain_job id j) →
  redeploy_ok d0 (s' :: ss) e s'.
Proof.
  intros [Hj Hr Hrows Hfit Hdr Hfo] [Hw Hkept] Hnew.
  assert (Hx : files s' = files s ∧ drives s' = drives s) by (unfold files, drives; by rewrite (same_ext _ _ Hw)).
  destruct Hx as [Hf Hd]. constructor.
  - intros id j' Hj'. destruct (kept_or_new _ _ Hkept id j' Hj') as [(j & Hj0 & [HI Hu _ _ _ _])|He]; [|by eapply Hnew].
    destruct (Hj id j Hj0) as [H1 H2 H3]. constructor; [congruence|done|]. intros u. rewrite Hu. apply H3.
  - intros u Hu. eapply ready_world; [done|by apply Hr].
  - intros id st [H|(j & H & _)]%visited_cons; [|by eexists]. apply (kept_rows _ _ Hkept). by eapply Hrows.
  - intros id j' Hj'. rewrite Hf, Hd. destruct (kept_or_new _ _ Hkept id j' Hj') as [(j & Hj0 & Ht)|[Hnone _ Hst Hnd] ].
    + pose proof (Hfit id j Hj0) as Hfj. apply (fits_ext (visited ss id)).
      { intros st. apply visited_same. intros j1 Hj1. assert (j1 = j') as -> by congruence. rewrite (task_Stage _ _ Ht). apply Hfj. }
      eapply fits_mono; [done|exact Ht|done|by intros u _ f|exact Hfj].
    + assert (Hv : ∀ st, visited (s' :: ss) id st → st = Stage j').
      { intros st [H|(j1 & H & <-)]%visited_cons; [|congruence]. apply Hrows in H. rewrite Hnone in H. by destruct H. }
      constructor; [apply visited_cons; right; by exists j'| | | |done].
      * intros st H1%Hv H2%Hv. congruence.
      * intros [H%Hv|H%Hv]; destruct Hst as [E|E]; congruence.
      * intros H%Hv; destruct Hst as [E|E]; congruence.
  - rewrite Hd. exact Hdr.
  - rewrite Hd. exact Hfo.
Qed.

Lemma redeploy_more d0 ss l l' s : l ⊆ l' → redeploy_ok d0 ss (seen l) s → redeploy_ok d0 ss (seen l') s.
Proof.
  intros Hl [H1 H2 H3 H4 H5 H6]. constructor; [done..| | |done].
  - intros id j Hj. eapply fits_mono; [by apply seen_more|done|done|by intros u _ f|by apply H4].
  - intros u f [?|?]%H5; [by left|right]. by eapply from_mail_mono; [by apply seen_more|by intros ?|].
Qed.

(** The claimed row's handler ran and the row was settled, or not. *)
Lemma redeploy_settled d0 ss l l' id jc r j1 s1 s2 s' :
  l ⊆ l' → redeploy_ok d0 ss (seen l) s1 → jobs s1 !! id = Some jc → leaves (visited ss id) l' jc r s1 s2 →
  same_world s2 s' → left_as r jc j1 → jobs s' = <[id := j1]> (jobs s1) → redeploy_ok d0 (s' :: ss) (seen l') s'.
Proof.
  intros Hl [Hj Hr Hrows Hfit Hdr Hfo] Hjc [ [Hfiles Hgrow Hadd Hforest Hready] Hset] Hw Hleft Hjobs.
  assert (Hx : files s' = files s2 ∧ drives s' = drives s2) by (unfold files, drives; by rewrite (same_ext _ _ Hw)).
  destruct Hx as [Hf Hd]. pose proof (Hj _ _ Hjc) as Hplain. pose proof (pj_ID _ _ Hplain) as HID.
  assert (Hsame : same_message jc j1) by (destruct Hleft as [->|H]; [done|by apply (settled_cases r)]).
  constructor.
  - intros id' j'. rewrite Hjobs. intros [ [<- <-]|[_ ?] ]%lookup_insert_Some; [|by apply Hj].
    destruct Hplain as [_ H2 H3], Hsame as [HI HU _ _]. constructor; [congruence|done|]. rewrite HU. exact H3.
  - intros u Hu. eapply ready_world; [exact Hw|by apply Hready].
  - intros id' st [H|(j & H & _)]%visited_cons; [|by eexists]. rewrite Hjobs. apply lookup_insert_is_Some'. right. by eapply Hrows.
  - intros id' j' Hj'. pose proof Hj' as Hlook. rewrite Hjobs in Hlook. rewrite Hf, Hd.
    apply lookup_insert_Some in Hlook as [ [<- <-]|[Hne Hj0] ].
    + eapply fits_ext; [|by apply Hset]. intros st. by apply visited_also.
    + pose proof (Hfit _ _ Hj0) as Hfj. apply (fits_ext (visited ss id')).
      { intros st. apply visited_same. intros j2 Hj2. assert (j2 = j') as -> by congruence. apply Hfj. }
      pose proof (Hj _ _ Hj0) as [HI Hid _].
      eapply (fits_mono _ (seen l) (seen l') (files s1) _ (drives s1) _ j' j'); [by apply seen_more|done| |by intros u _; apply Hgrow|done].
      unfold files_of_job. rewrite HI. apply Hfiles; [done|congruence].
  - intros u f. rewrite Hd. intros [ [?|?]%Hdr|?]%Hadd; [by left|right|by right].
    eapply from_mail_mono; [apply seen_more, Hl|apply Hgrow|done].
  - rewrite Hd. by apply Hforest.
Qed.

(** A stage's handler on a claimed job that has been at the stage. *)
Lemma leaves_turn d0 ss l lo hi orc stage h jc i s r i' s' :
  (lo ≤ i)%nat → (i' ≤ hi)%nat → stage_handler getenv stage = Start h → (∀ j, results (answers_next stage) (h j)) →
  redeploy_ok d0 ss (seen l) s → senders (seen ((orc, lo, hi) :: l)) → jobs s !! ID jc = Some jc → Status jc = StatusRunning →
  visited ss (ID jc) stage → (repeats ss stage (ID jc) → is_ok r = true) →
  run orc (h jc) i s = Some (r, i', s') → leaves (visited ss (ID jc)) ((orc, lo, hi) :: l) jc r s s'.
Proof.
  intros Hlo Hhi Hh Hres Hok Hsend Hjob Hrunning HV Hrep Hrun.
  assert (Hl : l ⊆ (orc, lo, hi) :: l) by (intros x; by right).
  pose proof (redeploy_more _ _ _ _ _ Hl Hok) as [Hj Hr _ Hfit' _ _]. pose proof (rk_fits _ _ _ _ Hok _ _ Hjob) as Hfit.
  pose proof (Hj _ _ Hjob) as Hplain. pose proof (pj_plain _ _ Hplain) as Hid.
  assert (Hnd : Status jc ≠ StatusDone) by (by rewrite Hrunning).
  destruct (stage_handler_is getenv stage h Hh) as [ [-> ->]|[ [-> [key ->] ]|[ [-> ->]|[-> [key ->] ] ] ] ].
  - eapply leaves_noop; [done..|by apply Hfit'|exact Hr|exact Hrun].
  - eapply leaves_fetch; [done..|by apply Hfit'|exact Hr| |exact Hrun]. intros H. apply Hrep. by left.
  - eapply leaves_render; [done..|by apply Hfit'|exact Hr| |exact Hrun]. intros H. apply Hrep. by right.
  - eapply leaves_upload; [exact Hl|done..| | |exact Hfit|exact Hr|exact Hrun]; [by eapply senders_mono, Hsend; apply seen_more|done].
Qed.

Lemma redeploy_idle d0 ss e s s' : redeploy_ok d0 ss e s → idle s s' → redeploy_ok d0 (s' :: ss) e s'.
Proof. intros Hok [Hb Hn]. eapply redeploy_background; [done..|]. intros id j [Hnone _ _ _] Hj. apply Hn in Hnone. congruence. Qed.

(** The states in the middle of a turn leave no trace. *)
Lemma redeploy_forget d0 ss e s1 s : (∀ id j, jobs s1 !! id = Some j → visited ss id (Stage j)) →
  redeploy_ok d0 (s1 :: ss) e s → redeploy_ok d0 ss e s.
Proof.
  intros Hv [H1 H2 H3 H4 H5 H6]. constructor; [done..| | |done|done].
  - intros id st H. apply (H3 id st). apply visited_cons. by left.
  - intros id j Hj. eapply fits_ext; [|by apply H4]. intros st. symmetry. apply visited_same. auto.
Qed.

(** What the condition on repeating turns says of the handler. *)
Lemma unfailed_ok id r w t j e s2 s' j' :
  settle_ok id r (claim_row w t j) e s2 s' → jobs s2 !! id = Some (claim_row w t j) → Status j = StatusQueued →
  jobs s' !! id = Some j' → unfailed j j' → is_ok r = true.
Proof.
  intros [ [Hd _]|(j1 & Hs & Hd)] Hj2 Hq Hj' Hu.
  - exfalso. unfold jobs in *. rewrite Hd, Hj2 in Hj'. injection Hj' as <-. destruct Hu as [Hu|[Hu _] ]; [|done].
    apply (f_equal Status) in Hu. cbn in Hu. congruence.
  - unfold jobs in *. rewrite Hd in Hj'. cbn in Hj'. rewrite lookup_insert_eq in Hj'. injection Hj' as ->.
    destruct Hs as [he t1 x t' j1 -> Hf|st t1 -> _|t1 ->]; [|done|done]. exfalso.
    unfold failed_row in Hf. destruct (_ >? _); [done|]. injection Hf as <-. destruct Hu as [Hu|[_ Hu] ]; [|cbn in Hu; lia].
    apply (f_equal Attempts) in Hu. cbn in Hu. lia.
Qed.

Lemma redeploy_turn d0 l ss s stage w cfg h orc i i' e s' :
  redeploy_ok d0 ss (seen l) s → (∀ id j, jobs s !! id = Some j → visited ss id (Stage j)) →
  senders (seen ((orc, i, i') :: l)) → worker_main getenv services stage w = Start (cfg, h) →
  (∀ raw id j, raw ∈ rlist (s_redis s) (key stage) → uuid_Parse raw = Ok id → jobs s !! id = Some j →
     Status j = StatusQueued → visited ss id stage) →
  (∀ id j j', repeats ss stage id → jobs s !! id = Some j → jobs s' !! id = Some j' → unfailed j j') →
  turned h orc cfg i i' e s s' → redeploy_ok d0 (s' :: ss) (seen ((orc, i, i') :: l)) s'.
Proof.
  intros Hok Hnow Hsend Hw Hq Hrep Ht. assert (Hl : l ⊆ (orc, i, i') :: l) by (intros x; by right).
  assert (Hbg : ∀ s1, idle s s1 → redeploy_ok d0 (s1 :: ss) (seen ((orc, i, i') :: l)) s1).
  { intros s1 Hi. eapply redeploy_more; [exact Hl|]. by eapply redeploy_idle. }
  destruct (worker_handler _ _ _ _ _ _ Hw) as (Hcs & _ & Hh & Hprops).
  destruct Ht as [Hb|(raw & Hraw & Hwork)]; [by apply Hbg|]. rewrite Hcs in Hraw.
  destruct Hwork as [Hb|id j t i1 s1 r i2 s2 Hlo Hhi Hp Hj Hqd Hws Hd Hrun Hw2 Hset]; [by apply Hbg|].
  assert (Hi : idle s s1) by (by eapply (idle_claim cfg)).
  set (jc := claim_row _ t j) in *. assert (Hjc : jobs s1 !! id = Some jc) by (unfold jobs; rewrite Hd; apply lookup_insert_eq).
  assert (Hok1 : redeploy_ok d0 ss (seen l) s1).
  { eapply redeploy_forget; [|by eapply redeploy_idle]. intros id' j'. unfold jobs. rewrite Hd. cbn.
    intros [ [<- <-]|[_ ?] ]%lookup_insert_Some; [by apply (Hnow id j)|by apply Hnow]. }
  assert (HID : ID jc = id) by apply (pj_ID _ _ (rk_jobs _ _ _ _ Hok1 _ _ Hjc)).
  assert (Hjobs : jobs s2 = jobs s1) by (eapply run_keeps_jobs; [apply Hprops|exact Hrun]).
  assert (Hrow : ∃ j1, left_as r jc j1 ∧ jobs s' = <[id := j1]> (jobs s1)).
  { unfold settle_ok, jobs in *. destruct Hset as [ [Hdb _]|(j1 & Hj1 & Hdb)].
    - exists jc. split; [by left|]. by rewrite Hdb, Hjobs, insert_id.
    - exists j1. split; [by right|]. rewrite Hdb. cbn. by rewrite Hjobs. }
  destruct Hrow as (j1 & Hleft & Hj1).
  eapply (redeploy_settled d0 ss l _ id jc r j1 s1 s2 s'); [done|done|done| |done..].
  rewrite <- HID. eapply (leaves_turn d0 ss l i i' orc stage h jc i1 s1 r i2 s2); try done.
  - intros; apply Hprops.
  - by rewrite HID.
  - rewrite HID. by eapply Hq.
  - rewrite HID. intros Hr. eapply (unfailed_ok id r _ t j e s2 s' j1); [exact Hset|by rewrite Hjobs|done| |].
    + by rewrite Hj1, lookup_insert_eq.
    + apply (Hrep id j j1 Hr Hj). by rewrite Hj1, lookup_insert_eq.
Qed.

Lemma redelivered_now l ss s0 s : redelivered l ss s0 s → ∀ id j, jobs s !! id = Some j → visited ss id (Stage j).
Proof.
  assert (H : ∀ s1 ss1 id j, jobs s1 !! id = Some j → visited (s1 :: ss1) id (Stage j)).
  { intros s1 ss1 id j Hj. exists s1, j. split; [by left|done]. }
  destruct 1; apply H.
Qed.

Lemma redelivered_ok l ss s0 s : redelivered l ss s0 s → senders (seen l) → starts getenv s0 → redeploy_ok (drives s0) ss (seen l) s.
Proof.
  intros H. induction H as [s|l ss s0 s stage w cfg h orc i b e i' s' Hr IH Hw Hq Hrun Hrep|l ss s0 s s' _ IH Hb Hn]; intros Hsend Hs.
  - destruct Hs as [Hj Hr Hfo]. assert (Hv : ∀ id j st, jobs s !! id = Some j → visited [s] id st → st = Stage j).
    { intros id j st H (s1 & j1 & ->%list_elem_of_singleton & H1 & <-). congruence. }
    constructor; [|done| | |by left|done].
    + intros id j H. by apply (Hj id).
    + intros id st (s1 & j & ->%list_elem_of_singleton & H & _). by eexists.
    + intros id j H. destruct (Hj id j H) as [_ Hfirst]. constructor.
      * exists s, j. split; [by left|done].
      * intros st H1%(Hv _ _ _ H) H2%(Hv _ _ _ H). congruence.
      * intros [E%(Hv _ _ _ H)|E%(Hv _ _ _ H)]; destruct Hfirst as [E'|E']; congruence.
      * intros E%(Hv _ _ _ H); destruct Hfirst as [E'|E']; congruence.
      * intros _ E%(Hv _ _ _ H). destruct Hfirst as [E'|E']; congruence.
  - eapply redeploy_turn; [apply IH; [|done]; eapply senders_mono; [|exact Hsend]; apply seen_more; intros x; by right| |exact Hsend|exact Hw|exact Hq|by apply Hrep|].
    + by eapply redelivered_now.
    + destruct (worker_handler _ _ _ _ _ _ Hw) as (_ & _ & _ & Hh).
      destruct (run_serve_ProcessOne h orc cfg (λ j, proj1 (Hh j)) (λ j, proj1 (proj2 (Hh j))) i s) as (b' & e' & i2 & s2 & Hrun' & Ht).
      rewrite Hrun in Hrun'. by injection Hrun' as <- <- <- <-.
  - eapply redeploy_background; [by apply IH|done|done].
Qed.

(** ** Properties *)

(** C5. Delivery in spite of redelivery.  The queues may hold the id of any
    job that has ever been at the stage, as often as the sweeper likes, and
    whatever fails: a job that has been at the upload stage and is done has
    been delivered, and the Drive receives nothing but its user's own mail.
    Delivered means that the message's folder is on the Drive, and holds a file
    of the right name for the PDF and every attachment, which has the content
    that the renderer made of the job's own message and that Gmail gave, unless
    a file that was there in the beginning, or one of another message of the
    user with the same folder, had taken the name.  There is one proviso
    ([careful]): a turn that repeats a stage whose result a later stage has been
    given already does not fail the job or leave it running. *)
Theorem redelivered_delivers l ss s0 s :
  redelivered l ss s0 s → senders (seen l) → starts getenv s0 →
  (∀ id j, jobs s !! id = Some j → visited ss id "upload" → Status j = StatusDone → delivered (drives s0) (seen l) (drives s) j) ∧
  (∀ u f, f ∈ d_files (drives s u) → f ∈ d_files (drives s0 u) ∨ from_mail (seen l) (drives s u) u f).
Proof.
  intros H Hsend Hs. destruct (redelivered_ok l ss s0 s H Hsend Hs) as [_ _ _ Hfit Hdr Hfo]. split; [|done].
  intros id j Hj Hv Hd. apply filed_delivered; [done..|]. by apply (ft_done _ _ _ _ _ (Hfit id j Hj)).
Qed.
End redelivery.

(** ** Runs *)
Import SchemaModel RedisModel DriveModel AeadModel EffectsModel MimeModel.

(** A sweep every call of which takes a minute and a second. *)
Definition slow_calls (i : nat) : outcome := {|
  o_fault := NoFault; o_dt := 61000000000; o_uuid := pretty i; o_rand := 0; o_ctx := false;
  o_handler := λ _, Ok EmptyString; o_api := λ _ _, Err (EText "not connected") |}.

Definition state_after {A} (s : shared) (r : option (A * nat * shared)) : shared :=
  match r with Some (_, _, s') => s' | None => s end.

Definition sweep (s : shared) : shared :=
  state_after s (run slow_calls (SweepOnce 5 (Sweeper.New (Sweeper.mk_Config 0 0))) 0 s).

(** A turn of the stage's worker, whatever its calls meet. *)
Definition turn_by (orc : nat → outcome) (stage : string) (s : shared) : shared :=
  match test_worker stage with
  | Start (cfg, h) => after (run orc (serve h (ProcessOne cfg)) 0 s)
  | Exit _ => s
  end.

(** The message waits for the render stage, and a sweep has pushed its id again. *)
Definition fetched1 : shared := turn_by test_oracle "fetch" test_start.
Definition crowded : shared := sweep fetched1.

Lemma crowded_twice : rlist (s_redis crowded) "queue:render" = ["u7"; "u7"].
Proof. vm_compute. reflexivity. Qed.

(** A run in which the render stage is repeated and nothing fails. *)
Definition been (stage : string) (ss : list shared) (s : shared) : bool :=
  forallb (λ raw, match uuid_Parse raw with
    | Ok id => match jobs s !! id with
               | Some j => negb (bool_decide (Status j = StatusQueued)) ||
                   existsb (λ s1, match jobs s1 !! id with Some j1 => bool_decide (Stage j1 = stage) | None => false end) ss
               | None => true
               end
    | Err _ => true
    end) (rlist (s_redis s) (key stage)).

Definition calm_rows (s s' : shared) : bool :=
  forallb (λ x, match jobs s' !! x.1 with
    | Some j' => bool_decide (Status j' ≠ StatusRunning) && (Attempts j' =? Attempts x.2)
    | None => true
    end) (map_to_list (jobs s)).

Lemma been_spec stage ss s : been stage ss s = true → ∀ raw id j, raw ∈ rlist (s_redis s) (key stage) →
  uuid_Parse raw = Ok id → jobs s !! id = Some j → Status j = StatusQueued → visited ss id stage.
Proof.
  unfold been. rewrite forallb_forall. intros H raw id j Hraw Hp Hj Hq. apply list_elem_of_In in Hraw.
  specialize (H raw Hraw). cbv beta in H. rewrite Hp, Hj, bool_decide_eq_true_2 in H by done. cbn [negb orb] in H.
  apply existsb_exists in H as (s1 & Hin & H). destruct (jobs s1 !! id) as [j1|] eqn:Hj1; [|done].
  apply bool_decide_eq_true in H. exists s1, j1. by rewrite list_elem_of_In.
Qed.

Lemma calm_rows_spec s s' id j j' : calm_rows s s' = true → jobs s !! id = Some j → jobs s' !! id = Some j' → unfailed j j'.
Proof.
  unfold calm_rows. rewrite forallb_forall. intros H Hj Hj'. apply elem_of_map_to_list, list_elem_of_In in Hj.
  specialize (H _ Hj). cbn [fst snd] in H. rewrite Hj' in H. apply andb_true_iff in H as [H1%bool_decide_eq_true H2%Z.eqb_eq].
  by right.
Qed.

Lemma turn_redelivered careful orc l ss s0 s stage :
  redeliveries test_env true careful l ss s0 s → starts_up (test_worker stage) = true → been stage ss s = true →
  (careful = true → calm_rows s (turn_by orc stage s) = true) →
  ∃ hi, redeliveries test_env true careful ((orc, 0%nat, hi) :: l) (turn_by orc stage s :: ss) s0 (turn_by orc stage s).
Proof.
  intros Hd Hw Hq Hrep. pose proof (been_spec _ _ _ Hq) as Hbeen. revert Hrep. unfold turn_by, test_worker in *.
  destruct (worker_main test_env true stage "w") as [c|[cfg h] ] eqn:E; [done|].
  destruct (worker_handler _ _ _ _ _ _ E) as (_ & _ & _ & Hh).
  destruct (run_serve_ProcessOne h orc cfg (λ j, proj1 (Hh j)) (λ j, proj1 (proj2 (Hh j))) 0 s)
    as (b & e & hi & s' & Hrun & _).
  rewrite (after_run _ _ _ _ Hrun). intros Hrep. exists hi. eapply rd_turn; [exact Hd|exact E|exact Hbeen|exact Hrun|].
  intros Hc id j j' _. by apply calm_rows_spec, Hrep.
Qed.

Definition rendered1 : shared := turn_by test_oracle "render" crowded.
Definition rendered2 : shared := turn_by test_oracle "render" rendered1.
Definition uploaded : shared := turn_by test_oracle "upload" rendered2.

Lemma crowded_rows : jobs crowded = jobs fetched1.
Proof. vm_compute. reflexivity. Qed.

Lemma crowded_swept : background fetched1 crowded.
Proof.
  assert (H : match run slow_calls (SweepOnce 5 (Sweeper.New (Sweeper.mk_Config 0 0))) 0 fetched1 with
    | Some _ => true | None => false end = true) by (vm_compute; reflexivity).
  unfold crowded, sweep. fold fetched1. destruct (run slow_calls _ 0 fetched1) as [ [ [r i'] s']|] eqn:E; [|done].
  eapply run_background; [|exact E]. apply safe_SweepOnce.
Qed.

Lemma test_redelivered : ∃ l ss, redeliveries test_env true true l (uploaded :: ss) test_start uploaded ∧ senders (seen l).
Proof.
  pose proof (rd_start test_env true true test_start) as H0.
  destruct (turn_redelivered true test_oracle _ _ _ _ "fetch" H0) as [h1 H1]; [vm_compute; reflexivity|vm_compute; reflexivity|intros _; vm_compute; reflexivity|]. fold fetched1 in H1.
  eapply rd_around in H1; [|exact crowded_swept|]; [|intros id j [Hn _ _ _] Hj; rewrite crowded_rows in Hj; congruence].
  destruct (turn_redelivered true test_oracle _ _ _ _ "render" H1) as [h2 H2]; [vm_compute; reflexivity|vm_compute; reflexivity|intros _; vm_compute; reflexivity|]. fold rendered1 in H2.
  destruct (turn_redelivered true test_oracle _ _ _ _ "render" H2) as [h3 H3]; [vm_compute; reflexivity|vm_compute; reflexivity|intros _; vm_compute; reflexivity|]. fold rendered2 in H3.
  destruct (turn_redelivered true test_oracle _ _ _ _ "upload" H3) as [h4 H4]; [vm_compute; reflexivity|vm_compute; reflexivity|intros _; vm_compute; reflexivity|]. fold uploaded in H4.
  eexists _, _. split; [exact H4|]. apply test_senders. by repeat constructor.
Qed.

Lemma uploaded_done : row_is "upload" StatusDone uploaded = true.
Proof. vm_compute. reflexivity. Qed.

Lemma redelivered_delivers_witness :
  ∃ l j, jobs uploaded !! "7" = Some j ∧ delivered test_env (drives test_start) (seen l) (drives uploaded) j ∧
    ∀ u f, f ∈ d_files (drives uploaded u) → f ∈ d_files (drives test_start u) ∨ from_mail test_env (seen l) (drives uploaded u) u f.
Proof.
  destruct test_redelivered as (l & ss & H & Hs). destruct (row_is_spec _ _ _ uploaded_done) as (j & Hj & Hst & Hd).
  exists l, j. split; [exact Hj|].
  destruct (redelivered_delivers test_env true model_dates eq_refl (λ Hr, match Hr eq_refl with end) l _ test_start uploaded H Hs test_starts)
    as [Hdel Hown].
  split; [|exact Hown]. apply (Hdel "7" j Hj); [|exact Hd]. exists uploaded, j. split; [left|]. split; [exact Hj|exact Hst].
Defined.

(** *** A repeated turn that fails *)

(** The disk is full at call [n]. *)
Definition full_disk (n i : nat) : outcome := let o := test_oracle i in {|
  o_fault := if decide (i = n) then FailBefore "no space left on device" else NoFault; o_dt := o_dt o; o_uuid := o_uuid o;
  o_rand := o_rand o; o_ctx := o_ctx o; o_handler := o_handler o; o_api := o_api o |}.

Definition damaged : shared := turn_by (full_disk 10) "render" rendered1.
Definition corrupted : shared := turn_by test_oracle "upload" damaged.

Lemma damaged_redelivered : ∃ l ss, redeliveries test_env true false l (corrupted :: ss) test_start corrupted ∧
  Forall (λ x, mails x.1.1) l.
Proof.
  pose proof (rd_start test_env true false test_start) as H0.
  destruct (turn_redelivered false test_oracle _ _ _ _ "fetch" H0) as [h1 H1]; [vm_compute; reflexivity|vm_compute; reflexivity|done|].
  fold fetched1 in H1. eapply rd_around in H1; [|exact crowded_swept|]; [|intros id j [Hn _ _ _] Hj; rewrite crowded_rows in Hj; congruence].
  destruct (turn_redelivered false test_oracle _ _ _ _ "render" H1) as [h2 H2]; [vm_compute; reflexivity|vm_compute; reflexivity|done|].
  fold rendered1 in H2.
  destruct (turn_redelivered false (full_disk 10) _ _ _ _ "render" H2) as [h3 H3]; [vm_compute; reflexivity|vm_compute; reflexivity|done|].
  fold damaged in H3.
  destruct (turn_redelivered false test_oracle _ _ _ _ "upload" H3) as [h4 H4]; [vm_compute; reflexivity|vm_compute; reflexivity|done|].
  fold corrupted in H4. eexists _, _. split; [exact H4|]. by repeat constructor.
Qed.

Lemma corrupted_done : row_is "upload" StatusDone corrupted = true.
Proof. vm_compute. reflexivity. Qed.

(** Every email.pdf on a Drive is empty. *)
Lemma corrupted_pdf u f : f ∈ d_files (drives corrupted u) → f_name f = "email.pdf" → f_content f = EmptyString.
Proof.
  assert (Hu : ∀ v, v ≠ "u" → d_files (drives corrupted v) = []).
  { intros v Hv. vm_compute. destruct v as [|[ [] [] [] [] [] [] [] [] ] [|c v] ]; try reflexivity. by destruct Hv. }
  destruct (decide (u = "u")) as [->|Hne]; [|rewrite Hu by done; by intros ?%elem_of_nil].
  assert (H : forallb (λ f, negb (bool_decide (f_name f = "email.pdf")) || bool_decide (f_content f = EmptyString))
    (d_files (drives corrupted "u")) = true) by (vm_compute; reflexivity).
  rewrite forallb_forall in H. intros Hf%list_elem_of_In Hn. specialize (H f Hf). cbv beta in H.
  rewrite bool_decide_eq_true_2 in H by done. by apply bool_decide_eq_true in H.
Qed.

Lemma rendered_pdf l html pdf : Forall (λ x, mails x.1.1) l → rendered_in l html pdf → pdf = "PDF".
Proof.
  intros Hl (orc & lo & hi & Hin & (i & s & i' & s' & _ & _ & Hrun)). rewrite Forall_forall in Hl. specialize (Hl _ Hin). revert Hrun.
  unfold RenderHTML. rewrite run_bind, run_call. cbn [exec]. rewrite (Hl i).
  destruct (o_fault (orc i)); [|cbn; congruence..].
  change (run orc (mret (Ok "PDF") : prog (result string)) (S i) (elapse (orc i) s) = Some (Ok pdf, i', s') → pdf = "PDF").
  rewrite run_ret. congruence.
Qed.

(** The PDF of a message is not empty, and no attachment has its name. *)
Lemma mails_of_message l j u parsed pdf m f : Forall (λ x, mails x.1.1) l → message (seen l) j u parsed pdf m →
  of_message parsed pdf f → f_name f = "email.pdf" → f_content f ≠ EmptyString.
Proof.
  intros Hl [_ (gid & raw & _ & ->%(fetched_mail l) & Hp) ->%(rendered_pdf l) _ _ _ _] [ [_ ->]|(n & Hn & Hname & _)] Hf; try done.
  assert (Hc : match parseMessage (mail "q1.pdf") with
    | Some (Ok p) => forallb (λ n, negb (bool_decide (to_valid n = "email.pdf"))) (names_of (Attachments p))
    | _ => true end = true) by (vm_compute; reflexivity).
  rewrite Hp, forallb_forall in Hc. apply list_elem_of_In, Hc in Hn. rewrite <- Hname, bool_decide_eq_true_2 in Hn by done. done.
Qed.

(** C28. The proviso is needed: there is a deployment, with nothing unusual but
    ids on the queue of a stage their job has left, in which a job is done and
    has not been delivered.  A sweep pushes the id of a message that waits for
    the render stage a second time; the first copy is rendered and the job
    moves on; the second copy makes the render worker claim the job that waits
    for upload, and the disk is full when it has truncated the PDF.  The turn
    fails the job, which stays at the upload stage and is queued; the upload
    worker finds the files, and ends the job as done, with an empty email.pdf on
    the user's Drive. *)
Theorem redelivery_corrupts : ∃ l ss s0 s id j,
  redeliveries test_env true false l ss s0 s ∧ senders (seen l) ∧ starts test_env s0 ∧
  jobs s !! id = Some j ∧ visited ss id "upload" ∧ Status j = StatusDone ∧
  ¬ delivered test_env (drives s0) (seen l) (drives s) j.
Proof.
  destruct damaged_redelivered as (l & ss & H & Hl). destruct (row_is_spec _ _ _ corrupted_done) as (j & Hj & Hst & Hd).
  exists l, (corrupted :: ss), test_start, corrupted, "7", j. split; [exact H|]. split; [by apply test_senders|].
  split; [exact test_starts|]. split; [exact Hj|]. split; [exists corrupted, j; split; [left|split; [exact Hj|exact Hst] ]|]. split; [exact Hd|].
  intros (u & gid & parsed & pdf & m & folder & Hm & Hg & Hall). cbv zeta in Hall. destruct Hall as [_ Hall].
  destruct (Hall "email.pdf") as (f & (Hf & Hname & _)%elem_of_named & Hof); [by left|]. pose proof (corrupted_pdf u f Hf Hname) as Hempty.
  destruct Hof as [(j' & p' & pdf' & m' & Hm' & _ & _ & Ho)|[Ho|(gid' & _ & j' & p' & pdf' & m' & Hm' & _ & _ & Ho)] ].
  - by eapply mails_of_message.
  - by apply elem_of_nil in Ho.
  - by eapply mails_of_message.
Qed.
