(* ===== verification/Recovery.v ===== *)
(** * A crashed worker's message is delivered

    Delivery.v takes a message that waits for its first stage.  Here a worker
    died with the job, at any of the three stages: one sweep requeues it, and
    turns of the workers, which may find any number of ids of finished jobs
    and copies of the id on the queues, take it to the user's Drive. *)
From S2P Require Import Prelude Redis Schema GoStrings Utf8 Calendar Times Json Meta Paths Base64 Mime Html Services Effects Files Disk Queue Store Worker Sweeper OAuth Gmail Drive Fetch Render Upload Forest Names Pipeline Noop Command Background Placement Serve Deploy Works Delivery.
Local Open Scope Z_scope.

(** ** Turns until the job's turn comes *)

Section turns.
Context `{UL : UuidLib} `{PG : !PgServer} `{RS : RedisServer} `{DS : DriveServer}.
Variables (orc : nat → outcome) (h : Job → prog (result string)) (cfg : Worker.Config).
Hypothesis Hrel : reliable orc.







End turns.

(** ** A stage *)

Section recovery.
Context `{UL : UuidLib} `{PG : !PgServer} `{RS : RedisServer} `{DS : DriveServer} `{AE : AeadLib}
  `{ML : MailLib} `{TP : TimeParser}.
Variable getenv : string → string.
Hypothesis dates : ∀ d t, ParseDate d = Ok t → t_off t mod 60 = 0.
Hypothesis root_id : drive_id_ok (root_of (upload_config getenv)).
Hypothesis root_path : RootPath (upload_config getenv) ≠ EmptyString →
  Forall folder_name (root_folders (RootPath (upload_config getenv))).
Variables (u : uuid) (key : list Byte.byte) (id : uuid) (j0 : Job) (gid text raw : string) (parsed : ParsedMessage) (orc : nat → outcome).
Hypothesis Hkey : loadGoogleCfgAndKey getenv = Start key.
Hypothesis Hid : plain_id id.
Hypothesis HI : ID j0 = id.
Hypothesis Huser : UserID j0 = Some u.
Hypothesis Hgid : GmailMessageID j0 = Some gid.
Hypothesis Hans : answering u orc gid text.
Hypothesis Hgood : good_message j0 text raw parsed.
Abbreviation dir := (data_dir getenv).







(** ** To the end *)

Variables (s0 : shared) (w1 w2 w3 : string).
Hypothesis Hstart : starts getenv s0.








End recovery.

(** ** The theorem *)

Section crash.
Context `{UL : UuidLib} `{PG : !PgServer} `{RS : RedisServer} `{DS : DriveServer} `{AE : AeadLib}
  `{ML : MailLib} `{TP : TimeParser}.
Variable getenv : string → string.
Hypothesis dates : ∀ d t, ParseDate d = Ok t → t_off t mod 60 = 0.
Hypothesis root_id : drive_id_ok (root_of (upload_config getenv)).
Hypothesis root_path : RootPath (upload_config getenv) ≠ EmptyString →
  Forall folder_name (root_folders (RootPath (upload_config getenv))).



End crash.

(** ** Witness: w9 died with the job of the message in the fetch stage *)
Import SchemaModel RedisModel DriveModel AeadModel EffectsModel MimeModel.







